(* ===== verification/_CoqProject ===== *)
-Q . S2P
Prelude.v
Net.v
Ir.v
Hostname.v
Compile.v
Lookup.v
L4.v
L4Manager.v
Sni.v
RouteManager.v
RateLimit.v
Filters.v
Pipeline.v
BodyFilter.v
StaticFiles.v
Float64.v
FloatRound.v
Ensemble.v
Crown.v
Certify.v
TreeTrain.v
Limiter.v
Ddos.v
Scanner.v
Bandwidth.v
Session.v
Cache.v
Request.v
Peer.v
Watchdog.v
Gateway.v
Json.v
Listeners.v
ListenerSets.v
Translate.v
FromConfig.v
Tls.v
Caddyfile.v
Digest.v
RouteParse.v
Endpoints.v
UpstreamTls.v
Reconcile.v
Controller.v
Leader.v
Cluster.v
