(* ===== verification/Prelude.v ===== *)
(** * Verification of the Sunbeam proxy

    Sunbeam is a reverse proxy and Kubernetes Gateway API implementation. Its control
    plane reconciles Gateway API resources ([src/gateway]) into a view, translates the view
    to a [RouteTable] (the IR of [src/ir/mod.rs]), and hands it to the route manager
    ([src/route_manager.rs]), which merges the tables of all sources and compiles them
    ([src/ir/compile.rs]) to a [CompiledRouteTable] for HTTP and a [CompiledL4Config] for
    sockets. In the data plane the L4 manager ([src/l4/manager.rs]) binds the listeners of
    the latter; the L4 router ([src/l4/router.rs]) dispatches connections, by the SNI of a
    peeked ClientHello where there is one ([src/sni.rs]), and relays HTTP to the proxy
    ([src/proxy]), which filters each request (detectors, rate and bandwidth limits,
    authentication), looks up its plan, chooses an upstream peer, rewrites request and
    response, and may cache the response.

    This library is a shallow embedding of that path. Definitions carry the names of the
    source and follow it function by function, and they are executable.

    ** Files

    - [Prelude] (this file): tactics, the [result] type with its bind notation, strings,
      the stable [sort_by], [HashOrder].
    - [Net]: IP and socket addresses of the standard library and their parsers.
    - [Ir]: the data types of [src/ir/mod.rs].
    - [Hostname]: request-time hostname matching and specificity ([src/ir/compile.rs]),
      and hostname subset and intersection of the Gateway API control plane
      ([src/gateway/translate/hostnames.rs], [src/gateway/reconcile/parent.rs]).
    - [Compile]: the HTTP route compiler: plans and their stages, packed precedence, path
      trie, adaptive discriminators, host index.
    - [Lookup]: the request-time lookup on the compiled table.
    - [L4]: compilation of listeners and L4 routes, and the route choice of the L4 router.
    - [L4Manager]: the loop that keeps listener tasks in line with the configuration, and
      the maps by which relays tell the HTTP proxy the origin of a connection.
    - [Sni]: the ClientHello parser and the peek loop.
    - [RouteManager]: per-source tables, merging, versions, rollback.
    - [RateLimit], [Limiter]: CIDR blocks, keys, and the token buckets ([src/rate_limit]).
    - [Filters], [Pipeline], [BodyFilter]: path normalisation and rewriting, CORS origins,
      redirect locations, weighted backends; the upstream request filter and the header
      mutations; the response filters and the body rewriting buffer
      ([src/proxy/filters.rs], [src/proxy/match_.rs]).
    - [StaticFiles]: responses and the file chain of [src/static_files.rs].
    - [Float64], [FloatRound]: the arithmetic of [f64] on the Standard Library's binary64
      model, and the exact rounding of sums, products and quotients in both formats.
    - [Ensemble], [Ddos], [Scanner]: decision trees and networks with the shipped weights
      ([src/ensemble]), the DDoS detector ([src/ddos]), the scanner detector and the bot
      allowlist ([src/scanner]).
    - [Crown], [Certify]: interval bounds of the networks with directed rounding and the
      search of certified radii ([src/ensemble/crown.rs], [ddos_crown.rs]).
    - [TreeTrain]: growing, packing and evaluating decision trees, and the preparation of
      samples ([src/training/tree.rs], [train_scanner.rs]).
    - [Bandwidth], [Cluster]: counters, cluster totals, sliding window and limiter of
      [src/cluster/bandwidth.rs]; the messages and loops of a node and the cluster of nodes
      over an unreliable network ([src/cluster/node.rs], [messages.rs], [mod.rs]).
    - [Session], [Cache], [Request], [Peer]: the state of the proxy and what it reads off a
      session ([src/proxy/mod.rs]), the cache hooks, the request filter, and the upstream
      peer ([src/proxy/cache_hooks.rs], [request_filter.rs], [routing.rs]).
    - [UpstreamTls]: the connector for backends under a BackendTLSPolicy, its verifier, and
      the sharing of connections ([src/proxy/upstream_tls.rs]).
    - [Watchdog]: task supervision and leader election of the controller.
    - [Gateway], [Translate]: attachment, permission and programming of routes
      ([src/gateway/reconcile]), and the translation of the view to the IR
      ([src/gateway/translate]).
    - [Json], [Listeners], [ListenerSets]: JSON values and Secrets as classes; how listeners
      are read, validated and reported ([src/gateway/reconcile/listener_common.rs],
      [gateway/listeners.rs], [gateway/certificates.rs]); ListenerSets, the conflicts between
      their listeners, and attached-route counts ([listenerset/state.rs],
      [gateway/attachment.rs]).
    - [FromConfig]: the routes of the configuration file and their translation to the IR
      ([src/config.rs], [src/ir/from_config.rs]).
    - [Tls]: certificate stores, their merging and the choice by name
      ([src/tls/registry.rs], [src/tls/source.rs]).
    - [Caddyfile]: the translation of Caddyfiles to the IR ([src/caddyfile]).
    - [Digest]: the encoding behind the digest of a view ([src/gateway/model/digest]).
    - [RouteParse]: the reading of route and grant objects
      ([src/gateway/reconcile/route], [l4route], [refgrant.rs]).
    - [Endpoints]: BackendTLSPolicies, and how backends become addresses
      ([src/gateway/reconcile/backendtlspolicy.rs], [endpoints.rs]).
    - [Reconcile]: client validation of listeners and a whole tick, from the answers of the
      API server to the view ([src/gateway/reconcile/mod.rs]).
    - [Controller]: what the Gateway and GatewayClass controllers write
      ([src/gateway/reconcile/gateway/controller.rs], [gatewayclass.rs],
      [src/gateway/status]).
    - [Leader]: the reconcile loop under leadership, the digest publisher and the notifier
      ([src/gateway/reconcile/leader.rs], [src/gateway/gossip]).

    ** What the theorems show

    - HTTP routing: the optimised lookup refines a declarative reading of the uncompiled
      table (best host, then best matching plan); the packed precedence orders like its
      fields.
    - L4 routing: merged listeners are distinct sockets and keep their routes; TLS routes
      are isolated by listener hostname; the result does not depend on hash order.
    - Managers: the listener handles are those of the last configuration, only changed ones
      restart, and a task listens if and only if it could bind; relay contexts are exact
      under every interleaving, reads of the SNI by the proxy included; the served tables
      are always those of the newest version; rollback undoes an update.
    - Control plane: a route that is served for a host and port of a gateway is attached to
      a listener there, by the rules of the Gateway API, and its rule decides what is done; only permitted and existing backends are programmed; translated
      tables compile; subset and intersection of hostnames are inclusion and intersection
      of the hosts the data plane accepts; panicked tasks come back or are poisoned. From the
      answers of the API server on: every backend that is served is one a route of the
      cluster names and may name; listeners ask for the client certificates their Gateway
      asks for, with the authorities of its references; a connection to a backend under a
      policy, new or pooled, is to a server the policy describes, unless two trust settings
      have one hash; what holds of a Gateway whose status says it is programmed, and writing
      statuses comes to rest; the leader hands on the view it read last, and its digest
      determines the parts of the view it covers.
    - Listeners: those in effect on one gateway never share a port and a host, and a listener
      of a ListenerSet is refused exactly for a reserved port or an older overlapping one.
    - Configuration: the path route that serves a request is the preferred one among those
      that hold; a denied path never reaches an upstream; what a Caddyfile is translated to.
    - Certificates: a certificate is served only from a Secret its Gateway may read, with a
      matching key and within its validity; merged sources resolve as the sources in order
      of priority.
    - Request filter: on a TLS session a request goes upstream past an auth stage only with
      the consent of the auth service; relayed requests are judged by the listener they came
      in on.
    - Limits: the limiter refines an ideal token bucket, admits no more than burst and
      rate allow, and admits again after the time it announces; bandwidth counters lose
      nothing under interleaving; no node of a cluster counts more than the others carried,
      whatever happens to the reports, and once it has a new report of every other node its
      totals are exact; a CIDR block contains the addresses of its prefix.
    - Detectors: the tree walk terminates on the shipped trees; the verdicts of the shipped
      models in closed form; within a certified radius the verdict of a network is constant,
      in binary32 as computed, and the search ends; a trained tree sends every sample of its
      training set to a leaf of the purity asked for; when the scanner panics; the ring buffer
      holds the last events; the allowlist admits an address only for a rule without checks,
      in a block of the rule, or with a double lookup that is not too old.
    - Filters, cache and files: normalised paths do not escape, rewriting does not depend
      on chunking, files outside the root are not served, nothing is cached longer than
      the directives of its one Cache-Control line allow, TLS backends are never contacted in plain text, forwarding headers
      cannot be spoofed, the SNI parser inverts an encoder and ignores fragmentation.
    - Some theorems evaluate or prove behaviour that differs from the documentation; their
      comments say so.

    ** Conventions

    - Strings are the bytes of their UTF-8 text. Machine integers are [Z], with the
      wrap-around written out where the source can reach it; [f64] and [f32] are the
      Standard Library's [SpecFloat] at (53, 1024) and (24, 128). A [HashMap] is a [gmap],
      and wherever the source iterates over one, the order comes from the class
      [HashOrder], any permutation of the entries; theorems hold for every order. Instants
      are nanoseconds and an argument of the operations that read the clock.
    - Third-party code is a class: [RegexEngine], [RegexSyntax] (regex), [HeaderOps],
      [UriOps] (http, pingora), [FxHash], [KeyHash], [IpHash], [BytesHash] (hash functions),
      [Libm] (exp and ln), [DateParser] (HTTP dates), [AuthClient] (reqwest), [Dns],
      [PeerOps], [PeerPool] (peers of pingora, the hasher of their keys, and its pool),
      [SocketOps] (whether a socket binds and a task stops), [PkiOps], [WebPki], [TlsClient]
      (PEM, X.509, certificate chains, the TLS handshake), [JsonOps] (serde_json),
      [CaddySource] (the Caddyfile parser), [Blake3], [MessageCodec] (rkyv), [PublicKeys]
      (iroh), [DurationParser], [FileSystem], [ServiceStore], [SecretApi], [ConfigMapApi],
      [GatewayApi] and [LeaseApi] (Kubernetes). [ExpLaws] are the laws of [Libm] that the
      certified radii need. Laws are stated in the class, or as hypotheses of the theorems that
      need them, and each has an instance here that satisfies them.
    - [Arc] identity of plans, on which the lookup's deduplication relies, is a number
      given by the compiler ([PlanRef]).
    - Recursion that is not structural has fuel: the two loops of the ClientHello parser
      use the length of their input, of which each round consumes at least three bytes
      (lemmas [sni_entries_fuel] and [walk_extensions_fuel] show that more fuel changes
      nothing); the decimal text of a 16-bit port uses five digits; the tree walk has the
      number of nodes, which suffices on trees whose children follow their parents; the
      search of a certified radius has 64 rounds, enough for every tolerance that the theorem
      of its termination allows; a tree is grown for as many rounds as it may be deep.
    - Concurrency of relays and of counters is a step relation, or an interleaving of
      atomic operations, whose steps are the critical sections of the source. The listener
      manager is one task and is a fold over the batches of snapshots it receives.
    - A panic of the source is [None] or an error value, never a default.

    ** Not modelled

    Socket and file I/O, TLS sessions and the HTTP framework, and with them process start-up,
    the UDP and SSH relays and the watchers of files, certificates and ACME challenges;
    logging, metrics, audit and trace output; deserialisation (serde) and the re-exports of
    the Gateway API types; the watches that call the controllers, and the controllers of
    routes and ListenerSets beyond what they decide. The training of the networks, the search
    of their parameters and the preparation of data sets are offline tools around third-party
    libraries and downloads. The variants for the old route format of the configuration are
    called by tests only. *)

From stdpp Require Export gmap strings list sorting fin_maps pretty.
From Stdlib Require Export ZArith.
From Stdlib Require Ascii.
Export Stdlib.Strings.Ascii (ascii(..)).
Export (notations) Stdlib.Strings.Ascii.

#[global] Open Scope Z_scope.

(** ** Automation *)

Create HintDb sunbeam discriminated.

(** Turn boolean hypotheses and goals about [&&], [||], [negb] and [bool_decide]
    into propositions. *)
Ltac simp_bool :=
  repeat match goal with
  | H : _ && _ = true |- _ => apply andb_true_iff in H as [? ?]
  | H : _ || _ = false |- _ => apply orb_false_iff in H as [? ?]
  | H : negb _ = true |- _ => apply negb_true_iff in H
  | H : negb _ = false |- _ => apply negb_false_iff in H
  | H : bool_decide _ = true |- _ => apply bool_decide_eq_true in H
  | H : bool_decide _ = false |- _ => apply bool_decide_eq_false in H
  | H : (_ =? _)%Z = true |- _ => apply Z.eqb_eq in H
  | H : (_ =? _)%Z = false |- _ => apply Z.eqb_neq in H
  | H : String.eqb _ _ = true |- _ => apply String.eqb_eq in H
  | H : String.eqb _ _ = false |- _ => apply String.eqb_neq in H
  end.

(** Case analysis on every [match] of the goal, closing the trivial branches. *)
Ltac crush_match := repeat (case_match; simplify_eq/=; simp_bool; try done).

(** ** [Result] *)

Inductive result (A E : Type) : Type :=
| Ok (a : A)
| Err (e : E).
Arguments Ok {A E} a.
Arguments Err {A E} e.

#[export] Instance result_eq_dec {A E} `{!EqDecision A, !EqDecision E} :
  EqDecision (result A E).
Proof. solve_decision. Defined.

Definition result_bind {A B E} (r : result A E) (k : A → result B E) : result B E :=
  match r with Ok a => k a | Err e => Err e end.

Declare Scope result_scope.
Delimit Scope result_scope with result.
Notation "'let?' x ':=' r 'in' k" := (result_bind r (λ x, k))
  (at level 10, x pattern, r at level 100, k at level 200) : result_scope.

Definition is_ok {A E} (r : result A E) : bool :=
  match r with Ok _ => true | Err _ => false end.

Lemma result_bind_ok {A B E} (r : result A E) (k : A → result B E) b :
  result_bind r k = Ok b ↔ ∃ a, r = Ok a ∧ k a = Ok b.
Proof. destruct r; naive_solver. Qed.

(** [mapM] for [result]: run a fallible function over a list, first error wins. *)
Fixpoint result_mapM {A B E} (f : A → result B E) (l : list A) : result (list B) E :=
  match l with
  | [] => Ok []
  | x :: l' => result_bind (f x) (λ y, result_bind (result_mapM f l') (λ ys, Ok (y :: ys)))
  end.

Lemma result_mapM_ok {A B E} (f : A → result B E) (g : A → B) l :
  (∀ x, f x = Ok (g x)) → result_mapM f l = Ok (g <$> l).
Proof. intros Hf. induction l as [|x l IH]; [done|]. simpl. by rewrite Hf, IH. Qed.

(** ** Machine integers *)

Definition u16_max : Z := 2 ^ 16 - 1.
Definition u32_max : Z := 2 ^ 32 - 1.
Definition u64_max : Z := 2 ^ 64 - 1.

(** Truncating conversion / wrap-around at [w] bits. *)
Definition wrap (w : Z) (n : Z) : Z := n mod 2 ^ w.

(** [u64::saturating_add]. *)
Definition saturating_add_u64 (a b : Z) : Z := Z.min (a + b) u64_max.

Lemma wrap_small w n : 0 ≤ n < 2 ^ w → wrap w n = n.
Proof. intros. by apply Z.mod_small. Qed.

Lemma wrap_bound w n : 0 ≤ w → 0 ≤ wrap w n < 2 ^ w.
Proof. intros. apply Z.mod_pos_bound. lia. Qed.

(** ** Rust strings

    A Rust [str] is modelled by its UTF-8 bytes, as a [string]. All the
    operations the sources use on them work on whole ASCII bytes. *)

(** [str::len]. *)
Definition str_len (s : string) : Z := Z.of_nat (String.length s).

(** [str::is_empty]. *)
Definition str_is_empty (s : string) : bool := bool_decide (s = "").

(** [str::strip_prefix]. *)
Fixpoint strip_prefix (p s : string) : option string :=
  match p, s with
  | EmptyString, _ => Some s
  | String a p', String b s' => if decide (a = b) then strip_prefix p' s' else None
  | _, _ => None
  end.

(** [str::strip_suffix]. *)
Fixpoint strip_suffix (suf s : string) : option string :=
  if decide (s = suf) then Some ""
  else match s with
       | EmptyString => None
       | String c s' => String c <$> strip_suffix suf s'
       end.

(** [str::starts_with], [str::ends_with]. *)
Definition starts_with (s p : string) : bool := bool_decide (is_Some (strip_prefix p s)).
Definition ends_with (s suf : string) : bool := bool_decide (is_Some (strip_suffix suf s)).

(** [str::split] on one ASCII character: always at least one piece. *)
Fixpoint str_split (c : ascii) (s : string) : list string :=
  match s with
  | EmptyString => [""]
  | String a s' =>
      if decide (a = c) then "" :: str_split c s'
      else match str_split c s' with
           | [] => [String a ""]
           | w :: ws => String a w :: ws
           end
  end.

(** [str::split_once] on one ASCII character. *)
Fixpoint split_once (c : ascii) (s : string) : option (string * string) :=
  match s with
  | EmptyString => None
  | String a s' =>
      if decide (a = c) then Some ("", s')
      else (λ '(x, y), (String a x, y)) <$> split_once c s'
  end.

(** [[&str]::join]. *)
Fixpoint str_join (sep : string) (l : list string) : string :=
  match l with
  | [] => ""
  | [w] => w
  | w :: ws => w +:+ sep +:+ str_join sep ws
  end.

(** Number of occurrences of a character: [s.chars().filter(|&c| c == x).count()]. *)
Fixpoint count_char (c : ascii) (s : string) : nat :=
  match s with
  | EmptyString => 0
  | String a s' => (if decide (a = c) then 1 else 0) + count_char c s'
  end%nat.

(** [char::to_ascii_lowercase] and [str::eq_ignore_ascii_case]. *)
Definition ascii_lower (a : ascii) : ascii :=
  let n := Ascii.N_of_ascii a in
  if ((65 <=? n) && (n <=? 90))%N then Ascii.ascii_of_N (n + 32)%N else a.

Fixpoint str_lower (s : string) : string :=
  match s with
  | EmptyString => ""
  | String a s' => String (ascii_lower a) (str_lower s')
  end.

Definition eq_ignore_ascii_case (a b : string) : bool :=
  bool_decide (str_lower a = str_lower b).

(** [str::trim] on ASCII whitespace. *)
Definition is_ascii_ws (a : ascii) : bool := Ascii.is_space a.

Fixpoint trim_start (s : string) : string :=
  match s with
  | EmptyString => ""
  | String a s' => if is_ascii_ws a then trim_start s' else s
  end.

Fixpoint trim_end (s : string) : string :=
  match s with
  | EmptyString => ""
  | String a s' =>
      match trim_end s' with
      | EmptyString => if is_ascii_ws a then "" else String a ""
      | t => String a t
      end
  end.

Definition str_trim (s : string) : string := trim_end (trim_start s).

(** *** Laws of the string operations *)

Fixpoint str_elem (c : ascii) (s : string) : Prop :=
  match s with
  | EmptyString => False
  | String a s' => a = c ∨ str_elem c s'
  end.

Lemma str_app_cons a s t : String a s +:+ t = String a (s +:+ t).
Proof. done. Qed.

Lemma str_app_nil_l s : "" +:+ s = s.
Proof. done. Qed.

Lemma str_app_nil_r s : s +:+ "" = s.
Proof. induction s as [|a s IH]; [done|]. by rewrite str_app_cons, IH. Qed.

Lemma str_app_assoc s t u : (s +:+ t) +:+ u = s +:+ (t +:+ u).
Proof. induction s as [|a s IH]; [done|]. by rewrite !str_app_cons, IH. Qed.

Lemma str_length_app s t : String.length (s +:+ t) = (String.length s + String.length t)%nat.
Proof. induction s as [|a s IH]; [done|]. rewrite str_app_cons. simpl. by rewrite IH. Qed.

Lemma str_app_inj_r s t u : s +:+ u = t +:+ u → s = t.
Proof.
  revert t. induction s as [|a s IH]; intros [|b t] Heq; [done|..].
  - apply (f_equal String.length) in Heq. rewrite str_app_cons in Heq. simpl in Heq.
    rewrite !str_length_app in Heq. simpl in Heq. lia.
  - apply (f_equal String.length) in Heq. rewrite str_app_cons in Heq. simpl in Heq.
    rewrite !str_length_app in Heq. simpl in Heq. lia.
  - rewrite !str_app_cons in Heq. simplify_eq. f_equal. eauto.
Qed.

Lemma str_elem_app c s t : str_elem c (s +:+ t) ↔ str_elem c s ∨ str_elem c t.
Proof. induction s as [|a s IH]; [simpl; naive_solver|]. rewrite str_app_cons. simpl. naive_solver. Qed.

Lemma strip_prefix_Some p s r : strip_prefix p s = Some r ↔ s = p +:+ r.
Proof.
  revert s. induction p as [|a p IH]; intros s; simpl.
  - rewrite str_app_nil_l. naive_solver.
  - rewrite str_app_cons. destruct s as [|b s]; [naive_solver|].
    case_decide; [subst; rewrite IH|]; naive_solver.
Qed.

Lemma strip_suffix_Some suf s r : strip_suffix suf s = Some r ↔ s = r +:+ suf.
Proof.
  revert r. induction s as [|a s IH]; intros r; simpl; case_decide as Hd.
  - subst. split; [naive_solver|]. destruct r; [done|]. by rewrite str_app_cons.
  - split; [done|]. intros Heq. destruct r; [|by rewrite str_app_cons in Heq].
    by rewrite str_app_nil_l in Heq.
  - split; [intros [= <-]; done|]. intros Heq.
    rewrite Hd in Heq. change suf with ("" +:+ suf) in Heq at 1.
    by apply str_app_inj_r in Heq as <-.
  - rewrite fmap_Some. setoid_rewrite IH. split.
    + intros (x & -> & ->). done.
    + destruct r as [|b r]; [naive_solver|]. rewrite str_app_cons. naive_solver.
Qed.

Lemma starts_with_spec s p : starts_with s p = true ↔ ∃ r, s = p +:+ r.
Proof.
  unfold starts_with. rewrite bool_decide_eq_true. unfold is_Some.
  by setoid_rewrite strip_prefix_Some.
Qed.

Lemma ends_with_spec s suf : ends_with s suf = true ↔ ∃ r, s = r +:+ suf.
Proof.
  unfold ends_with. rewrite bool_decide_eq_true. unfold is_Some.
  by setoid_rewrite strip_suffix_Some.
Qed.

Lemma str_split_not_nil c s : str_split c s ≠ [].
Proof. destruct s as [|a s]; simpl; [done|]. case_decide; [done|]. by case_match. Qed.

(** Splitting and joining on the same character is the identity. *)
Lemma str_join_split c s : str_join (String c "") (str_split c s) = s.
Proof.
  induction s as [|a s IH]; simpl; [done|]. case_decide as Ha.
  - subst. pose proof (str_split_not_nil c s). destruct (str_split c s) as [|w ws]; [done|].
    change (str_join (String c "") ("" :: w :: ws))
      with ("" +:+ String c "" +:+ str_join (String c "") (w :: ws)).
    by rewrite IH.
  - pose proof (str_split_not_nil c s). destruct (str_split c s) as [|w ws]; [done|].
    destruct ws as [|w' ws]; simpl in *; by rewrite <-IH.
Qed.

Lemma str_split_no_sep c s w : w ∈ str_split c s → ¬ str_elem c w.
Proof.
  revert w. induction s as [|a s IH]; intros w; simpl.
  - rewrite list_elem_of_singleton. intros ->. simpl. tauto.
  - case_decide as Ha.
    + rewrite elem_of_cons. intros [->|Hw]; [simpl; tauto|by apply IH].
    + destruct (str_split c s) as [|w' ws] eqn:Hs.
      * rewrite list_elem_of_singleton. intros ->. simpl. naive_solver.
      * rewrite elem_of_cons. intros [->|Hw].
        -- simpl. intros [?|Hin]; [done|]. eapply (IH w'); [left|done].
        -- apply IH. by right.
Qed.

Lemma str_split_single c s : ¬ str_elem c s → str_split c s = [s].
Proof.
  induction s as [|a s IH]; simpl; [done|]. intros Hn. case_decide; [naive_solver|].
  rewrite IH; naive_solver.
Qed.

Lemma str_split_app_sep c s t :
  ¬ str_elem c s → str_split c (s +:+ String c t) = s :: str_split c t.
Proof.
  induction s as [|a s IH]; intros Hn.
  - rewrite str_app_nil_l. simpl. by rewrite decide_True.
  - rewrite str_app_cons. simpl in *. rewrite decide_False by naive_solver.
    rewrite IH by naive_solver. done.
Qed.

(** Joining pieces free of the separator and splitting again gives them back. *)
Lemma str_split_app c s t : str_split c (s +:+ String c t) = str_split c s ++ str_split c t.
Proof.
  induction s as [|a s IH].
  - rewrite str_app_nil_l. simpl. by rewrite decide_True.
  - rewrite str_app_cons. simpl. rewrite IH. case_decide; [done|].
    pose proof (str_split_not_nil c s). by destruct (str_split c s).
Qed.

(** The part after the last separator is determined. *)
Lemma last_sep_inj c a b a' b' :
  a +:+ String c b = a' +:+ String c b' → ¬ str_elem c b → ¬ str_elem c b' → a = a' ∧ b = b'.
Proof.
  intros Heq Hb Hb'. apply (f_equal (str_split c)) in Heq.
  rewrite !str_split_app, (str_split_single c b), (str_split_single c b') in Heq by done.
  apply app_inj_tail in Heq as [Hs ->]. split; [|done].
  apply (f_equal (str_join (String c ""))) in Hs. by rewrite !str_join_split in Hs.
Qed.

Lemma str_split_join c l :
  l ≠ [] → Forall (λ w, ¬ str_elem c w) l → str_split c (str_join (String c "") l) = l.
Proof.
  induction l as [|w l IH]; [done|]. intros _ Hall. apply Forall_cons in Hall as [Hw Hall].
  destruct l as [|w' l]; simpl; [by apply str_split_single|].
  change (String c "" +:+ ?x) with (String c x).
  rewrite str_split_app_sep by done. f_equal. by apply IH.
Qed.

Lemma split_once_Some c s x y :
  split_once c s = Some (x, y) ↔ s = x +:+ String c y ∧ ¬ str_elem c x.
Proof.
  revert x y. induction s as [|a s IH]; intros x y; simpl.
  - split; [done|]. intros [Heq _]. destruct x; done.
  - case_decide as Ha.
    + subst. split; [naive_solver|]. intros [Heq Hx]. destruct x as [|b x].
      * rewrite str_app_nil_l in Heq. naive_solver.
      * rewrite str_app_cons in Heq. simpl in Hx. naive_solver.
    + rewrite fmap_Some. split.
      * intros ([x' y'] & [-> ?]%IH & [= -> ->]). split; [done|]. simpl. naive_solver.
      * intros [Heq Hx]. destruct x as [|b x]; [rewrite str_app_nil_l in Heq; naive_solver|].
        rewrite str_app_cons in Heq. simplify_eq. exists (x, y).
        rewrite IH. simpl in Hx. naive_solver.
Qed.

Lemma eq_ignore_ascii_case_refl s : eq_ignore_ascii_case s s = true.
Proof. by apply bool_decide_eq_true. Qed.

Lemma eq_ignore_ascii_case_sym s t : eq_ignore_ascii_case s t = eq_ignore_ascii_case t s.
Proof. unfold eq_ignore_ascii_case. by apply bool_decide_ext. Qed.

#[export] Hint Resolve eq_ignore_ascii_case_refl : sunbeam.

(** The byte order of strings. *)
Lemma leb_trans a b c : String.leb a b = true → String.leb b c = true → String.leb a c = true.
Proof. rewrite <-!Is_true_true. apply (transitivity (R := String.le)). Qed.

(** ** Sorting

    [slice::sort_by] is a stable sort; [le a b] stands for [cmp(a, b) != Greater].
    An insertion sort that never moves an element past an equal one computes the
    same list. *)
Section sort_by.
Context {A : Type} (le : A → A → bool).

Fixpoint insert_sorted (x : A) (l : list A) : list A :=
  match l with
  | [] => [x]
  | y :: l' => if le x y then x :: y :: l' else y :: insert_sorted x l'
  end.

Fixpoint sort_by (l : list A) : list A :=
  match l with
  | [] => []
  | x :: l' => insert_sorted x (sort_by l')
  end.

Lemma insert_sorted_perm x l : insert_sorted x l ≡ₚ x :: l.
Proof.
  induction l as [|y l IH]; simpl; [done|]. case_match; [done|].
  rewrite IH. apply Permutation_swap.
Qed.

Lemma sort_by_perm l : sort_by l ≡ₚ l.
Proof. induction l as [|x l IH]; simpl; [done|]. by rewrite insert_sorted_perm, IH. Qed.

Lemma elem_of_sort_by x l : x ∈ sort_by l ↔ x ∈ l.
Proof. by rewrite sort_by_perm. Qed.

Context (le_total : ∀ x y, le x y = true ∨ le y x = true).
Context (le_trans : ∀ x y z, le x y = true → le y z = true → le x z = true).

Lemma insert_sorted_sorted x l :
  StronglySorted (λ a b, le a b = true) l →
  StronglySorted (λ a b, le a b = true) (insert_sorted x l).
Proof.
  induction 1 as [|y l Hl IH Hy]; simpl; [repeat constructor|].
  destruct (le x y) eqn:Hxy.
  - constructor; [by constructor|]. constructor; [done|].
    eapply Forall_impl; [exact Hy|]. eauto.
  - constructor; [done|]. rewrite insert_sorted_perm. constructor; [|done].
    destruct (le_total x y); congruence.
Qed.

Lemma sort_by_sorted l : StronglySorted (λ a b, le a b = true) (sort_by l).
Proof. induction l as [|x l IH]; simpl; [constructor|by apply insert_sorted_sorted]. Qed.

(** The stable sort does not reorder elements that compare equal: on every
    class of mutually comparable elements it is the identity. *)
Lemma insert_sorted_filter_in (P : A → bool) x l :
  P x = true → (∀ y, P y = true → le x y = true) →
  filter (λ y, P y = true) (insert_sorted x l) = x :: filter (λ y, P y = true) l.
Proof.
  intros Hx Hle. induction l as [|y l IH]; simpl.
  - by rewrite filter_cons_True.
  - destruct (le x y) eqn:Hxy; [by rewrite filter_cons_True|].
    destruct (P y) eqn:Hy; [by rewrite Hle in Hxy|].
    rewrite !(filter_cons_False _ y) by congruence. done.
Qed.

Lemma insert_sorted_filter_out (P : A → bool) x l :
  P x = false → filter (λ y, P y = true) (insert_sorted x l) = filter (λ y, P y = true) l.
Proof.
  intros Hx. induction l as [|y l IH]; simpl.
  - by rewrite filter_cons_False by congruence.
  - case_match; [by rewrite filter_cons_False by congruence|].
    by rewrite !filter_cons, IH.
Qed.

Lemma sort_by_stable (P : A → bool) l :
  (∀ x y, P x = true → P y = true → le x y = true) →
  filter (λ y, P y = true) (sort_by l) = filter (λ y, P y = true) l.
Proof.
  intros HP. induction l as [|x l IH]; simpl; [done|]. destruct (P x) eqn:Hx.
  - rewrite insert_sorted_filter_in by eauto. by rewrite filter_cons_True, IH.
  - rewrite insert_sorted_filter_out by done. by rewrite filter_cons_False, IH by congruence.
Qed.

(** Taking the first element of a sorted list that satisfies [P] yields a
    minimum of the elements that satisfy it. *)
Lemma find_sorted_min (P : A → bool) l x :
  StronglySorted (λ a b, le a b = true) l →
  List.find P l = Some x →
  x ∈ l ∧ P x = true ∧ ∀ y, y ∈ l → P y = true → le x y = true.
Proof.
  induction 1 as [|z l Hl IH Hz]; simpl; [done|]. destruct (P z) eqn:HPz.
  - intros [= ->]. split_and!; [left|done|]. intros y [->|Hy]%elem_of_cons _.
    + destruct (le_total x x); done.
    + rewrite Forall_forall in Hz. by apply Hz.
  - intros Hf. destruct (IH Hf) as (Hin & HP & Hmin). split_and!; [by right|done|].
    intros y [->|Hy]%elem_of_cons HPy; [congruence|by apply Hmin].
Qed.
End sort_by.

Lemma find_None {A} (P : A → bool) l : List.find P l = None ↔ ∀ x, x ∈ l → P x = false.
Proof.
  induction l as [|x l IH]; simpl.
  - split; [|done]. intros _ x Hx. by apply not_elem_of_nil in Hx.
  - destruct (P x) eqn:Hx.
    + split; [done|]. intros H. rewrite H in Hx; [done|left].
    + rewrite IH. split.
      * intros H y [->|Hy]%elem_of_cons; eauto.
      * intros H y Hy. apply H. by right.
Qed.

Lemma find_Some_elem {A} (P : A → bool) l x : List.find P l = Some x → x ∈ l ∧ P x = true.
Proof.
  induction l as [|y l IH]; simpl; [done|]. destruct (P y) eqn:Hy.
  - intros [= ->]. split; [left|done].
  - intros [? ?]%IH. split; [by right|done].
Qed.

(** A sort whose keys are distinct depends only on the set of elements. *)
Lemma sort_by_unique {A} (le : A → A → bool) l l' :
  (∀ x y, le x y = true ∨ le y x = true) →
  (∀ x y z, le x y = true → le y z = true → le x z = true) →
  (∀ x y, x ∈ l → y ∈ l → le x y = true → le y x = true → x = y) →
  l ≡ₚ l' → sort_by le l = sort_by le l'.
Proof.
  intros Htot Htr Hanti Hp. apply (StronglySorted_unique_strong (λ a b, le a b = true)).
  - intros x y Hx Hy. rewrite elem_of_sort_by in Hx, Hy. rewrite <-Hp in Hy. by apply Hanti.
  - by apply sort_by_sorted.
  - by apply sort_by_sorted.
  - by rewrite !sort_by_perm.
Qed.

(** The first element found in a concatenation ordered by [R] comes from the
    [R]-least block that holds one. *)
Lemma find_bind_sorted {A B} (R : A → A → Prop) (f : A → list B) (P : B → bool) l x :
  (∀ a, R a a) → StronglySorted R l → List.find P (l ≫= f) = Some x →
  ∃ a, a ∈ l ∧ x ∈ f a ∧ P x = true ∧ ∀ a' y, a' ∈ l → y ∈ f a' → P y = true → R a a'.
Proof.
  intros Hrefl. induction 1 as [|a l Hl IH Ha]; [done|]. rewrite bind_cons.
  assert (∀ l1 l2, List.find P (l1 ++ l2) = match List.find P l1 with
            | Some y => Some y | None => List.find P l2 end) as ->.
  { intros l1 l2. induction l1 as [|y l1 IH1]; simpl; [done|]. by destruct (P y). }
  destruct (List.find P (f a)) as [y|] eqn:Hf.
  - intros [= ->]. apply find_Some_elem in Hf as [Hx HP]. exists a.
    split_and!; [left|done..|]. intros a' y [->|Ha']%elem_of_cons _ _; [done|].
    rewrite Forall_forall in Ha. by apply Ha.
  - intros (b & Hb & Hx & HP & Hmin)%IH. exists b. split_and!; [by right|done..|].
    intros a' y [->|Ha']%elem_of_cons Hy HPy; [|by eapply Hmin].
    exfalso. rewrite find_None in Hf. by rewrite (Hf y Hy) in HPy.
Qed.

(** Elements of a list with distinct keys are determined by their key. *)
Lemma NoDup_fmap_elem_inj {A B} (f : A → B) l x y :
  NoDup (f <$> l) → x ∈ l → y ∈ l → f x = f y → x = y.
Proof.
  intros Hnd [i Hi]%list_elem_of_lookup [j Hj]%list_elem_of_lookup Heq.
  assert (i = j); [|congruence]. eapply NoDup_lookup; [done|..];
    rewrite list_lookup_fmap, ?Hi, ?Hj; simpl; [done|by rewrite Heq].
Qed.

(** ** [HashMap] iteration

    The iteration order of a [HashMap] is unspecified. A definition that
    iterates over one takes the order as an instance of this class; what holds
    for every instance holds whatever order the runtime picks. *)
Class HashOrder := {
  hash_iter : ∀ {K V} `{Countable K}, gmap K V → list (K * V);
  hash_iter_perm : ∀ {K V} `{Countable K} (m : gmap K V), hash_iter m ≡ₚ map_to_list m;
}.

(** The canonical order of [gmap], used to evaluate definitions. *)
#[export] Instance map_order : HashOrder := {|
  hash_iter K V _ _ m := map_to_list m;
  hash_iter_perm K V _ _ m := Permutation_refl _;
|}.

Lemma elem_of_hash_iter `{HashOrder} {K V} `{Countable K} (m : gmap K V) k v :
  (k, v) ∈ hash_iter m ↔ m !! k = Some v.
Proof. rewrite hash_iter_perm. apply elem_of_map_to_list. Qed.

Lemma NoDup_hash_iter_fst `{HashOrder} {K V} `{Countable K} (m : gmap K V) :
  NoDup (hash_iter m).*1.
Proof. rewrite hash_iter_perm. apply NoDup_fst_map_to_list. Qed.

(** ** [BTreeMap]

    A [BTreeMap] is a [gmap]; iterating over it is in the order of its keys. *)
Definition btree_values {K V} `{Countable K} (le : K → K → bool) (m : gmap K V) : list V :=
  snd <$> sort_by (λ a b, le a.1 b.1) (map_to_list m).

Lemma elem_of_btree_values {K V} `{Countable K} (le : K → K → bool) (m : gmap K V) v :
  v ∈ btree_values le m ↔ ∃ k, m !! k = Some v.
Proof.
  unfold btree_values. rewrite list_elem_of_fmap. split.
  - intros ([k v'] & -> & Hin). rewrite elem_of_sort_by, elem_of_map_to_list in Hin. eauto.
  - intros (k & Hk). exists (k, v). by rewrite elem_of_sort_by, elem_of_map_to_list.
Qed.

Lemma btree_values_ids {K V} `{Countable K} (le : K → K → bool) (id : V → K) (m : gmap K V) :
  (∀ k v, m !! k = Some v → id v = k) → NoDup (id <$> btree_values le m).
Proof.
  intros Hid. unfold btree_values. rewrite <-list_fmap_compose.
  set (l := sort_by _ _). assert ((id ∘ snd) <$> l = l.*1) as ->.
  { apply list_fmap_ext. intros i [k v] Hi%list_elem_of_lookup_2. unfold l in Hi.
    rewrite elem_of_sort_by, elem_of_map_to_list in Hi. by apply Hid. }
  unfold l. rewrite sort_by_perm. apply NoDup_fst_map_to_list.
Qed.

(** [entry(k).or_default().push(v)] on a map of vectors. *)
Definition push_entry {K V} `{Countable K} (k : K) (v : V) (m : gmap K (list V)) :
  gmap K (list V) := <[k := default [] (m !! k) ++ [v]]> m.

Lemma lookup_push_entry {K V} `{Countable K} (k k' : K) (v : V) m :
  default [] (push_entry k v m !! k') =
  default [] (m !! k') ++ (if decide (k = k') then [v] else []).
Proof.
  unfold push_entry. rewrite lookup_insert. case_decide; subst; simpl; [done|].
  by rewrite app_nil_r.
Qed.

(** Group a list into a map of vectors by an optional key, in order. *)
Definition group_by {K V} `{Countable K} (key : V → option K) (l : list V) : gmap K (list V) :=
  foldl (λ m v, match key v with Some k => push_entry k v m | None => m end) ∅ l.

Lemma group_by_snoc {K V} `{Countable K} (key : V → option K) l v :
  group_by key (l ++ [v]) =
  match key v with Some k => push_entry k v (group_by key l) | None => group_by key l end.
Proof. unfold group_by. by rewrite foldl_app. Qed.

Lemma lookup_group_by {K V} `{Countable K} (key : V → option K) l k :
  default [] (group_by key l !! k) = filter (λ v, key v = Some k) l.
Proof.
  induction l as [|v l IH] using rev_ind.
  - unfold group_by. simpl. by rewrite lookup_empty.
  - rewrite group_by_snoc, filter_app. destruct (key v) as [k'|] eqn:Hk.
    + rewrite lookup_push_entry, IH. f_equal. case_decide as Hd.
      * subst. by rewrite filter_cons_True.
      * by rewrite filter_cons_False by congruence.
    + rewrite IH, filter_cons_False by congruence. simpl. by rewrite app_nil_r.
Qed.

Lemma group_by_nonempty {K V} `{Countable K} (key : V → option K) l k :
  group_by key l !! k ≠ Some [].
Proof.
  induction l as [|v l IH] using rev_ind; [unfold group_by; simpl; by rewrite lookup_empty|].
  rewrite group_by_snoc. destruct (key v) as [k'|]; [|done]. unfold push_entry.
  rewrite lookup_insert. case_decide; [|done]. intros [= Hn]. by destruct (default _ _).
Qed.

Lemma elem_of_group_by {K V} `{Countable K} (key : V → option K) l k b v :
  group_by key l !! k = Some b → v ∈ b ↔ v ∈ l ∧ key v = Some k.
Proof.
  intros Hb. pose proof (lookup_group_by key l k) as Hl. rewrite Hb in Hl. simpl in Hl.
  rewrite Hl, list_elem_of_filter. naive_solver.
Qed.

(** ** Integer parsing

    [str::parse] for an unsigned type: an optional [+], then at least one decimal
    digit; a value above [max] is an error. *)
Definition digit_value (a : ascii) : option Z :=
  let n := Z.of_N (Ascii.N_of_ascii a) in
  if (48 <=? n) && (n <=? 57) then Some (n - 48) else None.

Fixpoint parse_digits (max acc : Z) (s : string) : option Z :=
  match s with
  | "" => Some acc
  | String a s' =>
      match digit_value a with
      | Some d => if acc * 10 + d <=? max then parse_digits max (acc * 10 + d) s' else None
      | None => None
      end
  end.

Definition parse_uint (max : Z) (s : string) : option Z :=
  let digits := match strip_prefix "+" s with Some r => r | None => s end in
  if decide (digits = "") then None else parse_digits max 0 digits.

Lemma digit_value_bound a d : digit_value a = Some d → 0 ≤ d ≤ 9.
Proof. unfold digit_value. case_match; [|done]. intros ?. simplify_eq. simp_bool. lia. Qed.

Lemma parse_digits_bound max acc s n :
  0 ≤ acc ≤ max → parse_digits max acc s = Some n → 0 ≤ n ≤ max.
Proof.
  revert acc. induction s as [|a s IH]; intros acc Ha; simpl; [intros [= <-]; lia|].
  destruct (digit_value a) as [d|] eqn:Hd; [|done]. apply digit_value_bound in Hd.
  destruct (Z.leb_spec (acc * 10 + d) max); [|done]. apply IH. lia.
Qed.

(** A parsed value fits its type. *)
Lemma parse_uint_bound max s n : 0 ≤ max → parse_uint max s = Some n → 0 ≤ n ≤ max.
Proof.
  unfold parse_uint. intros Hm. case_decide; [done|]. apply parse_digits_bound. lia.
Qed.

Lemma parse_digits_chars max acc s n c : parse_digits max acc s = Some n → digit_value c = None → ¬ str_elem c s.
Proof.
  intros Hs Hc. revert acc Hs. induction s as [|a s IH]; intros acc Hs; cbn in *; [tauto|].
  destruct (digit_value a) eqn:Ha; [|done]. destruct (_ <=? max); [|done]. intros [<-|Hin]; [congruence|by eapply IH].
Qed.

(** A number is read back from its decimal form. *)
Lemma parse_digits_pretty max n s :
  Z.of_N n ≤ max → parse_digits max 0 (pretty_N_go n s) = parse_digits max (Z.of_N n) s.
Proof.
  revert s. induction (N.lt_wf_0 n) as [n _ IH]. intros s Hn.
  destruct (decide (n = 0)%N) as [->|Hpos]; [by rewrite pretty_N_go_0|].
  assert (n / 10 < n)%N as Hlt by (apply N.div_lt; lia). rewrite pretty_N_go_step, IH by lia.
  assert (digit_value (pretty_N_char (n mod 10)) = Some (Z.of_N (n mod 10))) as Hd.
  { pose proof (N.mod_lt n 10 ltac:(done)) as Hm. generalize dependent (n mod 10)%N. clear. intros m Hm.
    assert (m = 0 ∨ m = 1 ∨ m = 2 ∨ m = 3 ∨ m = 4 ∨ m = 5 ∨ m = 6 ∨ m = 7 ∨ m = 8 ∨ m = 9)%N as H by lia.
    by destruct_or! H; subst. }
  cbn [parse_digits]. rewrite Hd. replace (Z.of_N (n / 10) * 10 + Z.of_N (n mod 10)) with (Z.of_N n)
    by (pose proof (N.div_mod n 10 ltac:(done)); lia).
  by rewrite (proj2 (Z.leb_le _ _)).
Qed.

Lemma parse_digits_pretty_pos max p : Z.pos p ≤ max → parse_digits max 0 (pretty_N_go (N.pos p) "") = Some (Z.pos p).
Proof. intros Hle. by rewrite parse_digits_pretty. Qed.

Lemma pretty_digits n c : 0 ≤ n → digit_value c = None → ¬ str_elem c (pretty n).
Proof.
  intros Hn Hc. destruct n as [|p|p]; [by intros [<-|[]]| |lia].
  apply (parse_digits_chars (Z.pos p) 0 _ (Z.pos p)); [by apply parse_digits_pretty_pos|done].
Qed.

Lemma parse_uint_pretty max n : 0 ≤ n ≤ max → parse_uint max (pretty n) = Some n.
Proof.
  intros Hn. unfold parse_uint. pose proof (pretty_digits n "+" ltac:(lia) eq_refl) as Hp.
  assert (parse_digits max 0 (pretty n) = Some n) as Hd.
  { destruct n as [|p|p]; [|apply parse_digits_pretty_pos; lia|lia]. by destruct max; [..|lia]. }
  destruct (pretty n) as [|a s] eqn:He; [by destruct n as [|[]|]|].
  cbn [strip_prefix]. rewrite (decide_False (P := _ = a)) by (intros <-; apply Hp; by left). by rewrite decide_False.
Qed.

Lemma str_trim_id s : (∀ c, str_elem c s → is_ascii_ws c = false) → str_trim s = s.
Proof.
  intros Hs. assert (trim_start s = s) as Hstart.
  { destruct s as [|a s]; [done|]. cbn. by rewrite (Hs a) by (by left). }
  unfold str_trim. rewrite Hstart. clear Hstart. induction s as [|a s IH]; [done|]. cbn.
  rewrite IH by (intros c Hc; apply Hs; by right). rewrite (Hs a) by (by left). by destruct s.
Qed.

Lemma str_trim_pretty n : 0 ≤ n → str_trim (pretty n) = pretty n.
Proof.
  intros Hn. apply str_trim_id. intros c Hc. apply not_true_is_false. intros Hws.
  apply (pretty_digits n c Hn); [|done]. clear -Hws. by destruct c as [[] [] [] [] [] [] [] []].
Qed.

(** ** Maxima *)

(** [iter.max().unwrap_or(0)]. *)
Definition max_score {A} (score : A → Z) (l : list A) : Z :=
  match l with [] => 0 | x :: l' => foldl Z.max (score x) (score <$> l') end.

(** [retain] of the elements with the maximal score. *)
Definition keep_max {A} (score : A → Z) (l : list A) : list A :=
  filter (λ x, score x = max_score score l) l.

Lemma foldl_max_spec (l : list Z) a :
  (foldl Z.max a l = a ∨ foldl Z.max a l ∈ l) ∧ a ≤ foldl Z.max a l ∧
  ∀ y, y ∈ l → y ≤ foldl Z.max a l.
Proof.
  revert a. induction l as [|z l IH]; intros a; simpl; [set_solver by lia|].
  destruct (IH (Z.max a z)) as (Hm & Ha & Hl). split_and!; [|lia|].
  - destruct Hm as [Hm|?]; [|set_solver].
    destruct (Z.max_spec a z) as [[_ He]|[_ He]]; rewrite He in Hm |- *; set_solver.
  - intros y [->|?]%elem_of_cons; [lia|by apply Hl].
Qed.

(** [max_score] is attained and bounds every score. *)
Lemma max_score_spec {A} (score : A → Z) l :
  l ≠ [] → (∃ x, x ∈ l ∧ score x = max_score score l) ∧ ∀ y, y ∈ l → score y ≤ max_score score l.
Proof.
  destruct l as [|x l]; [done|]. intros _. simpl.
  destruct (foldl_max_spec (score <$> l) (score x)) as (Hm & Ha & Hl). split.
  - destruct Hm as [->|Hm]; [exists x; set_solver|].
    apply list_elem_of_fmap in Hm as (y & Hy & ?). exists y. set_solver.
  - intros y [->|?]%elem_of_cons; [done|]. apply Hl, list_elem_of_fmap. eauto.
Qed.

Lemma keep_max_spec {A} (score : A → Z) l x :
  x ∈ keep_max score l ↔ x ∈ l ∧ ∀ y, y ∈ l → score y ≤ score x.
Proof.
  unfold keep_max. rewrite list_elem_of_filter. split.
  - intros [Hx Hin]. split; [done|]. intros y Hy. rewrite Hx.
    apply max_score_spec; [by destruct l; [apply elem_of_nil in Hy|]|done].
  - intros [Hin Hmax]. split; [|done].
    destruct (max_score_spec score l) as [(z & Hz & Hzs) Hub]; [by destruct l; [apply elem_of_nil in Hin|]|].
    specialize (Hmax z Hz). specialize (Hub x Hin). lia.
Qed.

Lemma find_max_spec {A} (score : A → Z) l :
  match List.find (λ x, score x =? max_score score l) l with
  | Some x => x ∈ keep_max score l
  | None => l = []
  end.
Proof.
  destruct (List.find _ l) as [x|] eqn:Hf.
  - apply find_Some_elem in Hf as [Hx Hs]. unfold keep_max. rewrite list_elem_of_filter.
    simp_bool. done.
  - destruct (decide (l = [])) as [|Hne]; [done|].
    destruct (max_score_spec score l Hne) as [(y & Hy & Hys) _].
    rewrite find_None in Hf. specialize (Hf y Hy). simpl in Hf. lia.
Qed.

(** [str::contains] of a string. *)
Fixpoint str_contains (s sub : string) : bool :=
  starts_with s sub || match s with String _ s' => str_contains s' sub | "" => false end.

Lemma str_contains_char s c : str_contains s (String c "") = true ↔ str_elem c s.
Proof.
  induction s as [|a s IH]; simpl; [done|]. rewrite orb_true_iff, IH. unfold starts_with. simpl.
  case_decide as Hc; rewrite bool_decide_eq_true; simpl; split; intros [Hx|Hx]; auto; try (by destruct Hx); left; subst; eauto.
Qed.

(** Two strings split at their first separator. *)
Definition no_chars (P : ascii → Prop) (s : string) : Prop := ∀ c, P c → ¬ str_elem c s.
Definition starts_sep (P : ascii → Prop) (s : string) : Prop :=
  match s with String c _ => P c | "" => True end.

Lemma app_first_sep P a a' r r' :
  no_chars P a → no_chars P a' → starts_sep P r → starts_sep P r' →
  a +:+ r = a' +:+ r' → a = a' ∧ r = r'.
Proof.
  revert a'. induction a as [|c a IH]; intros [|c' a'] Ha Ha' Hr Hr'; rewrite ?str_app_nil_l, ?str_app_cons.
  - done.
  - intros ->. exfalso. simpl in Hr. apply (Ha' _ Hr). by left.
  - intros <-. exfalso. simpl in Hr'. apply (Ha _ Hr'). by left.
  - intros [= -> Heq]. destruct (IH a') as [-> ->]; [..|done|done|done|done].
    + intros c Hc Hin. apply (Ha c Hc). by right.
    + intros c Hc Hin. apply (Ha' c Hc). by right.
Qed.

(** [Iterator::find_map]. *)
Definition find_map {A B} (f : A → option B) (l : list A) : option B := head (omap f l).

Lemma find_map_Some {A B} (f : A → option B) l b :
  find_map f l = Some b → ∃ a, a ∈ l ∧ f a = Some b.
Proof.
  unfold find_map. intros Hh. destruct (omap f l) as [|x xs] eqn:Ho; [done|]. simpl in Hh. simplify_eq.
  apply list_elem_of_omap. rewrite Ho. left.
Qed.

Lemma find_map_None {A B} (f : A → option B) l : find_map f l = None → ∀ x, x ∈ l → f x = None.
Proof.
  induction l as [|a l IH]; intros Hf x; [by intros ?%elem_of_nil|].
  unfold find_map in *. simpl in Hf. destruct (f a) eqn:Ha; [done|]. intros [->|Hx]%elem_of_cons; [done|by apply IH].
Qed.
