(* ===== verification/Net.v ===== *)
(** * Addresses of the standard library ([std::net]).

    [IpAddr] and [SocketAddr] with the parser behind [str::parse]. Addresses are their 32-
    or 128-bit values. *)

From S2P Require Import Prelude.

(** ** Addresses ([std::net]) *)

Inductive IpAddr :=
| V4 (bits : Z)
| V6 (bits : Z).

#[export] Instance IpAddr_eq_dec : EqDecision IpAddr.
Proof. solve_decision. Defined.

#[export] Instance IpAddr_countable : Countable IpAddr.
Proof.
  refine (inj_countable' (λ ip, match ip with V4 a => inl a | V6 a => inr a end)
            (λ x, match x with inl a => V4 a | inr a => V6 a end) _); by intros [].
Defined.

(** The parser combinators of [core::net::parser]: a parser returns the value and the
    rest of the input. *)
Definition to_digit (radix : Z) (a : ascii) : option Z :=
  let n := Z.of_N (Ascii.N_of_ascii a) in
  let d := if (48 <=? n) && (n <=? 57) then Some (n - 48)
           else if (97 <=? n) && (n <=? 122) then Some (n - 87)
           else if (65 <=? n) && (n <=? 90) then Some (n - 55)
           else None in
  match d with Some d => if d <? radix then Some d else None | None => None end.

(** The digit loop of [read_number]: value, digit count and rest; [None] when there are
    too many digits or the value exceeds [limit]. *)
Fixpoint read_digits (radix limit : Z) (max_digits : nat) (acc : Z) (count : nat) (s : string) :
    option (Z * nat * string) :=
  match s with
  | String a s' =>
      match to_digit radix a with
      | Some d =>
          if (limit <? acc * radix + d) || bool_decide (max_digits ≤ count)%nat then None
          else read_digits radix limit max_digits (acc * radix + d) (S count) s'
      | None => Some (acc, count, s)
      end
  | "" => Some (acc, count, s)
  end.

Definition read_number (radix limit : Z) (max_digits : nat) (allow_zero_prefix : bool) (s : string) :
    option (Z * string) :=
  match read_digits radix limit max_digits 0 0 s with
  | Some (n, count, rest) =>
      if bool_decide (count = 0%nat) then None
      else if negb allow_zero_prefix && starts_with s "0" && bool_decide (1 < count)%nat then None
      else Some (n, rest)
  | None => None
  end.

(** [read_separator]: the separator is expected before every element but the first. *)
Definition read_separator {A} (sep : string) (first : bool) (p : string → option (A * string))
    (s : string) : option (A * string) :=
  if first then p s else match strip_prefix sep s with Some s' => p s' | None => None end.

Definition read_octet (first : bool) (s : string) : option (Z * string) :=
  read_separator "." first (read_number 10 255 3 false) s.

Definition read_ipv4_addr (s : string) : option (Z * string) :=
  match read_octet true s with
  | Some (a, s) =>
      match read_octet false s with
      | Some (b, s) =>
          match read_octet false s with
          | Some (c, s) =>
              match read_octet false s with
              | Some (d, s) => Some (((a * 256 + b) * 256 + c) * 256 + d, s)
              | None => None
              end
          | None => None
          end
      | None => None
      end
  | None => None
  end.

(** [read_groups] with [limit] slots left, in order; the flag says that it ended with an
    embedded IPv4 address. *)
Fixpoint read_groups (slots : nat) (first : bool) (s : string) : list Z * bool * string :=
  match slots with
  | O => ([], false, s)
  | S slots' =>
      let ipv4 := if bool_decide (0 < slots')%nat then read_separator ":" first read_ipv4_addr s
                  else None in
      match ipv4 with
      | Some (v4, rest) => ([v4 / 65536; v4 mod 65536], true, rest)
      | None =>
          match read_separator ":" first (read_number 16 65535 4 true) s with
          | Some (g, rest) =>
              let '(gs, v4, rest') := read_groups slots' false rest in (g :: gs, v4, rest')
          | None => ([], false, s)
          end
      end
  end.

Definition groups_value (gs : list Z) : Z := foldl (λ acc g, acc * 65536 + g) 0 gs.

Definition read_ipv6_addr (s : string) : option (Z * string) :=
  let '(hd, hd_ipv4, rest) := read_groups 8 true s in
  if bool_decide (length hd = 8%nat) then Some (groups_value hd, rest)
  else if hd_ipv4 then None
  else match strip_prefix "::" rest with
       | Some rest' =>
           let '(tl, _, rest'') := read_groups (8 - (length hd + 1)) true rest' in
           Some (groups_value (hd ++ replicate (8 - length hd - length tl) 0 ++ tl), rest'')
       | None => None
       end.

(** [str::parse::<IpAddr>]: the whole input must be consumed. *)
Definition parse_ip (s : string) : option IpAddr :=
  match read_ipv4_addr s with
  | Some (v4, "") => Some (V4 v4)
  | Some _ => None
  | None =>
      match read_ipv6_addr s with
      | Some (v6, "") => Some (V6 v6)
      | _ => None
      end
  end.

(** [Ipv6Addr::to_ipv4_mapped]: [::ffff:a.b.c.d]. *)
Definition to_ipv4_mapped (v6 : Z) : option Z :=
  if Z.shiftr v6 32 =? 65535 then Some (Z.land v6 u32_max) else None.

(** ** Socket addresses *)

Inductive SocketAddr :=
| SocketV4 (ip port : Z)
| SocketV6 (ip port scope_id : Z).

#[export] Instance SocketAddr_eq_dec : EqDecision SocketAddr.
Proof. solve_decision. Defined.

#[export] Instance SocketAddr_countable : Countable SocketAddr.
Proof.
  refine (inj_countable' (λ a, match a with SocketV4 i p => inl (i, p) | SocketV6 i p s => inr (i, p, s) end)
            (λ x, match x with inl (i, p) => SocketV4 i p | inr (i, p, s) => SocketV6 i p s end) _); by intros [].
Defined.

Definition socket_ip (a : SocketAddr) : IpAddr :=
  match a with SocketV4 ip _ => V4 ip | SocketV6 ip _ _ => V6 ip end.

Definition socket_port (a : SocketAddr) : Z :=
  match a with SocketV4 _ port => port | SocketV6 _ port _ => port end.

(** [read_port] and [read_scope_id]: decimal numbers of any length within their type. *)
Definition read_port (s : string) : option (Z * string) :=
  match strip_prefix ":" s with
  | Some s => read_number 10 u16_max (String.length s) true s
  | None => None
  end.

Definition read_scope_id (s : string) : option (Z * string) :=
  match strip_prefix "%" s with
  | Some s => read_number 10 u32_max (String.length s) true s
  | None => None
  end.

Definition read_socket_addr_v4 (s : string) : option (SocketAddr * string) :=
  match read_ipv4_addr s with
  | Some (ip, s) => match read_port s with Some (port, s) => Some (SocketV4 ip port, s) | None => None end
  | None => None
  end.

Definition read_socket_addr_v6 (s : string) : option (SocketAddr * string) :=
  match strip_prefix "[" s with
  | Some s =>
      match read_ipv6_addr s with
      | Some (ip, s) =>
          let '(scope, s) := default (0, s) (read_scope_id s) in
          match strip_prefix "]" s with
          | Some s =>
              match read_port s with Some (port, s) => Some (SocketV6 ip port scope, s) | None => None end
          | None => None
          end
      | None => None
      end
  | None => None
  end.

(** [str::parse::<SocketAddr>]. *)
Definition parse_socket_addr (s : string) : option SocketAddr :=
  match read_socket_addr_v4 s with
  | Some (a, "") => Some a
  | Some _ => None
  | None => match read_socket_addr_v6 s with Some (a, "") => Some a | _ => None end
  end.
