(* ===== verification/Ir.v ===== *)
(** * Intermediate representation of the routing model ([src/ir/mod.rs]).

    Every struct is a [Record] and every enum an [Inductive] with the source's
    fields and variants (field names carry a prefix for their struct). Strings
    ([Arc<str>]) are [string]s, machine integers are [Z], a [Duration] is its
    number of nanoseconds, a [HashMap] is a [gmap]. All types derive [PartialEq]
    in the source and so have decidable equality here. *)

From S2P Require Import Prelude.

(** ** Hostname and path matchers *)

(** Hostname matching strategy. *)
Inductive HostnameMatch :=
| HostExact (s : string)
| HostPrefix (s : string)
| HostWildcard (s : string)
| HostAny.

(** Path match type. *)
Inductive PathMatch :=
| PathPrefix (s : string)
| PathExact (s : string)
| PathRegex (s : string).

(** Path rewrite action. *)
Inductive PathRewrite :=
| FullReplace (replacement : string)
| PrefixReplace (prefix replacement : string).

(** Header match value. *)
Inductive HeaderMatchValue :=
| HeaderExact (s : string)
| HeaderRegex (s : string)
| HeaderPresent
| HeaderAbsent.

(** Header match type. *)
Record HeaderMatch := {
  hm_name : string;
  hm_value : HeaderMatchValue;
}.

(** Query parameter match value. *)
Inductive QueryParamMatchValue :=
| QueryExact (s : string)
| QueryRegex (s : string).

(** Query parameter match type. *)
Record QueryParamMatch := {
  qm_name : string;
  qm_value : QueryParamMatchValue;
}.

(** Match criteria for a single rule. *)
Record RequestMatch := {
  rm_path : option PathMatch;
  rm_method : option string;
  rm_headers : list HeaderMatch;
  rm_query_params : list QueryParamMatch;
}.

(** [RequestMatch::default()]. *)
Definition RequestMatch_default : RequestMatch :=
  {| rm_path := None; rm_method := None; rm_headers := []; rm_query_params := [] |}.

#[export] Instance HostnameMatch_eq_dec : EqDecision HostnameMatch.
Proof. solve_decision. Defined.
#[export] Instance PathMatch_eq_dec : EqDecision PathMatch.
Proof. solve_decision. Defined.
#[export] Instance PathRewrite_eq_dec : EqDecision PathRewrite.
Proof. solve_decision. Defined.
#[export] Instance HeaderMatchValue_eq_dec : EqDecision HeaderMatchValue.
Proof. solve_decision. Defined.
#[export] Instance HeaderMatch_eq_dec : EqDecision HeaderMatch.
Proof. solve_decision. Defined.
#[export] Instance QueryParamMatchValue_eq_dec : EqDecision QueryParamMatchValue.
Proof. solve_decision. Defined.
#[export] Instance QueryParamMatch_eq_dec : EqDecision QueryParamMatch.
Proof. solve_decision. Defined.
#[export] Instance RequestMatch_eq_dec : EqDecision RequestMatch.
Proof. solve_decision. Defined.

(** [PathRewrite::with_matched_prefix]: a [PrefixReplace] of ["/"] takes the path
    prefix the rule matched on, when there is one. *)
Definition with_matched_prefix (pr : PathRewrite) (matched : option string) : PathRewrite :=
  match pr with
  | PrefixReplace prefix replacement =>
      if decide (prefix = "/") then PrefixReplace (default prefix matched) replacement else pr
  | other => other
  end.

(** ** Filters and actions *)

(** CORS response header configuration. *)
Record CorsConfig := {
  allow_origins : list string;
  allow_methods : list string;
  allow_headers : list string;
  expose_headers : list string;
  max_age : option Z;
  allow_credentials : bool;
}.

(** Filters applied to the request before forwarding. *)
Inductive RequestFilter :=
| ReqSetHeader (name value : string)
| ReqAddHeader (name value : string)
| ReqRemoveHeader (name : string)
| ReqStripPrefix (prefix : string)
| ReqPrependPath (prefix : string)
| ReqRewritePath (rewrite : PathRewrite)
| ReqRewriteHostname (hostname : string).

(** Filters applied to the response before sending downstream. *)
Inductive ResponseFilter :=
| RespSetHeader (name value : string)
| RespAddHeader (name value : string)
| RespRemoveHeader (name : string)
| RespCors (cors : CorsConfig).

(** Application protocol to use for a backend connection. *)
Inductive BackendProtocol :=
| BackendHttp | BackendH2c | BackendHttps | BackendWebSocket | BackendWebSocketSecure.

(** TLS settings for an upstream backend. *)
Record BackendTlsConfig := {
  bt_sni : string;
  bt_verify_hostname : bool;
  bt_alternative_cn : option string;
  bt_client_cert_id : option string;
  bt_ca_bundle_pem : option string;
  bt_subject_alt_names : list string;
}.

(** Backend with a traffic-split weight. *)
Record WeightedBackend := {
  wb_backend : string;
  wb_weight : Z;
  wb_request_filters : list RequestFilter;
  wb_protocol : BackendProtocol;
  wb_tls : option BackendTlsConfig;
}.

(** Cache policy for a route. *)
Record CachePolicy := {
  cp_enabled : bool;
  cp_default_ttl_secs : Z;
  cp_respect_cache_headers : bool;
  cp_stale_while_revalidate_secs : Z;
  cp_max_file_size : Z;
}.

(** Body find/replace rule. *)
Record BodyRewrite := {
  br_find : string;
  br_replace : string;
  br_types : list string;
}.

(** Auth subrequest configuration. *)
Record AuthConfig := {
  auth_url : string;
  auth_capture_headers : list string;
}.

(** URL rewrite rule for static files. *)
Record RewriteRule := {
  rw_pattern : string;
  rw_target : string;
}.

(** A fractional value used for probabilistic request mirroring. *)
Record Fraction := {
  numerator : Z;
  denominator : Z;
}.

(** Forward the request to an upstream backend. *)
Record RouteAction := {
  ra_backends : list WeightedBackend;
  ra_timeout : option Z;
  ra_request_filters : list RequestFilter;
  ra_response_filters : list ResponseFilter;
  ra_mirror_backends : list string;
  ra_mirror_fractions : list (option Fraction);
  ra_cache : option CachePolicy;
  ra_body_rewrites : list BodyRewrite;
  ra_auth : option AuthConfig;
  ra_websocket : bool;
  ra_disable_https_redirect : bool;
  ra_client_cert_id : option string;
}.

(** Return a redirect response to the client. *)
Record RedirectAction := {
  rd_status_code : Z;
  rd_scheme : option string;
  rd_hostname : option string;
  rd_port : option Z;
  rd_path : option PathRewrite;
}.

(** Serve static files from disk. *)
Record StaticFileAction := {
  sf_root : string;
  sf_fallback : option string;
  sf_rewrites : list RewriteRule;
  sf_extra_headers : list (string * string);
}.

(** Return a fixed response without forwarding. *)
Record FixedResponseAction := {
  fr_status : Z;
  fr_headers : list (string * string);
  fr_body : option string;
}.

(** What to do when a rule matches. *)
Inductive Action :=
| ActRoute (ra : RouteAction)
| ActRedirect (rd : RedirectAction)
| ActStaticFiles (sf : StaticFileAction)
| ActFixedResponse (fr : FixedResponseAction).

(** A single rule: matches and action. *)
Record Rule := {
  rule_matches : list RequestMatch;
  rule_action : Action;
  rule_order : Z;
}.

#[export] Instance CorsConfig_eq_dec : EqDecision CorsConfig.
Proof. solve_decision. Defined.
#[export] Instance RequestFilter_eq_dec : EqDecision RequestFilter.
Proof. solve_decision. Defined.
#[export] Instance ResponseFilter_eq_dec : EqDecision ResponseFilter.
Proof. solve_decision. Defined.
#[export] Instance BackendProtocol_eq_dec : EqDecision BackendProtocol.
Proof. solve_decision. Defined.
#[export] Instance BackendTlsConfig_eq_dec : EqDecision BackendTlsConfig.
Proof. solve_decision. Defined.
#[export] Instance WeightedBackend_eq_dec : EqDecision WeightedBackend.
Proof. solve_decision. Defined.
#[export] Instance CachePolicy_eq_dec : EqDecision CachePolicy.
Proof. solve_decision. Defined.
#[export] Instance BodyRewrite_eq_dec : EqDecision BodyRewrite.
Proof. solve_decision. Defined.
#[export] Instance AuthConfig_eq_dec : EqDecision AuthConfig.
Proof. solve_decision. Defined.
#[export] Instance RewriteRule_eq_dec : EqDecision RewriteRule.
Proof. solve_decision. Defined.
#[export] Instance Fraction_eq_dec : EqDecision Fraction.
Proof. solve_decision. Defined.
#[export] Instance RouteAction_eq_dec : EqDecision RouteAction.
Proof. solve_decision. Defined.
#[export] Instance RedirectAction_eq_dec : EqDecision RedirectAction.
Proof. solve_decision. Defined.
#[export] Instance StaticFileAction_eq_dec : EqDecision StaticFileAction.
Proof. solve_decision. Defined.
#[export] Instance FixedResponseAction_eq_dec : EqDecision FixedResponseAction.
Proof. solve_decision. Defined.
#[export] Instance Action_eq_dec : EqDecision Action.
Proof. solve_decision. Defined.
#[export] Instance Rule_eq_dec : EqDecision Rule.
Proof. solve_decision. Defined.

(** ** Hosts, listeners and L4 routes *)

(** All rules that share a hostname matcher. *)
Record HostRoute := {
  hr_hostname : HostnameMatch;
  hr_listener_ids : list string;
  hr_listener_hostname : option HostnameMatch;
  hr_listener_port : option Z;
  hr_gateway_api : bool;
  hr_disable_secure_redirection : bool;
  hr_rules : list Rule;
}.

(** Transport protocol for a listener. *)
Inductive Protocol := Http | Https | Tcp | Udp | Tls.

(** TLS configuration for a listener. *)
Inductive TlsConfig :=
| TlsRegistry (cert_id : string)
| TlsFiles (cert_path key_path : string).

(** Frontend client-certificate validation configuration for a listener. *)
Record FrontendValidation := {
  fv_ca_bundle_pem : string;
  fv_allow_insecure_fallback : bool;
}.

(** A listener that the proxy binds to. *)
Record ListenerConfig := {
  lc_id : string;
  lc_bind_addr : string;
  lc_protocol : Protocol;
  lc_tls : option TlsConfig;
  lc_redirect_http_to_https : bool;
  lc_frontend_validation : option FrontendValidation;
}.

(** L4 match condition. *)
Inductive L4Match :=
| L4Any
| L4Sni (h : HostnameMatch).

(** L4 action. *)
Inductive L4Action :=
| TcpRelay (bs : list WeightedBackend)
| UdpRelay (bs : list WeightedBackend)
| TlsPassthrough (bs : list WeightedBackend)
| TlsTerminate (bs : list WeightedBackend)
| TerminateAndHttp (target : string)
| HttpRelay (target : string).

(** L4 route (TCPRoute / UDPRoute / TLSRoute). *)
Record L4Route := {
  l4r_listener_id : string;
  l4r_listener_hostname : HostnameMatch;
  l4r_match : L4Match;
  l4r_action : L4Action;
}.

(** Source of TLS certificate material. *)
Inductive TlsCertSource :=
| CertFiles (cert_path key_path : string)
| CertSecret (namespace name : string).

(** TLS certificate configuration referenced by id. *)
Record TlsCertConfig := {
  tc_id : string;
  tc_source : TlsCertSource;
}.

(** Canonical route table: produced by any config source, consumed by the compiler. *)
Record RouteTable := {
  rt_listeners : list ListenerConfig;
  rt_hosts : list HostRoute;
  rt_acme_routes : gmap string string;
  rt_l4_routes : list L4Route;
  rt_tls_certs : list TlsCertConfig;
}.

(** [RouteTable::default()]. *)
Definition RouteTable_default : RouteTable :=
  {| rt_listeners := []; rt_hosts := []; rt_acme_routes := ∅; rt_l4_routes := [];
     rt_tls_certs := [] |}.

#[export] Instance HostRoute_eq_dec : EqDecision HostRoute.
Proof. solve_decision. Defined.
#[export] Instance Protocol_eq_dec : EqDecision Protocol.
Proof. solve_decision. Defined.
#[export] Instance TlsConfig_eq_dec : EqDecision TlsConfig.
Proof. solve_decision. Defined.
#[export] Instance FrontendValidation_eq_dec : EqDecision FrontendValidation.
Proof. solve_decision. Defined.
#[export] Instance ListenerConfig_eq_dec : EqDecision ListenerConfig.
Proof. solve_decision. Defined.
#[export] Instance L4Match_eq_dec : EqDecision L4Match.
Proof. solve_decision. Defined.
#[export] Instance L4Action_eq_dec : EqDecision L4Action.
Proof. solve_decision. Defined.
#[export] Instance L4Route_eq_dec : EqDecision L4Route.
Proof. solve_decision. Defined.
#[export] Instance TlsCertSource_eq_dec : EqDecision TlsCertSource.
Proof. solve_decision. Defined.
#[export] Instance TlsCertConfig_eq_dec : EqDecision TlsCertConfig.
Proof. solve_decision. Defined.
#[export] Instance RouteTable_eq_dec : EqDecision RouteTable.
Proof. solve_decision. Defined.

(** [Protocol] is a hash-map key in the listener merge. *)
Definition protocol_code (p : Protocol) : nat :=
  match p with Http => 0 | Https => 1 | Tcp => 2 | Udp => 3 | Tls => 4 end%nat.

Definition protocol_of_code (n : nat) : option Protocol :=
  match n with
  | 0 => Some Http | 1 => Some Https | 2 => Some Tcp | 3 => Some Udp | 4 => Some Tls
  | _ => None
  end%nat.

#[export] Program Instance Protocol_countable : Countable Protocol :=
  inj_countable protocol_code protocol_of_code _.
Next Obligation. by intros []. Qed.

(** [{:?}] of a [Protocol]. *)
Definition protocol_debug (p : Protocol) : string :=
  match p with
  | Http => "Http" | Https => "Https" | Tcp => "Tcp" | Udp => "Udp" | Tls => "Tls"
  end.
