(* ===== verification/Hostname.v ===== *)
(** * Hostname matching, specificity and intersection.

    The request-time matcher of [src/ir/compile.rs] ([ir_hostname_matches] and the
    specificity scores) and the control-plane intersection of
    [src/gateway/translate/hostnames.rs]. The theorems show that the syntactic
    subset test and intersection of the control plane compute exactly the set
    inclusion and set intersection of what the request-time matcher accepts. *)

From S2P Require Import Prelude Ir.

(** ** Request-time matching ([ir/compile.rs]) *)

Definition dot : ascii := ".".

(** [ir_hostname_matches]. *)
Definition ir_hostname_matches (host : string) (hm : HostnameMatch) : bool :=
  match hm with
  | HostExact s => bool_decide (host = s)
  | HostPrefix prefix =>
      bool_decide (host = prefix) || starts_with host (prefix +:+ ".")
  | HostWildcard suffix =>
      match strip_suffix suffix host ≫= strip_suffix "." with
      | Some rest => negb (str_is_empty rest)
      | None => false
      end
  | HostAny => true
  end.

(** [ir_listener_specificity_score]. *)
Definition ir_listener_specificity_score (hm : HostnameMatch) : Z :=
  match hm with
  | HostExact s => if decide (s = "") then 0 else 1000
  | HostPrefix _ => 500
  | HostWildcard s => 100 + Z.of_nat (count_char dot s)
  | HostAny => 0
  end.

(** [specificity_score]. *)
Definition specificity_score (hm : HostnameMatch) : Z :=
  match hm with
  | HostExact _ => 1000
  | HostPrefix _ => 500
  | HostWildcard s => 100 + Z.of_nat (count_char dot s)
  | HostAny => 0
  end.

(** [listener_hostname_matches]. *)
Definition listener_hostname_matches (host : string) (listener : option HostnameMatch) : bool :=
  match listener with
  | None => true
  | Some (HostExact s as lh) => if decide (s = "") then true else ir_hostname_matches host lh
  | Some lh => ir_hostname_matches host lh
  end.

(** [listener_port_matches]. *)
Definition listener_port_matches (port : Z) (listener_port : option Z) : bool :=
  match listener_port with None => true | Some p => p =? port end.

(** [listener_specificity_score]. *)
Definition listener_specificity_score (listener : option HostnameMatch) : Z :=
  match listener with
  | None => 0
  | Some HostAny => 0
  | Some (HostExact s as lh) => if decide (s = "") then 0 else ir_listener_specificity_score lh
  | Some lh => ir_listener_specificity_score lh
  end.

(** ** Control-plane hostnames ([gateway/model/routing.rs], [gateway/translate]) *)

(** The Gateway API model has no [Prefix] variant. *)
Inductive GwHostnameMatch :=
| GwExact (s : string)
| GwWildcard (s : string)
| GwAny.

#[export] Instance GwHostnameMatch_eq_dec : EqDecision GwHostnameMatch.
Proof. solve_decision. Defined.

(** [parse_listener_hostname]. *)
Definition parse_listener_hostname (hostname : string) : GwHostnameMatch :=
  match strip_prefix "*." hostname with
  | Some rest => GwWildcard rest
  | None => GwExact hostname
  end.

(** [hostname_to_prefix]. *)
Definition hostname_to_prefix (h : GwHostnameMatch) : string :=
  match h with
  | GwExact s => s
  | GwWildcard s => "*." +:+ s
  | GwAny => "*"
  end.

(** [to_ir_hostname]. *)
Definition to_ir_hostname (h : GwHostnameMatch) : HostnameMatch :=
  match h with
  | GwExact s => HostExact s
  | GwWildcard s => HostWildcard s
  | GwAny => HostAny
  end.

(** [is_hostname_subset]. *)
Definition is_hostname_subset (child parent : GwHostnameMatch) : bool :=
  match child, parent with
  | _, GwAny => true
  | GwExact c, GwExact p => bool_decide (c = p)
  | GwExact c, GwWildcard p =>
      match strip_suffix p c ≫= strip_suffix "." with
      | Some rest => negb (str_is_empty rest)
      | None => false
      end
  | GwWildcard c, GwWildcard p =>
      bool_decide (c = p) ||
      match strip_suffix p c with
      | Some rest => ends_with rest "."
      | None => false
      end
  | _, _ => false
  end.

(** [hostname_intersects]. *)
Definition hostname_intersects (a b : GwHostnameMatch) : bool :=
  is_hostname_subset a b || is_hostname_subset b a.

(** [intersect_hostname_pair]. *)
Definition intersect_hostname_pair (a b : GwHostnameMatch) : option GwHostnameMatch :=
  if is_hostname_subset a b then Some a
  else if is_hostname_subset b a then Some b
  else None.

(** [intersect_hostnames]. *)
Definition intersect_hostnames (route_hostnames : list GwHostnameMatch)
    (listener_hostname : option string) : list GwHostnameMatch :=
  match listener_hostname with
  | None => route_hostnames
  | Some lh => omap (λ rh, intersect_hostname_pair rh (parse_listener_hostname lh)) route_hostnames
  end.

(** [reconcile::parent::listener_hostname_intersects]. *)
Definition listener_hostname_intersects (listener_hostname : option string)
    (route_hostnames : list GwHostnameMatch) : bool :=
  match route_hostnames, listener_hostname with
  | [], _ => true
  | _, None => true
  | _, Some lh =>
      existsb (λ rh, hostname_intersects rh (parse_listener_hostname lh)) route_hostnames
  end.

(** ** Lemmas *)

(** The set of hosts a control-plane pattern stands for. *)
Definition gw_matches (h : GwHostnameMatch) (host : string) : Prop :=
  ir_hostname_matches host (to_ir_hostname h) = true.

Lemma str_app_eq_length s t s' t' :
  String.length s = String.length s' → s +:+ t = s' +:+ t' → s = s' ∧ t = t'.
Proof.
  revert s'. induction s as [|a s IH]; intros [|b s'] Hl Heq; simpl in Hl; [|lia..|].
  - by rewrite !str_app_nil_l in Heq.
  - rewrite !str_app_cons in Heq. simplify_eq.
    destruct (IH s') as [-> ->]; [lia|done..].
Qed.

(** Two suffixes of one string are comparable: the longer ends with the shorter. *)
Lemma str_app_suffix_le s t s' t' :
  s +:+ t = s' +:+ t' → (String.length t' ≤ String.length t)%nat →
  ∃ r, t = r +:+ t' ∧ s' = s +:+ r.
Proof.
  revert s'. induction s as [|a s IH]; intros s' Heq Hl.
  - exists s'. by rewrite str_app_nil_l in Heq.
  - destruct s' as [|b s'].
    + rewrite str_app_nil_l in Heq. apply (f_equal String.length) in Heq.
      rewrite str_app_cons in Heq. simpl in Heq. rewrite str_length_app in Heq. lia.
    + rewrite !str_app_cons in Heq. simplify_eq.
      destruct (IH s') as (r & -> & ->); [done..|]. by exists r.
Qed.

Lemma wildcard_test_spec suf s :
  match strip_suffix suf s ≫= strip_suffix "." with
  | Some rest => negb (str_is_empty rest)
  | None => false
  end = true ↔ ∃ x, x ≠ "" ∧ s = x +:+ String dot suf.
Proof.
  unfold str_is_empty. split.
  - destruct (strip_suffix suf s) as [r|] eqn:Hr; simpl; [|done].
    destruct (strip_suffix "." r) as [x|] eqn:Hx; [|done]. intros ?. simp_bool.
    apply strip_suffix_Some in Hr as ->. apply strip_suffix_Some in Hx as ->.
    exists x. by rewrite str_app_assoc.
  - intros (x & Hx & ->).
    assert (strip_suffix suf (x +:+ String dot suf) = Some (x +:+ ".")) as ->.
    { apply strip_suffix_Some. by rewrite str_app_assoc. }
    simpl. assert (strip_suffix "." (x +:+ ".") = Some x) as -> by by apply strip_suffix_Some.
    by rewrite bool_decide_eq_false_2.
Qed.

Lemma gw_matches_exact s host : gw_matches (GwExact s) host ↔ host = s.
Proof. unfold gw_matches. simpl. by rewrite bool_decide_eq_true. Qed.

Lemma gw_matches_wildcard suf host :
  gw_matches (GwWildcard suf) host ↔ ∃ x, x ≠ "" ∧ host = x +:+ String dot suf.
Proof. apply wildcard_test_spec. Qed.

Lemma gw_matches_any host : gw_matches GwAny host.
Proof. done. Qed.

Lemma subset_wildcards c p :
  is_hostname_subset (GwWildcard c) (GwWildcard p) = true ↔
  c = p ∨ ∃ r, c = r +:+ String dot p.
Proof.
  simpl. rewrite orb_true_iff, bool_decide_eq_true. f_equiv. split.
  - destruct (strip_suffix p c) as [r|] eqn:Hr; [|done].
    intros [r' ->]%ends_with_spec. apply strip_suffix_Some in Hr as ->.
    exists r'. by rewrite str_app_assoc.
  - intros [r ->].
    assert (strip_suffix p (r +:+ String dot p) = Some (r +:+ ".")) as ->.
    { apply strip_suffix_Some. by rewrite str_app_assoc. }
    apply ends_with_spec. by exists r.
Qed.

Lemma subset_exact_wildcard c p :
  is_hostname_subset (GwExact c) (GwWildcard p) = true ↔ gw_matches (GwWildcard p) c.
Proof. done. Qed.

Lemma wildcard_member (x suf : string) : x ≠ "" → gw_matches (GwWildcard suf) (x +:+ String dot suf).
Proof. intros. apply gw_matches_wildcard. eauto. Qed.

(** Two wildcard patterns that share a host are nested. *)
Lemma wildcards_nested p q host :
  gw_matches (GwWildcard p) host → gw_matches (GwWildcard q) host →
  (String.length q ≤ String.length p)%nat →
  is_hostname_subset (GwWildcard p) (GwWildcard q) = true.
Proof.
  intros (x & Hx & ->)%gw_matches_wildcard (y & Hy & Heq)%gw_matches_wildcard Hl.
  apply subset_wildcards.
  destruct (str_app_suffix_le _ _ _ _ Heq) as (r & Hr & _); [simpl; lia|].
  destruct r as [|a r].
  - rewrite str_app_nil_l in Hr. simplify_eq. by left.
  - rewrite str_app_cons in Hr. simplify_eq. right. eauto.
Qed.

Lemma hostname_subset_sound c p host :
  is_hostname_subset c p = true → gw_matches c host → gw_matches p host.
Proof.
  destruct p as [p|p|]; [..|done].
  - destruct c as [c|c|]; simpl; intros; simp_bool; by subst.
  - destruct c as [c|c|]; [..|done].
    + intros Hs ->%gw_matches_exact. by apply subset_exact_wildcard.
    + intros [->|[r ->]]%subset_wildcards; [done|].
      intros (x & Hx & ->)%gw_matches_wildcard.
      apply gw_matches_wildcard. exists (x +:+ String dot r). split; [by destruct x|].
      by rewrite str_app_assoc, str_app_cons.
Qed.

Lemma intersect_pair_exact (a b : GwHostnameMatch) (host : string) :
  (gw_matches a host ∧ gw_matches b host) ↔
  match intersect_hostname_pair a b with
  | Some i => gw_matches i host
  | None => False
  end.
Proof.
  unfold intersect_hostname_pair.
  destruct (is_hostname_subset a b) eqn:Hab;
    [pose proof (hostname_subset_sound a b host Hab); tauto|].
  destruct (is_hostname_subset b a) eqn:Hba;
    [pose proof (hostname_subset_sound b a host Hba); tauto|].
  split; [|done]. intros [Ha Hb].
  destruct a as [a|a|], b as [b|b|]; try done.
  - apply gw_matches_exact in Ha, Hb. subst. simpl in Hab. simp_bool. done.
  - apply gw_matches_exact in Ha as ->.
    by rewrite (proj2 (subset_exact_wildcard _ _) Hb) in Hab.
  - apply gw_matches_exact in Hb as ->.
    by rewrite (proj2 (subset_exact_wildcard _ _) Ha) in Hba.
  - destruct (Nat.le_ge_cases (String.length b) (String.length a)).
    + by rewrite (wildcards_nested a b host) in Hab.
    + by rewrite (wildcards_nested b a host) in Hba.
Qed.

(** ** Properties *)

(** The syntactic subset test is exactly inclusion of the hosts matched at request
    time, on every pair of patterns. *)
Theorem hostname_subset_iff_inclusion (c p : GwHostnameMatch) :
  is_hostname_subset c p = true ↔
  ∀ host, ir_hostname_matches host (to_ir_hostname c) = true →
          ir_hostname_matches host (to_ir_hostname p) = true.
Proof.
  split; [intros Hs host; by apply hostname_subset_sound|].
  change (_ → is_hostname_subset c p = true)
    with ((∀ host, gw_matches c host → gw_matches p host) → is_hostname_subset c p = true).
  destruct p as [p|p|]; [..|by destruct c]; destruct c as [c|c|]; intros H.
  - simpl. apply bool_decide_eq_true, gw_matches_exact, H. by apply gw_matches_exact.
  - pose proof (H _ (wildcard_member "a" c ltac:(done))) as Ha%gw_matches_exact.
    pose proof (H _ (wildcard_member "b" c ltac:(done))) as Hb%gw_matches_exact.
    by rewrite <-Hb in Ha.
  - pose proof (H "a" (gw_matches_any _)) as <-%gw_matches_exact.
    by pose proof (H "b" (gw_matches_any _)) as ?%gw_matches_exact.
  - apply subset_exact_wildcard, H. by apply gw_matches_exact.
  - pose proof (wildcard_member "a" c ltac:(done)) as Ha.
    destruct (decide (String.length p ≤ String.length c)%nat) as [Hl|Hl];
      [eapply wildcards_nested; eauto|].
    exfalso. apply H in Ha as (x & Hx & Heq)%gw_matches_wildcard.
    apply (f_equal String.length) in Heq. rewrite !str_length_app in Heq.
    destruct x; [done|]. simpl in Heq. lia.
  - pose proof (H "" (gw_matches_any _)) as (x & Hx & Heq)%gw_matches_wildcard.
    by destruct x.
Qed.

(** A route attached to a listener accepts, through its intersected hostnames,
    exactly the hosts accepted by the listener hostname and by one of the
    route's own hostnames. *)
Lemma intersect_hostnames_exact (rhs : list GwHostnameMatch) (lh host : string) :
  (∃ h, h ∈ intersect_hostnames rhs (Some lh) ∧ gw_matches h host) ↔
  gw_matches (parse_listener_hostname lh) host ∧ ∃ rh, rh ∈ rhs ∧ gw_matches rh host.
Proof.
  simpl. setoid_rewrite list_elem_of_omap. split.
  - intros (h & (rh & Hrh & Hi) & Hh).
    pose proof (intersect_pair_exact rh (parse_listener_hostname lh) host) as Hx.
    rewrite Hi in Hx. naive_solver.
  - intros (Hlh & rh & Hrh & Hm).
    pose proof (intersect_pair_exact rh (parse_listener_hostname lh) host) as Hx.
    destruct (intersect_hostname_pair _ _) as [i|] eqn:Hi; [|tauto]. naive_solver.
Qed.

(** The attachment test agrees with the intersection: a listener with a hostname
    accepts a route with hostnames exactly when the intersection is not empty. *)
Theorem listener_hostname_intersects_iff (rhs : list GwHostnameMatch) (lh : string) :
  rhs ≠ [] →
  listener_hostname_intersects (Some lh) rhs = true ↔ intersect_hostnames rhs (Some lh) ≠ [].
Proof.
  intros Hne. trans (∃ rh, rh ∈ rhs ∧ hostname_intersects rh (parse_listener_hostname lh) = true).
  - destruct rhs as [|rh rhs]; [done|]. unfold listener_hostname_intersects.
    rewrite existsb_exists. by setoid_rewrite list_elem_of_In.
  - trans (∃ h, h ∈ intersect_hostnames rhs (Some lh)); simpl.
    + setoid_rewrite list_elem_of_omap.
      unfold hostname_intersects, intersect_hostname_pair. split.
      * intros (rh & Hrh & Hi). destruct (is_hostname_subset rh _) eqn:Ha; [by exists rh, rh; rewrite Ha|].
        exists (parse_listener_hostname lh), rh. rewrite Ha. simpl in Hi. by rewrite Hi.
      * intros (h & rh & Hrh & Hi). exists rh. split; [done|]. by repeat case_match.
    + destruct (omap _ _) as [|h hs]; split; [|done..|].
      * by intros [h ?%elem_of_nil].
      * intros _. exists h. left.
Qed.

Lemma listener_hostname_intersects_iff_witness :
  listener_hostname_intersects (Some "*.example.com") [GwExact "a.example.com"] = true.
Proof. apply listener_hostname_intersects_iff; [done|]. vm_compute. discriminate. Defined.
