(* ===== verification/Compile.v ===== *)
(** * The route compiler ([src/ir/compile.rs], lines 1 to 1090).

    [RouteTable] to [CompiledRouteTable]: plans, the path trie, the adaptive
    discriminators and the host index. Definitions follow the source function by
    function; the compiled table is consumed by [Lookup]. *)

From S2P Require Import Prelude Ir Hostname.

(** ** Compiled data *)

(** [DISCRIMINATOR_THRESHOLD]. *)
Definition DISCRIMINATOR_THRESHOLD : nat := 8.

(** Terminal actions that short-circuit before upstream. *)
Inductive TerminalAction :=
| TermRedirect (rd : RedirectAction)
| TermFixedResponse (status : Z) (headers : list (string * string)) (body : option string)
| TermNotFound.

(** Mutations applied in [upstream_request_filter]. *)
Inductive UpstreamRequestMutation :=
| MutSetHeader (name value : string)
| MutAddHeader (name value : string)
| MutRemoveHeader (name : string)
| MutStripPrefix (prefix : string)
| MutPrependPath (prefix : string)
| MutRewritePath (rewrite : PathRewrite)
| MutRewriteHostname (hostname : string).

(** Mutations applied in [upstream_response_filter]. *)
Inductive ResponseMutation :=
| RmSetHeader (name value : string)
| RmAddHeader (name value : string)
| RmRemoveHeader (name : string)
| RmCors (cors : CorsConfig).

(** Upstream selection executed in [upstream_peer]. *)
Record UpstreamAction := {
  ua_backends : list WeightedBackend;
  ua_timeout : option Z;
  ua_mirror : list string;
  ua_mirror_fractions : list (option Fraction);
  ua_backend_request_mutations : list (list UpstreamRequestMutation);
}.

(** Stages executed in [request_filter]. *)
Inductive RequestStage :=
| StageAuth (auth : AuthConfig)
| StageCorsPreflight (cors : CorsConfig)
| StageStaticFiles (sf : StaticFileAction)
| StageTerminal (t : TerminalAction).

(** A single compiled execution plan for a matched rule. *)
Record CompiledPlan := {
  precedence : Z;
  plan_rule_order : Z;
  plan_gateway_api : bool;
  plan_disable_secure_redirection : bool;
  plan_listener_hostname : option HostnameMatch;
  plan_match : RequestMatch;
  request_stages : list RequestStage;
  upstream : option UpstreamAction;
  upstream_request_mutations : list UpstreamRequestMutation;
  response_mutations : list ResponseMutation;
  body_rewrites : list BodyRewrite;
  plan_cache : option CachePolicy;
  websocket : bool;
  plan_client_cert_id : option string;
}.

(** [Arc<CompiledPlan>]: the plan and the identity of its allocation, which the
    lookup observes with [Arc::as_ptr]. *)
Record PlanRef := {
  plan_ptr : nat;
  plan : CompiledPlan;
}.

(** Kind of adaptive discriminator. *)
Inductive DiscriminatorKind :=
| ByMethod (exact : gmap string (list PlanRef)) (any : list PlanRef)
| ByHeader (name : string) (exact : gmap string (list PlanRef)) (any : list PlanRef)
| ByQuery (name : string) (exact : gmap string (list PlanRef)) (any : list PlanRef).

(** Adaptive discriminator: splits a plan set by the most discriminating attribute. *)
Record Discriminator := {
  disc_kind : DiscriminatorKind;
  disc_fallback : list PlanRef;
}.

(** Path segment trie node. *)
Inductive PathTrieNode := TrieNode {
  exact_children : gmap string PathTrieNode;
  prefix_plans : list PlanRef;
  exact_plans : list PlanRef;
  discriminator : option Discriminator;
}.

(** [PathTrieNode::default()]. *)
Definition PathTrieNode_default : PathTrieNode := TrieNode ∅ [] [] None.

(** A compiled host route: contains the path trie for this hostname. *)
Record HostNode := {
  hn_hostname : HostnameMatch;
  hn_listener_ids : list string;
  hn_listener_hostname : option HostnameMatch;
  hn_listener_port : option Z;
  hn_gateway_api : bool;
  hn_disable_secure_redirection : bool;
  path_trie : PathTrieNode;
  exact_paths : gmap string (list PlanRef);
  regex_plans : list PlanRef;
  static_rewrites : list RewriteRule;
}.

(** Optimized route table ready for the proxy hot path. *)
Record CompiledRouteTable := {
  exact_hosts : gmap string (list HostNode);
  wildcard_hosts : list (HostnameMatch * HostNode);
  any_host : option HostNode;
  acme_routes : gmap string string;
}.

(** [CompiledRouteTable::empty()]. *)
Definition CompiledRouteTable_empty : CompiledRouteTable :=
  {| exact_hosts := ∅; wildcard_hosts := []; any_host := None; acme_routes := ∅ |}.

(** Compilation error. *)
Record CompileError := { message : string }.

(** ** Plans *)

(** [compile_request_filter]. *)
Definition compile_request_filter (filter : RequestFilter) : UpstreamRequestMutation :=
  match filter with
  | ReqSetHeader name value => MutSetHeader name value
  | ReqAddHeader name value => MutAddHeader name value
  | ReqRemoveHeader name => MutRemoveHeader name
  | ReqStripPrefix p => MutStripPrefix p
  | ReqPrependPath p => MutPrependPath p
  | ReqRewritePath pr => MutRewritePath pr
  | ReqRewriteHostname h => MutRewriteHostname h
  end.

(** The response-filter loop of [compile_plan]. *)
Definition compile_response_filter (f : ResponseFilter) : ResponseMutation :=
  match f with
  | RespSetHeader name value => RmSetHeader name value
  | RespAddHeader name value => RmAddHeader name value
  | RespRemoveHeader name => RmRemoveHeader name
  | RespCors c => RmCors c
  end.

Definition path_match_str (p : PathMatch) : string :=
  match p with PathPrefix s | PathExact s | PathRegex s => s end.

(** [iter.max().unwrap_or(0)] on lengths. *)
Definition max_or_zero (l : list Z) : Z := foldr Z.max 0 l.

(** [compute_precedence]: four fields packed in a [u64]; the shifts drop the bits
    above 64. *)
Definition compute_precedence (rule : Rule) : Z :=
  let ms := rule_matches rule in
  let path_len := max_or_zero ((λ p, str_len (path_match_str p)) <$> omap rm_path ms) in
  let method_specificity :=
    max_or_zero ((λ m, if rm_method m is Some _ then 1 else 0) <$> ms) in
  let header_count := max_or_zero ((λ m, Z.of_nat (length (rm_headers m))) <$> ms) in
  let query_count := max_or_zero ((λ m, Z.of_nat (length (rm_query_params m))) <$> ms) in
  Z.lor (Z.lor (Z.lor (wrap 64 (Z.shiftl path_len 48))
                      (wrap 64 (Z.shiftl method_specificity 32)))
               (wrap 64 (Z.shiftl header_count 16)))
        query_count.

(** [compile_plan]. *)
Definition compile_plan (rule : Rule) (prec : Z) (m : RequestMatch) (gateway_api : bool)
    (disable_secure_redirection : bool) (listener_hostname : option HostnameMatch) :
    result CompiledPlan CompileError :=
  let mk stages up req_muts resp_muts bodies cache ws cert :=
    Ok {| precedence := prec; plan_rule_order := rule_order rule;
          plan_gateway_api := gateway_api;
          plan_disable_secure_redirection := disable_secure_redirection;
          plan_listener_hostname := listener_hostname; plan_match := m;
          request_stages := stages; upstream := up; upstream_request_mutations := req_muts;
          response_mutations := resp_muts; body_rewrites := bodies; plan_cache := cache;
          websocket := ws; plan_client_cert_id := cert |} in
  match rule_action rule with
  | ActRoute ra =>
      mk (match ra_auth ra with Some auth => [StageAuth auth] | None => [] end)
         (Some {| ua_backends := ra_backends ra; ua_timeout := ra_timeout ra;
                  ua_mirror := ra_mirror_backends ra;
                  ua_mirror_fractions := ra_mirror_fractions ra;
                  ua_backend_request_mutations :=
                    (λ b, compile_request_filter <$> wb_request_filters b) <$> ra_backends ra |})
         (compile_request_filter <$> ra_request_filters ra)
         (compile_response_filter <$> ra_response_filters ra)
         (ra_body_rewrites ra) (ra_cache ra) (ra_websocket ra) (ra_client_cert_id ra)
  | ActRedirect rd => mk [StageTerminal (TermRedirect rd)] None [] [] [] None false None
  | ActStaticFiles sf => mk [StageStaticFiles sf] None [] [] [] None false None
  | ActFixedResponse fr =>
      mk [StageTerminal (TermFixedResponse (fr_status fr) (fr_headers fr) (fr_body fr))]
         None [] [] [] None false None
  end.

(** The comparator of [sort_plans]: higher precedence first, then lower rule order. *)
Definition plan_key_le (a b : CompiledPlan) : bool :=
  (precedence b <? precedence a) ||
  ((precedence b =? precedence a) && (plan_rule_order a <=? plan_rule_order b)).

Definition plan_le (a b : PlanRef) : bool := plan_key_le (plan a) (plan b).

(** [sort_plans]. *)
Definition sort_plans (plans : list PlanRef) : list PlanRef := sort_by plan_le plans.

(** ** Trie *)

Definition slash : ascii := "/".

(** [split_path]. *)
Definition split_path (path : string) : list string :=
  filter (λ s, s ≠ "") (str_split slash path).

(** [walk_or_create]: the node reached through [segments], created on the way, is
    updated in place by [f] (the source returns a mutable reference to it). *)
Fixpoint walk_or_create (segments : list string) (f : PathTrieNode → PathTrieNode)
    (trie : PathTrieNode) : PathTrieNode :=
  match segments with
  | [] => f trie
  | segment :: rest =>
      let child := default PathTrieNode_default (exact_children trie !! segment) in
      TrieNode (<[segment := walk_or_create rest f child]> (exact_children trie))
        (prefix_plans trie) (exact_plans trie) (discriminator trie)
  end.

Definition push_prefix_plan (p : PlanRef) (n : PathTrieNode) : PathTrieNode :=
  TrieNode (exact_children n) (prefix_plans n ++ [p]) (exact_plans n) (discriminator n).

Definition push_exact_plan (p : PlanRef) (n : PathTrieNode) : PathTrieNode :=
  TrieNode (exact_children n) (prefix_plans n) (exact_plans n ++ [p]) (discriminator n).

(** [insert_plan_into_trie]. *)
Definition insert_plan_into_trie (trie : PathTrieNode) (p : PlanRef) :
    result PathTrieNode CompileError :=
  match rm_path (plan_match (plan p)) with
  | Some (PathPrefix prefix) => Ok (walk_or_create (split_path prefix) (push_prefix_plan p) trie)
  | Some (PathExact exact) => Ok (walk_or_create (split_path exact) (push_exact_plan p) trie)
  | Some (PathRegex _) => Ok trie
  | None => Ok (push_prefix_plan p trie)
  end.

(** ** Discriminators *)

(** [Iterator::max_by_key]: the last of the maximal elements. *)
Definition max_by_key {A} (key : A → Z) (l : list A) : option A :=
  foldl (λ acc x, match acc with
                  | None => Some x
                  | Some m => if key x <? key m then Some m else Some x
                  end) None l.

Definition count_occurrences (names : list string) : gmap string Z :=
  foldl (λ counts n, <[n := default 0 (counts !! n) + 1]> counts) ∅ names.

(** [count_header_occurrences], [count_query_occurrences]. *)
Definition count_header_occurrences (plans : list PlanRef) : gmap string Z :=
  count_occurrences (plans ≫= λ p, hm_name <$> rm_headers (plan_match (plan p))).

Definition count_query_occurrences (plans : list PlanRef) : gmap string Z :=
  count_occurrences (plans ≫= λ p, qm_name <$> rm_query_params (plan_match (plan p))).

(** The three bins of a discriminator. *)
Inductive bin := BinExact (v : string) | BinAny | BinFallback.

#[export] Instance bin_eq_dec : EqDecision bin.
Proof. solve_decision. Defined.

Definition bin_key (b : bin) : option string :=
  match b with BinExact v => Some v | _ => None end.

Definition method_bin (p : PlanRef) : bin :=
  match rm_method (plan_match (plan p)) with Some m => BinExact m | None => BinAny end.

Definition header_bin (name : string) (p : PlanRef) : bin :=
  match List.find (λ h, bool_decide (hm_name h = name)) (rm_headers (plan_match (plan p))) with
  | Some h => match hm_value h with HeaderExact v => BinExact v | _ => BinFallback end
  | None => BinAny
  end.

Definition query_bin (name : string) (p : PlanRef) : bin :=
  match List.find (λ q, bool_decide (qm_name q = name)) (rm_query_params (plan_match (plan p))) with
  | Some q => match qm_value q with QueryExact v => BinExact v | _ => BinFallback end
  | None => BinAny
  end.

(** The bins of a plan list, each sorted. *)
Definition exact_bins (b : PlanRef → bin) (plans : list PlanRef) : gmap string (list PlanRef) :=
  sort_plans <$> group_by (λ p, bin_key (b p)) plans.

Definition any_bin (b : PlanRef → bin) (plans : list PlanRef) : list PlanRef :=
  sort_plans (filter (λ p, b p = BinAny) plans).

Definition fallback_bin (b : PlanRef → bin) (plans : list PlanRef) : list PlanRef :=
  sort_plans (filter (λ p, b p = BinFallback) plans).

(** [build_method_discriminator], [build_header_discriminator],
    [build_query_discriminator]. *)
Definition build_method_discriminator (plans : list PlanRef) : Discriminator :=
  {| disc_kind := ByMethod (exact_bins method_bin plans) (any_bin method_bin plans);
     disc_fallback := [] |}.

Definition build_header_discriminator (plans : list PlanRef) (name : string) : Discriminator :=
  {| disc_kind := ByHeader name (exact_bins (header_bin name) plans)
                    (any_bin (header_bin name) plans);
     disc_fallback := fallback_bin (header_bin name) plans |}.

Definition build_query_discriminator (plans : list PlanRef) (name : string) : Discriminator :=
  {| disc_kind := ByQuery name (exact_bins (query_bin name) plans)
                    (any_bin (query_bin name) plans);
     disc_fallback := fallback_bin (query_bin name) plans |}.

Section compile.
Context `{!HashOrder}.

(** [build_discriminator]. *)
Definition build_discriminator (plans : list PlanRef) : Discriminator :=
  let method_count :=
    Z.of_nat (length (filter (λ p, is_Some (rm_method (plan_match (plan p)))) plans)) in
  let best_header := max_by_key snd (hash_iter (count_header_occurrences plans)) in
  let best_query := max_by_key snd (hash_iter (count_query_occurrences plans)) in
  let best_header_count := match best_header with Some (_, c) => c | None => 0 end in
  let best_query_count := match best_query with Some (_, c) => c | None => 0 end in
  if (best_header_count <=? method_count) && (best_query_count <=? method_count)
     && (0 <? method_count)
  then build_method_discriminator plans
  else
    let by_query :=
      match best_query with
      | Some (name, _) => build_query_discriminator plans name
      | None => {| disc_kind := ByMethod ∅ []; disc_fallback := plans |}
      end in
    match best_header with
    | Some (name, _) =>
        if best_query_count <=? best_header_count
        then build_header_discriminator plans name else by_query
    | None => by_query
    end.

(** [build_discriminators]. *)
Fixpoint build_discriminators (node : PathTrieNode) : PathTrieNode :=
  match node with
  | TrieNode children prefixes exacts disc =>
      let all_plans := prefixes ++ exacts in
      TrieNode (build_discriminators <$> children) prefixes exacts
        (if decide (DISCRIMINATOR_THRESHOLD < length all_plans)%nat
         then Some (build_discriminator all_plans) else disc)
  end.

(** ** Hosts *)

(** The plan-building loops of [compile_host]. *)
Definition compile_rule_plans (host : HostRoute) (rule : Rule) :
    result (list CompiledPlan) CompileError :=
  result_mapM (λ m, compile_plan rule (compute_precedence rule) m (hr_gateway_api host)
                 (hr_disable_secure_redirection host) (hr_listener_hostname host))
    (rule_matches rule).

Fixpoint compile_rules (host : HostRoute) (rules : list Rule) :
    result (list CompiledPlan) CompileError :=
  match rules with
  | [] => Ok []
  | r :: rs => (let? ps := compile_rule_plans host r in
                let? qs := compile_rules host rs in Ok (ps ++ qs))%result
  end.

(** [Arc::new] on each plan: distinct allocations. *)
Definition alloc_plans (plans : list CompiledPlan) : list PlanRef :=
  imap (λ i p, {| plan_ptr := i; plan := p |}) plans.

Definition plan_path (p : PlanRef) : option PathMatch := rm_path (plan_match (plan p)).

Definition is_regex_plan (p : PlanRef) : bool :=
  match plan_path p with Some (PathRegex _) => true | _ => false end.

Definition exact_path_key (p : PlanRef) : option string :=
  match plan_path p with Some (PathExact path) => Some path | _ => None end.

Definition is_trie_plan (p : PlanRef) : bool :=
  match plan_path p with Some (PathRegex _) | Some (PathExact _) => false | _ => true end.

Fixpoint insert_plans (trie : PathTrieNode) (plans : list PlanRef) :
    result PathTrieNode CompileError :=
  match plans with
  | [] => Ok trie
  | p :: ps => (let? trie' := insert_plan_into_trie trie p in insert_plans trie' ps)%result
  end.

(** [compile_host]. *)
Definition compile_host (host : HostRoute) : result HostNode CompileError :=
  (let? plans := compile_rules host (hr_rules host) in
   let all_plans := alloc_plans plans in
   let trie_plans := filter (λ p, is_trie_plan p = true) all_plans in
   let exact := group_by exact_path_key all_plans in
   let regex := filter (λ p, is_regex_plan p = true) all_plans in
   let? trie := insert_plans PathTrieNode_default trie_plans in
   Ok {| hn_hostname := hr_hostname host;
         hn_listener_ids := hr_listener_ids host;
         hn_listener_hostname := hr_listener_hostname host;
         hn_listener_port := hr_listener_port host;
         hn_gateway_api := hr_gateway_api host;
         hn_disable_secure_redirection := hr_disable_secure_redirection host;
         path_trie := build_discriminators trie;
         exact_paths := sort_plans <$> exact;
         regex_plans := sort_plans regex;
         static_rewrites :=
           hr_rules host ≫= λ r,
             match rule_action r with ActStaticFiles sf => sf_rewrites sf | _ => [] end |})%result.

(** [PathTrieNode::total_plan_count], [HostNode::rules_count]. *)
Fixpoint total_plan_count (node : PathTrieNode) : nat :=
  match node with
  | TrieNode children prefixes exacts _ =>
      length prefixes + length exacts +
      map_fold (λ _ c acc, c + acc) 0 (total_plan_count <$> children)
  end%nat.

Definition rules_count (n : HostNode) : nat :=
  (total_plan_count (path_trie n) + length (regex_plans n))%nat.

(** The comparator of the wildcard sort. *)
Definition wildcard_le (a b : HostnameMatch * HostNode) : bool :=
  (specificity_score b.1 <? specificity_score a.1) ||
  ((specificity_score b.1 =? specificity_score a.1) &&
   bool_decide (rules_count a.2 ≤ rules_count b.2)%nat).

(** One iteration of the host loop of [CompiledRouteTable::compile]. *)
Definition add_host (acc : gmap string (list HostNode) * list (HostnameMatch * HostNode)
                           * option HostNode) (host : HostRoute) (node : HostNode) :=
  let '(exacts, wilds, any) := acc in
  match hr_hostname host with
  | HostExact s => (push_entry s node exacts, wilds, any)
  | HostPrefix _ | HostWildcard _ => (exacts, wilds ++ [(hr_hostname host, node)], any)
  | HostAny => (exacts, wilds, Some node)
  end.

Fixpoint compile_hosts (hosts : list HostRoute)
    (acc : gmap string (list HostNode) * list (HostnameMatch * HostNode) * option HostNode) :
    result (gmap string (list HostNode) * list (HostnameMatch * HostNode) * option HostNode)
      CompileError :=
  match hosts with
  | [] => Ok acc
  | h :: hs => (let? node := compile_host h in compile_hosts hs (add_host acc h node))%result
  end.

(** [CompiledRouteTable::compile]. *)
Definition compile (ir : RouteTable) : result CompiledRouteTable CompileError :=
  (let? (exacts, wilds, any) := compile_hosts (rt_hosts ir) (∅, [], None) in
   Ok {| exact_hosts := exacts; wildcard_hosts := sort_by wildcard_le wilds;
         any_host := any; acme_routes := rt_acme_routes ir |})%result.

End compile.
