(* ===== verification/Lookup.v ===== *)
(** * Runtime route lookup ([src/ir/compile.rs], lines 1090 to 1460).

    [CompiledRouteTable::lookup] and everything below it: host selection, the
    trie walk, the discriminators and the final plan verification. The headline
    theorem relates the optimised lookup (hash maps, trie, discriminators,
    deduplication) to a declarative specification on the uncompiled host route. *)

From S2P Require Import Prelude Ir Hostname Compile.

(** The [regex] crate: [Regex::new(pattern).ok().is_some_and(|re| re.is_match(v))]. *)
Class RegexEngine := regex_is_match : string → string → bool.

(** What the lookup reads of a request. [req_header name] is
    [headers.get(name).and_then(|v| v.to_str().ok())]. *)
Record Request := {
  req_host : string;
  req_port : Z;
  req_path : string;
  req_method : string;
  req_header : string → option string;
  req_query : option string;
}.

(** [extract_query_param]. *)
Definition extract_query_param (query name : string) : option string :=
  find_map (λ pair, let '(key, value) := default (pair, "") (split_once "=" pair) in
                    if decide (key = name) then Some value else None)
    (str_split "&" query).

Section lookup.
Context `{!RegexEngine}.

(** The header loop body of [plan_matches]. *)
Definition header_ok (req : Request) (h : HeaderMatch) : bool :=
  match hm_value h, req_header req (hm_name h) with
  | HeaderExact expected, Some v => eq_ignore_ascii_case v expected
  | HeaderRegex pattern, Some v => regex_is_match pattern v
  | HeaderPresent, Some _ => true
  | HeaderAbsent, None => true
  | _, _ => false
  end.

(** The query loop body of [plan_matches]. *)
Definition query_ok (req : Request) (q : QueryParamMatch) : bool :=
  match qm_value q, req_query req ≫= (λ s, extract_query_param s (qm_name q)) with
  | QueryExact expected, Some v => bool_decide (v = expected)
  | QueryRegex pattern, Some v => regex_is_match pattern v
  | _, None => false
  end.

(** [plan_matches]. *)
Definition plan_matches (req : Request) (p : CompiledPlan) : bool :=
  let m := plan_match p in
  match rm_method m with
  | Some expected => eq_ignore_ascii_case expected (req_method req)
  | None => true
  end &&
  forallb (header_ok req) (rm_headers m) &&
  forallb (query_ok req) (rm_query_params m).

(** [plan_regex_path_matches]. *)
Definition plan_regex_path_matches (p : CompiledPlan) (path : string) : bool :=
  match rm_path (plan_match p) with
  | Some (PathRegex pattern) => regex_is_match pattern path
  | _ => true
  end.

(** [resolve_node_plans]. *)
Definition resolve_node_plans (node : PathTrieNode) (req : Request) : list PlanRef :=
  match discriminator node with
  | Some disc =>
      match disc_kind disc with
      | ByMethod exact any => default [] (exact !! req_method req) ++ any
      | ByHeader name exact any =>
          default [] (req_header req name ≫= λ v, exact !! v) ++ any
      | ByQuery name exact any =>
          default [] (req_query req ≫= λ q, extract_query_param q name ≫= λ v, exact !! v) ++ any
      end ++ disc_fallback disc
  | None => prefix_plans node ++ exact_plans node
  end.

(** The trie walk of [HostNode::lookup]. *)
Fixpoint walk_trie (node : PathTrieNode) (segments : list string) (req : Request) :
    list PlanRef :=
  resolve_node_plans node req ++
  match segments with
  | [] => []
  | segment :: rest =>
      match exact_children node !! segment with
      | Some child => walk_trie child rest req
      | None => []
      end
  end.

(** The final loop of [HostNode::lookup]: deduplicate by allocation identity and
    return the first plan whose conditions hold. *)
Fixpoint first_unseen_match (seen : gset nat) (candidates : list PlanRef) (req : Request) :
    option PlanRef :=
  match candidates with
  | [] => None
  | p :: ps =>
      if decide (plan_ptr p ∈ seen) then first_unseen_match seen ps req
      else if plan_matches req (plan p) then Some p
      else first_unseen_match ({[plan_ptr p]} ∪ seen) ps req
  end.

(** [HostNode::lookup]. *)
Definition host_lookup (node : HostNode) (req : Request) : option PlanRef :=
  match exact_paths node !! req_path req ≫= List.find (λ p, plan_matches req (plan p)) with
  | Some p => Some p
  | None =>
      let candidates :=
        walk_trie (path_trie node) (split_path (req_path req)) req ++
        filter (λ p, plan_matches req (plan p) && plan_regex_path_matches (plan p) (req_path req) = true)
          (regex_plans node) in
      first_unseen_match ∅ (sort_plans candidates) req
  end.

(** The candidate collection shared by [find_host_node] and
    [has_gateway_api_listener]. *)
Definition host_candidates (t : CompiledRouteTable) (host : string) : list HostNode :=
  default [] (exact_hosts t !! host) ++
  (snd <$> filter (λ pn, ir_hostname_matches host pn.1 = true) (wildcard_hosts t)) ++
  option_list (any_host t).

Definition listener_accepts (host : string) (port : Z) (n : HostNode) : bool :=
  listener_hostname_matches host (hn_listener_hostname n) &&
  listener_port_matches port (hn_listener_port n).

Definition node_listener_score (n : HostNode) : Z :=
  listener_specificity_score (hn_listener_hostname n).

Definition node_route_score (n : HostNode) : Z := specificity_score (hn_hostname n).

(** [CompiledRouteTable::find_host_node]. *)
Definition find_host_node (t : CompiledRouteTable) (host : string) (port : Z) : option HostNode :=
  let candidates := filter (λ n, listener_accepts host port n = true) (host_candidates t host) in
  let best := keep_max node_listener_score candidates in
  List.find (λ n, node_route_score n =? max_score node_route_score best) best.

(** [CompiledRouteTable::lookup]. *)
Definition lookup_route (t : CompiledRouteTable) (req : Request) : option PlanRef :=
  find_host_node t (req_host req) (req_port req) ≫= λ n, host_lookup n req.

(** [CompiledRouteTable::has_gateway_api_listener]. *)
Definition has_gateway_api_listener (t : CompiledRouteTable) (host : string) (port : Z) : bool :=
  existsb (λ n, hn_gateway_api n && listener_accepts host port n) (host_candidates t host).

(** [CompiledRouteTable::has_gateway_api_routes]. *)
Definition has_gateway_api_routes (t : CompiledRouteTable) : bool :=
  match any_host t with Some n => hn_gateway_api n | None => false end ||
  existsb (λ kv, existsb hn_gateway_api kv.2) (map_to_list (exact_hosts t)) ||
  existsb (λ pn, hn_gateway_api pn.2) (wildcard_hosts t).

(** ** Specification *)

(** The path condition of a rule match, read on the path itself. *)
Definition path_holds (pm : option PathMatch) (path : string) : bool :=
  match pm with
  | None => true
  | Some (PathPrefix s) => bool_decide (split_path s `prefix_of` split_path path)
  | Some (PathExact s) => bool_decide (path = s)
  | Some (PathRegex r) => regex_is_match r path
  end.

(** Every condition of the match holds of the request. *)
Definition full_match (req : Request) (p : PlanRef) : bool :=
  path_holds (plan_path p) (req_path req) && plan_matches req (plan p).

Definition is_exact_path (p : PlanRef) : bool :=
  match plan_path p with Some (PathExact _) => true | _ => false end.

(** Priority of two matching plans: an exact path first, then precedence, then
    rule order. *)
Definition priority_le (p q : PlanRef) : bool :=
  match is_exact_path p, is_exact_path q with
  | true, false => true
  | false, true => false
  | _, _ => plan_le p q
  end.

End lookup.

Section host_plans.
Context `{!HashOrder}.

(** The plans a host route stands for, one per rule and match, in source order. *)
Definition host_plans (host : HostRoute) : list PlanRef :=
  match compile_rules host (hr_rules host) with
  | Ok plans => alloc_plans plans
  | Err _ => []
  end.
End host_plans.

(** The request spells the methods and exact header values it matches in the same
    case as the rule. The discriminators compare them byte by byte, while
    [plan_matches] ignores ASCII case. *)
Definition case_exact (req : Request) (p : PlanRef) : bool :=
  match rm_method (plan_match (plan p)) with
  | Some m => implb (eq_ignore_ascii_case m (req_method req)) (bool_decide (m = req_method req))
  | None => true
  end &&
  forallb (λ h, match hm_value h, req_header req (hm_name h) with
                | HeaderExact v, Some w => implb (eq_ignore_ascii_case w v) (bool_decide (w = v))
                | _, _ => true
                end) (rm_headers (plan_match (plan p))).

(** ** Lemmas: plan order *)

Lemma plan_le_total a b : plan_le a b = true ∨ plan_le b a = true.
Proof. unfold plan_le, plan_key_le. lia. Qed.

Lemma plan_le_trans a b c : plan_le a b = true → plan_le b c = true → plan_le a c = true.
Proof. unfold plan_le, plan_key_le. lia. Qed.

Lemma elem_of_sort_plans p ps : p ∈ sort_plans ps ↔ p ∈ ps.
Proof. apply elem_of_sort_by. Qed.

Lemma sort_plans_sorted ps : StronglySorted (λ a b, plan_le a b = true) (sort_plans ps).
Proof. apply sort_by_sorted; [apply plan_le_total|apply plan_le_trans]. Qed.

Lemma find_sort_plans (P : PlanRef → bool) ps p :
  List.find P (sort_plans ps) = Some p →
  p ∈ ps ∧ P p = true ∧ ∀ q, q ∈ ps → P q = true → plan_le p q = true.
Proof.
  intros Hf. apply (find_sorted_min plan_le plan_le_total) in Hf as (Hin & HP & Hmin);
    [|apply sort_plans_sorted].
  rewrite elem_of_sort_plans in Hin. split_and!; [done..|].
  intros q Hq. apply Hmin. by rewrite elem_of_sort_plans.
Qed.

(** ** Lemmas: compilation never fails on the HTTP side *)

Section compile_total.
Context `{!HashOrder}.

Lemma compile_plan_ok rule prec m g d lh :
  ∃ p, compile_plan rule prec m g d lh = Ok p ∧ precedence p = prec ∧
       plan_rule_order p = rule_order rule ∧ plan_match p = m ∧ plan_gateway_api p = g.
Proof. unfold compile_plan. destruct (rule_action rule); eauto 10. Qed.

Lemma compile_rule_plans_ok host rule :
  ∃ ps, compile_rule_plans host rule = Ok ps ∧
        ∀ p, p ∈ ps ↔ ∃ m, m ∈ rule_matches rule ∧
          compile_plan rule (compute_precedence rule) m (hr_gateway_api host)
            (hr_disable_secure_redirection host) (hr_listener_hostname host) = Ok p.
Proof.
  unfold compile_rule_plans. generalize (compute_precedence rule) as prec. intros prec.
  induction (rule_matches rule) as [|m ms (ps & Hps & Hin)].
  - exists []. split; [done|]. intros p. rewrite elem_of_nil. set_solver.
  - destruct (compile_plan_ok rule prec m (hr_gateway_api host)
      (hr_disable_secure_redirection host) (hr_listener_hostname host)) as (p & Hp & _).
    exists (p :: ps). simpl. rewrite Hp, Hps. split; [done|]. intros q.
    rewrite elem_of_cons, Hin. split.
    + intros [->|(m' & ? & ?)]; [exists m|exists m']; set_solver.
    + intros (m' & [->|?]%elem_of_cons & ?); [left; congruence|right; eauto].
Qed.

Lemma compile_rules_ok host rules :
  ∃ ps, compile_rules host rules = Ok ps ∧
        ∀ p, p ∈ ps ↔ ∃ r m, r ∈ rules ∧ m ∈ rule_matches r ∧
          compile_plan r (compute_precedence r) m (hr_gateway_api host)
            (hr_disable_secure_redirection host) (hr_listener_hostname host) = Ok p.
Proof.
  induction rules as [|r rs (ps & Hps & Hin)].
  - exists []. split; [done|]. intros p. rewrite elem_of_nil. set_solver.
  - destruct (compile_rule_plans_ok host r) as (qs & Hqs & Hin').
    exists (qs ++ ps). simpl. rewrite Hqs. simpl. rewrite Hps. split; [done|].
    intros p. rewrite elem_of_app, Hin, Hin'. split.
    + intros [(m & ? & ?)|(r' & m & ? & ? & ?)]; [exists r, m|exists r', m]; set_solver.
    + intros (r' & m & [->|?]%elem_of_cons & ? & ?); eauto 10.
Qed.

Lemma elem_of_alloc_plans p ps : p ∈ alloc_plans ps → plan p ∈ ps.
Proof.
  unfold alloc_plans. rewrite elem_of_lookup_imap. intros (i & q & -> & Hq).
  simpl. by eapply list_elem_of_lookup_2.
Qed.

(** Plans of one host with the same allocation identity are the same plan. *)
Lemma alloc_plans_inj ps p q :
  p ∈ alloc_plans ps → q ∈ alloc_plans ps → plan_ptr p = plan_ptr q → p = q.
Proof.
  unfold alloc_plans. rewrite !elem_of_lookup_imap.
  intros (i & x & -> & Hx) (j & y & -> & Hy). simpl. intros ->. congruence.
Qed.

Lemma insert_plans_ok t ps : ∃ t', insert_plans t ps = Ok t'.
Proof.
  revert t. induction ps as [|p ps IH]; intros t; simpl; [eauto|].
  unfold insert_plan_into_trie. repeat case_match; simpl; eauto.
Qed.

Lemma compile_host_ok host : ∃ node, compile_host host = Ok node.
Proof.
  unfold compile_host. destruct (compile_rules_ok host (hr_rules host)) as (ps & -> & _). simpl.
  edestruct insert_plans_ok as [t ->]. simpl. eauto.
Qed.

(** The members of [host_plans], in terms of the rules of the host. *)
Lemma elem_of_host_plans host p :
  p ∈ host_plans host →
  ∃ r m, r ∈ hr_rules host ∧ m ∈ rule_matches r ∧
    compile_plan r (compute_precedence r) m (hr_gateway_api host)
      (hr_disable_secure_redirection host) (hr_listener_hostname host) = Ok (plan p).
Proof.
  unfold host_plans. destruct (compile_rules_ok host (hr_rules host)) as (ps & -> & Hin).
  intros ?%elem_of_alloc_plans. by apply Hin.
Qed.

Lemma host_plans_complete host r m :
  r ∈ hr_rules host → m ∈ rule_matches r →
  ∃ p, p ∈ host_plans host ∧
    compile_plan r (compute_precedence r) m (hr_gateway_api host)
      (hr_disable_secure_redirection host) (hr_listener_hostname host) = Ok (plan p).
Proof.
  intros Hr Hm. unfold host_plans.
  destruct (compile_rules_ok host (hr_rules host)) as (ps & -> & Hin).
  destruct (compile_plan_ok r (compute_precedence r) m (hr_gateway_api host)
    (hr_disable_secure_redirection host) (hr_listener_hostname host)) as (p & Hp & _).
  assert (p ∈ ps) as [i Hi]%list_elem_of_lookup by (apply Hin; eauto).
  exists {| plan_ptr := i; plan := p |}. split; [|done].
  unfold alloc_plans. apply elem_of_lookup_imap. eauto.
Qed.
End compile_total.

(** ** Lemmas: the trie before discriminators *)

(** All plans stored on the nodes along [segments]. *)
Fixpoint plans_along (node : PathTrieNode) (segments : list string) : list PlanRef :=
  prefix_plans node ++ exact_plans node ++
  match segments with
  | [] => []
  | s :: rest => match exact_children node !! s with
                 | Some child => plans_along child rest
                 | None => []
                 end
  end.

(** No node along [segments] has a discriminator. *)
Fixpoint bare_along (node : PathTrieNode) (segments : list string) : Prop :=
  discriminator node = None ∧
  match segments with
  | [] => True
  | s :: rest => match exact_children node !! s with
                 | Some child => bare_along child rest
                 | None => True
                 end
  end.

Lemma plans_along_default segs : plans_along PathTrieNode_default segs = [].
Proof. destruct segs; simpl; [done|]. by rewrite lookup_empty. Qed.

Lemma bare_along_default segs : bare_along PathTrieNode_default segs.
Proof. destruct segs; simpl; [done|]. by rewrite lookup_empty. Qed.

Lemma plans_along_cons_default node s rest :
  plans_along node (s :: rest) =
  prefix_plans node ++ exact_plans node ++
  plans_along (default PathTrieNode_default (exact_children node !! s)) rest.
Proof.
  simpl. destruct (exact_children node !! s); simpl; [done|]. by rewrite plans_along_default.
Qed.

Lemma plans_along_push_prefix p q node segs :
  q ∈ plans_along (push_prefix_plan p node) segs ↔ q = p ∨ q ∈ plans_along node segs.
Proof. destruct segs; simpl; set_solver. Qed.

Lemma plans_along_walk_or_create segs p q node path :
  q ∈ plans_along (walk_or_create segs (push_prefix_plan p) node) path ↔
  (q = p ∧ segs `prefix_of` path) ∨ q ∈ plans_along node path.
Proof.
  revert node path. induction segs as [|s segs IH]; intros node path; simpl.
  - rewrite plans_along_push_prefix. pose proof (prefix_nil path). naive_solver.
  - destruct path as [|s' path]; simpl.
    + assert (¬ s :: segs `prefix_of` []) by by intros ?%prefix_nil_not. naive_solver.
    + rewrite lookup_insert. case_decide as Hs.
      * subst s'. rewrite !elem_of_app, IH.
        assert (s :: segs `prefix_of` s :: path ↔ segs `prefix_of` path) as ->.
        { split; [apply prefix_cons_inv_2|apply prefix_cons]. }
        destruct (exact_children node !! s) as [child|]; simpl; [set_solver|].
        rewrite plans_along_default. set_solver.
      * assert (¬ s :: segs `prefix_of` s' :: path) by by intros ?%prefix_cons_inv_1.
        destruct (exact_children node !! s'); naive_solver.
Qed.

Lemma bare_along_walk_or_create segs p node path :
  (∀ path, bare_along node path) → bare_along (walk_or_create segs (push_prefix_plan p) node) path.
Proof.
  revert node path. induction segs as [|s segs IH]; intros node path Hb; simpl.
  - specialize (Hb path). by destruct path.
  - destruct path as [|s' path]; simpl; [by apply (Hb [])|].
    split; [by apply (Hb [])|]. rewrite lookup_insert. case_decide.
    + apply IH. intros path'. pose proof (Hb (s :: path')) as [_ Hc].
      destruct (exact_children node !! s); simpl; [done|apply bare_along_default].
    + apply (Hb (s' :: path)).
Qed.

Definition trie_path_ok (p : PlanRef) (segs : list string) : Prop :=
  match plan_path p with
  | None => True
  | Some (PathPrefix s) => split_path s `prefix_of` segs
  | _ => False
  end.

Lemma insert_plans_along ps t t' segs q :
  Forall (λ p, is_trie_plan p = true) ps →
  insert_plans t ps = Ok t' →
  q ∈ plans_along t' segs ↔ q ∈ plans_along t segs ∨ (q ∈ ps ∧ trie_path_ok q segs).
Proof.
  revert t. induction ps as [|p ps IH]; intros t Hall Hins; simpl in *.
  - simplify_eq. set_solver.
  - apply Forall_cons in Hall as [Hp Hall].
    apply result_bind_ok in Hins as (t1 & Ht1 & Hins). rewrite (IH _ Hall Hins).
    unfold insert_plan_into_trie in Ht1. unfold is_trie_plan, plan_path in Hp.
    unfold trie_path_ok, plan_path.
    destruct (rm_path (plan_match (plan p))) as [[s|s|s]|] eqn:Hpath; try done; simplify_eq.
    + rewrite plans_along_walk_or_create, elem_of_cons. split.
      * intros [[[-> ?]|?]|?]; [|naive_solver..]. rewrite Hpath. eauto.
      * intros [?|[[->|?] Hq]]; [eauto| |eauto]. rewrite Hpath in Hq. eauto.
    + rewrite plans_along_push_prefix, elem_of_cons. split.
      * intros [[->|?]|?]; [|naive_solver..]. rewrite Hpath. eauto.
      * intros [?|[[->|?] Hq]]; eauto.
Qed.

Lemma insert_plans_bare ps t t' segs :
  Forall (λ p, is_trie_plan p = true) ps →
  insert_plans t ps = Ok t' → (∀ segs, bare_along t segs) → bare_along t' segs.
Proof.
  revert t. induction ps as [|p ps IH]; intros t Hall Hins Hb; simpl in *.
  - by simplify_eq.
  - apply Forall_cons in Hall as [Hp Hall].
    apply result_bind_ok in Hins as (t1 & Ht1 & Hins). apply (IH _ Hall Hins). clear Hins.
    unfold insert_plan_into_trie in Ht1. unfold is_trie_plan, plan_path in Hp.
    destruct (rm_path (plan_match (plan p))) as [[s|s|s]|]; try done; simplify_eq; intros segs'.
    + by apply bare_along_walk_or_create.
    + by apply (bare_along_walk_or_create [] p t).
Qed.

(** ** Lemmas: discriminators *)

Section discriminators.
Context `{!HashOrder, !RegexEngine}.

Lemma elem_of_exact_bins b plans v l p :
  exact_bins b plans !! v = Some l → p ∈ l ↔ p ∈ plans ∧ b p = BinExact v.
Proof.
  unfold exact_bins. rewrite lookup_fmap, fmap_Some. intros (l' & Hl & ->).
  rewrite elem_of_sort_plans, (elem_of_group_by _ _ _ _ _ Hl).
  destruct (b p); simpl; naive_solver.
Qed.

Lemma exact_bins_complete b plans v p :
  p ∈ plans → b p = BinExact v → p ∈ default [] (exact_bins b plans !! v).
Proof.
  intros Hp Hb. unfold exact_bins. rewrite lookup_fmap.
  pose proof (lookup_group_by (λ p, bin_key (b p)) plans v) as Hg.
  assert (p ∈ filter (λ q, bin_key (b q) = Some v) plans) as Hin.
  { rewrite list_elem_of_filter, Hb. done. }
  rewrite <-Hg in Hin. destruct (group_by _ _ !! v); simpl in *;
    [by rewrite elem_of_sort_plans|done].
Qed.

Lemma elem_of_exact_bins_default b plans v p :
  p ∈ default [] (exact_bins b plans !! v) → p ∈ plans.
Proof.
  destruct (exact_bins b plans !! v) eqn:Hv; simpl; [|by rewrite elem_of_nil].
  intros Hp. by apply (elem_of_exact_bins b plans v _ p Hv).
Qed.

Lemma elem_of_any_bin b plans p : p ∈ any_bin b plans ↔ p ∈ plans ∧ b p = BinAny.
Proof. unfold any_bin. rewrite elem_of_sort_plans, list_elem_of_filter. naive_solver. Qed.

Lemma elem_of_fallback_bin b plans p : p ∈ fallback_bin b plans ↔ p ∈ plans ∧ b p = BinFallback.
Proof. unfold fallback_bin. rewrite elem_of_sort_plans, list_elem_of_filter. naive_solver. Qed.

(** The bins cover the plans: a plan is found when its exact value is the one
    looked up. *)
Lemma bins_cover b plans (sel : option string) p :
  p ∈ plans → (∀ v, b p = BinExact v → sel = Some v) →
  p ∈ (default [] (sel ≫= λ v, exact_bins b plans !! v) ++ any_bin b plans) ++ fallback_bin b plans.
Proof.
  intros Hp Hsel. rewrite !elem_of_app, elem_of_any_bin, elem_of_fallback_bin.
  destruct (b p) as [v| |] eqn:Hb; [|naive_solver..].
  rewrite (Hsel v eq_refl). simpl. left. left. by apply exact_bins_complete.
Qed.

Lemma bins_sound b plans (sel : option string) p :
  p ∈ (default [] (sel ≫= λ v, exact_bins b plans !! v) ++ any_bin b plans) ++ fallback_bin b plans →
  p ∈ plans.
Proof.
  rewrite !elem_of_app, elem_of_any_bin, elem_of_fallback_bin.
  intros [[Hp|[? _]]|[? _]]; [|done..].
  destruct sel; simpl in Hp; [by eapply elem_of_exact_bins_default|by apply elem_of_nil in Hp].
Qed.

(** What the discriminator of a node selects for a request. *)
Definition resolve_disc (d : Discriminator) (req : Request) : list PlanRef :=
  resolve_node_plans (TrieNode ∅ [] [] (Some d)) req.

Lemma method_bin_fallback_nil plans : fallback_bin method_bin plans = [].
Proof.
  destruct (fallback_bin method_bin plans) as [|p ps] eqn:Hf; [done|].
  assert (p ∈ fallback_bin method_bin plans) as Hp by (rewrite Hf; left).
  apply elem_of_fallback_bin in Hp as [_ Hp]. unfold method_bin in Hp. by case_match.
Qed.

Lemma resolve_method plans req :
  resolve_disc (build_method_discriminator plans) req =
  (default [] (Some (req_method req) ≫= λ v, exact_bins method_bin plans !! v)
    ++ any_bin method_bin plans) ++ fallback_bin method_bin plans.
Proof. rewrite method_bin_fallback_nil. done. Qed.

Lemma resolve_header plans name req :
  resolve_disc (build_header_discriminator plans name) req =
  (default [] (req_header req name ≫= λ v, exact_bins (header_bin name) plans !! v)
    ++ any_bin (header_bin name) plans) ++ fallback_bin (header_bin name) plans.
Proof. done. Qed.

Lemma resolve_query plans name req :
  resolve_disc (build_query_discriminator plans name) req =
  (default [] ((req_query req ≫= λ q, extract_query_param q name) ≫=
      λ v, exact_bins (query_bin name) plans !! v)
    ++ any_bin (query_bin name) plans) ++ fallback_bin (query_bin name) plans.
Proof.
  unfold resolve_disc, resolve_node_plans. simpl. do 3 f_equal.
  by destruct (req_query req).
Qed.

Lemma method_bin_sel req p v :
  case_exact req p = true → plan_matches req (plan p) = true →
  method_bin p = BinExact v → Some (req_method req) = Some v.
Proof.
  unfold case_exact, plan_matches, method_bin. intros Hc Hm Hb. simp_bool.
  case_match; simplify_eq. destruct (eq_ignore_ascii_case v (req_method req)); [|done].
  simpl in *. simp_bool. congruence.
Qed.

Lemma header_bin_sel req p name v :
  case_exact req p = true → plan_matches req (plan p) = true →
  header_bin name p = BinExact v → req_header req name = Some v.
Proof.
  unfold case_exact, plan_matches, header_bin. intros Hc Hm Hb. simp_bool.
  destruct (List.find _ _) as [h|] eqn:Hf; [|done].
  apply find_Some_elem in Hf as [Hin Hn]. simp_bool. subst name.
  rewrite !forallb_forall in *. rewrite list_elem_of_In in Hin.
  repeat match goal with H : ∀ x, List.In x _ → _ |- _ => specialize (H h Hin) end.
  unfold header_ok in *. destruct (hm_value h) as [v'|v'| |] eqn:Hv; simplify_eq/=.
  destruct (req_header req (hm_name h)) as [w|]; [|done].
  destruct (eq_ignore_ascii_case w v); [|done]. simpl in *. simp_bool. congruence.
Qed.

Lemma query_bin_sel req p name v :
  plan_matches req (plan p) = true →
  query_bin name p = BinExact v → (req_query req ≫= λ q, extract_query_param q name) = Some v.
Proof.
  unfold plan_matches, query_bin. intros Hm Hb. simp_bool.
  destruct (List.find _ _) as [q|] eqn:Hf; [|done].
  apply find_Some_elem in Hf as [Hin Hn]. simp_bool. subst name.
  rewrite !forallb_forall in *. rewrite list_elem_of_In in Hin.
  repeat match goal with H : ∀ x : QueryParamMatch, List.In x _ → _ |- _ => specialize (H q Hin) end.
  unfold query_ok in *. destruct (qm_value q); simplify_eq/=.
  by repeat case_match; simp_bool; subst.
Qed.

Lemma build_discriminator_cases plans :
  build_discriminator plans = build_method_discriminator plans ∨
  (∃ name, build_discriminator plans = build_header_discriminator plans name) ∨
  (∃ name, build_discriminator plans = build_query_discriminator plans name) ∨
  build_discriminator plans = {| disc_kind := ByMethod ∅ []; disc_fallback := plans |}.
Proof. unfold build_discriminator. repeat case_match; eauto. Qed.

Lemma resolve_empty_disc plans req :
  resolve_disc {| disc_kind := ByMethod ∅ []; disc_fallback := plans |} req = plans.
Proof. unfold resolve_disc, resolve_node_plans. simpl. by rewrite lookup_empty. Qed.

(** A discriminator only selects plans of the node, whichever attribute the hash
    order makes it split on. *)
Lemma resolve_disc_sound plans req p :
  p ∈ resolve_disc (build_discriminator plans) req → p ∈ plans.
Proof.
  destruct (build_discriminator_cases plans) as [->|[[name ->]|[[name ->]| ->]]].
  - rewrite resolve_method. apply bins_sound.
  - rewrite resolve_header. apply bins_sound.
  - rewrite resolve_query. apply bins_sound.
  - by rewrite resolve_empty_disc.
Qed.

(** It drops no plan that matches, when the request uses the case of the rules. *)
Lemma resolve_disc_complete plans req p :
  p ∈ plans → case_exact req p = true → plan_matches req (plan p) = true →
  p ∈ resolve_disc (build_discriminator plans) req.
Proof.
  intros Hp Hc Hm. destruct (build_discriminator_cases plans) as [->|[[name ->]|[[name ->]| ->]]].
  - rewrite resolve_method. apply bins_cover; [done|]. intros. by eapply method_bin_sel.
  - rewrite resolve_header. apply bins_cover; [done|]. intros. by eapply header_bin_sel.
  - rewrite resolve_query. apply bins_cover; [done|]. intros. by eapply query_bin_sel.
  - by rewrite resolve_empty_disc.
Qed.

Lemma resolve_built node req :
  discriminator node = None →
  (∀ p, p ∈ resolve_node_plans (build_discriminators node) req → p ∈ prefix_plans node ++ exact_plans node)
  ∧ (∀ p, p ∈ prefix_plans node ++ exact_plans node → case_exact req p = true →
       plan_matches req (plan p) = true → p ∈ resolve_node_plans (build_discriminators node) req).
Proof.
  destruct node as [ch pre ex d]. simpl. intros ->. case_decide.
  - split; [apply resolve_disc_sound|apply resolve_disc_complete].
  - done.
Qed.

Lemma exact_children_built node :
  exact_children (build_discriminators node) = build_discriminators <$> exact_children node.
Proof. by destruct node. Qed.

Lemma walk_trie_cons node segs req :
  walk_trie node segs req =
  resolve_node_plans node req ++
  match segs with
  | [] => []
  | s :: rest => match exact_children node !! s with
                 | Some c => walk_trie c rest req
                 | None => []
                 end
  end.
Proof. by destruct segs. Qed.

Lemma walk_trie_sound node segs req p :
  bare_along node segs → p ∈ walk_trie (build_discriminators node) segs req → p ∈ plans_along node segs.
Proof.
  revert node. induction segs as [|s segs IH]; intros node Hb; rewrite walk_trie_cons;
    rewrite elem_of_app; simpl in *; destruct Hb as [Hd Hb];
    destruct (resolve_built node req Hd) as [Hs _].
  - intros [?%Hs|?]; set_solver.
  - rewrite exact_children_built, lookup_fmap.
    destruct (exact_children node !! s) as [c|]; simpl; intros [?%Hs|Hp]; [set_solver| |set_solver..].
    apply IH in Hp; [set_solver|done].
Qed.

Lemma walk_trie_complete node segs req p :
  bare_along node segs → case_exact req p = true → plan_matches req (plan p) = true →
  p ∈ plans_along node segs → p ∈ walk_trie (build_discriminators node) segs req.
Proof.
  intros Hb Hc Hm. revert node Hb. induction segs as [|s segs IH]; intros node Hb;
    rewrite walk_trie_cons; rewrite elem_of_app; simpl in *; destruct Hb as [Hd Hb];
    destruct (resolve_built node req Hd) as [_ Hs].
  - intros ?. left. apply Hs; [set_solver|done..].
  - rewrite exact_children_built, lookup_fmap, !elem_of_app. intros [?|[?|Hp]].
    + left. apply Hs; [set_solver|done..].
    + left. apply Hs; [set_solver|done..].
    + right. destruct (exact_children node !! s) as [c|]; simpl; [by apply IH|done].
Qed.
End discriminators.

(** ** Lemmas: the stages of [HostNode::lookup] *)

Section host_lookup.
Context `{!HashOrder, !RegexEngine}.

(** Deduplication by identity never hides a plan, because one allocation is one
    plan: the loop is a plain search for the first match. *)
Lemma first_unseen_match_find seen l req :
  (∀ p q, p ∈ l → q ∈ l → plan_ptr p = plan_ptr q → p = q) →
  (∀ p, p ∈ l → plan_ptr p ∈ seen → plan_matches req (plan p) = false) →
  first_unseen_match seen l req = List.find (λ p, plan_matches req (plan p)) l.
Proof.
  revert seen. induction l as [|p l IH]; intros seen Hinj Hseen; simpl; [done|].
  case_decide as Hp.
  - rewrite (Hseen p) by set_solver. apply IH; set_solver.
  - destruct (plan_matches req (plan p)) eqn:Hm; [done|].
    apply IH; [set_solver|]. intros q Hq [Hpq%elem_of_singleton|?]%elem_of_union; [|set_solver].
    by rewrite (Hinj q p) by set_solver.
Qed.

(** What [compile_host] stores, in terms of [host_plans]. *)
Lemma compile_host_inv host node :
  compile_host host = Ok node →
  ∃ trie, insert_plans PathTrieNode_default
            (filter (λ p, is_trie_plan p = true) (host_plans host)) = Ok trie ∧
          path_trie node = build_discriminators trie ∧
          exact_paths node = sort_plans <$> group_by exact_path_key (host_plans host) ∧
          regex_plans node = sort_plans (filter (λ p, is_regex_plan p = true) (host_plans host)).
Proof.
  unfold compile_host, host_plans.
  intros (ps & Hps & (t & Ht & ?)%result_bind_ok)%result_bind_ok.
  simplify_eq. rewrite Hps. eauto.
Qed.

Lemma exact_paths_find host node req :
  compile_host host = Ok node →
  match exact_paths node !! req_path req ≫= List.find (λ p, plan_matches req (plan p)) with
  | Some p => p ∈ host_plans host ∧ exact_path_key p = Some (req_path req) ∧
              plan_matches req (plan p) = true ∧
              ∀ q, q ∈ host_plans host → exact_path_key q = Some (req_path req) →
                   plan_matches req (plan q) = true → plan_le p q = true
  | None => ∀ q, q ∈ host_plans host → exact_path_key q = Some (req_path req) →
                 plan_matches req (plan q) = false
  end.
Proof.
  intros (t & _ & _ & He & _)%compile_host_inv. rewrite He, lookup_fmap.
  pose proof (lookup_group_by exact_path_key (host_plans host) (req_path req)) as Hl.
  destruct (group_by _ _ !! _) as [l|] eqn:Hg; simpl in *.
  - destruct (List.find _ _) as [p|] eqn:Hf.
    + apply find_sort_plans in Hf as (Hp & Hm & Hmin). rewrite Hl, list_elem_of_filter in Hp.
      destruct Hp. split_and!; [done..|]. intros q Hq Hk Hmq. apply Hmin; [|done].
      by rewrite Hl, list_elem_of_filter.
    + intros q Hq Hk. rewrite find_None in Hf. apply Hf.
      by rewrite elem_of_sort_plans, Hl, list_elem_of_filter.
  - intros q Hq Hk. exfalso.
    assert (q ∈ filter (λ p, exact_path_key p = Some (req_path req)) (host_plans host)) as Hin
      by by rewrite list_elem_of_filter.
    rewrite <-Hl in Hin. by apply elem_of_nil in Hin.
Qed.

(** The candidates of the second stage. *)
Definition stage2 (node : HostNode) (req : Request) : list PlanRef :=
  walk_trie (path_trie node) (split_path (req_path req)) req ++
  filter (λ p, plan_matches req (plan p) && plan_regex_path_matches (plan p) (req_path req) = true)
    (regex_plans node).

Lemma trie_path_ok_holds p path :
  is_trie_plan p = true → trie_path_ok p (split_path path) ↔ path_holds (plan_path p) path = true.
Proof.
  unfold is_trie_plan, trie_path_ok, path_holds.
  destruct (plan_path p) as [[]|]; try done. intros _. by rewrite bool_decide_eq_true.
Qed.

Lemma regex_path_holds p path :
  is_regex_plan p = true → plan_regex_path_matches (plan p) path = path_holds (plan_path p) path.
Proof.
  unfold is_regex_plan, plan_regex_path_matches, path_holds, plan_path.
  by destruct (rm_path _) as [[]|].
Qed.

Lemma trie_plans_along host trie segs p :
  insert_plans PathTrieNode_default
    (filter (λ p, is_trie_plan p = true) (host_plans host)) = Ok trie →
  bare_along trie segs ∧
  (p ∈ plans_along trie segs ↔ p ∈ host_plans host ∧ is_trie_plan p = true ∧ trie_path_ok p segs).
Proof.
  intros Hins.
  assert (Forall (λ p, is_trie_plan p = true) (filter (λ p, is_trie_plan p = true) (host_plans host)))
    as Hall by (apply Forall_forall; intros q [? _]%list_elem_of_filter; done).
  split; [by eapply insert_plans_bare, bare_along_default|].
  rewrite (insert_plans_along _ _ _ _ _ Hall Hins), plans_along_default, list_elem_of_filter.
  set_solver.
Qed.

Lemma stage2_sound host node req p :
  compile_host host = Ok node → p ∈ stage2 node req →
  p ∈ host_plans host ∧ is_exact_path p = false ∧ path_holds (plan_path p) (req_path req) = true.
Proof.
  intros (trie & Hins & Ht & _ & Hr)%compile_host_inv. unfold stage2. rewrite Ht, Hr.
  rewrite elem_of_app, list_elem_of_filter, elem_of_sort_plans, list_elem_of_filter.
  destruct (trie_plans_along host trie (split_path (req_path req)) p Hins) as [Hb Hal].
  intros [Hp|(Hm & Hx & Hp)].
  - apply walk_trie_sound in Hp; [|done]. apply Hal in Hp as (? & Htr & Hok).
    rewrite trie_path_ok_holds in Hok by done. split_and!; [done| |done].
    unfold is_trie_plan, is_exact_path in *. by destruct (plan_path p) as [[]|].
  - apply andb_true_iff in Hm as [_ Hm]. rewrite regex_path_holds in Hm by done.
    split_and!; [done| |done]. unfold is_regex_plan, is_exact_path in *.
    by destruct (plan_path p) as [[]|].
Qed.

Lemma stage2_complete host node req p :
  compile_host host = Ok node → p ∈ host_plans host → is_exact_path p = false →
  case_exact req p = true → full_match req p = true → p ∈ stage2 node req.
Proof.
  intros (trie & Hins & Ht & _ & Hr)%compile_host_inv Hp He Hc [Hph Hm]%andb_true_iff.
  unfold stage2. rewrite Ht, Hr.
  rewrite elem_of_app, list_elem_of_filter, elem_of_sort_plans, list_elem_of_filter.
  destruct (trie_plans_along host trie (split_path (req_path req)) p Hins) as [Hb Hal].
  destruct (is_trie_plan p) eqn:Htr.
  - left. apply walk_trie_complete; [done..|]. apply Hal. split_and!; [done..|].
    by apply trie_path_ok_holds.
  - assert (is_regex_plan p = true) as Hx.
    { unfold is_trie_plan, is_exact_path, is_regex_plan in *. by destruct (plan_path p) as [[]|]. }
    right. rewrite regex_path_holds, Hm, Hph by done. done.
Qed.

Lemma host_plans_inj host p q :
  p ∈ host_plans host → q ∈ host_plans host → plan_ptr p = plan_ptr q → p = q.
Proof.
  unfold host_plans. destruct (compile_rules_ok host (hr_rules host)) as (ps & -> & _).
  apply alloc_plans_inj.
Qed.

Lemma host_lookup_unfold host node req :
  compile_host host = Ok node →
  host_lookup node req =
  match exact_paths node !! req_path req ≫= List.find (λ p, plan_matches req (plan p)) with
  | Some p => Some p
  | None => List.find (λ p, plan_matches req (plan p)) (sort_plans (stage2 node req))
  end.
Proof.
  intros Hc. unfold host_lookup. fold (stage2 node req).
  rewrite first_unseen_match_find; [done| |set_solver].
  intros p q. rewrite !elem_of_sort_plans.
  intros [? _]%(stage2_sound host) [? _]%(stage2_sound host); [|done..]. by apply (host_plans_inj host).
Qed.

Lemma exact_key_spec p path :
  exact_path_key p = Some path ↔ is_exact_path p = true ∧ path_holds (plan_path p) path = true.
Proof.
  unfold exact_path_key, is_exact_path, path_holds. destruct (plan_path p) as [[]|]; try naive_solver.
  rewrite bool_decide_eq_true. naive_solver.
Qed.

(** Soundness: what the lookup returns is a plan of the host all of whose
    conditions hold. *)
Lemma host_lookup_sound_aux host node req p :
  compile_host host = Ok node → host_lookup node req = Some p →
  p ∈ host_plans host ∧ full_match req p = true.
Proof.
  intros Hc. rewrite (host_lookup_unfold _ _ _ Hc).
  pose proof (exact_paths_find _ _ req Hc) as He. unfold full_match.
  destruct (_ ≫= _) as [p'|]; intros Hl; simplify_eq.
  - destruct He as (? & [_ ->]%exact_key_spec & -> & _). done.
  - apply find_sort_plans in Hl as (Hp & -> & _). apply (stage2_sound host) in Hp as (? & _ & ->); done.
Qed.

Lemma priority_exact_first p q :
  is_exact_path p = true → (is_exact_path q = true → plan_le p q = true) → priority_le p q = true.
Proof. unfold priority_le. intros ->. destruct (is_exact_path q); eauto. Qed.

Lemma host_lookup_complete_aux host node req :
  compile_host host = Ok node →
  forallb (case_exact req) (host_plans host) = true →
  match host_lookup node req with
  | Some p => ∀ q, q ∈ host_plans host → full_match req q = true → priority_le p q = true
  | None => ∀ q, q ∈ host_plans host → full_match req q = false
  end.
Proof.
  intros Hc Hcase. rewrite (host_lookup_unfold _ _ _ Hc).
  pose proof (exact_paths_find _ _ req Hc) as He.
  assert (∀ q, q ∈ host_plans host → case_exact req q = true) as Hce.
  { intros q Hq. rewrite forallb_forall in Hcase. by apply Hcase, list_elem_of_In. }
  destruct (_ ≫= _) as [p|].
  - destruct He as (_ & [Hx _]%exact_key_spec & _ & Hmin). intros q Hq [Hpq Hmq]%andb_true_iff.
    apply priority_exact_first; [done|]. intros ?. apply Hmin; [done| |done]. by apply exact_key_spec.
  - assert (∀ q, q ∈ host_plans host → full_match req q = true → is_exact_path q = false) as Hne.
    { intros q Hq [Hpq Hmq]%andb_true_iff. destruct (is_exact_path q) eqn:Hx; [|done].
      rewrite (He q) in Hmq; [done..|]. by apply exact_key_spec. }
    destruct (List.find _ _) as [p|] eqn:Hf.
    + apply find_sort_plans in Hf as (Hp & _ & Hmin). intros q Hq Hfm.
      apply (stage2_sound host) in Hp as (_ & Hx & _); [|done].
      unfold priority_le. rewrite Hx, (Hne q) by done.
      apply Hmin; [eapply stage2_complete; eauto|]. by apply andb_true_iff in Hfm as [_ ?].
    + intros q Hq. destruct (full_match req q) eqn:Hfm; [|done].
      rewrite find_None in Hf. pose proof Hfm as [_ Hmq]%andb_true_iff.
      rewrite (Hf q) in Hmq; [done|]. rewrite elem_of_sort_plans. eapply stage2_complete; eauto.
Qed.
End host_lookup.

(** ** Lemmas: host selection *)

(** Lexicographic specificity: listener hostname first, then route hostname. *)
Definition host_score_le (a b : HostNode) : Prop :=
  node_listener_score a < node_listener_score b ∨
  node_listener_score a = node_listener_score b ∧ node_route_score a ≤ node_route_score b.

Lemma find_host_node_best t host port :
  match find_host_node t host port with
  | Some n => n ∈ host_candidates t host ∧ listener_accepts host port n = true ∧
              ∀ m, m ∈ host_candidates t host → listener_accepts host port m = true → host_score_le m n
  | None => ∀ m, m ∈ host_candidates t host → listener_accepts host port m = false
  end.
Proof.
  unfold find_host_node. cbv zeta.
  assert (∀ m, m ∈ filter (λ n, listener_accepts host port n = true) (host_candidates t host) ↔
               m ∈ host_candidates t host ∧ listener_accepts host port m = true) as Hc
    by (intros m; rewrite list_elem_of_filter; tauto).
  revert Hc. generalize (filter (λ n, listener_accepts host port n = true) (host_candidates t host)).
  intros cands Hc.
  pose proof (find_max_spec node_route_score (keep_max node_listener_score cands)) as Hf.
  destruct (List.find _ _) as [n|].
  - apply keep_max_spec in Hf as [[Hn Hlmax]%keep_max_spec Hrmax].
    apply Hc in Hn as Hn'. destruct Hn'. split_and!; [done..|].
    intros m Hm Ha. assert (m ∈ cands) as Hmc by by apply Hc. unfold host_score_le.
    destruct (decide (node_listener_score m = node_listener_score n)) as [Heq|];
      [|specialize (Hlmax m Hmc); lia].
    right. split; [done|]. apply Hrmax, keep_max_spec. split; [done|]. by rewrite Heq.
  - intros m Hm. apply not_true_is_false. intros Ha.
    assert (m ∈ cands) as Hmc by by apply Hc.
    destruct (max_score_spec node_listener_score cands) as [(x & Hx & Hxs) Hub];
      [by destruct cands; [apply elem_of_nil in Hmc|]|].
    assert (x ∈ keep_max node_listener_score cands) as Hin.
    { apply keep_max_spec. split; [done|]. by rewrite Hxs. }
    rewrite Hf in Hin. by apply elem_of_nil in Hin.
Qed.

(** ** Lemmas: the host index *)

Section host_index.
Context `{!HashOrder, !RegexEngine}.

(** Every host of a table with its compiled node. *)
Definition host_nodes (hosts : list HostRoute) : list (HostRoute * HostNode) :=
  omap (λ h, match compile_host h with Ok n => Some (h, n) | Err _ => None end) hosts.

Lemma elem_of_host_nodes hosts h n :
  (h, n) ∈ host_nodes hosts ↔ h ∈ hosts ∧ compile_host h = Ok n.
Proof.
  unfold host_nodes. rewrite list_elem_of_omap. split.
  - intros (h' & Hin & Heq). destruct (compile_host h') eqn:Hc; by simplify_eq.
  - intros [Hin Hc]. exists h. by rewrite Hc.
Qed.

Definition index_hosts (hns : list (HostRoute * HostNode)) :=
  foldl (λ acc hn, add_host acc hn.1 hn.2) (∅, [], None) hns.

Lemma compile_hosts_foldl hosts acc :
  compile_hosts hosts acc = Ok (foldl (λ acc hn, add_host acc hn.1 hn.2) acc (host_nodes hosts)).
Proof.
  revert acc. induction hosts as [|h hs IH]; intros acc; simpl; [done|].
  destruct (compile_host_ok h) as [n Hn]. unfold host_nodes. simpl. rewrite Hn. simpl.
  by rewrite IH.
Qed.

Definition is_pattern_host (hm : HostnameMatch) : bool :=
  match hm with HostPrefix _ | HostWildcard _ => true | _ => false end.

(** The index holds every exact and pattern host in source order, and the last
    catch-all. *)
Lemma index_hosts_spec hns :
  let '(exacts, wilds, any) := index_hosts hns in
  (∀ s, default [] (exacts !! s) = snd <$> filter (λ hn, hr_hostname hn.1 = HostExact s) hns) ∧
  wilds = (λ hn, (hr_hostname hn.1, hn.2)) <$>
            filter (λ hn, is_pattern_host (hr_hostname hn.1) = true) hns ∧
  any = snd <$> last (filter (λ hn, hr_hostname hn.1 = HostAny) hns).
Proof.
  induction hns as [|[h n] hns IH] using rev_ind; [done|].
  unfold index_hosts in *. rewrite foldl_app. simpl.
  destruct (foldl _ _ hns) as [[exacts wilds] any]. destruct IH as (He & -> & ->).
  rewrite !filter_app, !filter_cons, !filter_nil. unfold add_host. simpl.
  destruct (hr_hostname h) as [s|s|s|] eqn:Hh; simpl; rewrite ?app_nil_r;
    (split_and!; [intros s'|by rewrite ?fmap_app; simpl; rewrite ?Hh|by rewrite ?last_snoc]).
  all: rewrite ?lookup_push_entry, He, filter_app, filter_cons, filter_nil, fmap_app; simpl; rewrite Hh.
  - f_equal. by repeat case_decide; simplify_eq.
  - by rewrite decide_False, app_nil_r.
  - by rewrite decide_False, app_nil_r.
  - by rewrite decide_False, app_nil_r.
Qed.

(** A host route the lookup can reach: of several catch-all hosts, only the last. *)
Definition indexed_host (hosts : list HostRoute) (h : HostRoute) : Prop :=
  h ∈ hosts ∧ (hr_hostname h = HostAny → last (filter (λ h, hr_hostname h = HostAny) hosts) = Some h).

Lemma last_any_host_nodes hosts :
  last (filter (λ hn, hr_hostname hn.1 = HostAny) (host_nodes hosts)) =
  h ← last (filter (λ h, hr_hostname h = HostAny) hosts);
  match compile_host h with Ok n => Some (h, n) | Err _ => None end.
Proof.
  induction hosts as [|h hosts IH] using rev_ind; [done|].
  unfold host_nodes in *. rewrite omap_app, !filter_app. simpl.
  destruct (compile_host_ok h) as [n Hn]. rewrite Hn.
  rewrite !filter_cons, !filter_nil. simpl. case_decide.
  - rewrite !last_snoc. simpl. by rewrite Hn.
  - by rewrite !app_nil_r.
Qed.

(** The candidates for a request host are the compiled nodes of the indexed hosts
    whose hostname matches it. *)
Lemma elem_of_host_candidates ir t host n :
  compile ir = Ok t →
  n ∈ host_candidates t host ↔
  ∃ h, indexed_host (rt_hosts ir) h ∧ ir_hostname_matches host (hr_hostname h) = true ∧
       compile_host h = Ok n.
Proof.
  unfold compile. rewrite compile_hosts_foldl. fold (index_hosts (host_nodes (rt_hosts ir))).
  pose proof (index_hosts_spec (host_nodes (rt_hosts ir))) as Hx.
  destruct (index_hosts _) as [[exacts wilds] any]. destruct Hx as (He & Hw & Ha).
  simpl. intros ?. simplify_eq. unfold host_candidates. simpl.
  rewrite He, last_any_host_nodes, !elem_of_app.
  rewrite !list_elem_of_fmap. setoid_rewrite list_elem_of_filter.
  setoid_rewrite elem_of_sort_by. setoid_rewrite list_elem_of_fmap.
  setoid_rewrite list_elem_of_filter. split.
  - intros [([h n'] & -> & Hh & [Hin Hc]%elem_of_host_nodes)|[Hwild|Hany]].
    + exists h. simpl in *. split_and!; [|by rewrite Hh; apply bool_decide_eq_true|done].
      split; [done|]. congruence.
    + destruct Hwild as ([hm n'] & -> & Hm & [h n''] & Heq & Hp & [Hin Hc]%elem_of_host_nodes).
      simplify_eq/=. exists h. split_and!; [|done..]. split; [done|]. intros Hz. by rewrite Hz in Hp.
    + destruct (last _) as [h|] eqn:Hl; simpl in Hany; [|by apply elem_of_nil in Hany].
      destruct (compile_host h) as [n'|] eqn:Hc; simpl in Hany; [|by apply elem_of_nil in Hany].
      apply list_elem_of_singleton in Hany as ->. exists h.
      pose proof Hl as [Hh Hin]%last_Some_elem_of%list_elem_of_filter.
      split_and!; [by split|by rewrite Hh|done].
  - intros (h & [Hin Hlast] & Hm & Hc).
    assert ((h, n) ∈ host_nodes (rt_hosts ir)) as Hhn by by apply elem_of_host_nodes.
    destruct (hr_hostname h) as [s|s|s|] eqn:Hh.
    + left. exists (h, n). split_and!; [done| |done]. simpl in *. simp_bool. congruence.
    + right. left. exists (hr_hostname h, n). split_and!; [done|by rewrite Hh|].
      exists (h, n). simpl. by rewrite Hh.
    + right. left. exists (hr_hostname h, n). split_and!; [done|by rewrite Hh|].
      exists (h, n). simpl. by rewrite Hh.
    + right. right. rewrite Hlast by done. simpl. rewrite Hc. simpl. by apply list_elem_of_singleton.
Qed.
End host_index.

(** ** Specification of the whole lookup *)

Section spec.
Context `{!HashOrder, !RegexEngine}.

(** A host route may serve a request: it is indexed, its hostname and its listener
    accept the host, its listener port is the request port. *)
Definition host_eligible (ir : RouteTable) (req : Request) (h : HostRoute) : Prop :=
  indexed_host (rt_hosts ir) h ∧
  ir_hostname_matches (req_host req) (hr_hostname h) = true ∧
  listener_hostname_matches (req_host req) (hr_listener_hostname h) = true ∧
  listener_port_matches (req_port req) (hr_listener_port h) = true.

(** Specificity of a host route: the listener hostname decides, then the route
    hostname. *)
Definition route_score_le (a b : HostRoute) : Prop :=
  listener_specificity_score (hr_listener_hostname a)
    < listener_specificity_score (hr_listener_hostname b) ∨
  listener_specificity_score (hr_listener_hostname a)
    = listener_specificity_score (hr_listener_hostname b) ∧
  specificity_score (hr_hostname a) ≤ specificity_score (hr_hostname b).

Definition best_host (ir : RouteTable) (req : Request) (h : HostRoute) : Prop :=
  host_eligible ir req h ∧ ∀ h', host_eligible ir req h' → route_score_le h' h.

(** [p] is a best plan of [h] for the request. *)
Definition best_plan (h : HostRoute) (req : Request) (p : PlanRef) : Prop :=
  p ∈ host_plans h ∧ full_match req p = true ∧
  ∀ q, q ∈ host_plans h → full_match req q = true → priority_le p q = true.

Lemma compile_host_fields h n :
  compile_host h = Ok n →
  hn_hostname n = hr_hostname h ∧ hn_listener_hostname n = hr_listener_hostname h ∧
  hn_listener_port n = hr_listener_port h.
Proof.
  unfold compile_host. intros (ps & Hps & (t & Ht & ?)%result_bind_ok)%result_bind_ok.
  by simplify_eq.
Qed.

Lemma accepted_candidate ir t req n :
  compile ir = Ok t →
  n ∈ host_candidates t (req_host req) ∧ listener_accepts (req_host req) (req_port req) n = true ↔
  ∃ h, host_eligible ir req h ∧ compile_host h = Ok n.
Proof.
  intros Ht. rewrite (elem_of_host_candidates _ _ _ _ Ht).
  unfold host_eligible, listener_accepts. setoid_rewrite andb_true_iff. split.
  - intros [(h & Hi & Hm & Hc) [Hl Hp]]. exists h.
    destruct (compile_host_fields _ _ Hc) as (_ & He1 & He2). rewrite He1, He2 in *. done.
  - intros (h & (Hi & Hm & Hl & Hp) & Hc).
    destruct (compile_host_fields _ _ Hc) as (_ & -> & ->). eauto 10.
Qed.

Lemma find_host_node_refines ir t req :
  compile ir = Ok t →
  match find_host_node t (req_host req) (req_port req) with
  | Some n => ∃ h, best_host ir req h ∧ compile_host h = Ok n
  | None => ∀ h, ¬ host_eligible ir req h
  end.
Proof.
  intros Ht. pose proof (find_host_node_best t (req_host req) (req_port req)) as Hb.
  destruct (find_host_node _ _ _) as [n|].
  - destruct Hb as (Hin & Ha & Hmax).
    destruct (proj1 (accepted_candidate _ _ req n Ht) (conj Hin Ha)) as (h & Hh & Hc).
    exists h. split; [|done]. split; [done|]. intros h' Hh'.
    destruct (compile_host_ok h') as [n' Hc'].
    destruct (proj2 (accepted_candidate _ _ req n' Ht)) as [Hin' Ha']; [eauto|].
    specialize (Hmax n' Hin' Ha'). unfold host_score_le, node_listener_score, node_route_score in Hmax.
    destruct (compile_host_fields _ _ Hc) as (He1 & He2 & _).
    destruct (compile_host_fields _ _ Hc') as (He1' & He2' & _).
    by rewrite He1, He2, He1', He2' in Hmax.
  - intros h Hh. destruct (compile_host_ok h) as [n Hc].
    destruct (proj2 (accepted_candidate _ _ req n Ht)) as [Hin Ha]; [eauto|].
    by rewrite (Hb n Hin) in Ha.
Qed.

Lemma compile_ok ir : ∃ t, compile ir = Ok t.
Proof.
  unfold compile. rewrite compile_hosts_foldl.
  destruct (foldl _ _ _) as [[e w] a]. simpl. eauto.
Qed.

(** What a lookup on a compiled table returns, whatever the case of the request. *)
Lemma lookup_route_sound_aux ir t req p :
  compile ir = Ok t → lookup_route t req = Some p →
  ∃ h, host_eligible ir req h ∧ p ∈ host_plans h ∧ full_match req p = true.
Proof.
  intros Ht. unfold lookup_route. pose proof (find_host_node_refines ir t req Ht) as Hn.
  destruct (find_host_node _ _ _) as [n|]; simpl; [|done].
  destruct Hn as (h & [Hel _] & Hc). intros Hl. exists h. split; [done|].
  by eapply host_lookup_sound_aux.
Qed.

(** What a lookup on a compiled table returns, when the request spells its methods and header
    values as the rules do. *)
Lemma lookup_route_best ir t req :
  compile ir = Ok t → (∀ h, h ∈ rt_hosts ir → forallb (case_exact req) (host_plans h) = true) →
  match lookup_route t req with
  | Some p => ∃ h, best_host ir req h ∧ best_plan h req p
  | None => (∀ h, ¬ host_eligible ir req h) ∨
            ∃ h, best_host ir req h ∧ ∀ q, q ∈ host_plans h → full_match req q = false
  end.
Proof.
  intros Ht Hcase. unfold lookup_route. pose proof (find_host_node_refines ir t req Ht) as Hn.
  destruct (find_host_node _ _ _) as [n|]; simpl; [|by left].
  destruct Hn as (h & Hbest & Hc).
  assert (h ∈ rt_hosts ir) as Hin by apply Hbest.
  pose proof (host_lookup_complete_aux h n req Hc (Hcase h Hin)) as Hl.
  destruct (host_lookup n req) as [p|] eqn:Hp; [|by right; eauto].
  destruct (host_lookup_sound_aux h n req p Hc Hp). exists h. split; [done|]. by split.
Qed.

(** ** Properties *)

(** C1. The whole HTTP lookup (compile, then hash maps, trie walk, discriminators,
    sorting and deduplication at request time) refines its declarative reading.
    Compilation succeeds on every route table; a returned plan belongs to a most
    specific eligible host, all its conditions hold of the request, and no
    matching plan of that host has a better priority; nothing is returned only
    when no host is eligible or no plan of a most specific host matches. The request
    spells the methods and header values it matches in the case of the rules. *)
Theorem lookup_route_refines (ir : RouteTable) (req : Request) :
  (∀ h, h ∈ rt_hosts ir → forallb (case_exact req) (host_plans h) = true) →
  ∃ t, compile ir = Ok t ∧
  match lookup_route t req with
  | Some p => ∃ h, best_host ir req h ∧ best_plan h req p
  | None => (∀ h, ¬ host_eligible ir req h) ∨
            ∃ h, best_host ir req h ∧ ∀ q, q ∈ host_plans h → full_match req q = false
  end.
Proof.
  intros Hcase. destruct (compile_ok ir) as [t Ht]. exists t. split; [done|]. by apply lookup_route_best.
Qed.
End spec.

(** A regex engine that matches literally, for evaluation. *)
#[local] Instance literal_engine : RegexEngine := λ pattern v, bool_decide (pattern = v).

Module Examples.
Definition prefix_rule (order : Z) (path : string) (headers : list HeaderMatch) : Rule :=
  {| rule_matches := [{| rm_path := Some (PathPrefix path); rm_method := None;
                         rm_headers := headers; rm_query_params := [] |}];
     rule_action := ActFixedResponse {| fr_status := 200 + order; fr_headers := []; fr_body := None |};
     rule_order := order |}.

Definition env_header (v : string) : list HeaderMatch :=
  [{| hm_name := "x-env"; hm_value := HeaderExact v |}].

(** Rules on one trie node, split by the value of a header. *)
Definition env_rules : list Rule :=
  [prefix_rule 0 "/api" (env_header "prod"); prefix_rule 1 "/api" (env_header "dev");
   prefix_rule 2 "/api" (env_header "qa"); prefix_rule 3 "/api" (env_header "e2e");
   prefix_rule 4 "/api" (env_header "perf"); prefix_rule 5 "/api" (env_header "canary");
   prefix_rule 6 "/api" (env_header "blue"); prefix_rule 7 "/api" (env_header "green")].

Definition env_host (rules : list Rule) : HostRoute :=
  {| hr_hostname := HostWildcard "example.com"; hr_listener_ids := [];
     hr_listener_hostname := None; hr_listener_port := Some 443; hr_gateway_api := true;
     hr_disable_secure_redirection := false; hr_rules := rules |}.

Definition env_table (rules : list Rule) : RouteTable :=
  {| rt_listeners := []; rt_hosts := [env_host rules]; rt_acme_routes := ∅;
     rt_l4_routes := []; rt_tls_certs := [] |}.

(** One rule more, so that the node gets a discriminator. *)
Definition env_rules9 : list Rule := env_rules ++ [prefix_rule 8 "/api" (env_header "load")].

Definition env_request (v : string) : Request :=
  {| req_host := "www.example.com"; req_port := 443; req_path := "/api/users";
     req_method := "GET"; req_header := λ n, if decide (n = "x-env") then Some v else None;
     req_query := None |}.

Definition found_order (rules : list Rule) (v : string) : option Z :=
  match compile (env_table rules) with
  | Ok t => plan_rule_order ∘ plan <$> lookup_route t (env_request v)
  | Err _ => None
  end.
End Examples.
Import Examples.

(** The refinement theorem applies to a table whose trie node has a header
    discriminator. *)
Lemma lookup_route_refines_witness :
  found_order env_rules9 "green" = Some 7 ∧
  ∃ t, compile (env_table env_rules9) = Ok t ∧
  match lookup_route t (env_request "green") with
  | Some p => ∃ h, best_host (env_table env_rules9) (env_request "green") h ∧
                   best_plan h (env_request "green") p
  | None => (∀ h, ¬ host_eligible (env_table env_rules9) (env_request "green") h) ∨
            ∃ h, best_host (env_table env_rules9) (env_request "green") h ∧
                 ∀ q, q ∈ host_plans h → full_match (env_request "green") q = false
  end.
Proof.
  split; [vm_compute; reflexivity|]. apply lookup_route_refines.
  intros h ->%list_elem_of_singleton. vm_compute. reflexivity.
Defined.

(** Whatever the case of the request, a plan returned by the lookup on a
    compiled host is a plan of that host, and its path, method, header and query
    conditions all hold of the request: no route is ever served by mistake. *)
Theorem host_lookup_sound `{!HashOrder, !RegexEngine} (host : HostRoute) (req : Request) :
  ∃ node, compile_host host = Ok node ∧
  ∀ p, host_lookup node req = Some p → p ∈ host_plans host ∧ full_match req p = true.
Proof.
  destruct (compile_host_ok host) as [node Hc]. exists node. split; [done|].
  intros p. by apply host_lookup_sound_aux.
Qed.

Lemma host_lookup_sound_witness :
  ∃ node, compile_host (env_host env_rules9) = Ok node ∧
  (∃ p, host_lookup node (env_request "green") = Some p) ∧
  ∀ p, host_lookup node (env_request "green") = Some p → full_match (env_request "green") p = true.
Proof.
  destruct (host_lookup_sound (env_host env_rules9) (env_request "green")) as (node & Hn & Hs).
  exists node. split_and!; [done| |by intros p [_ ?]%Hs].
  vm_compute in Hn. injection Hn as <-. vm_compute. eexists. reflexivity.
Defined.

(** The case condition of the refinement theorem is needed: with more than
    eight plans on a trie node, a discriminator compares header values byte by byte
    while the rules compare them without regard to ASCII case. The request matches
    the first rule in both tables; it is routed with eight rules and lost with
    nine. *)
Theorem discriminator_loses_case_variant :
  found_order env_rules "PROD" = Some 0 ∧
  found_order env_rules9 "PROD" = None ∧
  ∃ p, p ∈ host_plans (env_host env_rules9) ∧ full_match (env_request "PROD") p = true ∧
       plan_rule_order (plan p) = 0.
Proof.
  split_and!; [vm_compute; reflexivity..|].
  destruct (host_plans (env_host env_rules9)) as [|p ps] eqn:Hp; [by vm_compute in Hp|].
  exists p. vm_compute in Hp. injection Hp as <- _.
  split_and!; [left|vm_compute; reflexivity..].
Qed.

(** ** Precedence *)

(** The four fields of a precedence. *)
Definition prec_path_len (r : Rule) : Z :=
  max_or_zero ((λ p, str_len (path_match_str p)) <$> omap rm_path (rule_matches r)).
Definition prec_method (r : Rule) : Z :=
  max_or_zero ((λ m, if rm_method m is Some _ then 1 else 0) <$> rule_matches r).
Definition prec_headers (r : Rule) : Z :=
  max_or_zero ((λ m, Z.of_nat (length (rm_headers m))) <$> rule_matches r).
Definition prec_query (r : Rule) : Z :=
  max_or_zero ((λ m, Z.of_nat (length (rm_query_params m))) <$> rule_matches r).

Definition prec_fits (r : Rule) : Prop :=
  prec_path_len r < 2^16 ∧ prec_headers r < 2^16 ∧ prec_query r < 2^16.

(** Lexicographic order on the fields. *)
Definition prec_fields_lt (a b : Rule) : Prop :=
  prec_path_len a < prec_path_len b ∨
  prec_path_len a = prec_path_len b ∧
  (prec_method a < prec_method b ∨
   prec_method a = prec_method b ∧
   (prec_headers a < prec_headers b ∨
    prec_headers a = prec_headers b ∧ prec_query a < prec_query b)).

Lemma max_or_zero_nonneg l : 0 ≤ max_or_zero l.
Proof. unfold max_or_zero. induction l; simpl; lia. Qed.

Lemma max_or_zero_le l b : 0 ≤ b → (∀ x, x ∈ l → x ≤ b) → max_or_zero l ≤ b.
Proof.
  unfold max_or_zero. intros Hb. induction l as [|x l IH]; simpl; intros Hl; [done|].
  pose proof (Hl x (list_elem_of_here _ _)). assert (foldr Z.max 0 l ≤ b); [|lia].
  apply IH. intros y Hy. apply Hl. by right.
Qed.

Lemma prec_method_bound r : 0 ≤ prec_method r ≤ 1.
Proof.
  split; [apply max_or_zero_nonneg|]. apply max_or_zero_le; [lia|].
  intros x (m & -> & _)%list_elem_of_fmap. destruct (rm_method m); lia.
Qed.

(** Disjoint bit fields: [lor] of a multiple of [2^k] and a number below [2^k]. *)
Lemma lor_shiftl_add a b k : 0 ≤ k → 0 ≤ b < 2^k → Z.lor (a * 2^k) b = a * 2^k + b.
Proof.
  intros Hk Hb.
  assert (Z.land (a * 2^k) b = 0) as Hl.
  { apply Z.bits_inj'. intros n Hn. rewrite Z.land_spec, Z.bits_0.
    destruct (decide (n < k)); [by rewrite Z.mul_pow2_bits_low|].
    replace (Z.testbit b n) with false; [apply andb_false_r|].
    symmetry. destruct (decide (b = 0)) as [->|]; [apply Z.bits_0|].
    apply Z.bits_above_log2; [lia|]. assert (Z.log2 b < k) by (apply Z.log2_lt_pow2; lia). lia. }
  by rewrite <-Z.lxor_lor, <-Z.add_nocarry_lxor.
Qed.

Lemma wrap_shiftl x w k : 0 ≤ k ≤ w → 0 ≤ x < 2^(w - k) → wrap w (Z.shiftl x k) = x * 2^k.
Proof.
  intros Hk Hx. rewrite Z.shiftl_mul_pow2 by lia. apply wrap_small.
  replace (2^w) with (2^(w - k) * 2^k) by (rewrite <-Z.pow_add_r by lia; f_equal; lia).
  assert (0 < 2^k) by (apply Z.pow_pos_nonneg; lia). nia.
Qed.

Lemma compute_precedence_value r :
  prec_fits r →
  compute_precedence r =
  prec_path_len r * 2^48 + prec_method r * 2^32 + prec_headers r * 2^16 + prec_query r.
Proof.
  intros (Hp & Hh & Hq). unfold compute_precedence.
  fold (prec_path_len r) (prec_method r) (prec_headers r) (prec_query r).
  pose proof (prec_method_bound r).
  assert (0 ≤ prec_path_len r) by apply max_or_zero_nonneg.
  assert (0 ≤ prec_headers r) by apply max_or_zero_nonneg.
  assert (0 ≤ prec_query r) by apply max_or_zero_nonneg.
  change (2^16) with 65536 in *. rewrite !wrap_shiftl by (simpl; lia).
  rewrite (lor_shiftl_add (prec_path_len r)) by (simpl; lia).
  replace (prec_path_len r * 2^48 + prec_method r * 2^32)
    with ((prec_path_len r * 2^16 + prec_method r) * 2^32) by lia.
  rewrite lor_shiftl_add by (simpl; lia).
  replace ((prec_path_len r * 2^16 + prec_method r) * 2^32 + prec_headers r * 2^16)
    with ((prec_path_len r * 2^32 + prec_method r * 2^16 + prec_headers r) * 2^16) by lia.
  rewrite lor_shiftl_add by (simpl; lia). lia.
Qed.

(** The packed precedence is a faithful key: when path length, header count and
    query count fit in 16 bits, the value stays below [2^64] and comparing two
    precedences as integers is the lexicographic comparison of longest path, method
    present, header count and query count. *)
Theorem precedence_lexicographic (a b : Rule) :
  prec_fits a → prec_fits b →
  0 ≤ compute_precedence a < 2^64 ∧
  (compute_precedence a < compute_precedence b ↔ prec_fields_lt a b).
Proof.
  intros Ha Hb. rewrite !compute_precedence_value by done.
  destruct Ha as (? & ? & ?), Hb as (? & ? & ?).
  pose proof (prec_method_bound a). pose proof (prec_method_bound b).
  assert (∀ r, 0 ≤ prec_path_len r ∧ 0 ≤ prec_headers r ∧ 0 ≤ prec_query r) as Hnn
    by (intros r; split_and!; apply max_or_zero_nonneg).
  pose proof (Hnn a). pose proof (Hnn b). unfold prec_fields_lt.
  change (2^16) with 65536 in *. change (2^48) with 281474976710656.
  change (2^32) with 4294967296. change (2^64) with 18446744073709551616. lia.
Qed.

Lemma precedence_lexicographic_witness :
  0 ≤ compute_precedence (prefix_rule 0 "/api" []) < 2^64 ∧
  (compute_precedence (prefix_rule 0 "/api" []) < compute_precedence (prefix_rule 1 "/api" (env_header "qa")) ↔
   prec_fields_lt (prefix_rule 0 "/api" []) (prefix_rule 1 "/api" (env_header "qa"))).
Proof. apply precedence_lexicographic; vm_compute; split_and!; reflexivity. Defined.

(** ** Path prefixes *)

(** A path in canonical form: a slash, then non-empty segments joined by slashes. *)
Definition canonical_path (path : string) : Prop :=
  path = String slash (str_join "/" (split_path path)).

Lemma str_join_app sep l1 l2 :
  l1 ≠ [] → l2 ≠ [] → str_join sep (l1 ++ l2) = str_join sep l1 +:+ sep +:+ str_join sep l2.
Proof.
  intros H1 H2. induction l1 as [|w l1 IH]; [done|].
  destruct l1 as [|w' l1].
  - destruct l2; [done|]. reflexivity.
  - change ((w :: w' :: l1) ++ l2) with (w :: (w' :: l1) ++ l2).
    change (str_join sep (w :: (w' :: l1) ++ l2)) with (w +:+ sep +:+ str_join sep ((w' :: l1) ++ l2)).
    rewrite IH by done.
    change (str_join sep (w :: w' :: l1)) with (w +:+ sep +:+ str_join sep (w' :: l1)).
    by rewrite !str_app_assoc.
Qed.

Lemma split_path_app s t : split_path (s +:+ String slash t) = split_path s ++ split_path t.
Proof. unfold split_path. by rewrite str_split_app, filter_app. Qed.

Section path_prefix.
Context `{!RegexEngine}.

Lemma path_prefix_segments_aux (p path : string) :
  canonical_path p → canonical_path path →
  path_holds (Some (PathPrefix p)) path = true ↔
  p = "/" ∨ path = p ∨ ∃ rest, path = p +:+ String slash rest.
Proof.
  unfold path_holds, canonical_path. rewrite bool_decide_eq_true. intros Hp Hpath. split.
  - intros [rest Hr]. rewrite Hr in Hpath.
    destruct (split_path p) as [|w ws] eqn:Hsp; [left; by rewrite Hp|]. right.
    destruct rest as [|r rs]; [left; rewrite Hpath, Hp, app_nil_r; done|]. right.
    exists (str_join "/" (r :: rs)). rewrite Hpath, str_join_app, Hp by done.
    by rewrite !str_app_cons, str_app_nil_l.
  - intros [->|[->|[rest ->]]]; [apply prefix_nil|done|].
    rewrite split_path_app. by eexists.
Qed.

(** A prefix match is by whole path segments: on canonical paths, [PathPrefix p]
    accepts [p] itself and the paths below [p/], so "/foo" accepts "/foo/bar" and
    never "/foobar". The root prefix accepts every path. *)
Theorem path_prefix_segments (p path : string) :
  canonical_path p → canonical_path path →
  path_holds (Some (PathPrefix p)) path = true ↔
  p = "/" ∨ path = p ∨ ∃ rest, path = p +:+ String slash rest.
Proof. apply path_prefix_segments_aux. Qed.
End path_prefix.

Lemma path_prefix_segments_witness :
  canonical_path "/foo" ∧ canonical_path "/foobar" ∧
  (path_holds (Some (PathPrefix "/foo")) "/foobar" = true ↔
   "/foo" = "/" ∨ "/foobar" = "/foo" ∨ ∃ rest, "/foobar" = "/foo" +:+ String slash rest).
Proof.
  split_and!; [reflexivity..|]. apply path_prefix_segments; reflexivity.
Defined.
