(* ===== verification/L4.v ===== *)
(** * Layer 4: listener compilation and routing.

    [CompiledL4Config::compile] and [listener_hostname_for] of [src/ir/compile.rs], and
    the route selection and dispatch of [src/l4/router.rs]. *)

From S2P Require Import Prelude Net Ir Hostname Compile.

(** ** Compiled data *)

Inductive CompiledTlsConfig :=
| CtRegistry (cert_id : string)
| CtFiles (cert_path key_path : string).

Record CompiledFrontendValidation := {
  cfv_ca_bundle_pem : string;
  cfv_allow_insecure_fallback : bool;
}.

Record CompiledListener := {
  cl_id : string;
  cl_bind_addr : string;
  cl_protocol : Protocol;
  cl_tls : option CompiledTlsConfig;
  cl_redirect_http_to_https : bool;
  cl_frontend_validation : option CompiledFrontendValidation;
}.

Record CompiledL4Route := {
  cr_listener_id : string;
  cr_listener_hostname : HostnameMatch;
  cr_match : L4Match;
  cr_action : L4Action;
  cr_priority : Z;
}.

Record CompiledL4Config := {
  listeners : list CompiledListener;
  tcp_routes : list CompiledL4Route;
  udp_routes : list CompiledL4Route;
  tls_routes : list CompiledL4Route;
  https_routes : list CompiledL4Route;
  http_routes : list CompiledL4Route;
}.

(** [CompiledL4Config::default()] and [empty()]. *)
Definition CompiledL4Config_default : CompiledL4Config :=
  {| listeners := []; tcp_routes := []; udp_routes := []; tls_routes := [];
     https_routes := []; http_routes := [] |}.

#[export] Instance CompiledTlsConfig_eq_dec : EqDecision CompiledTlsConfig.
Proof. solve_decision. Defined.
#[export] Instance CompiledFrontendValidation_eq_dec : EqDecision CompiledFrontendValidation.
Proof. solve_decision. Defined.
#[export] Instance CompiledListener_eq_dec : EqDecision CompiledListener.
Proof. solve_decision. Defined.
#[export] Instance CompiledL4Route_eq_dec : EqDecision CompiledL4Route.
Proof. solve_decision. Defined.
#[export] Instance CompiledL4Config_eq_dec : EqDecision CompiledL4Config.
Proof. solve_decision. Defined.

(** ** Compilation *)

Definition compile_tls (t : TlsConfig) : CompiledTlsConfig :=
  match t with
  | TlsRegistry cert_id => CtRegistry cert_id
  | TlsFiles cert_path key_path => CtFiles cert_path key_path
  end.

Definition is_tls_protocol (p : Protocol) : bool :=
  match p with Https | Tls => true | _ => false end.

(** One iteration of the listener loop of [CompiledL4Config::compile]. *)
Definition compile_listener (l : ListenerConfig) : result CompiledListener CompileError :=
  let tls := compile_tls <$> lc_tls l in
  if is_tls_protocol (lc_protocol l) && bool_decide (tls = None)
  then Err {| message := "listener " +:+ lc_id l +:+ " (" +:+ protocol_debug (lc_protocol l)
                         +:+ ") requires TLS configuration" |}
  else Ok {| cl_id := lc_id l; cl_bind_addr := lc_bind_addr l; cl_protocol := lc_protocol l;
             cl_tls := tls; cl_redirect_http_to_https := lc_redirect_http_to_https l;
             cl_frontend_validation :=
               (λ v, {| cfv_ca_bundle_pem := fv_ca_bundle_pem v;
                        cfv_allow_insecure_fallback := fv_allow_insecure_fallback v |})
               <$> lc_frontend_validation l |}.

Definition group_key (l : CompiledListener) : string * Protocol := (cl_bind_addr l, cl_protocol l).

(** Addresses with a group of the given protocol. *)
Definition protocol_addrs (p : Protocol) (groups : gmap (string * Protocol) (list CompiledListener)) :
    gset string :=
  list_to_set (omap (λ kv : (string * Protocol) * list CompiledListener,
                       if decide (kv.1.2 = p) then Some kv.1.1 else None) (map_to_list groups)).

(** The key of the merged group. *)
Definition canonical_key (shared : gset string) (k : string * Protocol) : string :=
  if is_tls_protocol k.2 && bool_decide (k.1 ∈ shared)
  then k.1 +:+ "#tls" else k.1 +:+ "#" +:+ protocol_debug k.2.

(** [merged.entry(key).or_default().extend(group)]. *)
Definition extend_entry (k : string) (g : list CompiledListener)
    (m : gmap string (list CompiledListener)) : gmap string (list CompiledListener) :=
  <[k := default [] (m !! k) ++ g]> m.

Definition group_has_tls (group : list CompiledListener) : bool :=
  existsb (λ l, bool_decide (cl_protocol l = Tls)) group.

#[global] Arguments group_has_tls : simpl never.

(** The listener built for one merged group; [group[0]] is out of range on an empty
    group ([None]). *)
Definition merge_group (key : string) (group : list CompiledListener) : option CompiledListener :=
  match group with
  | [] => None
  | l0 :: _ =>
      let has_tls := group_has_tls group in
      let fvs := omap cl_frontend_validation group in
      Some {| cl_id := key;
              cl_bind_addr := cl_bind_addr l0;
              cl_protocol := if has_tls then Tls else cl_protocol l0;
              cl_tls := head (omap cl_tls group);
              cl_redirect_http_to_https := existsb cl_redirect_http_to_https group;
              cl_frontend_validation :=
                match List.find (λ v, negb (cfv_allow_insecure_fallback v)) fvs with
                | Some v => Some v
                | None => head fvs
                end |}
  end.

Definition listener_id_le (a b : CompiledListener) : bool := String.leb (cl_id a) (cl_id b).

(** Which of the five lists a route goes to. *)
Definition action_protocol (a : L4Action) : Protocol :=
  match a with
  | TcpRelay _ => Tcp
  | UdpRelay _ => Udp
  | TlsPassthrough _ | TlsTerminate _ => Tls
  | TerminateAndHttp _ => Https
  | HttpRelay _ => Http
  end.

Definition compile_l4_route (id_map : gmap string string) (r : L4Route) : CompiledL4Route :=
  {| cr_listener_id := default (l4r_listener_id r) (id_map !! l4r_listener_id r);
     cr_listener_hostname := l4r_listener_hostname r;
     cr_match := l4r_match r; cr_action := l4r_action r; cr_priority := 0 |}.

Definition routes_of (p : Protocol) (routes : list CompiledL4Route) : list CompiledL4Route :=
  filter (λ r, action_protocol (cr_action r) = p) routes.

Section compile_l4.
Context `{!HashOrder}.

(** The grouping of the compiled listeners by canonical key. *)
Definition merge_listeners (ls : list CompiledListener) : gmap string (list CompiledListener) :=
  let groups := group_by (λ l, Some (group_key l)) ls in
  let shared := protocol_addrs Https groups ∩ protocol_addrs Tls groups in
  foldl (λ m kg, extend_entry (canonical_key shared kg.1) kg.2 m) ∅ (hash_iter groups).

(** [listener_id_map]: source listener id to canonical key. *)
Definition build_id_map (merged : list (string * list CompiledListener)) : gmap string string :=
  foldl (λ m kg, foldl (λ m l, <[cl_id l := kg.1]> m) m kg.2) ∅ merged.

(** [CompiledL4Config::compile]. *)
Definition compile_l4 (ir : RouteTable) : result CompiledL4Config CompileError :=
  (let? compiled := result_mapM compile_listener (rt_listeners ir) in
   let merged := hash_iter (merge_listeners compiled) in
   let id_map := build_id_map merged in
   let routes := compile_l4_route id_map <$> rt_l4_routes ir in
   Ok {| listeners := sort_by listener_id_le (omap (λ kg, merge_group kg.1 kg.2) merged);
         tcp_routes := routes_of Tcp routes;
         udp_routes := routes_of Udp routes;
         tls_routes := routes_of Tls routes;
         https_routes := routes_of Https routes;
         http_routes := routes_of Http routes |})%result.
End compile_l4.

(** ** [CompiledL4Config::listener_hostname_for] *)

(** [rsplit(':').next()]. *)
Definition after_last_colon (s : string) : string := default s (last (str_split ":" s)).

Definition listener_port (l : CompiledListener) : option Z :=
  parse_uint u16_max (after_last_colon (cl_bind_addr l)).

Definition listener_hostname_for (cfg : CompiledL4Config) (host : string) (port : Z) :
    option HostnameMatch :=
  let ids : gset string :=
    list_to_set (cl_id <$> filter (λ l, listener_port l = Some port) (listeners cfg)) in
  max_by_key ir_listener_specificity_score
    (cr_listener_hostname <$>
       filter (λ r, cr_listener_id r ∈ ids ∧ ir_hostname_matches host (cr_listener_hostname r) = true)
         (https_routes cfg)).

(** ** Routing ([l4/router.rs]) *)

(** [L4Context]. *)
Record L4Context := {
  ctx_listener_id : string;
  ctx_local_addr : SocketAddr;
  ctx_remote_addr : SocketAddr;
  ctx_protocol : Protocol;
  ctx_sni : option string;
}.

(** [L4Context::from_tcp_stream] (its addresses already read), [L4Context::from_udp]. *)
Definition L4Context_new (listener_id : string) (protocol : Protocol)
    (local_addr remote_addr : SocketAddr) : L4Context :=
  {| ctx_listener_id := listener_id; ctx_local_addr := local_addr; ctx_remote_addr := remote_addr;
     ctx_protocol := protocol; ctx_sni := None |}.

(** [routes_for_protocol]. *)
Definition routes_for_protocol (cfg : CompiledL4Config) (p : Protocol) : list CompiledL4Route :=
  match p with
  | Tcp => tcp_routes cfg
  | Udp => udp_routes cfg
  | Tls => tls_routes cfg
  | Https => https_routes cfg
  | Http => http_routes cfg
  end.

(** [match_route]. *)
Definition match_route (m : L4Match) (sni : option string) : bool :=
  match m with
  | L4Any => true
  | L4Sni hostname => match sni with Some h => ir_hostname_matches h hostname | None => false end
  end.

(** [find_route]. *)
Definition find_route (routes : list CompiledL4Route) (ctx : L4Context) (sni : option string) :
    option CompiledL4Route :=
  List.find (λ r, bool_decide (cr_listener_id r = ctx_listener_id ctx) && match_route (cr_match r) sni)
    routes.

(** [find_tls_route]. *)
Definition route_score (r : CompiledL4Route) : Z :=
  ir_listener_specificity_score (cr_listener_hostname r).

Definition tls_candidates (routes : list CompiledL4Route) (ctx : L4Context) (sni : string) :
    list CompiledL4Route :=
  filter (λ r, cr_listener_id r = ctx_listener_id ctx ∧
               ir_hostname_matches sni (cr_listener_hostname r) = true) routes.

Definition find_tls_route (routes : list CompiledL4Route) (ctx : L4Context) (sni : option string) :
    option CompiledL4Route :=
  match sni with
  | None => None
  | Some sni =>
      List.find (λ r, match_route (cr_match r) (Some sni))
        (keep_max route_score (tls_candidates routes ctx sni))
  end.

(** The route [Router::handle_tcp] dispatches on; [peeked] is what
    [peek_client_hello_sni] returns on the stream. *)
Definition tcp_route (cfg : CompiledL4Config) (ctx : L4Context) (peeked : option string) :
    option CompiledL4Route :=
  let sni := match ctx_sni ctx with
             | Some sni => Some sni
             | None => if is_tls_protocol (ctx_protocol ctx) then peeked else None
             end in
  let routes := routes_for_protocol cfg (ctx_protocol ctx) in
  if is_tls_protocol (ctx_protocol ctx) then find_tls_route routes ctx sni
  else find_route routes ctx sni.

(** What [Router::handle_tcp] does with a connection. *)
Inductive TcpDispatch :=
| DispatchNoRoute
| DispatchRelayTcp (backends : list WeightedBackend)
| DispatchTlsTerminate (backends : list WeightedBackend)
| DispatchIgnored
| DispatchTerminateAndHttp (target : string)
| DispatchHttpRelay (target : string).

(** [Router::handle_tcp]. *)
Definition handle_tcp (cfg : CompiledL4Config) (ctx : L4Context) (peeked : option string) : TcpDispatch :=
  match tcp_route cfg ctx peeked with
  | None => DispatchNoRoute
  | Some r =>
      match cr_action r with
      | TcpRelay backends | TlsPassthrough backends => DispatchRelayTcp backends
      | TlsTerminate backends => DispatchTlsTerminate backends
      | UdpRelay _ => DispatchIgnored
      | TerminateAndHttp target => DispatchTerminateAndHttp target
      | HttpRelay target => DispatchHttpRelay target
      end
  end.

(** [Router::handle_udp]: the backends the packet is relayed to, if any. *)
Definition handle_udp (cfg : CompiledL4Config) (ctx : L4Context) : option (list WeightedBackend) :=
  match find_route (routes_for_protocol cfg (ctx_protocol ctx)) ctx None with
  | Some r => match cr_action r with UdpRelay backends => Some backends | _ => None end
  | None => None
  end.

(** [find_listener]. *)
Definition find_listener (cfg : CompiledL4Config) (id : string) : option CompiledListener :=
  List.find (λ l, bool_decide (cl_id l = id)) (listeners cfg).

(** ** Lemmas: grouping *)

Lemma protocol_debug_no_hash p : ¬ str_elem "#" (protocol_debug p).
Proof. destruct p; simpl; intuition discriminate. Qed.

Lemma protocol_debug_inj p q : protocol_debug p = protocol_debug q → p = q.
Proof. by destruct p, q. Qed.

Lemma protocol_debug_not_tls p : protocol_debug p ≠ "tls".
Proof. by destruct p. Qed.

Definition key_shared (shared : gset string) (k : string * Protocol) : bool :=
  is_tls_protocol k.2 && bool_decide (k.1 ∈ shared).

(** The canonical key determines the address, and the protocol unless the group
    is on a socket shared by HTTPS and TLS. *)
Lemma canonical_key_inj shared k k' :
  canonical_key shared k = canonical_key shared k' →
  k.1 = k'.1 ∧ key_shared shared k = key_shared shared k' ∧
  (key_shared shared k = false → k = k').
Proof.
  unfold canonical_key. fold (key_shared shared k) (key_shared shared k').
  assert (¬ str_elem "#" "tls") as Ht by (simpl; intuition discriminate).
  pose proof (protocol_debug_no_hash k.2). pose proof (protocol_debug_no_hash k'.2).
  destruct k as [a p], k' as [a' p']; simpl in *.
  destruct (key_shared shared (a, p)), (key_shared shared (a', p')); intros Heq;
    apply (last_sep_inj "#") in Heq as [-> Heq]; try done.
  - by destruct (protocol_debug_not_tls p').
  - by destruct (protocol_debug_not_tls p).
  - by apply protocol_debug_inj in Heq as ->.
Qed.

Lemma elem_of_protocol_addrs p ls a :
  a ∈ protocol_addrs p (group_by (λ l, Some (group_key l)) ls) ↔
  ∃ l, l ∈ ls ∧ cl_bind_addr l = a ∧ cl_protocol l = p.
Proof.
  unfold protocol_addrs. rewrite elem_of_list_to_set, list_elem_of_omap. split.
  - intros ([[a' p'] g] & Hin & Hd). simpl in *. case_decide; simplify_eq.
    apply elem_of_map_to_list in Hin as Hg. destruct g as [|l g]; [by apply group_by_nonempty in Hg|].
    pose proof (elem_of_group_by _ _ _ _ l Hg) as [Hl _].
    destruct Hl as [Hl Hk]; [left|]. unfold group_key in Hk. simplify_eq. eauto.
  - intros (l & Hl & <- & <-).
    pose proof (lookup_group_by (λ l, Some (group_key l)) ls (group_key l)) as Hg.
    destruct (group_by _ ls !! group_key l) as [g|] eqn:Hgk; simpl in Hg.
    + exists (group_key l, g). rewrite elem_of_map_to_list. split; [done|]. simpl. by rewrite decide_True.
    + exfalso. assert (l ∈ filter (λ v, Some (group_key v) = Some (group_key l)) ls) as Hin
        by by rewrite list_elem_of_filter.
      rewrite <-Hg in Hin. by apply elem_of_nil in Hin.
Qed.

(** Addresses on which both an HTTPS and a TLS listener are configured. *)
Definition shared_addrs (ls : list CompiledListener) : gset string :=
  let groups := group_by (λ l, Some (group_key l)) ls in
  protocol_addrs Https groups ∩ protocol_addrs Tls groups.

Definition merged_key (ls : list CompiledListener) (l : CompiledListener) : string :=
  canonical_key (shared_addrs ls) (group_key l).

Lemma foldl_extend_entry ck (kvs : list ((string * Protocol) * list CompiledListener)) m K :
  default [] (foldl (λ m kg, extend_entry (ck kg.1) kg.2 m) m kvs !! K) =
  default [] (m !! K) ++ (kvs ≫= λ kg, if decide (ck kg.1 = K) then kg.2 else []).
Proof.
  revert m. induction kvs as [|[k g] kvs IH]; intros m; simpl; [by rewrite app_nil_r|].
  rewrite IH. unfold extend_entry. rewrite lookup_insert. simpl. case_decide; simpl.
  - subst. by rewrite <-(assoc_L app).
  - done.
Qed.

Section merge.
Context `{!HashOrder}.

(** A merged group holds exactly the listeners with its canonical key. *)
Lemma elem_of_merge_listeners ls K l :
  l ∈ default [] (merge_listeners ls !! K) ↔ l ∈ ls ∧ merged_key ls l = K.
Proof.
  unfold merge_listeners. fold (shared_addrs ls). rewrite foldl_extend_entry, lookup_empty. simpl.
  rewrite list_elem_of_bind. split.
  - intros ([k g] & Hl & Hin%elem_of_hash_iter). simpl in *.
    case_decide as Hk; [|by apply elem_of_nil in Hl].
    apply (elem_of_group_by _ _ _ _ l Hin) in Hl as [Hl Hgk]. simplify_eq. done.
  - intros [Hl <-].
    pose proof (lookup_group_by (λ l, Some (group_key l)) ls (group_key l)) as Hg.
    assert (l ∈ filter (λ v, Some (group_key v) = Some (group_key l)) ls) as Hin
      by by rewrite list_elem_of_filter.
    rewrite <-Hg in Hin. destruct (group_by _ ls !! group_key l) as [g|] eqn:Hgk; simpl in Hin;
      [|by apply elem_of_nil in Hin].
    exists (group_key l, g). rewrite elem_of_hash_iter. split; [|done]. simpl. by rewrite decide_True.
Qed.

Lemma merge_listeners_nonempty ls K : merge_listeners ls !! K ≠ Some [].
Proof.
  unfold merge_listeners. fold (shared_addrs ls).
  assert (∀ k g, (k, g) ∈ hash_iter (group_by (λ l, Some (group_key l)) ls) → g ≠ []) as Hne.
  { intros k g Hin%elem_of_hash_iter ->. by apply group_by_nonempty in Hin. }
  assert (∀ m, m !! K ≠ Some [] → ∀ kvs, (∀ k g, (k, g) ∈ kvs → g ≠ []) →
    foldl (λ m kg, extend_entry (canonical_key (shared_addrs ls) kg.1) kg.2 m) m kvs !! K ≠ Some [])
    as Hf; [|by apply Hf; [rewrite lookup_empty|]].
  intros m Hm kvs. revert m Hm. induction kvs as [|[k g] kvs IH]; intros m Hm Hkvs; simpl; [done|].
  apply IH; [|set_solver]. unfold extend_entry. rewrite lookup_insert. case_decide; [|done].
  assert (g ≠ []) by (apply (Hkvs k); left). intros [= [_ ?]%app_nil]. done.
Qed.

Lemma elem_of_merged ls K g :
  (K, g) ∈ hash_iter (merge_listeners ls) →
  g ≠ [] ∧ ∀ l, l ∈ g ↔ l ∈ ls ∧ merged_key ls l = K.
Proof.
  rewrite elem_of_hash_iter. intros Hg. split.
  - intros ->. by apply merge_listeners_nonempty in Hg.
  - intros l. rewrite <-elem_of_merge_listeners, Hg. done.
Qed.

Lemma merged_of_listener ls l :
  l ∈ ls → ∃ g, (merged_key ls l, g) ∈ hash_iter (merge_listeners ls) ∧ l ∈ g.
Proof.
  intros Hl. assert (l ∈ default [] (merge_listeners ls !! merged_key ls l)) as Hin
    by by apply elem_of_merge_listeners.
  destruct (merge_listeners ls !! merged_key ls l) as [g|] eqn:Hg; simpl in Hin;
    [|by apply elem_of_nil in Hin].
  exists g. by rewrite elem_of_hash_iter.
Qed.
End merge.

(** ** Lemmas: the merged listeners *)

Lemma merge_group_some K g : g ≠ [] → ∃ cl, merge_group K g = Some cl ∧ cl_id cl = K.
Proof. destruct g; [done|]. simpl. eauto. Qed.

Lemma group_has_tls_true g : group_has_tls g = true ↔ ∃ l, l ∈ g ∧ cl_protocol l = Tls.
Proof.
  unfold group_has_tls. rewrite existsb_exists. setoid_rewrite <-list_elem_of_In.
  by setoid_rewrite bool_decide_eq_true.
Qed.

(** The protocol of a merged listener. *)
Definition merged_protocol (ls : list CompiledListener) (l : CompiledListener) : Protocol :=
  if key_shared (shared_addrs ls) (group_key l) then Tls else cl_protocol l.

Lemma merged_key_inj ls l l' :
  merged_key ls l = merged_key ls l' →
  cl_bind_addr l = cl_bind_addr l' ∧ merged_protocol ls l = merged_protocol ls l'.
Proof.
  intros (Ha & Hs & Hk)%canonical_key_inj. split; [done|]. unfold merged_protocol.
  rewrite <-Hs. destruct (key_shared _ _); [done|].
  specialize (Hk eq_refl). unfold group_key in Hk. congruence.
Qed.

Lemma shared_has_tls ls l :
  key_shared (shared_addrs ls) (group_key l) = true →
  ∃ l', l' ∈ ls ∧ cl_protocol l' = Tls ∧ merged_key ls l' = merged_key ls l.
Proof.
  unfold key_shared. rewrite andb_true_iff, bool_decide_eq_true. intros [Hp Hs].
  pose proof Hs as [_ (l' & Hl' & Ha & Ht)%elem_of_protocol_addrs]%elem_of_intersection.
  exists l'. split_and!; [done..|]. unfold merged_key, canonical_key. simpl in *.
  by rewrite Hp, Ha, Ht, !bool_decide_eq_true_2.
Qed.

(** The protocol of the merged listener: HTTPS becomes TLS exactly on an address shared
    with a TLS listener, every other protocol stays. *)
Lemma merged_protocol_spec ls l :
  l ∈ ls →
  (cl_protocol l ≠ Https → merged_protocol ls l = cl_protocol l) ∧
  (cl_protocol l = Https →
     (merged_protocol ls l = Tls ↔ ∃ l', l' ∈ ls ∧ cl_bind_addr l' = cl_bind_addr l ∧ cl_protocol l' = Tls) ∧
     (merged_protocol ls l = Tls ∨ merged_protocol ls l = Https)).
Proof.
  intros Hl. unfold merged_protocol, key_shared, shared_addrs, group_key. cbn [fst snd]. split.
  - intros Hp. destruct (cl_protocol l) eqn:Hpl; try done. cbn [is_tls_protocol andb]. by destruct (bool_decide _).
  - intros Hp. rewrite Hp. cbn [is_tls_protocol andb].
    assert (cl_bind_addr l ∈ protocol_addrs Https (group_by (λ l, Some (group_key l)) ls) ∩
                             protocol_addrs Tls (group_by (λ l, Some (group_key l)) ls) ↔
      ∃ l', l' ∈ ls ∧ cl_bind_addr l' = cl_bind_addr l ∧ cl_protocol l' = Tls) as Hiff.
    { rewrite elem_of_intersection, !elem_of_protocol_addrs. naive_solver. }
    unfold group_key in Hiff. case_bool_decide as Hs; rewrite Hiff in Hs; split; try done; by auto.
Qed.

Lemma merge_group_fields ls K g cl l :
  (∀ l, l ∈ g ↔ l ∈ ls ∧ merged_key ls l = K) → l ∈ g → merge_group K g = Some cl →
  cl_bind_addr cl = cl_bind_addr l ∧ cl_protocol cl = merged_protocol ls l.
Proof.
  intros Hg Hl Hm. destruct g as [|l0 g]; [by apply elem_of_nil in Hl|].
  assert (l0 ∈ l0 :: g) as Hl0 by left.
  pose proof Hl as [Hin HK]%Hg. pose proof Hl0 as [Hin0 HK0]%Hg.
  destruct (merged_key_inj ls l0 l) as [Ha Hp]; [congruence|].
  unfold merge_group in Hm. injection Hm as <-. cbn [cl_bind_addr cl_protocol]. split; [done|].
  rewrite <-Hp. unfold merged_protocol in *.
  destruct (group_has_tls (l0 :: g)) eqn:Hex.
  - apply group_has_tls_true in Hex as (lt & Hlt & Ht).
    pose proof Hlt as [_ HKt]%Hg. destruct (merged_key_inj ls l0 lt) as [_ Hpt]; [congruence|].
    unfold merged_protocol in Hpt. rewrite Hpt, Ht. by destruct (key_shared _ (group_key lt)).
  - destruct (key_shared _ (group_key l0)) eqn:Hs; [|done].
    apply shared_has_tls in Hs as (lt & Hlt & Ht & HKt). exfalso.
    apply not_true_iff_false in Hex. apply Hex, group_has_tls_true.
    exists lt. split; [apply Hg; split; [done|congruence]|done].
Qed.

Lemma merge_group_strict K g cl l v :
  merge_group K g = Some cl → l ∈ g → cl_frontend_validation l = Some v →
  cfv_allow_insecure_fallback v = false →
  ∃ v', cl_frontend_validation cl = Some v' ∧ cfv_allow_insecure_fallback v' = false.
Proof.
  intros Hm Hl Hv Hs. destruct g as [|l0 g]; [done|]. unfold merge_group in Hm.
  injection Hm as <-. simpl cl_frontend_validation.
  destruct (List.find _ _) as [v'|] eqn:Hf.
  - apply find_Some_elem in Hf as [_ Hn]. exists v'. split; [done|]. by destruct (cfv_allow_insecure_fallback v').
  - rewrite find_None in Hf. specialize (Hf v). rewrite Hs in Hf.
    exfalso. assert (v ∈ omap cl_frontend_validation (l0 :: g)) as Hin
      by (apply list_elem_of_omap; eauto). by apply Hf in Hin.
Qed.

(** ** Lemmas: the id map *)

Definition insert_pair (m : gmap string string) (p : string * string) : gmap string string :=
  <[p.1 := p.2]> m.

Lemma foldl_insert_pair_in ps m id K :
  foldl insert_pair m ps !! id = Some K → m !! id = Some K ∨ (id, K) ∈ ps.
Proof.
  revert m. induction ps as [|[id' K'] ps IH]; intros m; simpl; [eauto|].
  intros [Hm|?]%IH; [|set_solver]. unfold insert_pair in Hm. simpl in Hm.
  rewrite lookup_insert in Hm. case_decide; simplify_eq; set_solver.
Qed.

Lemma foldl_insert_pair_total ps m id :
  is_Some (m !! id) ∨ id ∈ ps.*1 → is_Some (foldl insert_pair m ps !! id).
Proof.
  revert m. induction ps as [|[id' K'] ps IH]; intros m; simpl; [set_solver|].
  intros Hid. apply IH. unfold insert_pair. simpl. rewrite lookup_insert.
  case_decide; [left; eauto|]. set_solver.
Qed.

Definition id_pairs (merged : list (string * list CompiledListener)) : list (string * string) :=
  merged ≫= λ kg, (λ l, (cl_id l, kg.1)) <$> kg.2.

Lemma build_id_map_pairs merged : build_id_map merged = foldl insert_pair ∅ (id_pairs merged).
Proof.
  unfold build_id_map, id_pairs. generalize (∅ : gmap string string).
  induction merged as [|[K g] merged IH]; intros m; simpl; [done|].
  rewrite foldl_app, IH. f_equal. clear IH. revert m. induction g as [|l g IH]; intros m; simpl; [done|].
  by rewrite IH.
Qed.

Lemma elem_of_id_pairs merged id K :
  (id, K) ∈ id_pairs merged ↔ ∃ g l, (K, g) ∈ merged ∧ l ∈ g ∧ cl_id l = id.
Proof.
  unfold id_pairs. rewrite list_elem_of_bind. setoid_rewrite list_elem_of_fmap. split.
  - intros ([K' g] & (l & ? & ?) & ?). simplify_eq/=. eauto.
  - intros (g & l & ? & ? & <-). exists (K, g). eauto.
Qed.

Section id_map.
Context `{!HashOrder}.

(** With distinct listener ids the map sends every listener to its merged group. *)
Lemma id_map_lookup ls l :
  NoDup (cl_id <$> ls) → l ∈ ls →
  build_id_map (hash_iter (merge_listeners ls)) !! cl_id l = Some (merged_key ls l).
Proof.
  intros Hnd Hl. destruct (merged_of_listener ls l Hl) as (g & Hg & Hlg).
  rewrite build_id_map_pairs.
  destruct (foldl_insert_pair_total (id_pairs (hash_iter (merge_listeners ls))) ∅ (cl_id l)) as [K HK].
  { right. apply list_elem_of_fmap. exists (cl_id l, merged_key ls l).
    split; [done|]. apply elem_of_id_pairs. eauto. }
  rewrite HK. f_equal. apply foldl_insert_pair_in in HK as [HK|HK]; [by rewrite lookup_empty in HK|].
  apply elem_of_id_pairs in HK as (g' & l' & Hg' & Hl' & Hid).
  apply elem_of_merged in Hg' as [_ Hg']. apply Hg' in Hl' as [Hl' <-].
  by rewrite (NoDup_fmap_elem_inj cl_id ls l' l).
Qed.
End id_map.

(** ** Lemmas: the compiled configuration *)

Lemma compile_listener_ok l cl :
  compile_listener l = Ok cl →
  cl_id cl = lc_id l ∧ cl_bind_addr cl = lc_bind_addr l ∧ cl_protocol cl = lc_protocol l ∧
  cfv_allow_insecure_fallback <$> cl_frontend_validation cl =
    (fv_allow_insecure_fallback <$> lc_frontend_validation l).
Proof.
  unfold compile_listener. case_match; [done|]. intros ?. simplify_eq. simpl.
  split_and!; [done..|]. by destruct (lc_frontend_validation l).
Qed.

Lemma result_mapM_elem {A B E} (f : A → result B E) l ys x :
  result_mapM f l = Ok ys → x ∈ l → ∃ y, f x = Ok y ∧ y ∈ ys.
Proof.
  revert ys. induction l as [|a l IH]; intros ys; simpl; [intros _ ?%elem_of_nil; done|].
  intros (y & Hy & (ys' & Hys & ?)%result_bind_ok)%result_bind_ok. simplify_eq.
  intros [->|Hx]%elem_of_cons; [set_solver|]. destruct (IH _ Hys Hx) as (z & ? & ?). set_solver.
Qed.

Lemma result_mapM_elem_inv {A B E} (f : A → result B E) l ys y :
  result_mapM f l = Ok ys → y ∈ ys → ∃ x, x ∈ l ∧ f x = Ok y.
Proof.
  revert ys. induction l as [|a l IH]; intros ys; simpl; [intros [= <-] ?%elem_of_nil; done|].
  intros (z & Hz & (ys' & Hys & ?)%result_bind_ok)%result_bind_ok. simplify_eq.
  intros [->|Hy]%elem_of_cons; [set_solver|]. destruct (IH _ Hys Hy) as (x & ? & ?). set_solver.
Qed.

Lemma compile_listeners_ids ls cls :
  result_mapM compile_listener ls = Ok cls → cl_id <$> cls = lc_id <$> ls.
Proof.
  revert cls. induction ls as [|l ls IH]; intros cls; simpl; [by intros [= <-]|].
  intros (cl & (Hid & _)%compile_listener_ok & (cls' & Hcls & ?)%result_bind_ok)%result_bind_ok.
  simplify_eq. rewrite fmap_cons, Hid. f_equal. by apply IH.
Qed.

(** A TLS listener on an address, before and after compilation. *)
Lemma compiled_tls_at ls cls addr : result_mapM compile_listener ls = Ok cls →
  (∃ l', l' ∈ cls ∧ cl_bind_addr l' = addr ∧ cl_protocol l' = Tls) ↔
  (∃ l', l' ∈ ls ∧ lc_bind_addr l' = addr ∧ lc_protocol l' = Tls).
Proof.
  intros Hcls. split.
  - intros (cl & Hcl & <- & Ht). destruct (result_mapM_elem_inv _ _ _ _ Hcls Hcl) as (l & Hl & Hok).
    apply compile_listener_ok in Hok as (_ & Ha & Hp & _). exists l. by rewrite Ha, <-Hp.
  - intros (l & Hl & <- & Ht). destruct (result_mapM_elem _ _ _ _ Hcls Hl) as (cl & Hok & Hcl).
    apply compile_listener_ok in Hok as (_ & Ha & Hp & _). exists cl. by rewrite Ha, Hp.
Qed.

Section compiled.
Context `{!HashOrder}.

Lemma elem_of_compiled_listeners ls cl :
  cl ∈ sort_by listener_id_le (omap (λ kg, merge_group kg.1 kg.2) (hash_iter (merge_listeners ls))) ↔
  ∃ K g, (K, g) ∈ hash_iter (merge_listeners ls) ∧ merge_group K g = Some cl.
Proof.
  rewrite elem_of_sort_by, list_elem_of_omap. split.
  - intros ([K g] & ? & ?). eauto.
  - intros (K & g & ? & ?). by exists (K, g).
Qed.

(** The compiled listener that stands for a source listener. *)
Lemma compiled_listener_of ls l :
  l ∈ ls → ∃ cl, cl ∈ sort_by listener_id_le
      (omap (λ kg, merge_group kg.1 kg.2) (hash_iter (merge_listeners ls))) ∧
    cl_id cl = merged_key ls l ∧ cl_bind_addr cl = cl_bind_addr l ∧
    cl_protocol cl = merged_protocol ls l ∧
    ∀ v, cl_frontend_validation l = Some v → cfv_allow_insecure_fallback v = false →
      ∃ v', cl_frontend_validation cl = Some v' ∧ cfv_allow_insecure_fallback v' = false.
Proof.
  intros Hl. destruct (merged_of_listener ls l Hl) as (g & Hg & Hlg).
  pose proof Hg as [Hne Hmem]%elem_of_merged.
  destruct (merge_group_some (merged_key ls l) g Hne) as (cl & Hcl & Hid).
  destruct (merge_group_fields ls _ g cl l Hmem Hlg Hcl). exists cl.
  split_and!; [apply elem_of_compiled_listeners; eauto|done..|].
  intros v. by eapply merge_group_strict.
Qed.

(** Every compiled listener stands for some source listener. *)
Lemma compiled_listener_source ls cl :
  cl ∈ sort_by listener_id_le
      (omap (λ kg, merge_group kg.1 kg.2) (hash_iter (merge_listeners ls))) →
  ∃ l, l ∈ ls ∧ cl_id cl = merged_key ls l ∧ cl_bind_addr cl = cl_bind_addr l ∧
       cl_protocol cl = merged_protocol ls l.
Proof.
  intros (K & g & Hg & Hcl)%elem_of_compiled_listeners.
  apply elem_of_merged in Hg as [Hne Hmem]. destruct g as [|l g]; [done|].
  assert (l ∈ l :: g) as Hl by left. pose proof Hl as [Hin HK]%Hmem.
  destruct (merge_group_fields ls K (l :: g) cl l Hmem Hl Hcl).
  destruct (merge_group_some K (l :: g) Hne) as (cl' & Hcl' & Hid). simplify_eq.
  exists l. split_and!; done.
Qed.

Lemma compiled_listener_ids_NoDup ls :
  NoDup (cl_id <$> sort_by listener_id_le
      (omap (λ kg, merge_group kg.1 kg.2) (hash_iter (merge_listeners ls)))).
Proof.
  rewrite sort_by_perm.
  assert (cl_id <$> omap (λ kg, merge_group kg.1 kg.2) (hash_iter (merge_listeners ls)) =
          (hash_iter (merge_listeners ls)).*1) as ->; [|apply NoDup_hash_iter_fst].
  assert (∀ K g, (K, g) ∈ hash_iter (merge_listeners ls) → g ≠ []) as Hne
    by (intros K g ?%elem_of_merged; naive_solver).
  induction (hash_iter (merge_listeners ls)) as [|[K g] kgs IH]; [done|].
  destruct (merge_group_some K g) as (cl & Hcl & Hid); [apply (Hne K); left|].
  simpl. rewrite Hcl, fmap_cons, Hid. f_equal. apply IH. intros; eapply Hne; by right.
Qed.
End compiled.

(** ** Properties of compilation and routing *)

Section properties.
Context `{!HashOrder}.

(** C20. Listener merging keeps every route on the socket of its listener: when the
    source listeners have distinct ids and compilation succeeds, a source listener has a
    compiled listener with its bind address and its protocol, except that HTTPS becomes TLS
    exactly when a TLS listener has the same bind address; client certificates stay
    mandatory if the source listener requires them, and every route attached to the source
    listener is attached to that compiled listener with its match, action and listener
    hostname unchanged. *)
Theorem l4_routes_reach_their_socket (ir : RouteTable) (cfg : CompiledL4Config) (l : ListenerConfig) :
  NoDup (lc_id <$> rt_listeners ir) → compile_l4 ir = Ok cfg → l ∈ rt_listeners ir →
  ∃ cl, cl ∈ listeners cfg ∧ cl_bind_addr cl = lc_bind_addr l ∧
    (lc_protocol l ≠ Https → cl_protocol cl = lc_protocol l) ∧
    (lc_protocol l = Https →
       (cl_protocol cl = Tls ↔
          ∃ l', l' ∈ rt_listeners ir ∧ lc_bind_addr l' = lc_bind_addr l ∧ lc_protocol l' = Tls) ∧
       (cl_protocol cl = Tls ∨ cl_protocol cl = Https)) ∧
    (fv_allow_insecure_fallback <$> lc_frontend_validation l = Some false →
     cfv_allow_insecure_fallback <$> cl_frontend_validation cl = Some false) ∧
    ∀ r, r ∈ rt_l4_routes ir → l4r_listener_id r = lc_id l →
      ∃ cr, cr ∈ routes_for_protocol cfg (action_protocol (l4r_action r)) ∧
            cr_listener_id cr = cl_id cl ∧ cr_action cr = l4r_action r ∧
            cr_match cr = l4r_match r ∧ cr_listener_hostname cr = l4r_listener_hostname r.
Proof.
  unfold compile_l4. intros Hnd (cls & Hcls & ?)%result_bind_ok Hl. simplify_eq.
  destruct (result_mapM_elem _ _ _ _ Hcls Hl) as (sl & Hsl & Hin).
  destruct (compiled_listener_of cls sl Hin) as (cl & Hcl & Hid & Ha & Hp & Hstrict).
  destruct (merged_protocol_spec cls sl Hin) as [Hother Hhttps].
  apply compile_listener_ok in Hsl as (Hsid & Hsa & Hsp & Hsf). rewrite Hsp in Hother, Hhttps.
  exists cl. split_and!; [done|congruence|by rewrite Hp| | |].
  - intros Hh. rewrite Hp. destruct (Hhttps Hh) as [Hiff Hor]. split; [|exact Hor].
    rewrite Hiff, Hsa. by apply compiled_tls_at.
  - rewrite <-Hsf. destruct (cl_frontend_validation sl) as [v|]; [|done]. simpl. intros ?. simplify_eq.
    destruct (Hstrict v) as (v' & -> & ?); [done..|]. simpl. congruence.
  - intros r Hr Hrid. pose proof (id_map_lookup cls sl) as Hmap.
    rewrite compile_listeners_ids with (ls := rt_listeners ir) in Hmap by done.
    specialize (Hmap Hnd Hin).
    exists (compile_l4_route (build_id_map (hash_iter (merge_listeners cls))) r).
    split_and!; [|simpl; rewrite Hrid, <-Hsid, Hmap; simpl; congruence|done..].
    assert (compile_l4_route (build_id_map (hash_iter (merge_listeners cls))) r ∈
      routes_of (action_protocol (l4r_action r))
        (compile_l4_route (build_id_map (hash_iter (merge_listeners cls))) <$> rt_l4_routes ir)) as Hro.
    { unfold routes_of. rewrite list_elem_of_filter, list_elem_of_fmap. simpl. eauto. }
    by destruct (action_protocol (l4r_action r)).
Qed.

(** The compiled listeners are distinct sockets: their ids are distinct, and two of
    them on one bind address have different protocols that are not both TLS, so
    HTTPS and TLS on one address always share a socket. *)
Theorem l4_sockets_distinct (ir : RouteTable) (cfg : CompiledL4Config) :
  compile_l4 ir = Ok cfg →
  NoDup (cl_id <$> listeners cfg) ∧
  ∀ a b, a ∈ listeners cfg → b ∈ listeners cfg → cl_bind_addr a = cl_bind_addr b →
    a = b ∨ cl_protocol a ≠ cl_protocol b ∧
            is_tls_protocol (cl_protocol a) && is_tls_protocol (cl_protocol b) = false.
Proof.
  unfold compile_l4. intros (cls & _ & ?)%result_bind_ok. simplify_eq. simpl.
  pose proof (compiled_listener_ids_NoDup cls) as Hnd. split; [done|]. intros a b Ha Hb Hab.
  pose proof Ha as (la & Hla & Ida & Ba & Pa)%compiled_listener_source.
  pose proof Hb as (lb & Hlb & Idb & Bb & Pb)%compiled_listener_source.
  destruct (decide (merged_key cls la = merged_key cls lb)) as [Hk|Hk].
  { left. eapply NoDup_fmap_elem_inj; [exact Hnd|done..|congruence]. }
  right. assert (cl_bind_addr la = cl_bind_addr lb) as Hbb by congruence.
  rewrite Pa, Pb. clear - Hla Hlb Hbb Hk. revert Hk.
  unfold merged_key, merged_protocol, canonical_key, key_shared. simpl. rewrite Hbb.
  destruct (decide (cl_bind_addr lb ∈ shared_addrs cls)) as [Hs|Hs].
  - rewrite (bool_decide_eq_true_2 _ Hs).
    destruct (cl_protocol la), (cl_protocol lb); simpl; done.
  - rewrite (bool_decide_eq_false_2 _ Hs), !andb_false_r. intros Hk. split; [congruence|].
    apply not_true_is_false. intros [Hta Htb]%andb_true_iff. apply Hs.
    apply elem_of_intersection. rewrite !elem_of_protocol_addrs.
    destruct (cl_protocol la) eqn:Epa, (cl_protocol lb) eqn:Epb; try done; eauto 10.
Qed.

(** Listener isolation by SNI: the TLS route chosen belongs to the listener of the
    connection, its listener hostname accepts the SNI with a specificity no other
    accepting route of the listener exceeds, and its own match accepts the SNI. No
    route is chosen only when no route at the highest specificity matches. *)
Theorem find_tls_route_isolated (routes : list CompiledL4Route) (ctx : L4Context) (sni : string) :
  match find_tls_route routes ctx (Some sni) with
  | Some r => r ∈ tls_candidates routes ctx sni ∧ match_route (cr_match r) (Some sni) = true ∧
              ∀ r', r' ∈ tls_candidates routes ctx sni → route_score r' ≤ route_score r
  | None => ∀ r, r ∈ tls_candidates routes ctx sni →
              (∀ r', r' ∈ tls_candidates routes ctx sni → route_score r' ≤ route_score r) →
              match_route (cr_match r) (Some sni) = false
  end.
Proof.
  unfold find_tls_route. destruct (List.find _ _) as [r|] eqn:Hf.
  - apply find_Some_elem in Hf as [[? ?]%keep_max_spec ?]. done.
  - rewrite find_None in Hf. intros r Hr Hmax. by apply Hf, keep_max_spec.
Qed.

Lemma compile_listener_err l e :
  compile_listener l = Err e ↔
  is_tls_protocol (lc_protocol l) = true ∧ lc_tls l = None ∧
  message e = "listener " +:+ lc_id l +:+ " (" +:+ protocol_debug (lc_protocol l)
                +:+ ") requires TLS configuration".
Proof.
  unfold compile_listener. destruct e as [m]. simpl.
  destruct (is_tls_protocol _), (lc_tls l); simpl; naive_solver.
Qed.

Lemma compile_l4_ok ir :
  (∀ l, l ∈ rt_listeners ir → is_tls_protocol (lc_protocol l) = true → lc_tls l ≠ None) →
  ∃ cfg, compile_l4 ir = Ok cfg.
Proof.
  intros Hl. assert (∃ cls, result_mapM compile_listener (rt_listeners ir) = Ok cls) as [cls Hcls].
  { revert Hl. induction (rt_listeners ir) as [|l ls IH]; intros Hl; simpl; [eauto|].
    destruct (compile_listener l) as [cl|e] eqn:Hc.
    - destruct IH as [cls ->]; [intros; apply Hl; [by right|done]|]. simpl. eauto.
    - apply compile_listener_err in Hc as (Ht & Hn & _). destruct (Hl l); [left|done..]. }
  unfold compile_l4. rewrite Hcls. simpl. eauto.
Qed.

(** Compilation of the L4 side fails exactly when an HTTPS or TLS listener has no TLS
    configuration, and the error names the first such listener. *)
Theorem compile_l4_error_iff (ir : RouteTable) :
  match compile_l4 ir with
  | Ok _ => ∀ l, l ∈ rt_listeners ir → is_tls_protocol (lc_protocol l) = true → lc_tls l ≠ None
  | Err e => ∃ pre l post, rt_listeners ir = pre ++ l :: post ∧
      (∀ l', l' ∈ pre → is_tls_protocol (lc_protocol l') = true → lc_tls l' ≠ None) ∧
      is_tls_protocol (lc_protocol l) = true ∧ lc_tls l = None ∧
      message e = "listener " +:+ lc_id l +:+ " (" +:+ protocol_debug (lc_protocol l)
                    +:+ ") requires TLS configuration"
  end.
Proof.
  unfold compile_l4. induction (rt_listeners ir) as [|l ls IH]; simpl.
  - intros l Hl. by apply elem_of_nil in Hl.
  - destruct (compile_listener l) as [cl|e] eqn:Hl; simpl.
    + assert (is_tls_protocol (lc_protocol l) = true → lc_tls l ≠ None) as Hok.
      { intros Ht Hn. assert (∃ e, compile_listener l = Err e) as [? ?]; [|congruence].
        unfold compile_listener. rewrite Ht, Hn. simpl. eauto. }
      destruct (result_mapM compile_listener ls) as [cls|e]; simpl in *.
      * intros l' [->|?]%elem_of_cons; eauto.
      * destruct IH as (pre & l' & post & -> & Hpre & ?). exists (l :: pre), l', post.
        split_and!; [done| |naive_solver..]. intros l'' [->|?]%elem_of_cons; eauto.
    + apply compile_listener_err in Hl. exists [], l, ls. split_and!; [done| |naive_solver..].
      intros l' ?%elem_of_nil. done.
Qed.
End properties.

(** ** Independence of the hash order *)

Definition listener_shape (l : CompiledListener) : string * string * Protocol :=
  (cl_id l, cl_bind_addr l, cl_protocol l).

Lemma listener_id_le_total a b : listener_id_le a b = true ∨ listener_id_le b a = true.
Proof. apply String.leb_total. Qed.

Lemma listener_id_le_trans a b c :
  listener_id_le a b = true → listener_id_le b c = true → listener_id_le a c = true.
Proof.
  unfold listener_id_le. rewrite <-!Is_true_true. apply (transitivity (R := String.le)).
Qed.

Lemma sorted_listener_ids ls :
  StronglySorted String.le (cl_id <$> sort_by listener_id_le ls).
Proof.
  pose proof (sort_by_sorted listener_id_le listener_id_le_total listener_id_le_trans ls) as Hs.
  induction Hs as [|x l Hl IH Hx]; [constructor|]. rewrite fmap_cons. constructor; [done|].
  apply Forall_fmap. eapply Forall_impl; [exact Hx|]. intros y Hy. by apply Is_true_true.
Qed.

Definition compiled_of (o : HashOrder) (ls : list CompiledListener) : list CompiledListener :=
  sort_by listener_id_le (omap (λ kg, merge_group kg.1 kg.2) (hash_iter (merge_listeners ls))).

Lemma elem_of_compiled_ids o ls K :
  K ∈ cl_id <$> compiled_of o ls ↔ ∃ l, l ∈ ls ∧ K = merged_key ls l.
Proof.
  rewrite list_elem_of_fmap. split.
  - intros (cl & -> & (l & ? & ? & _)%compiled_listener_source). eauto.
  - intros (l & Hl & ->). destruct (compiled_listener_of ls l Hl) as (cl & ? & ? & _). eauto.
Qed.

Lemma compiled_shapes o1 o2 ls :
  listener_shape <$> compiled_of o1 ls = listener_shape <$> compiled_of o2 ls.
Proof.
  assert (cl_id <$> compiled_of o1 ls = cl_id <$> compiled_of o2 ls) as Hids.
  { apply (StronglySorted_unique String.le); [apply sorted_listener_ids..|].
    apply NoDup_Permutation; [apply compiled_listener_ids_NoDup..|].
    intros K. by rewrite !elem_of_compiled_ids. }
  apply list_eq. intros i. apply (f_equal (.!! i)) in Hids. rewrite !list_lookup_fmap in *.
  destruct (compiled_of o1 ls !! i) as [a|] eqn:Ha, (compiled_of o2 ls !! i) as [b|] eqn:Hb;
    simplify_eq/=; [|done]. f_equal. unfold listener_shape.
  apply list_elem_of_lookup_2, compiled_listener_source in Ha as (la & _ & Ida & -> & ->).
  apply list_elem_of_lookup_2, compiled_listener_source in Hb as (lb & _ & Idb & -> & ->).
  destruct (merged_key_inj ls la lb) as [-> ->]; congruence.
Qed.

Lemma id_map_outside o ls id :
  id ∉ cl_id <$> ls → build_id_map (hash_iter (HashOrder := o) (merge_listeners (H := o) ls)) !! id = None.
Proof.
  intros Hid. destruct (build_id_map _ !! id) as [K|] eqn:HK; [|done]. exfalso. apply Hid.
  rewrite build_id_map_pairs in HK.
  apply foldl_insert_pair_in in HK as [HK|HK]; [by rewrite lookup_empty in HK|].
  apply elem_of_id_pairs in HK as (g & l & Hg & Hl & <-).
  apply elem_of_merged in Hg as [_ Hg]. apply Hg in Hl as [Hl _]. apply list_elem_of_fmap. eauto.
Qed.

Lemma id_map_order o1 o2 ls :
  NoDup (cl_id <$> ls) →
  build_id_map (hash_iter (HashOrder := o1) (merge_listeners (H := o1) ls)) =
  build_id_map (hash_iter (HashOrder := o2) (merge_listeners (H := o2) ls)).
Proof.
  intros Hnd. apply map_eq. intros id. destruct (decide (id ∈ cl_id <$> ls)) as [Hid|Hid].
  - apply list_elem_of_fmap in Hid as (l & -> & Hl). by rewrite !id_map_lookup.
  - by rewrite !id_map_outside.
Qed.

Lemma l4_hash_order_aux (o1 o2 : HashOrder) (ir : RouteTable) :
  NoDup (lc_id <$> rt_listeners ir) →
  match compile_l4 (H := o1) ir, compile_l4 (H := o2) ir with
  | Ok a, Ok b => listener_shape <$> listeners a = listener_shape <$> listeners b ∧
                  ∀ p, routes_for_protocol a p = routes_for_protocol b p
  | Err e1, Err e2 => e1 = e2
  | _, _ => False
  end.
Proof.
  intros Hnd. unfold compile_l4.
  destruct (result_mapM compile_listener (rt_listeners ir)) as [ls|e] eqn:Hls; simpl; [|done].
  split; [apply (compiled_shapes o1 o2)|].
  rewrite (id_map_order o1 o2); [done|]. by rewrite (compile_listeners_ids _ _ Hls).
Qed.

(** The compiler iterates over hash maps, whose order changes from run to run. With
    distinct listener ids the order does not change the listeners the manager binds
    (id, address and protocol, in order) nor any of the five route lists. *)
Theorem l4_hash_order_irrelevant (o1 o2 : HashOrder) (ir : RouteTable) :
  NoDup (lc_id <$> rt_listeners ir) →
  match compile_l4 (H := o1) ir, compile_l4 (H := o2) ir with
  | Ok a, Ok b => listener_shape <$> listeners a = listener_shape <$> listeners b ∧
                  ∀ p, routes_for_protocol a p = routes_for_protocol b p
  | Err e1, Err e2 => e1 = e2
  | _, _ => False
  end.
Proof. apply l4_hash_order_aux. Qed.

Module L4Examples.
(** Another iteration order. *)
Definition reverse_order : HashOrder := {|
  hash_iter K V _ _ m := reverse (map_to_list m);
  hash_iter_perm K V _ _ m := reverse_Permutation _;
|}.

Definition listener (id : string) (p : Protocol) (mtls : bool) : ListenerConfig :=
  {| lc_id := id; lc_bind_addr := "0.0.0.0:443"; lc_protocol := p;
     lc_tls := Some (TlsRegistry "cert"); lc_redirect_http_to_https := false;
     lc_frontend_validation :=
       if mtls then Some {| fv_ca_bundle_pem := "ca"; fv_allow_insecure_fallback := false |} else None |}.

Definition https_route : L4Route :=
  {| l4r_listener_id := "gw/https"; l4r_listener_hostname := HostWildcard "example.com";
     l4r_match := L4Any; l4r_action := TerminateAndHttp "127.0.0.1:8080" |}.

Definition tls_route : L4Route :=
  {| l4r_listener_id := "gw/tls"; l4r_listener_hostname := HostExact "db.internal";
     l4r_match := L4Sni (HostExact "db.internal"); l4r_action := TlsPassthrough [] |}.

Definition shared_table : RouteTable :=
  {| rt_listeners := [listener "gw/https" Https true; listener "gw/tls" Tls false];
     rt_hosts := []; rt_acme_routes := ∅; rt_l4_routes := [https_route; tls_route];
     rt_tls_certs := [] |}.

Definition https_only_table : RouteTable :=
  {| rt_listeners := [listener "gw/https" Https true];
     rt_hosts := []; rt_acme_routes := ∅; rt_l4_routes := [https_route; tls_route];
     rt_tls_certs := [] |}.

(** What happens to a connection with the given SNI on the only socket. *)
Definition action_on_socket (ir : RouteTable) (sni : string) : option TcpDispatch :=
  match compile_l4 ir with
  | Ok cfg =>
      match listeners cfg with
      | [l] => Some (handle_tcp cfg (L4Context_new (cl_id l) (cl_protocol l) (SocketV4 0 443) (SocketV4 3325256711 50000)) (Some sni))
      | _ => None
      end
  | Err _ => None
  end.
End L4Examples.
Import L4Examples.

Lemma l4_routes_reach_their_socket_witness :
  ∃ cfg cl, compile_l4 shared_table = Ok cfg ∧ cl ∈ listeners cfg ∧ cl_protocol cl = Tls ∧
    cfv_allow_insecure_fallback <$> cl_frontend_validation cl = Some false.
Proof.
  destruct (compile_l4 shared_table) as [cfg|] eqn:Hc; [|by vm_compute in Hc].
  destruct (l4_routes_reach_their_socket shared_table cfg (listener "gw/https" Https true))
    as (cl & Hcl & _ & _ & Hp & Hfv & _).
  - apply (bool_decide_unpack _). vm_compute. exact I.
  - exact Hc.
  - left.
  - exists cfg, cl. split_and!; [done..| |by apply Hfv]. apply Hp; [reflexivity|].
    exists (listener "gw/tls" Tls false). split; [right; left|split; reflexivity].
Defined.

Lemma l4_sockets_distinct_witness :
  ∃ cfg, compile_l4 shared_table = Ok cfg ∧ NoDup (cl_id <$> listeners cfg).
Proof.
  destruct (compile_l4 shared_table) as [cfg|] eqn:Hc; [|by vm_compute in Hc].
  exists cfg. split; [done|]. exact (proj1 (l4_sockets_distinct shared_table cfg Hc)).
Defined.

Lemma l4_hash_order_irrelevant_witness :
  match compile_l4 (H := map_order) shared_table,
        compile_l4 (H := reverse_order) shared_table with
  | Ok a, Ok b => listener_shape <$> listeners a = listener_shape <$> listeners b ∧
                  ∀ p, routes_for_protocol a p = routes_for_protocol b p
  | Err e1, Err e2 => e1 = e2
  | _, _ => False
  end.
Proof.
  apply l4_hash_order_irrelevant. apply (bool_decide_unpack _). vm_compute. exact I.
Defined.

(** When an HTTPS and a TLS listener share an address, the merged listener has
    protocol TLS and the router consults only the TLS routes: the HTTPS termination
    route that serves a host when its listener is alone is never reached on the
    shared socket. *)
Theorem shared_socket_loses_https_route :
  action_on_socket https_only_table "app.example.com"
    = Some (DispatchTerminateAndHttp "127.0.0.1:8080") ∧
  action_on_socket shared_table "app.example.com" = Some DispatchNoRoute ∧
  action_on_socket shared_table "db.internal" = Some (DispatchRelayTcp []).
Proof. vm_compute. done. Qed.

Lemma compile_l4_error_iff_witness :
  match compile_l4 shared_table with
  | Ok _ => ∀ l, l ∈ rt_listeners shared_table → is_tls_protocol (lc_protocol l) = true → lc_tls l ≠ None
  | Err _ => False
  end.
Proof.
  pose proof (compile_l4_error_iff shared_table) as Hc.
  destruct (compile_l4 shared_table) eqn:He; [exact Hc|by vm_compute in He].
Defined.
