(* ===== verification/L4Manager.v ===== *)
(** * The socket manager and the relay contexts.

    [run_manager] of [src/l4/manager.rs] as a state machine over applied
    configurations, with the sockets its listener tasks open, and the shared maps that [http_relay] and
    [terminate_and_http] of [src/l4/router.rs] use to tell the HTTP proxy which
    public listener a relayed connection came from, as an interleaving of
    concurrent relays. *)

From S2P Require Import Prelude Net Ir Hostname Compile L4.

(** ** The manager *)

(** [ListenerHandle]; the task stands for the spawned listener and its shutdown
    channel. *)
Record ListenerHandle := {
  lh_config : CompiledListener;
  lh_task : nat;
}.

(** The operating system: whether a task can bind the socket of its listener, and whether
    a task that was told to shut down ends within the five seconds it is given. *)
Class SocketOps := {
  bind_ok : nat → CompiledListener → bool;
  stops_in_time : nat → bool;
}.

(** The state of [run_manager]. [shared] is [SharedState::config], [next_task] numbers
    the spawned tasks, [stopped] lists those that were told to shut down and [listening]
    those that have a socket open. *)
Record ManagerState := {
  active : gmap string ListenerHandle;
  current : CompiledL4Config;
  shared : CompiledL4Config;
  next_task : nat;
  stopped : list nat;
  listening : gset nat;
}.

Definition ManagerState_init : ManagerState :=
  {| active := ∅; current := CompiledL4Config_default; shared := CompiledL4Config_default;
     next_task := 0; stopped := []; listening := ∅ |}.

(** [desired_map]: of two listeners with one id the later one wins. *)
Definition desired_map (cfg : CompiledL4Config) : gmap string CompiledListener :=
  foldl (λ m l, <[cl_id l := l]> m) ∅ (listeners cfg).

Definition keep_handle (desired : gmap string CompiledListener) (id : string) (h : ListenerHandle) :
    bool :=
  match desired !! id with
  | Some l => bool_decide (cl_bind_addr l = cl_bind_addr (lh_config h)) &&
              bool_decide (cl_protocol l = cl_protocol (lh_config h))
  | None => false
  end.

Section manager.
Context `{!SocketOps}.

(** [spawn_listener_task] up to its accept loop: the task opens its socket, or logs the
    error and ends, in which case its handle stays in [active]. *)
Definition spawn_listener_task (l : CompiledListener) (t : nat) (open : gset nat) : gset nat :=
  if bind_ok t l then {[t]} ∪ open else open.

(** The loop that starts the listeners that are not active. *)
Definition start_listener (st : gmap string ListenerHandle * nat * gset nat) (l : CompiledListener) :
    gmap string ListenerHandle * nat * gset nat :=
  let '(act, next, open) := st in
  match act !! cl_id l with
  | Some _ => (act, next, open)
  | None => (<[cl_id l := {| lh_config := l; lh_task := next |}]> act, S next,
             spawn_listener_task l next open)
  end.

(** One iteration of the loop of [run_manager] with its latest configuration. A task that
    is told to shut down and does not end in time is left behind with its socket. *)
Definition apply_config (st : ManagerState) (latest : CompiledL4Config) : ManagerState :=
  if decide (current st = latest) then st
  else
    let desired := desired_map latest in
    let kept := filter (λ ih : string * ListenerHandle, keep_handle desired ih.1 ih.2 = true)
                  (active st) in
    let removed := filter (λ ih : string * ListenerHandle, keep_handle desired ih.1 ih.2 = false)
                     (active st) in
    let removed_tasks := lh_task ∘ snd <$> map_to_list removed in
    let open := listening st ∖ list_to_set (filter (λ t, stops_in_time t = true) removed_tasks) in
    let '(act, next, open) := foldl start_listener (kept, next_task st, open) (listeners latest) in
    {| active := act; current := latest; shared := latest; next_task := next;
       stopped := stopped st ++ removed_tasks; listening := open |}.

(** [recv] and the draining [try_recv] loop: of the pending snapshots only the last
    is applied. *)
Definition receive (st : ManagerState) (first : CompiledL4Config) (pending : list CompiledL4Config) :
    ManagerState :=
  apply_config st (default first (last pending)).

Definition run_manager (st : ManagerState) (batches : list (CompiledL4Config * list CompiledL4Config)) :
    ManagerState :=
  foldl (λ st b, receive st b.1 b.2) st batches.

End manager.

(** [compute_diff]: added, removed and unchanged ids. *)
Definition compute_diff (cur desired : gset string) : list string * list string * list string :=
  (filter (λ id, id ∉ cur) (elements desired),
   filter (λ id, id ∉ desired) (elements cur),
   filter (λ id, id ∈ cur) (elements desired)).

(** ** Manager invariant *)

(** The active listeners are those of the current configuration, on the same address
    and protocol; task numbers are fresh and distinct. The task of a handle has its socket
    open if it could bind it, and no other task has one open, unless it was told to shut
    down and did not end in time. *)
Record manager_inv `{!SocketOps} (st : ManagerState) : Prop := {
  inv_ids : ∀ id, is_Some (active st !! id) ↔ id ∈ cl_id <$> listeners (current st);
  inv_bound : ∀ l, l ∈ listeners (current st) → ∃ h, active st !! cl_id l = Some h ∧
     cl_bind_addr (lh_config h) = cl_bind_addr l ∧ cl_protocol (lh_config h) = cl_protocol l;
  inv_fresh : ∀ id h, active st !! id = Some h → (lh_task h < next_task st)%nat;
  inv_tasks : ∀ id id' h h', active st !! id = Some h → active st !! id' = Some h' →
     lh_task h = lh_task h' → id = id';
  inv_stopped : ∀ id h, active st !! id = Some h → lh_task h ∉ stopped st;
  inv_stopped_fresh : ∀ t, t ∈ stopped st → (t < next_task st)%nat;
  inv_shared : shared st = current st;
  inv_listening : ∀ id h, active st !! id = Some h →
    lh_task h ∈ listening st ↔ bind_ok (lh_task h) (lh_config h) = true;
  inv_open : ∀ t, t ∈ listening st →
    (∃ id h, active st !! id = Some h ∧ lh_task h = t) ∨ (t ∈ stopped st ∧ stops_in_time t = false);
}.

Lemma desired_map_lookup cfg l :
  NoDup (cl_id <$> listeners cfg) → l ∈ listeners cfg → desired_map cfg !! cl_id l = Some l.
Proof.
  unfold desired_map. induction (listeners cfg) as [|l' ls IH] using rev_ind; [by intros _ ?%elem_of_nil|].
  rewrite fmap_app, NoDup_app, foldl_app. intros (Hnd & Hdisj & _). simpl. rewrite lookup_insert.
  intros [Hl| ->%list_elem_of_singleton]%elem_of_app; [|by rewrite decide_True].
  rewrite decide_False; [by apply IH|]. intros Heq. apply (Hdisj (cl_id l)).
  - apply list_elem_of_fmap. eauto.
  - rewrite <-Heq. left.
Qed.

Lemma desired_map_None cfg id : id ∉ cl_id <$> listeners cfg → desired_map cfg !! id = None.
Proof.
  unfold desired_map. induction (listeners cfg) as [|l' ls IH] using rev_ind; [done|].
  rewrite fmap_app, foldl_app. simpl. intros Hid. rewrite lookup_insert, decide_False by set_solver.
  apply IH. set_solver.
Qed.

Section manager_lemmas.
Context `{!SocketOps}.

(** What the start loop adds: every listener without a handle gets a fresh one, whose
    task listens if it can bind; the others keep theirs. *)
Lemma start_listeners_spec ls act next open act' next' open' :
  NoDup (cl_id <$> ls) → foldl start_listener (act, next, open) ls = (act', next', open') →
  (next ≤ next')%nat ∧
  (∀ id, id ∉ cl_id <$> ls → act' !! id = act !! id) ∧
  (∀ l, l ∈ ls → match act !! cl_id l with
                 | Some h => act' !! cl_id l = Some h
                 | None => ∃ t, act' !! cl_id l = Some {| lh_config := l; lh_task := t |} ∧
                                (next ≤ t < next')%nat ∧ (bind_ok t l = true → t ∈ open')
                 end) ∧
  (∀ l l', l ∈ ls → l' ∈ ls → act !! cl_id l = None → act !! cl_id l' = None →
     lh_task <$> act' !! cl_id l = lh_task <$> act' !! cl_id l' → l = l') ∧
  open ⊆ open' ∧
  (∀ t, t ∈ open' → t ∈ open ∨ (next ≤ t < next')%nat ∧
     ∃ l, l ∈ ls ∧ act' !! cl_id l = Some {| lh_config := l; lh_task := t |} ∧ bind_ok t l = true).
Proof.
  revert act next open. induction ls as [|l ls IH]; intros act next open Hnd Hf; simpl in Hf.
  { simplify_eq. split_and!; try done; [intros ? ?%elem_of_nil; done|intros ?? ?%elem_of_nil; done|by left]. }
  rewrite fmap_cons in Hnd. apply NoDup_cons in Hnd as [Hl Hnd].
  assert (∀ l', l' ∈ ls → cl_id l' ≠ cl_id l) as Hneq.
  { intros l' Hl' Heq. apply Hl. rewrite <-Heq. apply list_elem_of_fmap. eauto. }
  destruct (act !! cl_id l) as [h|] eqn:Ha.
  - destruct (IH _ _ _ Hnd Hf) as (Hle & Hout & Hin & Hinj & Hsub & Hopen). split_and!; [done| | | |done|].
    + intros id Hid. apply Hout. set_solver.
    + intros l' [->|Hl']%elem_of_cons; [by rewrite Ha, Hout|by apply Hin].
    + intros l1 l2 [->|Hl1]%elem_of_cons [->|Hl2]%elem_of_cons H1 H2; [done|congruence..|].
      by apply Hinj.
    + intros t [?|(? & l' & ? & ?)]%Hopen; [by left|]. right. split; [done|]. exists l'. split; [by right|done].
  - destruct (IH _ _ _ Hnd Hf) as (Hle & Hout & Hin & Hinj & Hsub & Hopen).
    assert (act' !! cl_id l = Some {| lh_config := l; lh_task := next |}) as Hnew.
    { rewrite Hout by done. by rewrite lookup_insert_eq. }
    assert (∀ l', l' ∈ ls → <[cl_id l := {| lh_config := l; lh_task := next |}]> act !! cl_id l'
                            = act !! cl_id l') as Hlk.
    { intros l' Hl'. apply lookup_insert_ne. symmetry. by apply Hneq. }
    assert (∀ l', l' ∈ ls → act !! cl_id l' = None →
      ∃ t, act' !! cl_id l' = Some {| lh_config := l'; lh_task := t |} ∧ (S next ≤ t < next')%nat ∧
           (bind_ok t l' = true → t ∈ open')) as Hrest.
    { intros l' Hl' Hn. specialize (Hin l' Hl'). by rewrite Hlk, Hn in Hin. }
    split_and!; [lia| | | | |].
    + intros id Hid. rewrite Hout by set_solver. apply lookup_insert_ne. set_solver.
    + intros l' [->|Hl']%elem_of_cons.
      * rewrite Ha. exists next. split_and!; [done|lia|lia|]. intros Hb. apply Hsub.
        unfold spawn_listener_task. rewrite Hb. set_solver.
      * specialize (Hin l' Hl'). rewrite Hlk in Hin by done.
        destruct (act !! cl_id l'); [done|]. destruct Hin as (t & ? & ? & ?). exists t. split_and!; [done|lia|lia|done].
    + intros l1 l2 [->|Hl1]%elem_of_cons [->|Hl2]%elem_of_cons H1 H2; [done| | |].
      * destruct (Hrest _ Hl2 H2) as (t & -> & ? & _). rewrite Hnew. simpl. intros [= ->]. lia.
      * destruct (Hrest _ Hl1 H1) as (t & -> & ? & _). rewrite Hnew. simpl. intros [= ->]. lia.
      * by apply Hinj; rewrite ?Hlk.
    + etrans; [|exact Hsub]. unfold spawn_listener_task. case_match; set_solver.
    + intros t [Ht|(? & l' & ? & ?)]%Hopen.
      * unfold spawn_listener_task in Ht. destruct (bind_ok next l) eqn:Hb; [|by left].
        apply elem_of_union in Ht as [->%elem_of_singleton|?]; [|by left].
        right. split; [lia|]. exists l. split; [left|done].
      * right. split; [lia|]. exists l'. split; [by right|done].
Qed.

(** The state after a configuration change, handle by handle. *)
Lemma apply_config_active st cfg :
  NoDup (cl_id <$> listeners cfg) → current st ≠ cfg →
  let st' := apply_config st cfg in
  (next_task st ≤ next_task st')%nat ∧ current st' = cfg ∧ shared st' = cfg ∧
  (∀ id, id ∉ cl_id <$> listeners cfg → active st' !! id = None) ∧
  (∀ l, l ∈ listeners cfg →
     match active st !! cl_id l with
     | Some h =>
         if bool_decide (cl_bind_addr l = cl_bind_addr (lh_config h)) &&
            bool_decide (cl_protocol l = cl_protocol (lh_config h))
         then active st' !! cl_id l = Some h
         else ∃ t, active st' !! cl_id l = Some {| lh_config := l; lh_task := t |} ∧
                   (next_task st ≤ t < next_task st')%nat ∧ (bind_ok t l = true → t ∈ listening st')
     | None => ∃ t, active st' !! cl_id l = Some {| lh_config := l; lh_task := t |} ∧
                    (next_task st ≤ t < next_task st')%nat ∧ (bind_ok t l = true → t ∈ listening st')
     end).
Proof.
  intros Hnd Hne. unfold apply_config. rewrite decide_False by done.
  set (kept := filter (λ ih : string * ListenerHandle, keep_handle _ ih.1 ih.2 = true) _).
  destruct (foldl start_listener _ _) as [[act next] open] eqn:Hf.
  apply start_listeners_spec in Hf as (Hle & Hout & Hin & _); [|done].
  split_and!; [done..| |]; simpl.
  - intros id Hid. rewrite Hout by done. unfold kept. apply map_lookup_filter_None. right.
    intros h _. simpl. unfold keep_handle. by rewrite desired_map_None.
  - intros l Hl. specialize (Hin l Hl). unfold kept in Hin. rewrite map_lookup_filter in Hin.
    destruct (active st !! cl_id l) as [h|]; simpl in Hin; [|done].
    unfold keep_handle in Hin. rewrite desired_map_lookup in Hin by done.
    destruct (bool_decide _ && bool_decide _); [by rewrite option_guard_True in Hin|].
    by rewrite option_guard_False in Hin.
Qed.

(** New tasks of one configuration change are distinct. *)
Lemma apply_config_new_tasks st cfg l l' :
  NoDup (cl_id <$> listeners cfg) → current st ≠ cfg → l ∈ listeners cfg → l' ∈ listeners cfg →
  (∀ h, active st !! cl_id l = Some h → keep_handle (desired_map cfg) (cl_id l) h = false) →
  (∀ h, active st !! cl_id l' = Some h → keep_handle (desired_map cfg) (cl_id l') h = false) →
  lh_task <$> active (apply_config st cfg) !! cl_id l =
  lh_task <$> active (apply_config st cfg) !! cl_id l' → l = l'.
Proof.
  intros Hnd Hne Hl Hl' Hk Hk'. unfold apply_config. rewrite decide_False by done.
  set (kept := filter (λ ih : string * ListenerHandle, keep_handle _ ih.1 ih.2 = true) _).
  destruct (foldl start_listener _ _) as [[act next] open] eqn:Hf.
  apply start_listeners_spec in Hf as (_ & _ & _ & Hinj & _); [|done]. simpl.
  apply Hinj; [done..| |]; unfold kept; apply map_lookup_filter_None; right;
    intros h Hh; simpl; rewrite ?Hk, ?Hk'; done.
Qed.

Lemma stopped_apply_config st cfg t :
  current st ≠ cfg →
  t ∈ stopped (apply_config st cfg) ↔
  t ∈ stopped st ∨ ∃ id h, active st !! id = Some h ∧ lh_task h = t ∧
                           keep_handle (desired_map cfg) id h = false.
Proof.
  intros Hne. unfold apply_config. rewrite decide_False by done.
  destruct (foldl start_listener _ _) as [[act next] open]. simpl.
  rewrite elem_of_app, list_elem_of_fmap. f_equiv. split.
  - intros ([id h] & -> & Hin). apply elem_of_map_to_list, map_lookup_filter_Some in Hin as [? ?]. eauto.
  - intros (id & h & Hh & <- & Hk). exists (id, h). split; [done|].
    apply elem_of_map_to_list, map_lookup_filter_Some. done.
Qed.

(** The tasks that listen after a change: those of before that did not end, and new ones
    that could bind. *)
Lemma listening_apply_config st cfg t :
  NoDup (cl_id <$> listeners cfg) → current st ≠ cfg →
  let st' := apply_config st cfg in
  let ended := (∃ id h, active st !! id = Some h ∧ lh_task h = t ∧ keep_handle (desired_map cfg) id h = false) ∧
               stops_in_time t = true in
  (t ∈ listening st → ¬ ended → t ∈ listening st') ∧
  (t ∈ listening st' →
     t ∈ listening st ∧ ¬ ended ∨
     (next_task st ≤ t)%nat ∧ ∃ l, active st' !! cl_id l = Some {| lh_config := l; lh_task := t |} ∧ bind_ok t l = true).
Proof.
  intros Hnd Hne. unfold apply_config. rewrite decide_False by done.
  set (rt := _ <$> map_to_list _).
  assert (t ∈ rt ↔ ∃ id h, active st !! id = Some h ∧ lh_task h = t ∧ keep_handle (desired_map cfg) id h = false) as Hrt.
  { unfold rt. rewrite list_elem_of_fmap. split.
    - intros ([id h] & -> & Hin). apply elem_of_map_to_list, map_lookup_filter_Some in Hin as [? ?]. eauto.
    - intros (id & h & Hh & <- & Hk). exists (id, h). split; [done|].
      apply elem_of_map_to_list, map_lookup_filter_Some. done. }
  destruct (foldl start_listener _ _) as [[act next] open] eqn:Hf.
  apply start_listeners_spec in Hf as (_ & _ & _ & _ & Hsub & Hopen); [|done]. simpl.
  assert (t ∈ listening st ∖ list_to_set (filter (λ t, stops_in_time t = true) rt) ↔
    t ∈ listening st ∧ ¬ (t ∈ rt ∧ stops_in_time t = true)) as Hl.
  { rewrite elem_of_difference, elem_of_list_to_set, list_elem_of_filter. tauto. }
  rewrite <-Hrt. split.
  - intros Ht Hn. apply Hsub, Hl. done.
  - intros [Ht%Hl|(? & l & ? & ? & ?)]%Hopen; [by left|right]. split; [lia|]. eauto.
Qed.

(** Every active entry after a change is a kept handle or a new one. *)
Lemma apply_config_entry st cfg id h :
  NoDup (cl_id <$> listeners cfg) → current st ≠ cfg →
  active (apply_config st cfg) !! id = Some h →
  ∃ l, l ∈ listeners cfg ∧ cl_id l = id ∧
       cl_bind_addr (lh_config h) = cl_bind_addr l ∧ cl_protocol (lh_config h) = cl_protocol l ∧
  (active st !! id = Some h ∧ keep_handle (desired_map cfg) id h = true ∨
   (next_task st ≤ lh_task h < next_task (apply_config st cfg))%nat ∧
   (bind_ok (lh_task h) (lh_config h) = true → lh_task h ∈ listening (apply_config st cfg)) ∧
   ∀ h', active st !! id = Some h' → keep_handle (desired_map cfg) id h' = false).
Proof.
  intros Hnd Hne Hh. destruct (apply_config_active st cfg Hnd Hne) as (_ & _ & _ & Hout & Hin).
  destruct (decide (id ∈ cl_id <$> listeners cfg)) as [Hid|Hid]; [|by rewrite Hout in Hh].
  apply list_elem_of_fmap in Hid as (l & -> & Hl). exists l. specialize (Hin l Hl).
  assert (∀ h', keep_handle (desired_map cfg) (cl_id l) h' =
    bool_decide (cl_bind_addr l = cl_bind_addr (lh_config h')) &&
    bool_decide (cl_protocol l = cl_protocol (lh_config h'))) as Hkeep.
  { intros h'. unfold keep_handle. by rewrite desired_map_lookup. }
  destruct (active st !! cl_id l) as [h0|] eqn:H0; [destruct (_ && _) eqn:Hb|].
  - assert (h0 = h) as -> by congruence. pose proof Hb as [?%bool_decide_eq_true ?%bool_decide_eq_true]%andb_true_iff.
    split_and!; [done|done|congruence..|]. left. by rewrite Hkeep.
  - destruct Hin as (t & Ht & Hlt & Hb'). assert (h = {| lh_config := l; lh_task := t |}) as -> by congruence.
    split_and!; [done..|]. right. split; [done|]. split; [done|]. intros h' [= <-]. by rewrite Hkeep.
  - destruct Hin as (t & Ht & Hlt & Hb'). assert (h = {| lh_config := l; lh_task := t |}) as -> by congruence.
    split_and!; [done..|]. right. by split.
Qed.

Lemma manager_inv_init : manager_inv ManagerState_init.
Proof.
  split; simpl; try done.
  - intros id. rewrite lookup_empty. split; [by intros [? ?]|by intros ?%elem_of_nil].
  - by intros l ?%elem_of_nil.
  - by intros t ?%elem_of_nil.
Qed.

(** A kept handle stays. *)
Lemma apply_config_kept st cfg id h :
  NoDup (cl_id <$> listeners cfg) → current st ≠ cfg → active st !! id = Some h →
  keep_handle (desired_map cfg) id h = true → active (apply_config st cfg) !! id = Some h.
Proof.
  intros Hnd Hne Hh Hk. destruct (apply_config_active st cfg Hnd Hne) as (_ & _ & _ & _ & Hin).
  destruct (decide (id ∈ cl_id <$> listeners cfg)) as [Hid|Hid];
    [|unfold keep_handle in Hk; by rewrite desired_map_None in Hk].
  apply list_elem_of_fmap in Hid as (l & -> & Hl). specialize (Hin l Hl). rewrite Hh in Hin.
  unfold keep_handle in Hk. rewrite desired_map_lookup in Hk by done. by rewrite Hk in Hin.
Qed.

(** Different listeners have different tasks. *)
Lemma apply_config_tasks st cfg id id' h h' :
  NoDup (cl_id <$> listeners cfg) → manager_inv st → current st ≠ cfg →
  active (apply_config st cfg) !! id = Some h → active (apply_config st cfg) !! id' = Some h' →
  lh_task h = lh_task h' → id = id'.
Proof.
  intros Hnd Hinv Hne Hh Hh' Ht. pose proof Hh as Hh0. pose proof Hh' as Hh0'.
  apply apply_config_entry in Hh as (l & Hl & <- & _ & _ & Hc); [|done..].
  apply apply_config_entry in Hh' as (l' & Hl' & <- & _ & _ & Hc'); [|done..].
  destruct Hc as [[Hc _]|(Hlt & _ & Hk)], Hc' as [[Hc' _]|(Hlt' & _ & Hk')].
  - by eapply (inv_tasks _ Hinv).
  - pose proof (inv_fresh _ Hinv _ _ Hc). lia.
  - pose proof (inv_fresh _ Hinv _ _ Hc'). lia.
  - f_equal. eapply apply_config_new_tasks; [done..|]. rewrite Hh0, Hh0'. simpl. by f_equal.
Qed.

Lemma manager_inv_apply st cfg :
  NoDup (cl_id <$> listeners cfg) → manager_inv st → manager_inv (apply_config st cfg).
Proof.
  intros Hnd Hinv. destruct (decide (current st = cfg)) as [Heq|Hne].
  { unfold apply_config. by rewrite decide_True. }
  destruct (apply_config_active st cfg Hnd Hne) as (Hle & Hcur & Hsh & Hout & Hin).
  assert (∀ l, l ∈ listeners cfg → ∃ h, active (apply_config st cfg) !! cl_id l = Some h) as Hact.
  { intros l Hl. specialize (Hin l Hl). repeat case_match; naive_solver. }
  split; rewrite ?Hcur, ?Hsh.
  - intros id. split.
    + intros [h Hh]. destruct (decide (id ∈ cl_id <$> listeners cfg)); [done|]. by rewrite Hout in Hh.
    + intros (l & -> & Hl)%list_elem_of_fmap. by apply Hact.
  - intros l Hl. destruct (Hact l Hl) as [h Hh]. exists h. split; [done|].
    apply apply_config_entry in Hh as (l' & Hl' & Hid & Ha & Hp & _); [|done..].
    by rewrite (NoDup_fmap_elem_inj cl_id _ l l' Hnd Hl Hl' (eq_sym Hid)).
  - intros id h Hh. apply apply_config_entry in Hh as (l & _ & _ & _ & _ & [[Hh _]|[? _]]); [|lia|done..].
    pose proof (inv_fresh _ Hinv _ _ Hh). lia.
  - intros id id' h h'. by apply apply_config_tasks.
  - intros id h Hh. rewrite stopped_apply_config by done.
    apply apply_config_entry in Hh as (l & _ & _ & _ & _ & [[Hh Hk]|(Hlt & _ & _)]); [| |done..].
    + intros [Hs|(id' & h' & Hh' & Ht & Hk')]; [by eapply (inv_stopped _ Hinv)|].
      pose proof (inv_tasks _ Hinv _ _ _ _ Hh' Hh Ht). subst id'. congruence.
    + intros [Hs|(id' & h' & Hh' & Ht & _)].
      * pose proof (inv_stopped_fresh _ Hinv _ Hs). lia.
      * pose proof (inv_fresh _ Hinv _ _ Hh'). lia.
  - intros t. rewrite stopped_apply_config by done. intros [Hs|(id' & h' & Hh' & <- & _)].
    + pose proof (inv_stopped_fresh _ Hinv _ Hs). lia.
    + pose proof (inv_fresh _ Hinv _ _ Hh'). lia.
  - done.
  - intros id h Hh. destruct (listening_apply_config st cfg (lh_task h) Hnd Hne) as [Hkeep Hopen].
    pose proof Hh as Hh0. apply apply_config_entry in Hh as (l & _ & <- & _ & _ & [[Hh Hk]|(Hlt & Hb & Hk)]); [| |done..].
    + rewrite <-(inv_listening _ Hinv _ _ Hh). split.
      * intros [[? _]|[Hge _]]%Hopen; [done|]. pose proof (inv_fresh _ Hinv _ _ Hh). lia.
      * intros Ht. apply Hkeep; [done|]. intros [(id' & h' & Hh' & Ht' & Hk') _].
        pose proof (inv_tasks _ Hinv _ _ _ _ Hh' Hh Ht'). subst id'. congruence.
    + split; [|done]. intros [[Ht _]|(_ & l' & Hl' & Hb')]%Hopen.
      * apply (inv_open _ Hinv) in Ht as [(id' & h' & Hh' & Ht')|[Hs _]].
        -- pose proof (inv_fresh _ Hinv _ _ Hh'). lia.
        -- pose proof (inv_stopped_fresh _ Hinv _ Hs). lia.
      * pose proof (apply_config_tasks _ _ _ _ _ _ Hnd Hinv Hne Hl' Hh0 eq_refl) as Heq.
        rewrite Heq, Hh0 in Hl'. by injection Hl' as ->.
  - intros t Ht. destruct (listening_apply_config st cfg t Hnd Hne) as [_ Hopen].
    apply Hopen in Ht as [[Ht Hn]|(_ & l & Hl & _)]; [|left; eauto].
    rewrite stopped_apply_config by done.
    apply (inv_open _ Hinv) in Ht as [(id & h & Hh & <-)|[Hs Hst]]; [|right; eauto].
    destruct (keep_handle (desired_map cfg) id h) eqn:Hk.
    + left. exists id, h. split; [|done]. by apply apply_config_kept.
    + right. destruct (stops_in_time (lh_task h)) eqn:Hst; [destruct Hn; eauto 10|]. eauto 10.
Qed.

Lemma manager_inv_run batches st :
  (∀ b c, b ∈ batches → c ∈ b.1 :: b.2 → NoDup (cl_id <$> listeners c)) →
  manager_inv st → manager_inv (run_manager st batches).
Proof.
  revert st. induction batches as [|[first pending] batches IH]; intros st Hb Hinv; simpl; [done|].
  apply IH; [set_solver|]. apply manager_inv_apply; [|done].
  apply (Hb (first, pending)); [left|]. simpl. destruct (last pending) as [c|] eqn:Hl; simpl; [|left].
  right. by apply last_Some_elem_of.
Qed.

Lemma current_apply_config st cfg : current (apply_config st cfg) = cfg.
Proof. unfold apply_config. case_decide; [done|]. by destruct (foldl _ _ _) as [[? ?] ?]. Qed.

Lemma current_run batches st :
  current (run_manager st batches) = default (current st) (last (batches ≫= λ b, b.1 :: b.2)).
Proof.
  revert st. induction batches as [|[first pending] batches IH]; intros st; [done|].
  change (run_manager st ((first, pending) :: batches))
    with (run_manager (receive st first pending) batches).
  rewrite IH. unfold receive. rewrite current_apply_config, bind_cons, last_app. simpl.
  destruct (last (batches ≫= _)); [done|]. simpl. rewrite last_cons. by destruct (last pending).
Qed.

(** ** Properties of the manager *)

(** C21. After any sequence of configuration updates, in any batching, the manager has a
    handle for exactly the listeners of the last configuration sent, and the routers see
    that configuration. Each handle is for the address and protocol of its listener, with a
    task of its own that was not told to shut down, and this task has a socket open exactly
    if it could bind it: a failed bind leaves the handle without a socket. Any
    other open socket belongs to a task that was told to shut down and did not end in the
    five seconds it is given; when every task ends in time, and every bind succeeds, the
    open sockets are those of the listeners and no others. The compiled configurations have
    distinct listener ids; which binds succeed and which tasks end in time is arbitrary. *)
Theorem run_manager_serves_current (batches : list (CompiledL4Config * list CompiledL4Config)) :
  (∀ b c, b ∈ batches → c ∈ b.1 :: b.2 → NoDup (cl_id <$> listeners c)) →
  let st := run_manager ManagerState_init batches in
  current st = default CompiledL4Config_default (last (batches ≫= λ b, b.1 :: b.2)) ∧
  shared st = current st ∧
  (∀ id, is_Some (active st !! id) ↔ id ∈ cl_id <$> listeners (current st)) ∧
  (∀ l, l ∈ listeners (current st) → ∃ h, active st !! cl_id l = Some h ∧
     cl_bind_addr (lh_config h) = cl_bind_addr l ∧ cl_protocol (lh_config h) = cl_protocol l ∧
     (lh_task h ∉ stopped st) ∧
     (lh_task h ∈ listening st ↔ bind_ok (lh_task h) (lh_config h) = true) ∧
     ∀ id' h', active st !! id' = Some h' → lh_task h' = lh_task h → id' = cl_id l) ∧
  (∀ t, t ∈ listening st →
     (∃ id h, active st !! id = Some h ∧ lh_task h = t) ∨ (t ∈ stopped st ∧ stops_in_time t = false)).
Proof.
  intros Hb st. assert (manager_inv st) as Hinv by (apply manager_inv_run; [done|apply manager_inv_init]).
  split_and!; [apply current_run|apply Hinv..| |apply Hinv].
  intros l Hl. destruct (inv_bound _ Hinv l Hl) as (h & Hh & Ha & Hp). exists h. split_and!; try done.
  - by eapply (inv_stopped _ Hinv).
  - by apply (inv_listening _ Hinv _ _ Hh).
  - intros id' h' Hh' Ht. by eapply (inv_tasks _ Hinv).
Qed.

(** A configuration change restarts only what it must: the handle of a listener whose
    address and protocol are unchanged survives, and a task is told to stop exactly
    when its listener disappeared or moved. *)
Theorem apply_config_minimal (st : ManagerState) (cfg : CompiledL4Config) (l : CompiledListener)
    (h : ListenerHandle) :
  NoDup (cl_id <$> listeners cfg) → manager_inv st → current st ≠ cfg →
  l ∈ listeners cfg → active st !! cl_id l = Some h →
  if bool_decide (cl_bind_addr l = cl_bind_addr (lh_config h)) &&
     bool_decide (cl_protocol l = cl_protocol (lh_config h))
  then active (apply_config st cfg) !! cl_id l = Some h ∧ lh_task h ∉ stopped (apply_config st cfg)
  else lh_task h ∈ stopped (apply_config st cfg) ∧
       lh_config <$> active (apply_config st cfg) !! cl_id l = Some l.
Proof.
  intros Hnd Hinv Hne Hl Hh.
  destruct (apply_config_active st cfg Hnd Hne) as (_ & _ & _ & _ & Hin). specialize (Hin l Hl).
  rewrite Hh in Hin. destruct (_ && _) eqn:Hb.
  - split; [done|]. by eapply (inv_stopped _ (manager_inv_apply _ _ Hnd Hinv)).
  - destruct Hin as (t & -> & _). split; [|done]. rewrite stopped_apply_config by done. right.
    exists (cl_id l), h. split_and!; [done..|]. unfold keep_handle. by rewrite desired_map_lookup.
Qed.

End manager_lemmas.

Module ManagerExamples.
(** The first task cannot bind its socket. *)
#[export] Instance port_in_use : SocketOps := {| bind_ok t _ := bool_decide (t ≠ 0%nat); stops_in_time _ := true |}.
Definition tcp_listener (addr : string) : CompiledListener :=
  {| cl_id := "db#Tcp"; cl_bind_addr := addr; cl_protocol := Tcp; cl_tls := None;
     cl_redirect_http_to_https := false; cl_frontend_validation := None |}.
Definition config (addr : string) : CompiledL4Config :=
  {| listeners := [tcp_listener addr]; tcp_routes := []; udp_routes := []; tls_routes := [];
     https_routes := []; http_routes := [] |}.
Definition running : ManagerState := apply_config ManagerState_init (config "0.0.0.0:5432").
End ManagerExamples.
Import ManagerExamples.

(** A handle whose task has no socket, and one whose task has. *)
Lemma run_manager_serves_current_witness :
  let st := run_manager ManagerState_init
              [(CompiledL4Config_default, [config "0.0.0.0:5432"]); (config "0.0.0.0:5433", [])] in
  current st = config "0.0.0.0:5433" ∧ (∀ t, t ∈ listening st → ∃ id h, active st !! id = Some h ∧ lh_task h = t).
Proof.
  destruct (run_manager_serves_current
    [(CompiledL4Config_default, [config "0.0.0.0:5432"]); (config "0.0.0.0:5433", [])]) as (Hc & _ & _ & _ & Hl).
  - intros b c Hb Hc. assert (c ∈ [CompiledL4Config_default; config "0.0.0.0:5432"; config "0.0.0.0:5433"]) as Hin.
    { apply elem_of_cons in Hb as [->|Hb]; [|apply list_elem_of_singleton in Hb as ->]; cbn in Hc; set_solver. }
    repeat (apply elem_of_cons in Hin as [->|Hin]; [apply (bool_decide_unpack _); vm_compute; exact I|]).
    by apply elem_of_nil in Hin.
  - split; [exact Hc|]. intros t Ht. destruct (Hl t Ht) as [?|[_ ?]]; done.
Defined.

(** A bind that fails leaves a handle without a socket, and the same configuration, or
    another with the same listener, does not try again. *)
Example failed_bind_not_retried :
  listening running = ∅ ∧ active (apply_config running (config "0.0.0.0:5432")) = active running ∧
  listening (apply_config running (config "0.0.0.0:5433")) = {[1%nat]}.
Proof. vm_compute. done. Qed.

Lemma apply_config_minimal_witness :
  0%nat ∈ stopped (apply_config running (config "0.0.0.0:5433")) ∧
  lh_config <$> active (apply_config running (config "0.0.0.0:5433")) !! "db#Tcp"
    = Some (tcp_listener "0.0.0.0:5433").
Proof.
  apply (apply_config_minimal running (config "0.0.0.0:5433") (tcp_listener "0.0.0.0:5433")
           {| lh_config := tcp_listener "0.0.0.0:5432"; lh_task := 0 |}).
  - apply (bool_decide_unpack _). vm_compute. exact I.
  - apply manager_inv_apply; [|apply manager_inv_init].
    apply (bool_decide_unpack _). vm_compute. exact I.
  - discriminate.
  - left.
  - vm_compute. reflexivity.
Defined.

(** ** Relay contexts *)

(** [HttpRelayContext]. *)
Record HttpRelayContext := {
  hrc_listener_id : string;
  hrc_listener_port : Z;
  hrc_secure : bool;
  hrc_client_addr : SocketAddr;
}.

(** Where a relay is: connected to its upstream, SNI published, copying, SNI removed. A
    plain HTTP relay publishes no SNI and has only the first and third phase. *)
Inductive RelayPhase := Connected | SniPublished | Relaying | SniRemoved.

(** A relay with an open upstream socket: its local address and what it publishes, and
    whether the proxy has asked for the SNI of a request that came over it. *)
Record Relay := {
  rl_local : SocketAddr;
  rl_context : HttpRelayContext;
  rl_sni : option string;
  rl_phase : RelayPhase;
  rl_asked : bool;
}.

Definition with_phase (r : Relay) (p : RelayPhase) : Relay :=
  {| rl_local := rl_local r; rl_context := rl_context r; rl_sni := rl_sni r; rl_phase := p;
     rl_asked := rl_asked r |}.

Definition asked_at (a : SocketAddr) (r : Relay) : Relay :=
  {| rl_local := rl_local r; rl_context := rl_context r; rl_sni := rl_sni r; rl_phase := rl_phase r;
     rl_asked := rl_asked r || bool_decide (rl_local r = a) |}.

(** The two shared maps and the relays in flight. *)
Record RelayState := {
  sni_context : gmap SocketAddr string;
  http_context : gmap SocketAddr HttpRelayContext;
  relays : gmap nat Relay;
}.

Definition RelayState_init : RelayState :=
  {| sni_context := ∅; http_context := ∅; relays := ∅ |}.

Definition relay_context (ctx : L4Context) (secure : bool) : HttpRelayContext :=
  {| hrc_listener_id := ctx_listener_id ctx; hrc_listener_port := socket_port (ctx_local_addr ctx);
     hrc_secure := secure; hrc_client_addr := ctx_remote_addr ctx |}.

(** The relay of [http_relay] after it has connected. *)
Definition http_relay (ctx : L4Context) (local : SocketAddr) : Relay :=
  {| rl_local := local; rl_context := relay_context ctx false; rl_sni := None; rl_phase := Connected;
     rl_asked := false |}.

(** The relay of [terminate_and_http] after it has connected; [sni] is the server name of
    the TLS session. *)
Definition terminate_and_http (ctx : L4Context) (local : SocketAddr) (sni : option string) : Relay :=
  {| rl_local := local; rl_context := relay_context ctx true; rl_sni := sni; rl_phase := Connected;
     rl_asked := false |}.

(** The next critical section of a relay. Each takes one lock. After the last one the
    function returns and the socket is closed. *)
Definition relay_advance (c : nat) (r : Relay) (st : RelayState) : RelayState :=
  let publish_http :=
    {| sni_context := sni_context st;
       http_context := <[rl_local r := rl_context r]> (http_context st);
       relays := <[c := with_phase r Relaying]> (relays st) |} in
  let remove_http :=
    {| sni_context := sni_context st;
       http_context := delete (rl_local r) (http_context st);
       relays := delete c (relays st) |} in
  match hrc_secure (rl_context r), rl_phase r with
  | true, Connected =>
      {| sni_context := match rl_sni r with
                        | Some s => <[rl_local r := s]> (sni_context st)
                        | None => sni_context st
                        end;
         http_context := http_context st; relays := <[c := with_phase r SniPublished]> (relays st) |}
  | true, SniPublished => publish_http
  | true, Relaying =>
      {| sni_context := delete (rl_local r) (sni_context st);
         http_context := http_context st; relays := <[c := with_phase r SniRemoved]> (relays st) |}
  | true, SniRemoved => remove_http
  | false, Connected => publish_http
  | false, _ => remove_http
  end.

(** [sni_for_session] of the proxy, for a request whose peer is [a]: the SNI is removed
    as it is read, so a second request of the connection finds none. *)
Definition take_sni (a : SocketAddr) (st : RelayState) : option string * RelayState :=
  (sni_context st !! a,
   {| sni_context := delete a (sni_context st); http_context := http_context st;
      relays := asked_at a <$> relays st |}).

(** Concurrent relays and requests interleave at the locks. Two sockets that are open at
    one time have different local addresses, and the proxy gets no request over a relay
    before the relay copies. *)
Definition local_free (local : SocketAddr) (st : RelayState) : Prop :=
  ∀ c r, relays st !! c = Some r → rl_local r ≠ local.

Inductive relay_step : RelayState → RelayState → Prop :=
| step_connect c r st :
    relays st !! c = None → local_free (rl_local r) st →
    (∃ ctx local, r = http_relay ctx local) ∨ (∃ ctx local sni, r = terminate_and_http ctx local sni) →
    relay_step st {| sni_context := sni_context st; http_context := http_context st;
                     relays := <[c := r]> (relays st) |}
| step_advance c r st :
    relays st !! c = Some r → relay_step st (relay_advance c r st)
| step_request a st :
    (∀ c r, relays st !! c = Some r → rl_local r = a → rl_phase r = Relaying ∨ rl_phase r = SniRemoved) →
    relay_step st (take_sni a st).2.

(** What a relay has in the maps in its phase. *)
Definition published_http (r : Relay) : option HttpRelayContext :=
  match rl_phase r with Relaying | SniRemoved => Some (rl_context r) | _ => None end.

Definition published_sni (r : Relay) : option string :=
  match rl_phase r with
  | SniPublished | Relaying => if rl_asked r then None else rl_sni r
  | _ => None
  end.

(** The maps hold exactly what the relays in flight have published. *)
Record relay_inv (st : RelayState) : Prop := {
  ri_published : ∀ c r, relays st !! c = Some r →
    http_context st !! rl_local r = published_http r ∧ sni_context st !! rl_local r = published_sni r;
  ri_plain : ∀ c r, relays st !! c = Some r → hrc_secure (rl_context r) = false → rl_sni r = None;
  ri_fresh : ∀ c r, relays st !! c = Some r → rl_phase r = Connected ∨ rl_phase r = SniPublished →
    rl_asked r = false;
  ri_free : ∀ a, local_free a st → http_context st !! a = None ∧ sni_context st !! a = None;
  ri_locals : ∀ c c' r r', relays st !! c = Some r → relays st !! c' = Some r' →
    rl_local r = rl_local r' → c = c';
}.

(** Changing the entry of relay [c] and the maps at its address only. *)
Lemma relay_inv_update st c r r' http sni :
  relay_inv st → relays st !! c = Some r → rl_local r' = rl_local r → rl_context r' = rl_context r →
  rl_sni r' = rl_sni r → (rl_phase r' = Connected ∨ rl_phase r' = SniPublished → rl_asked r' = false) →
  (∀ a, a ≠ rl_local r → http !! a = http_context st !! a) →
  (∀ a, a ≠ rl_local r → sni !! a = sni_context st !! a) →
  http !! rl_local r = published_http r' → sni !! rl_local r = published_sni r' →
  relay_inv {| sni_context := sni; http_context := http; relays := <[c := r']> (relays st) |}.
Proof.
  intros Hinv Hc Hl Hx Hs Hfr Hh1 Hs1 Hh Hsn.
  assert (∀ c' r0, c' ≠ c → relays st !! c' = Some r0 → rl_local r0 ≠ rl_local r) as Hother.
  { intros c' r0 Hne Hr0 Heq. apply Hne. by eapply (ri_locals _ Hinv). }
  split; simpl.
  - intros c' r0. rewrite lookup_insert. case_decide; [intros [= <-]; by rewrite Hl|].
    intros Hr0. rewrite Hh1, Hs1 by (eapply Hother; done). by apply (ri_published _ Hinv c').
  - intros c' r0. rewrite lookup_insert. case_decide; [|by apply (ri_plain _ Hinv)].
    intros [= <-]. rewrite Hx, Hs. by apply (ri_plain _ Hinv c).
  - intros c' r0. rewrite lookup_insert. case_decide; [by intros [= <-]|by apply (ri_fresh _ Hinv)].
  - intros a Ha. assert (a ≠ rl_local r) as Hne.
    { intros ->. apply (Ha c r'); [apply lookup_insert_eq|done]. }
    rewrite Hh1, Hs1 by done. apply (ri_free _ Hinv). intros c' r0 Hr0.
    destruct (decide (c' = c)) as [->|Hcc]; [congruence|].
    apply (Ha c'). simpl. by rewrite lookup_insert_ne.
  - assert (∀ c' r0, <[c:=r']> (relays st) !! c' = Some r0 →
      ∃ r1, relays st !! c' = Some r1 ∧ rl_local r1 = rl_local r0) as Hback.
    { intros c' r0. rewrite lookup_insert. case_decide; [|eauto]. intros [= <-]. subst. eauto. }
    intros c1 c2 r1 r2 (x1 & H1 & E1)%Hback (x2 & H2 & E2)%Hback Heq.
    eapply (ri_locals _ Hinv); [done..|congruence].
Qed.

(** Removing a relay whose address has no SNI entry. *)
Lemma relay_inv_remove st c r :
  relay_inv st → relays st !! c = Some r → published_sni r = None →
  relay_inv {| sni_context := sni_context st; http_context := delete (rl_local r) (http_context st);
               relays := delete c (relays st) |}.
Proof.
  intros Hinv Hc Hs. destruct (ri_published _ Hinv _ _ Hc) as [_ Hsni].
  assert (∀ c' r0, delete c (relays st) !! c' = Some r0 →
    relays st !! c' = Some r0 ∧ rl_local r0 ≠ rl_local r) as Hdel.
  { intros c' r0 [Hne Hr0]%lookup_delete_Some. split; [done|].
    intros Heq. apply Hne. symmetry. by eapply (ri_locals _ Hinv). }
  split; simpl.
  - intros c' r0 [Hr0 Hne]%Hdel. rewrite lookup_delete_ne by done. by apply (ri_published _ Hinv c').
  - intros c' r0 [Hr0 _]%Hdel. by apply (ri_plain _ Hinv c').
  - intros c' r0 [Hr0 _]%Hdel. by apply (ri_fresh _ Hinv c').
  - intros a Ha. destruct (decide (a = rl_local r)) as [->|Hne].
    + rewrite lookup_delete_eq. split; [done|]. congruence.
    + rewrite lookup_delete_ne by done. apply (ri_free _ Hinv). intros c' r0 Hr0.
      destruct (decide (c' = c)) as [->|Hcc]; [congruence|].
      apply (Ha c'). simpl. by rewrite lookup_delete_ne.
  - intros c1 c2 r1 r2 [H1 _]%Hdel [H2 _]%Hdel. by eapply (ri_locals _ Hinv).
Qed.

Lemma relay_inv_connect st c r :
  relay_inv st → relays st !! c = None → local_free (rl_local r) st →
  rl_phase r = Connected → rl_asked r = false → (hrc_secure (rl_context r) = false → rl_sni r = None) →
  relay_inv {| sni_context := sni_context st; http_context := http_context st;
               relays := <[c := r]> (relays st) |}.
Proof.
  intros Hinv Hc Hf Hp Hk Hs. split; simpl.
  - intros c' r0. rewrite lookup_insert. case_decide; [|by apply (ri_published _ Hinv)].
    intros [= <-]. unfold published_http, published_sni. rewrite Hp. by apply (ri_free _ Hinv).
  - intros c' r0. rewrite lookup_insert. case_decide; [by intros [= <-]|by apply (ri_plain _ Hinv)].
  - intros c' r0. rewrite lookup_insert. case_decide; [by intros [= <-]|by apply (ri_fresh _ Hinv)].
  - intros a Ha. apply (ri_free _ Hinv). intros c' r0 Hr0. apply (Ha c'). simpl.
    rewrite lookup_insert_ne; [done|congruence].
  - intros c1 c2 r1 r2. rewrite !lookup_insert. repeat case_decide; subst; intros H1 H2 Hl; simplify_eq;
      [done| | |by eapply (ri_locals _ Hinv)].
    + by destruct (Hf _ _ H2).
    + by destruct (Hf _ _ H1).
Qed.

Lemma relay_inv_advance st c r :
  relay_inv st → relays st !! c = Some r → relay_inv (relay_advance c r st).
Proof.
  intros Hinv Hc. destruct (ri_published _ Hinv _ _ Hc) as [Hh Hs].
  pose proof (ri_plain _ Hinv _ _ Hc) as Hpl. pose proof (ri_fresh _ Hinv _ _ Hc) as Hfr.
  unfold relay_advance, published_http, published_sni in *.
  destruct (hrc_secure (rl_context r)) eqn:Hsec, (rl_phase r) eqn:Hp.
  - apply (relay_inv_update _ _ r); try done; [by intros _; apply Hfr; left| |].
    + intros a Ha. destruct (rl_sni r); [by rewrite lookup_insert_ne|done].
    + unfold published_sni. simpl. rewrite Hfr by (by left). destruct (rl_sni r); [by rewrite lookup_insert_eq|done].
  - apply (relay_inv_update _ _ r); try done; [by intros [|]| |by rewrite lookup_insert_eq].
    intros a Ha. by rewrite lookup_insert_ne.
  - apply (relay_inv_update _ _ r); try done; [by intros [|]| |by rewrite lookup_delete_eq].
    intros a Ha. by rewrite lookup_delete_ne.
  - apply relay_inv_remove; [done..|]. unfold published_sni. by rewrite Hp.
  - apply (relay_inv_update _ _ r); try done; [by intros [|]| |by rewrite lookup_insert_eq|].
    + intros a Ha. by rewrite lookup_insert_ne.
    + unfold published_sni. simpl. rewrite Hs, Hpl by done. by destruct (rl_asked r).
  - apply relay_inv_remove; [done..|]. unfold published_sni. rewrite Hp, Hpl by done. by destruct (rl_asked r).
  - apply relay_inv_remove; [done..|]. unfold published_sni. rewrite Hp, Hpl by done. by destruct (rl_asked r).
  - apply relay_inv_remove; [done..|]. unfold published_sni. by rewrite Hp.
Qed.

Lemma relay_inv_request st a :
  relay_inv st →
  (∀ c r, relays st !! c = Some r → rl_local r = a → rl_phase r = Relaying ∨ rl_phase r = SniRemoved) →
  relay_inv (take_sni a st).2.
Proof.
  intros Hinv Hph.
  assert (∀ c r, (asked_at a <$> relays st) !! c = Some r →
    ∃ r0, relays st !! c = Some r0 ∧ r = asked_at a r0) as Hback.
  { intros c r. rewrite lookup_fmap. intros (r0 & ? & ->)%fmap_Some. eauto. }
  split; simpl.
  - intros c r (r0 & Hr0 & ->)%Hback. destruct (ri_published _ Hinv _ _ Hr0) as [Hh Hs]. cbn [asked_at rl_local].
    split; [exact Hh|]. destruct (decide (rl_local r0 = a)) as [<-|Hne].
    + rewrite lookup_delete_eq. unfold published_sni, asked_at. cbn.
      rewrite bool_decide_true, orb_true_r by done. by destruct (rl_phase r0).
    + rewrite lookup_delete_ne, Hs by done. unfold published_sni, asked_at. cbn.
      by rewrite bool_decide_false, orb_false_r by done.
  - intros c r (r0 & Hr0 & ->)%Hback. apply (ri_plain _ Hinv _ _ Hr0).
  - intros c r (r0 & Hr0 & ->)%Hback. cbn. intros Hp. rewrite (ri_fresh _ Hinv _ _ Hr0 Hp). cbn.
    apply bool_decide_eq_false. intros Ha. destruct (Hph _ _ Hr0 Ha), Hp; congruence.
  - intros a' Ha'. destruct (ri_free _ Hinv a') as [Hh Hs].
    { intros c r Hr. specialize (Ha' c (asked_at a r)). cbn in Ha'. rewrite lookup_fmap, Hr in Ha'. by apply Ha'. }
    split; [exact Hh|]. rewrite lookup_delete. by case_decide.
  - intros c c' r r' (r0 & Hr0 & ->)%Hback (r1 & Hr1 & ->)%Hback. cbn. by apply (ri_locals _ Hinv).
Qed.

Lemma relay_inv_init : relay_inv RelayState_init.
Proof. split; simpl; intros *; by rewrite ?lookup_empty. Qed.

Lemma relay_inv_step st st' : relay_inv st → relay_step st st' → relay_inv st'.
Proof.
  intros Hinv Hstep. revert Hinv. destruct Hstep as [c r s Hc Hf Hr|c r s Hc|a s Hph]; intros Hinv;
    [|by apply relay_inv_advance|by apply relay_inv_request].
  destruct Hr as [(ctx & local & ->)|(ctx & local & sni & ->)]; by apply relay_inv_connect.
Qed.

Lemma relay_inv_reachable st st' : rtc relay_step st st' → relay_inv st → relay_inv st'.
Proof. induction 1; eauto using relay_inv_step. Qed.

(** C7. Relay contexts neither leak nor cross. Under every interleaving at the locks of
    concurrent relays and of the requests the proxy serves, while a relay copies, the
    context of its connection is the one this relay published. The SNI that the proxy reads
    for the first request of the connection is the one of this relay (none for a plain HTTP
    relay, even on a recycled port). Reading removes it, so later requests of the same
    connection find none, and no request ever reads the SNI of another relay. An address
    no relay in flight uses has no entry. Sockets open at one time have different local
    addresses, and no request arrives over a relay before it copies. *)
Theorem relay_contexts_exact (st : RelayState) :
  rtc relay_step RelayState_init st →
  (∀ c r, relays st !! c = Some r → rl_phase r = Relaying →
     http_context st !! rl_local r = Some (rl_context r) ∧
     (take_sni (rl_local r) st).1 = (if rl_asked r then None else rl_sni r) ∧
     (hrc_secure (rl_context r) = false → (take_sni (rl_local r) st).1 = None) ∧
     (∃ r', relays (take_sni (rl_local r) st).2 !! c = Some r' ∧ rl_asked r' = true)) ∧
  (∀ a, (∀ c r, relays st !! c = Some r → rl_local r ≠ a) →
     http_context st !! a = None ∧ (take_sni a st).1 = None).
Proof.
  intros Hreach. pose proof (relay_inv_reachable _ _ Hreach relay_inv_init) as Hinv. split.
  - intros c r Hr Hp. destruct (ri_published _ Hinv _ _ Hr) as [Hh Hs]. cbn [take_sni fst snd].
    rewrite Hh, Hs. unfold published_http, published_sni. rewrite Hp. split_and!; [done..| |].
    + intros Hsec. rewrite (ri_plain _ Hinv c r Hr Hsec). by destruct (rl_asked r).
    + exists (asked_at (rl_local r) r). cbn [relays]. rewrite lookup_fmap, Hr. split; [done|].
      cbn. by rewrite bool_decide_true, orb_true_r by done.
  - intros a Ha. by apply (ri_free _ Hinv).
Qed.

Module RelayExamples.
Definition client (ip : Z) : L4Context :=
  L4Context_new "gw#Https" Https (SocketV4 0 443) (SocketV4 ip 40000).
Definition loopback : SocketAddr := SocketV4 2130706433 50000.
Definition https_relay : Relay :=
  terminate_and_http (client 3325256711) loopback (Some "app.example.com").
Definition plain_relay : Relay := http_relay (client 3405803785) loopback.
Definition connect (c : nat) (r : Relay) (st : RelayState) : RelayState :=
  {| sni_context := sni_context st; http_context := http_context st; relays := <[c := r]> (relays st) |}.

(** An HTTPS relay runs to its end and a plain one reuses its port. *)
Definition reused : RelayState :=
  let st := connect 0 https_relay RelayState_init in
  let st := relay_advance 0 https_relay st in
  let st := relay_advance 0 (with_phase https_relay SniPublished) st in
  let st := relay_advance 0 (with_phase https_relay Relaying) st in
  let st := relay_advance 0 (with_phase https_relay SniRemoved) st in
  relay_advance 1 plain_relay (connect 1 plain_relay st).
End RelayExamples.
Import RelayExamples.

(** The SNI of a connection is read once. *)
Example sni_read_once :
  let st := relay_advance 0 (with_phase https_relay SniPublished)
              (relay_advance 0 https_relay (connect 0 https_relay RelayState_init)) in
  ((take_sni loopback st).1, (take_sni loopback (take_sni loopback st).2).1) = (Some "app.example.com", None).
Proof. vm_compute. reflexivity. Qed.

Lemma relay_contexts_exact_witness :
  sni_context reused !! loopback = None ∧
  http_context reused !! loopback = Some (relay_context (client 3405803785) false).
Proof.
  assert (rtc relay_step RelayState_init reused) as Hreach.
  { eapply rtc_l; [apply (step_connect 0 https_relay); [reflexivity| |right; repeat eexists]|].
    { intros ?? Hr. simpl in Hr. by rewrite lookup_empty in Hr. }
    eapply rtc_l; [by apply (step_advance 0 https_relay)|].
    eapply rtc_l; [by apply (step_advance 0 (with_phase https_relay SniPublished))|].
    eapply rtc_l; [by apply (step_advance 0 (with_phase https_relay Relaying))|].
    eapply rtc_l; [by apply (step_advance 0 (with_phase https_relay SniRemoved))|].
    eapply rtc_l; [apply (step_connect 1 plain_relay); [reflexivity| |left; repeat eexists]|].
    { intros c r Hr. simpl in Hr. apply lookup_delete_Some in Hr as [? Hr].
      rewrite !lookup_insert_ne in Hr by done. by rewrite lookup_empty in Hr. }
    eapply rtc_l; [by apply (step_advance 1 plain_relay)|]. apply rtc_refl. }
  destruct (relay_contexts_exact reused Hreach) as [Hown _].
  destruct (Hown 1%nat (with_phase plain_relay Relaying)) as (Hh & _ & Hs); [reflexivity..|].
  split; [by apply Hs|exact Hh].
Defined.
