(* ===== verification/Sni.v ===== *)
(** * TLS ClientHello SNI extraction ([src/sni.rs]) and the peek loop of
    [src/l4/router.rs].

    The parser is a translation of the byte walk of the source, with the two
    [while] loops on fuel that is the length of the remaining input. The theorems
    relate it to an encoder of ClientHello messages, to the builder of the source's
    own tests, and to arbitrary fragmentation of the stream. *)

From S2P Require Import Prelude Ir.

(** A byte string; every element is in [0, 255] in the theorems that need it. *)
Abbreviation bytes := (list Z).

(** ** Slices *)

(** [u16::from_be_bytes([a, b]) as usize]. *)
Definition be16 (a b : Z) : nat := Z.to_nat (a * 256 + b).

(** [u16::to_be_bytes]. *)
Definition to_be16 (n : nat) : bytes := [Z.of_nat n / 256 mod 256; Z.of_nat n mod 256].

(** [slice.get(a..)], [slice.get(a..b)]. *)
Definition get_from (a : nat) (l : bytes) : option bytes :=
  if decide (a ≤ length l)%nat then Some (drop a l) else None.

Definition get_range (a b : nat) (l : bytes) : option bytes :=
  if decide (a ≤ b ∧ b ≤ length l)%nat then Some (take (b - a) (drop a l)) else None.

(** ** UTF-8 ([std::str::from_utf8]) *)

Definition utf8_cont (b : Z) : bool := (128 <=? b) && (b <=? 191).

Fixpoint utf8_valid (l : bytes) : bool :=
  match l with
  | [] => true
  | a :: l1 =>
      if a <=? 127 then utf8_valid l1
      else if a <=? 193 then false
      else if a <=? 223 then
        match l1 with b :: l2 => utf8_cont b && utf8_valid l2 | _ => false end
      else if a <=? 239 then
        match l1 with
        | b :: c :: l3 =>
            (if a =? 224 then (160 <=? b) && (b <=? 191)
             else if a =? 237 then (128 <=? b) && (b <=? 159)
             else utf8_cont b) && utf8_cont c && utf8_valid l3
        | _ => false
        end
      else if a <=? 244 then
        match l1 with
        | b :: c :: d :: l4 =>
            (if a =? 240 then (144 <=? b) && (b <=? 191)
             else if a =? 244 then (128 <=? b) && (b <=? 143)
             else utf8_cont b) && utf8_cont c && utf8_cont d && utf8_valid l4
        | _ => false
        end
      else false
  end.

Definition string_of_bytes (l : bytes) : string :=
  foldr (λ b s, String (Ascii.ascii_of_N (Z.to_N b)) s) "" l.

Fixpoint bytes_of_string (s : string) : bytes :=
  match s with
  | "" => []
  | String a s' => Z.of_N (Ascii.N_of_ascii a) :: bytes_of_string s'
  end.

Definition from_utf8 (l : bytes) : option string :=
  if utf8_valid l then Some (string_of_bytes l) else None.

(** ** Parser *)

(** The loop of [parse_sni_extension] on the data from [pos] on. *)
Fixpoint sni_entries (fuel : nat) (data : bytes) : option string :=
  match fuel, data with
  | S fuel, name_type :: h :: l :: rest =>
      let name_len := be16 h l in
      if decide (length rest < name_len)%nat then None
      else if name_type =? 0 then from_utf8 (take name_len rest)
      else sni_entries fuel (drop name_len rest)
  | _, _ => None
  end.

(** [parse_sni_extension]. *)
Definition parse_sni_extension (data : bytes) : option string :=
  match data with
  | _ :: _ :: entries => sni_entries (length entries) entries
  | _ => None
  end.

(** The extension loop of [parse_client_hello_sni]. *)
Fixpoint walk_extensions (fuel : nat) (ext : bytes) : option string :=
  match fuel, ext with
  | S fuel, t0 :: t1 :: l0 :: l1 :: rest =>
      let ext_data_len := be16 l0 l1 in
      if decide (length rest < ext_data_len)%nat then None
      else if decide (be16 t0 t1 = 0%nat) then parse_sni_extension (take ext_data_len rest)
      else walk_extensions fuel (drop ext_data_len rest)
  | _, _ => None
  end.

(** [parse_client_hello_sni] from the extensions block on. *)
Definition parse_extensions (hs : bytes) : option string :=
  if decide (length hs < 2)%nat then None else
  e0 ← hs !! 0%nat; e1 ← hs !! 1%nat;
  ext ← get_range 2 (2 + be16 e0 e1 `min` (length hs - 2)) hs;
  walk_extensions (length ext) ext.

(** [parse_client_hello_sni] after the record header: the handshake header and the
    ClientHello fields up to the extensions. *)
Definition parse_handshake (payload : bytes) : option string :=
  ht ← payload !! 0%nat;
  if negb (ht =? 1) then None else
  hs ← get_from 4 payload;
  hs ← get_from 34 hs;
  sid_len ← hs !! 0%nat;
  hs ← get_from (1 + Z.to_nat sid_len) hs;
  c0 ← hs !! 0%nat; c1 ← hs !! 1%nat;
  hs ← get_from (2 + be16 c0 c1) hs;
  comp_len ← hs !! 0%nat;
  hs ← get_from (1 + Z.to_nat comp_len) hs;
  parse_extensions hs.

(** [parse_client_hello_sni]. *)
Definition parse_client_hello_sni (buf : bytes) : option string :=
  b0 ← buf !! 0%nat;
  if negb (b0 =? 22) then None else
  b3 ← buf !! 3%nat; b4 ← buf !! 4%nat;
  payload ← get_range 5 (5 + be16 b3 b4 `min` (length buf - 5)) buf;
  parse_handshake payload.

(** [record_total_len]. *)
Definition record_total_len (buf : bytes) : option nat :=
  b3 ← buf !! 3%nat; b4 ← buf !! 4%nat;
  Some (5 + be16 b3 b4)%nat.

(** ** The peek loop ([peek_client_hello_sni]) *)

Definition PEEK_BUF_SIZE : nat := Z.to_nat 16389.

(** Each element is what one [peek] returned; the list ends when the timeout fires
    or the socket fails. *)
Fixpoint peek_client_hello_sni (peeks : list bytes) : option string :=
  match peeks with
  | [] => None
  | data :: more =>
      match data with
      | [] => None
      | b :: _ =>
          if negb (b =? 22) then None
          else match record_total_len data with
               | Some total =>
                   if decide (total `min` PEEK_BUF_SIZE ≤ length data)%nat
                   then parse_client_hello_sni data
                   else peek_client_hello_sni more
               | None => peek_client_hello_sni more
               end
      end
  end.

(** ** The test builder ([build_client_hello_inner]) *)

Definition zeros (n : nat) : bytes := replicate n 0.

Definition build_extensions (sni : option string) (pad : nat) : bytes :=
  match sni with
  | Some hostname =>
      let name_bytes := bytes_of_string hostname in
      let name_len := length name_bytes in
      let entry_len := (1 + 2 + name_len)%nat in
      [0; 0] ++ to_be16 (2 + entry_len) ++ to_be16 entry_len ++ [0] ++ to_be16 name_len ++ name_bytes
  | None => []
  end ++
  (if decide (0 < pad)%nat then [0; 21] ++ to_be16 pad ++ zeros pad else []) ++
  [0; 23; 0; 0].

Definition build_client_hello_inner (sni : option string) (pad : nat) : bytes :=
  let exts := build_extensions sni pad in
  let ch := [3; 3] ++ zeros 32 ++ [0] ++ [0; 2; 19; 1] ++ [1; 0] ++ to_be16 (length exts) ++ exts in
  let hs := [1; Z.of_nat (length ch) / 65536 mod 256; Z.of_nat (length ch) / 256 mod 256;
             Z.of_nat (length ch) mod 256] ++ ch in
  [22; 3; 1] ++ to_be16 (length hs) ++ hs.

(** ** Specification: ClientHello messages *)

(** The extensions of RFC 8446, with the list of RFC 6066, section 3 in a server_name
    extension: each name has a type, of which 0 is a host name. *)
Inductive HelloExtension :=
| ServerName (names : list (Z * bytes))
| OtherExtension (type : nat) (data : bytes).

(** The fields of a ClientHello the parser walks over. *)
Record ClientHello := {
  ch_version : bytes;
  ch_random : bytes;
  ch_session_id : bytes;
  ch_cipher_suites : bytes;
  ch_compression : bytes;
  ch_extensions : list HelloExtension;
}.

Definition encode_name (n : Z * bytes) : bytes := [n.1] ++ to_be16 (length n.2) ++ n.2.

Definition encode_names (ns : list (Z * bytes)) : bytes := ns ≫= encode_name.

Definition ext_type (e : HelloExtension) : nat :=
  match e with ServerName _ => 0 | OtherExtension t _ => t end.

Definition ext_data (e : HelloExtension) : bytes :=
  match e with
  | ServerName ns => to_be16 (length (encode_names ns)) ++ encode_names ns
  | OtherExtension _ d => d
  end.

Definition encode_extension (e : HelloExtension) : bytes :=
  to_be16 (ext_type e) ++ to_be16 (length (ext_data e)) ++ ext_data e.

Definition encode_extensions (es : list HelloExtension) : bytes := es ≫= encode_extension.

Definition encode_hello (ch : ClientHello) : bytes :=
  ch_version ch ++ ch_random ch ++ [Z.of_nat (length (ch_session_id ch))] ++ ch_session_id ch ++
  to_be16 (length (ch_cipher_suites ch)) ++ ch_cipher_suites ch ++
  [Z.of_nat (length (ch_compression ch))] ++ ch_compression ch ++
  to_be16 (length (encode_extensions (ch_extensions ch))) ++ encode_extensions (ch_extensions ch).

(** The handshake message in one TLS record; [len3] is the 3-byte handshake length. *)
Definition encode_record (len3 : bytes) (ch : ClientHello) : bytes :=
  let hs := [1] ++ len3 ++ encode_hello ch in
  [22; 3; 1] ++ to_be16 (length hs) ++ hs.

(** An extension fits its length field, and only a server_name extension has type 0. *)
Definition ext_ok (e : HelloExtension) : Prop :=
  (length (ext_data e) < Z.to_nat 65536)%nat ∧
  match e with ServerName _ => True | OtherExtension t _ => (0 < t < Z.to_nat 65536)%nat end.

Record hello_ok (len3 : bytes) (ch : ClientHello) : Prop := {
  ok_len3 : length len3 = 3%nat;
  ok_version : length (ch_version ch) = 2%nat;
  ok_random : length (ch_random ch) = 32%nat;
  ok_session : (length (ch_session_id ch) < 256)%nat;
  ok_cipher : (length (ch_cipher_suites ch) < Z.to_nat 65536)%nat;
  ok_compression : (length (ch_compression ch) < 256)%nat;
  ok_exts : Forall ext_ok (ch_extensions ch);
  ok_total : (4 + length (encode_hello ch) < Z.to_nat 65536)%nat;
}.

(** What the message says: the first name of type 0 in the first server_name extension. *)
Definition host_name (ns : list (Z * bytes)) : option string :=
  find_map (λ n : Z * bytes, if decide (n.1 = 0) then Some n.2 else None) ns ≫= from_utf8.

Definition server_names (es : list HelloExtension) : option (list (Z * bytes)) :=
  find_map (λ e, match e with ServerName ns => Some ns | OtherExtension _ _ => None end) es.

Definition hello_sni (ch : ClientHello) : option string := server_names (ch_extensions ch) ≫= host_name.

(** ** Lemmas *)

Lemma to_be16_length n : length (to_be16 n) = 2%nat.
Proof. done. Qed.

Lemma be16_to_be16 n :
  (n < Z.to_nat 65536)%nat → be16 (Z.of_nat n / 256 mod 256) (Z.of_nat n mod 256) = n.
Proof.
  intros Hn. unfold be16. rewrite (Z.mod_small (Z.of_nat n / 256)).
  - rewrite (Z.mul_comm _ 256), <-Z.div_mod by lia. lia.
  - split; [apply Z.div_pos; lia|]. apply Z.div_lt_upper_bound; lia.
Qed.

Lemma get_from_app n a b : n = length a → get_from n (a ++ b) = Some b.
Proof.
  intros ->. unfold get_from. rewrite decide_True, drop_app_length; [done|]. rewrite length_app. lia.
Qed.

Lemma get_from_cons n x l : get_from (S n) (x :: l) = get_from n l.
Proof. unfold get_from. cbn [length drop]. repeat case_decide; done || lia. Qed.

Lemma sni_entries_S fuel t h l rest :
  sni_entries (S fuel) (t :: h :: l :: rest) =
  if decide (length rest < be16 h l)%nat then None
  else if t =? 0 then from_utf8 (take (be16 h l) rest)
  else sni_entries fuel (drop (be16 h l) rest).
Proof. done. Qed.

Lemma walk_extensions_S fuel t0 t1 l0 l1 rest :
  walk_extensions (S fuel) (t0 :: t1 :: l0 :: l1 :: rest) =
  if decide (length rest < be16 l0 l1)%nat then None
  else if decide (be16 t0 t1 = 0%nat) then parse_sni_extension (take (be16 l0 l1) rest)
  else walk_extensions fuel (drop (be16 l0 l1) rest).
Proof. done. Qed.

#[local] Opaque sni_entries walk_extensions.

(** The fuel of the loops is their input's length; more does not change the result. *)
Lemma sni_entries_fuel fuel data :
  (length data ≤ fuel)%nat → sni_entries fuel data = sni_entries (length data) data.
Proof.
  revert data. induction (lt_wf fuel) as [fuel _ IH]. intros data Hlen.
  destruct data as [|t [|h [|l rest]]]; [by destruct fuel..|].
  destruct fuel as [|fuel]; [simpl in Hlen; lia|]. simpl in Hlen. simpl length.
  rewrite !sni_entries_S. do 2 (case_match; [done|]).
  pose proof (length_drop rest (be16 h l)).
  rewrite (IH fuel), (IH (S (S (length rest)))) by lia. done.
Qed.

Lemma walk_extensions_fuel fuel ext :
  (length ext ≤ fuel)%nat → walk_extensions fuel ext = walk_extensions (length ext) ext.
Proof.
  revert ext. induction (lt_wf fuel) as [fuel _ IH]. intros ext Hlen.
  destruct ext as [|t0 [|t1 [|l0 [|l1 rest]]]]; [by destruct fuel..|].
  destruct fuel as [|fuel]; [simpl in Hlen; lia|]. simpl in Hlen. simpl length.
  rewrite !walk_extensions_S. do 2 (case_match; [done|]).
  pose proof (length_drop rest (be16 l0 l1)).
  rewrite (IH fuel), (IH (S (S (S (length rest))))) by lia. done.
Qed.

(** Walking an encoded list of names finds the first host name. *)
Lemma sni_entries_encoded ns :
  (length (encode_names ns) < Z.to_nat 65536)%nat →
  sni_entries (length (encode_names ns)) (encode_names ns) = host_name ns.
Proof.
  induction ns as [|[t n] ns IH]; [done|]. intros Hlen.
  assert (encode_names ((t, n) :: ns) =
    t :: Z.of_nat (length n) / 256 mod 256 :: Z.of_nat (length n) mod 256 :: n ++ encode_names ns) as Heq by reflexivity.
  rewrite Heq in *. cbn [length] in Hlen |- *. rewrite length_app in Hlen.
  rewrite sni_entries_S, !be16_to_be16 by lia. rewrite decide_False by (rewrite length_app; lia).
  rewrite take_app_length, drop_app_length. unfold host_name, find_map. cbn [omap list_omap fst snd].
  destruct (Z.eqb_spec t 0); [by rewrite decide_True|]. rewrite decide_False by done.
  rewrite sni_entries_fuel by (rewrite length_app; lia). apply IH. lia.
Qed.

(** Walking the encoded extensions finds the first server_name. *)
Lemma walk_encoded es :
  Forall ext_ok es →
  walk_extensions (length (encode_extensions es)) (encode_extensions es) = server_names es ≫= host_name.
Proof.
  induction 1 as [|e es [Hd Ht] _ IH]; [done|].
  assert (ext_type e < Z.to_nat 65536)%nat as Ht' by (destruct e; cbn; lia).
  assert (encode_extensions (e :: es) =
    Z.of_nat (ext_type e) / 256 mod 256 :: Z.of_nat (ext_type e) mod 256 :: Z.of_nat (length (ext_data e)) / 256 mod 256 ::
    Z.of_nat (length (ext_data e)) mod 256 :: ext_data e ++ encode_extensions es) as -> by reflexivity.
  cbn [length]. rewrite walk_extensions_S, !be16_to_be16 by done.
  rewrite decide_False by (rewrite length_app; lia). rewrite take_app_length, drop_app_length.
  destruct e as [ns|t d]; cbn [ext_type ext_data] in *.
  - rewrite decide_True by done. cbn. apply sni_entries_encoded. cbn in Hd. lia.
  - rewrite decide_False by lia. rewrite walk_extensions_fuel by (rewrite length_app; lia). apply IH.
Qed.

(** A length-delimited slice, cut at the end of the buffer. *)
Lemma get_range_cut n k pre rest :
  n = length pre →
  get_range n (n + k `min` (length (pre ++ rest) - n)) (pre ++ rest) = Some (take k rest).
Proof.
  intros ->. unfold get_range. rewrite length_app.
  replace (length pre + length rest - length pre)%nat with (length rest) by lia.
  rewrite decide_True, drop_app_length by lia. f_equal.
  replace (length pre + k `min` length rest - length pre)%nat with (k `min` length rest)%nat by lia.
  destruct (Nat.min_spec k (length rest)) as [[_ ->]|[? ->]]; [done|]. by rewrite !take_ge by lia.
Qed.

(** The record layer: the payload is cut at the record length. *)
Lemma parse_record v0 v1 l0 l1 rest :
  parse_client_hello_sni (22 :: v0 :: v1 :: l0 :: l1 :: rest) =
  parse_handshake (take (be16 l0 l1) rest).
Proof.
  pose proof (get_range_cut 5 (be16 l0 l1) [22; v0; v1; l0; l1] rest eq_refl) as Hg.
  unfold parse_client_hello_sni. cbn [lookup list_lookup mbind option_bind negb Z.eqb Pos.eqb].
  cbn [app] in Hg. by rewrite Hg.
Qed.

Lemma parse_extensions_block e0 e1 rest :
  parse_extensions (e0 :: e1 :: rest) =
  walk_extensions (length (take (be16 e0 e1) rest)) (take (be16 e0 e1) rest).
Proof.
  pose proof (get_range_cut 2 (be16 e0 e1) [e0; e1] rest eq_refl) as Hg.
  unfold parse_extensions. cbn [lookup list_lookup mbind option_bind].
  rewrite decide_False by (cbn [length]; lia). cbn [app] in Hg. by rewrite Hg.
Qed.

Lemma parse_extensions_encoded es :
  Forall ext_ok es →
  (length (encode_extensions es) < Z.to_nat 65536)%nat →
  parse_extensions (to_be16 (length (encode_extensions es)) ++ encode_extensions es) = server_names es ≫= host_name.
Proof.
  intros Hes Hlen. rewrite <-walk_encoded by done. cbn [to_be16 app].
  by rewrite parse_extensions_block, be16_to_be16, firstn_all by done.
Qed.

Lemma parse_handshake_encoded len3 ch :
  hello_ok len3 ch → parse_handshake (1 :: len3 ++ encode_hello ch) = hello_sni ch.
Proof.
  intros [Hl3 Hv Hr Hs Hc Hcm He Ht]. unfold parse_handshake.
  cbn [lookup list_lookup mbind option_bind negb Z.eqb Pos.eqb].
  rewrite get_from_cons, get_from_app by done. cbn [mbind option_bind].
  unfold encode_hello in *. rewrite (assoc_L app (ch_version ch)), (get_from_app 34) by (rewrite length_app; lia).
  cbn [mbind option_bind lookup list_lookup app]. rewrite Nat2Z.id.
  cbn [Nat.add]. rewrite get_from_cons, get_from_app by done.
  cbn [mbind option_bind lookup list_lookup app to_be16]. rewrite be16_to_be16 by done.
  cbn [Nat.add]. rewrite !get_from_cons, get_from_app by done.
  cbn [mbind option_bind lookup list_lookup app]. rewrite Nat2Z.id.
  cbn [Nat.add]. rewrite get_from_cons, get_from_app by done.
  cbn [mbind option_bind]. apply parse_extensions_encoded; [done|].
  rewrite !length_app in Ht. lia.
Qed.

Lemma parse_encoded len3 ch extra :
  hello_ok len3 ch → parse_client_hello_sni (encode_record len3 ch ++ extra) = hello_sni ch.
Proof.
  intros Hok. rewrite <-(parse_handshake_encoded len3 ch) by done.
  unfold encode_record. cbn [app to_be16]. rewrite parse_record.
  assert (length (1%Z :: len3 ++ encode_hello ch) < Z.to_nat 65536)%nat.
  { destruct Hok. cbn [length]. rewrite length_app. lia. }
  rewrite be16_to_be16 by done. f_equal.
  change (1 :: (len3 ++ encode_hello ch) ++ extra) with ((1 :: len3 ++ encode_hello ch) ++ extra).
  by rewrite take_app_length.
Qed.

(** ** Lemmas: strings and bytes *)

Lemma bytes_of_string_length s : length (bytes_of_string s) = String.length s.
Proof. induction s as [|a s IH]; simpl; [done|]. by rewrite IH. Qed.

Lemma string_of_bytes_of_string s : string_of_bytes (bytes_of_string s) = s.
Proof.
  induction s as [|a s IH]; simpl; [done|]. rewrite IH, N2Z.id. by rewrite Ascii.ascii_N_embedding.
Qed.

(** ** Lemmas: stability under more input *)

Lemma parse_stable buf extra total :
  record_total_len buf = Some total → (total ≤ length buf)%nat →
  parse_client_hello_sni (buf ++ extra) = parse_client_hello_sni buf.
Proof.
  destruct buf as [|b0 [|v0 [|v1 [|l0 [|l1 rest]]]]]; try done.
  unfold record_total_len. cbn [lookup list_lookup mbind option_bind length]. intros [= <-] Hle.
  destruct (Z.eqb_spec b0 22) as [->|Hb0].
  - cbn [app]. rewrite !parse_record. by rewrite take_app_le by lia.
  - unfold parse_client_hello_sni. cbn [app lookup list_lookup mbind option_bind].
    apply Z.eqb_neq in Hb0. by rewrite Hb0.
Qed.

Lemma record_total_len_take stream n total :
  record_total_len stream = Some total → (5 ≤ n)%nat → record_total_len (take n stream) = Some total.
Proof.
  unfold record_total_len. intros Ht Hn. by rewrite !lookup_take_lt by lia.
Qed.

Lemma record_total_len_min buf total : record_total_len buf = Some total → (5 ≤ total)%nat.
Proof.
  unfold record_total_len. intros (b3 & _ & (b4 & _ & ?)%bind_Some)%bind_Some. simplify_eq. lia.
Qed.

Lemma record_total_len_short buf : (length buf < 5)%nat → record_total_len buf = None.
Proof.
  intros Hl. unfold record_total_len. rewrite (lookup_ge_None_2 buf 4) by lia.
  by destruct (buf !! 3%nat).
Qed.

(** ** Properties *)

(** C27. The parser reads what a ClientHello says: on a TLS record that carries any
    well-formed ClientHello (any session id, cipher suites, compression methods and
    extensions in any order, of lengths that fit their fields and the record), followed by
    any further bytes, it returns the first name of type 0, a host name, in the first
    server_name extension, past any names of other types before it. It returns nothing when
    there is no such extension or name, and when the name is not UTF-8. *)
Theorem parse_sni_of_encoded (len3 : bytes) (ch : ClientHello) (extra : bytes) :
  hello_ok len3 ch → parse_client_hello_sni (encode_record len3 ch ++ extra) = hello_sni ch.
Proof. apply parse_encoded. Qed.

(** The ClientHello of the test builder. *)
Definition built_hello (sni : option string) (pad : nat) : ClientHello :=
  {| ch_version := [3; 3]; ch_random := zeros 32; ch_session_id := [];
     ch_cipher_suites := [19; 1]; ch_compression := [0];
     ch_extensions :=
       match sni with
       | Some h => [ServerName [(0, bytes_of_string h)]]
       | None => []
       end ++ (if decide (0 < pad)%nat then [OtherExtension 21 (zeros pad)] else []) ++ [OtherExtension 23 []] |}.

Definition built_len3 (sni : option string) (pad : nat) : bytes :=
  let n := Z.of_nat (length (encode_hello (built_hello sni pad))) in
  [n / 65536 mod 256; n / 256 mod 256; n mod 256].

Lemma build_extensions_encoded sni pad :
  build_extensions sni pad = encode_extensions (ch_extensions (built_hello sni pad)).
Proof.
  unfold build_extensions, encode_extensions, built_hello. cbn [ch_extensions].
  rewrite !bind_app. f_equal; [|f_equal].
  - destruct sni as [h|]; [|done]. cbn [mbind list_bind]. rewrite app_nil_r.
    unfold encode_extension. cbn [ext_type ext_data encode_names mbind list_bind]. rewrite app_nil_r. done.
  - case_decide; [|done]. cbn [mbind list_bind]. rewrite app_nil_r.
    unfold encode_extension, zeros. cbn [ext_type ext_data]. by rewrite length_replicate.
Qed.

Lemma build_client_hello_encoded sni pad :
  build_client_hello_inner sni pad = encode_record (built_len3 sni pad) (built_hello sni pad).
Proof.
  unfold build_client_hello_inner, encode_record, built_len3. rewrite build_extensions_encoded. done.
Qed.

Lemma built_extensions_length sni pad :
  (length (encode_extensions (ch_extensions (built_hello sni pad)))
   ≤ default 0%nat (String.length <$> sni) + pad + 17)%nat.
Proof.
  rewrite <-build_extensions_encoded. unfold build_extensions, zeros.
  destruct sni as [h|]; case_decide; rewrite ?length_app; cbn [length to_be16 app];
    rewrite ?length_app, ?length_replicate, ?bytes_of_string_length; simpl; lia.
Qed.

Lemma built_hello_ok sni pad :
  (default 0%nat (String.length <$> sni) + pad ≤ Z.to_nat 65400)%nat →
  hello_ok (built_len3 sni pad) (built_hello sni pad).
Proof.
  intros Hle. pose proof (built_extensions_length sni pad) as Hx.
  split; [done..|cbn; lia|cbn; lia|cbn; lia| |].
  - cbn [built_hello ch_extensions]. destruct sni as [h|]; case_decide;
      repeat (apply Forall_cons; split); try apply Forall_nil_2; (split; [|cbn; done || lia]);
      cbn [ext_data encode_names encode_name mbind list_bind fst snd length app to_be16];
      unfold zeros; rewrite ?app_nil_r, ?length_replicate, ?bytes_of_string_length; simpl in Hle; try lia.
  - unfold encode_hello. rewrite !length_app. cbn [length to_be16]. change (length (ch_random _)) with 32%nat.
    change (length (ch_version _)) with 2%nat. change (length (ch_session_id _)) with 0%nat.
    change (length (ch_cipher_suites _)) with 2%nat. change (length (ch_compression _)) with 1%nat. lia.
Qed.

(** Round trip with the builder of the source's tests: parsing a built ClientHello
    gives back its host name, with any amount of padding that fits a record, and a
    hello built without a name gives none. *)
Theorem build_client_hello_roundtrip (sni : option string) (pad : nat) :
  (default 0%nat (String.length <$> sni) + pad ≤ Z.to_nat 65400)%nat →
  (∀ h, sni = Some h → utf8_valid (bytes_of_string h) = true) →
  parse_client_hello_sni (build_client_hello_inner sni pad) = sni.
Proof.
  intros Hle Hu. rewrite build_client_hello_encoded, <-(app_nil_r (encode_record _ _)).
  rewrite parse_encoded by by apply built_hello_ok. unfold hello_sni.
  destruct sni as [h|]; simpl ch_extensions.
  - transitivity (from_utf8 (bytes_of_string h)); [done|]. unfold from_utf8. by rewrite (Hu h eq_refl), string_of_bytes_of_string.
  - case_decide; done.
Qed.

Lemma build_client_hello_roundtrip_witness :
  parse_client_hello_sni (build_client_hello_inner (Some "app.example.com") 1200)
  = Some "app.example.com".
Proof.
  apply build_client_hello_roundtrip; [simpl; lia|]. intros h [= <-]. vm_compute. reflexivity.
Defined.

(** A hello whose first server name is of a type other than a host name. *)
Definition typed_hello : ClientHello :=
  {| ch_version := [3; 3]; ch_random := zeros 32; ch_session_id := [7; 7]; ch_cipher_suites := [19; 1];
     ch_compression := [0];
     ch_extensions := [OtherExtension 10 [0; 2; 0; 29]; ServerName [(1, [42; 42]); (0, bytes_of_string "a.b")]] |}.

Lemma parse_sni_of_encoded_witness :
  parse_client_hello_sni (encode_record [0; 0; 70] typed_hello ++ [1; 2; 3]) = Some "a.b".
Proof.
  rewrite parse_sni_of_encoded; [vm_compute; reflexivity|]. 
  split; [reflexivity..|apply Nat.ltb_lt; vm_compute; reflexivity|apply Nat.ltb_lt; vm_compute; reflexivity
    |apply Nat.ltb_lt; vm_compute; reflexivity| |apply Nat.ltb_lt; vm_compute; reflexivity].
  constructor; [|constructor; [|constructor]]; (split; [apply Nat.ltb_lt; vm_compute; reflexivity|]); [lia|exact I].
Defined.

(** C32. Fragmentation does not matter: however the bytes of a stream arrive, if each peek
    sees a non-empty prefix of the stream, cut at the peek buffer, and some peek before the
    timeout sees the whole first record, the peek loop returns what the parser returns on the
    complete stream. The stream starts with a handshake record that fits the buffer. *)
Theorem peek_fragmentation (stream : bytes) (total : nat) (sizes : list nat) :
  stream !! 0%nat = Some 22 → record_total_len stream = Some total →
  (total ≤ length stream ∧ total ≤ PEEK_BUF_SIZE)%nat →
  Forall (λ n, 0 < n)%nat sizes → Exists (λ n, total ≤ n)%nat sizes →
  peek_client_hello_sni ((λ n, take (n `min` PEEK_BUF_SIZE) stream) <$> sizes) =
  parse_client_hello_sni stream.
Proof.
  intros H0 Ht [Hlen Hpk] Hpos Hex. pose proof (record_total_len_min _ _ Ht) as H5.
  induction Hpos as [|n ns Hn _ IH]; [by apply Exists_nil in Hex|]. rewrite fmap_cons. cbn [peek_client_hello_sni].
  set (k := (n `min` PEEK_BUF_SIZE)%nat) in *.
  assert (take k stream = 22 :: take (k - 1) (drop 1 stream)) as Htk.
  { destruct stream as [|b stream]; [done|]. simpl in H0. simplify_eq.
    assert (k ≠ 0)%nat by lia. destruct k; [done|]. simpl. by rewrite Nat.sub_0_r, drop_0. }
  rewrite Htk at 1. cbn [Z.eqb Pos.eqb negb].
  destruct (decide (total ≤ k)%nat) as [Hk|Hk].
  - rewrite (record_total_len_take _ _ total), decide_True by (done || rewrite ?length_take; lia).
    rewrite <-(take_drop k stream) at 2. symmetry. eapply parse_stable; [by apply record_total_len_take; [|lia]|].
    rewrite length_take. lia.
  - assert (Exists (λ n, total ≤ n)%nat ns) as Hns.
    { apply Exists_cons in Hex as [?|?]; [unfold k in Hk; lia|done]. }
    destruct (decide (5 ≤ k)%nat) as [Hk5|Hk5].
    + rewrite (record_total_len_take _ _ total), decide_False by (done || rewrite ?length_take; lia).
      by apply IH.
    + rewrite record_total_len_short by (rewrite length_take; lia). by apply IH.
Qed.

Lemma peek_fragmentation_witness :
  peek_client_hello_sni
    ((λ n, take (n `min` PEEK_BUF_SIZE) (build_client_hello_inner (Some "app.example.com") 0)) <$> [3; 40; 90]%nat)
  = parse_client_hello_sni (build_client_hello_inner (Some "app.example.com") 0).
Proof.
  apply (peek_fragmentation _ 80); [reflexivity..| | |].
  - split; [vm_compute; lia|unfold PEEK_BUF_SIZE; lia].
  - repeat constructor.
  - right. right. left. lia.
Defined.
