(* ===== verification/RouteManager.v ===== *)
(** * The route manager ([src/route_manager.rs]).

    Per-source route tables merged by priority, compiled, versioned and swapped in;
    rollback; and the background thread that applies snapshots. The rewrite rules
    of a version come from [SunbeamProxy::compile_rewrites_from_ir] of
    [src/proxy/mod.rs]. *)

From S2P Require Import Prelude Ir Hostname Compile Lookup L4.

(** The [regex] crate: whether [Regex::new] accepts a pattern. *)
Class RegexSyntax := regex_compiles : string → bool.

(** ** Rewrites *)

(** [CompiledRewrite]; the compiled pattern is represented by its source. *)
Record CompiledRewrite := {
  cw_pattern : string;
  cw_target : string;
}.

(** [CompiledRewrites]. *)
Abbreviation CompiledRewrites := (list (string * list CompiledRewrite)).

Definition host_prefix (hm : HostnameMatch) : string :=
  match hm with
  | HostExact s | HostPrefix s => s
  | HostWildcard s => "*." +:+ s
  | HostAny => "*"
  end.

Section rewrites.
Context `{!RegexSyntax}.

(** The closure [process] of [compile_rewrites_from_ir]. *)
Definition process_rewrites (hm : HostnameMatch) (node : HostNode) : CompiledRewrites :=
  let compiled := omap (λ rw, if regex_compiles (rw_pattern rw)
                              then Some {| cw_pattern := rw_pattern rw; cw_target := rw_target rw |}
                              else None) (static_rewrites node) in
  match compiled with [] => [] | _ => [(host_prefix hm, compiled)] end.

(** [SunbeamProxy::compile_rewrites_from_ir]. *)
Definition compile_rewrites_from_ir `{!HashOrder} (table : CompiledRouteTable) : CompiledRewrites :=
  (hash_iter (exact_hosts table) ≫= λ kv, kv.2 ≫= process_rewrites (HostExact kv.1)) ++
  (wildcard_hosts table ≫= λ pn, process_rewrites pn.1 pn.2) ++
  match any_host table with Some node => process_rewrites HostAny node | None => [] end.
End rewrites.

(** ** Merging *)

Definition source_priority (priorities : gmap string Z) (id : string) : Z :=
  default 0 (priorities !! id).

(** The comparator of [merge_sources]: higher priority first, then the id. *)
Definition source_le (priorities : gmap string Z) (a b : string * RouteTable) : bool :=
  (source_priority priorities b.1 <? source_priority priorities a.1) ||
  ((source_priority priorities b.1 =? source_priority priorities a.1) && String.leb a.1 b.1).

(** [entry(id).or_insert_with]. *)
Definition or_insert {V} (id : V → string) (m : gmap string V) (v : V) : gmap string V :=
  match m !! id v with Some _ => m | None => <[id v := v]> m end.

(** [merge_sources] on the ordered sources. [HashMap::extend] overwrites. *)
Definition merge_ordered (ordered : list (string * RouteTable)) : RouteTable :=
  {| rt_listeners := btree_values String.leb (foldl (or_insert lc_id) ∅ (ordered ≫= λ st, rt_listeners st.2));
     rt_hosts := ordered ≫= λ st, rt_hosts st.2;
     rt_acme_routes := foldl (λ m st, rt_acme_routes st.2 ∪ m) ∅ ordered;
     rt_l4_routes := ordered ≫= λ st, rt_l4_routes st.2;
     rt_tls_certs := btree_values String.leb (foldl (or_insert tc_id) ∅ (ordered ≫= λ st, rt_tls_certs st.2)) |}.

Section manager.
Context `{!HashOrder, !RegexSyntax}.

Definition ordered_sources (sources : gmap string RouteTable) (priorities : gmap string Z) :
    list (string * RouteTable) :=
  sort_by (source_le priorities) (hash_iter sources).

(** [RouteManager::merge_sources]. *)
Definition merge_sources (sources : gmap string RouteTable) (priorities : gmap string Z) : RouteTable :=
  merge_ordered (ordered_sources sources priorities).

(** ** The manager *)

(** [Version]; the uuid and the instant are supplied by the caller. *)
Record Version := {
  v_id : nat;
  v_source : string;
  v_applied_at : Z;
  v_table : CompiledRouteTable;
  v_l4_config : CompiledL4Config;
  v_rewrites : CompiledRewrites;
}.

(** [RouteManager]; [l4_changed] is the flag under the condition variable. *)
Record RouteManager := {
  mgr_current : CompiledRouteTable;
  mgr_l4_config : CompiledL4Config;
  mgr_rewrites : CompiledRewrites;
  sources : gmap string RouteTable;
  priorities : gmap string Z;
  history : list Version;
  max_history : nat;
  l4_changed : bool;
}.

(** [RouteManager::new]. *)
Definition RouteManager_new (max : nat) : RouteManager :=
  {| mgr_current := CompiledRouteTable_empty; mgr_l4_config := CompiledL4Config_default;
     mgr_rewrites := compile_rewrites_from_ir CompiledRouteTable_empty;
     sources := ∅; priorities := ∅; history := []; max_history := max; l4_changed := false |}.

(** [RouteManager::set_priority]. *)
Definition set_priority (m : RouteManager) (source : string) (priority : Z) : RouteManager :=
  {| mgr_current := mgr_current m; mgr_l4_config := mgr_l4_config m; mgr_rewrites := mgr_rewrites m;
     sources := sources m; priorities := <[source := priority]> (priorities m);
     history := history m; max_history := max_history m; l4_changed := l4_changed m |}.

(** The bounded push of [apply]. *)
Definition push_version (max : nat) (h : list Version) (v : Version) : list Version :=
  (if decide (max ≤ length h)%nat then drop 1 h else h) ++ [v].

(** [RouteManager::apply]. *)
Definition apply (m : RouteManager) (uuid : nat) (now : Z) (source : string) (table : RouteTable) :
    result unit CompileError * RouteManager :=
  let tentative := <[source := table]> (sources m) in
  let merged := merge_sources tentative (priorities m) in
  match compile_l4 merged with
  | Err e => (Err e, m)
  | Ok l4 =>
      match compile merged with
      | Err e => (Err e, m)
      | Ok compiled =>
          let rewrites := compile_rewrites_from_ir compiled in
          let v := {| v_id := uuid; v_source := source; v_applied_at := now; v_table := compiled;
                      v_l4_config := l4; v_rewrites := rewrites |} in
          (Ok tt,
           {| mgr_current := compiled; mgr_l4_config := l4; mgr_rewrites := rewrites;
              sources := tentative; priorities := priorities m;
              history := push_version (max_history m) (history m) v;
              max_history := max_history m; l4_changed := true |})
      end
  end.

(** [RouteManager::rollback]. *)
Definition rollback (m : RouteManager) (steps : nat) : bool * RouteManager :=
  if decide (steps = 0%nat) then (false, m)
  else if decide (length (history m) ≤ steps)%nat then (false, m)
  else
    let new_len := (length (history m) - steps)%nat in
    match history m !! (new_len - 1)%nat with
    | Some target =>
        (true, {| mgr_current := v_table target; mgr_l4_config := v_l4_config target;
                  mgr_rewrites := v_rewrites target; sources := sources m;
                  priorities := priorities m; history := take new_len (history m);
                  max_history := max_history m; l4_changed := l4_changed m |})
    | None => (false, m)
    end.

(** [RouteManager::versions]. *)
Definition versions (m : RouteManager) : list (nat * string * Z) :=
  (λ v, (v_id v, v_source v, v_applied_at v)) <$> history m.

(** [DEFAULT_SOURCE]. *)
Definition DEFAULT_SOURCE : string := "gateway-api".

(** One iteration of the thread of [RouteManager::spawn] on a received table and the
    tables drained after it. *)
Definition spawn_step (st : RouteManager * option RouteTable) (uuid : nat) (now : Z)
    (table : RouteTable) (pending : list RouteTable) : RouteManager * option RouteTable :=
  let '(m, lst) := st in
  let latest := default table (last pending) in
  if decide (lst = Some latest) then (m, lst)
  else match apply m uuid now DEFAULT_SOURCE latest with
       | (Ok _, m') => (m', Some latest)
       | (Err _, m') => (m', lst)
       end.
End manager.

(** ** Lemmas: merging *)

Lemma source_le_total p a b : source_le p a b = true ∨ source_le p b a = true.
Proof.
  unfold source_le. rewrite !orb_true_iff, !andb_true_iff, !Z.ltb_lt, !Z.eqb_eq.
  destruct (String.leb_total a.1 b.1) as [->| ->]; lia.
Qed.

Lemma source_le_refl p a : source_le p a a = true.
Proof. by destruct (source_le_total p a a). Qed.

Lemma source_le_trans p a b c :
  source_le p a b = true → source_le p b c = true → source_le p a c = true.
Proof.
  unfold source_le. rewrite !orb_true_iff, !andb_true_iff, !Z.ltb_lt, !Z.eqb_eq.
  intros [?|[? H1]] [?|[? H2]]; [left; lia..|]. right. split; [lia|by eapply leb_trans].
Qed.

Lemma source_le_antisym p a b : source_le p a b = true → source_le p b a = true → a.1 = b.1.
Proof.
  unfold source_le. rewrite !orb_true_iff, !andb_true_iff, !Z.ltb_lt, !Z.eqb_eq.
  intros [?|[? H1]] [?|[? H2]]; [lia..|]. by apply String.leb_antisym.
Qed.

Lemma or_insert_lookup {V} (id : V → string) ls m k :
  foldl (or_insert id) m ls !! k =
  match m !! k with Some v => Some v | None => List.find (λ v, bool_decide (id v = k)) ls end.
Proof.
  revert m. induction ls as [|v ls IH]; intros m; simpl; [by destruct (m !! k)|].
  rewrite IH. unfold or_insert. destruct (m !! id v) as [w|] eqn:Hv.
  - destruct (m !! k) eqn:Hk; [done|]. by rewrite bool_decide_eq_false_2 by congruence.
  - rewrite lookup_insert. case_decide as Hd.
    + subst k. by rewrite Hv, bool_decide_eq_true_2.
    + rewrite bool_decide_eq_false_2 by done. done.
Qed.

Lemma or_insert_ids {V} (id : V → string) ls k v :
  foldl (or_insert id) ∅ ls !! k = Some v → id v = k.
Proof.
  rewrite or_insert_lookup, lookup_empty. intros [_ ?]%find_Some_elem. by simp_bool.
Qed.

Section merging.
Context `{!HashOrder}.

Lemma elem_of_ordered sources p id t : (id, t) ∈ ordered_sources sources p ↔ sources !! id = Some t.
Proof. unfold ordered_sources. by rewrite elem_of_sort_by, elem_of_hash_iter. Qed.

Lemma ordered_sorted sources p :
  StronglySorted (λ a b, source_le p a b = true) (ordered_sources sources p).
Proof. apply sort_by_sorted; [apply source_le_total|apply source_le_trans]. Qed.

Lemma merged_listener_ids sources p : NoDup (lc_id <$> rt_listeners (merge_sources sources p)).
Proof. apply btree_values_ids. intros k v. apply or_insert_ids. Qed.

(** Merging gives every listener id to the best source: listener ids of the merged
    table are distinct, a merged listener comes unchanged from a source that no other
    source defining that id precedes (higher priority first, then source id), and no
    listener id is lost. *)
Theorem merge_sources_listeners (sources : gmap string RouteTable) (p : gmap string Z) :
  NoDup (lc_id <$> rt_listeners (merge_sources sources p)) ∧
  (∀ l, l ∈ rt_listeners (merge_sources sources p) →
     ∃ id t, sources !! id = Some t ∧ l ∈ rt_listeners t ∧
       ∀ id' t' l', sources !! id' = Some t' → l' ∈ rt_listeners t' → lc_id l' = lc_id l →
         source_le p (id, t) (id', t') = true) ∧
  (∀ id t l, sources !! id = Some t → l ∈ rt_listeners t →
     ∃ l', l' ∈ rt_listeners (merge_sources sources p) ∧ lc_id l' = lc_id l).
Proof.
  split_and!; [apply merged_listener_ids| |].
  - intros l (k & Hk)%elem_of_btree_values. pose proof (or_insert_ids _ _ _ _ Hk) as Hid.
    rewrite or_insert_lookup, lookup_empty in Hk.
    apply (find_bind_sorted (λ a b, source_le p a b = true)) in Hk
      as ([id t] & Hin & Hl & _ & Hmin); [|apply source_le_refl|apply ordered_sorted].
    apply elem_of_ordered in Hin. exists id, t. split_and!; [done..|].
    intros id' t' l' Hs Hl' Heq. apply (Hmin (id', t') l'); [by apply elem_of_ordered|done|].
    apply bool_decide_eq_true. congruence.
  - intros id t l Hs Hl. simpl.
    assert (l ∈ ordered_sources sources p ≫= λ st, rt_listeners st.2) as Hin.
    { apply list_elem_of_bind. exists (id, t). by rewrite elem_of_ordered. }
    destruct (List.find (λ v, bool_decide (lc_id v = lc_id l))
      (ordered_sources sources p ≫= λ st, rt_listeners st.2)) as [l'|] eqn:Hf.
    + exists l'. split.
      * apply elem_of_btree_values. exists (lc_id l). by rewrite or_insert_lookup, lookup_empty.
      * apply find_Some_elem in Hf as [_ ?]. by simp_bool.
    + rewrite find_None in Hf. specialize (Hf l Hin). simp_bool. done.
Qed.
End merging.

(** The order of the sources is determined by priority and id, whatever the hash order. *)
Lemma ordered_sources_order (o1 o2 : HashOrder) sources p :
  ordered_sources (H := o1) sources p = ordered_sources (H := o2) sources p.
Proof.
  apply sort_by_unique; [apply source_le_total|apply source_le_trans| |].
  - intros [i t] [j u] Hi%elem_of_hash_iter Hj%elem_of_hash_iter H1 H2.
    pose proof (source_le_antisym _ _ _ H1 H2). simpl in *. congruence.
  - by rewrite !hash_iter_perm.
Qed.

(** The L4 configuration produced from the per-source tables does not depend on the
    iteration order of any hash map: two runs bind the same listeners and have the
    same five route lists, or report the same error. *)
Theorem merged_l4_deterministic (o1 o2 : HashOrder) (sources : gmap string RouteTable) (p : gmap string Z) :
  match compile_l4 (H := o1) (merge_sources (H := o1) sources p),
        compile_l4 (H := o2) (merge_sources (H := o2) sources p) with
  | Ok a, Ok b => listener_shape <$> listeners a = listener_shape <$> listeners b ∧
                  ∀ proto, routes_for_protocol a proto = routes_for_protocol b proto
  | Err e1, Err e2 => e1 = e2
  | _, _ => False
  end.
Proof.
  replace (merge_sources (H := o2) sources p) with (merge_sources (H := o1) sources p).
  - apply l4_hash_order_aux, merged_listener_ids.
  - unfold merge_sources. by rewrite (ordered_sources_order o2 o1).
Qed.

(** ** The version history *)

Section history.
Context `{!HashOrder, !RegexSyntax}.

(** Operations of the manager. *)
Inductive manager_op :=
| OpSetPriority (source : string) (priority : Z)
| OpApply (uuid : nat) (now : Z) (source : string) (table : RouteTable)
| OpRollback (steps : nat).

Definition exec_op (m : RouteManager) (op : manager_op) : RouteManager :=
  match op with
  | OpSetPriority s p => set_priority m s p
  | OpApply uuid now s t => snd (apply m uuid now s t)
  | OpRollback n => snd (rollback m n)
  end.

Definition exec_ops (m : RouteManager) (ops : list manager_op) : RouteManager := foldl exec_op m ops.

(** What the proxy serves is the newest retained version, and its three parts were
    compiled together from one merged table. *)
Definition version_consistent (v : Version) : Prop :=
  ∃ ir, compile ir = Ok (v_table v) ∧ compile_l4 ir = Ok (v_l4_config v) ∧
        v_rewrites v = compile_rewrites_from_ir (v_table v) ∧ NoDup (lc_id <$> rt_listeners ir).

Record mgr_inv (m : RouteManager) : Prop := {
  inv_bound : (length (history m) ≤ max 1 (max_history m))%nat;
  inv_consistent : ∀ v, v ∈ history m → version_consistent v;
  inv_served : match last (history m) with
               | Some v => mgr_current m = v_table v ∧ mgr_l4_config m = v_l4_config v ∧
                           mgr_rewrites m = v_rewrites v
               | None => mgr_current m = CompiledRouteTable_empty ∧
                         mgr_l4_config m = CompiledL4Config_default
               end;
}.

Lemma apply_cases m uuid now s t :
  (∃ e, apply m uuid now s t = (Err e, m)) ∨
  (∃ m' v, apply m uuid now s t = (Ok tt, m') ∧ version_consistent v ∧ v_source v = s ∧
     history m' = push_version (max_history m) (history m) v ∧ max_history m' = max_history m ∧
     mgr_current m' = v_table v ∧ mgr_l4_config m' = v_l4_config v ∧ mgr_rewrites m' = v_rewrites v ∧
     sources m' = <[s := t]> (sources m) ∧ l4_changed m' = true).
Proof.
  unfold apply. set (ir := merge_sources (<[s:=t]> (sources m)) (priorities m)).
  destruct (compile_l4 ir) as [l4|e] eqn:Hl4; [|eauto].
  destruct (compile ir) as [c|e] eqn:Hc; [|eauto]. right.
  eexists _, {| v_id := uuid; v_source := s; v_applied_at := now; v_table := c; v_l4_config := l4;
                v_rewrites := compile_rewrites_from_ir c |}.
  split_and!; try reflexivity. exists ir. split_and!; [done..|apply merged_listener_ids].
Qed.

Lemma push_version_length max h v :
  (length h ≤ Nat.max 1 max → length (push_version max h v) ≤ Nat.max 1 max)%nat.
Proof.
  unfold push_version. intros Hl. rewrite length_app. simpl.
  case_decide; rewrite ?length_drop; lia.
Qed.

Lemma push_version_elem max h v w : w ∈ push_version max h v → w ∈ h ∨ w = v.
Proof.
  unfold push_version. rewrite elem_of_app, list_elem_of_singleton. intros [Hw|?]; [|by right].
  left. case_decide; [|done]. rewrite <-(take_drop 1 h), elem_of_app. by right.
Qed.

Lemma mgr_inv_apply m uuid now s t : mgr_inv m → mgr_inv (snd (apply m uuid now s t)).
Proof.
  intros [Hb Hc Hs]. destruct (apply_cases m uuid now s t)
    as [[e ->]|(m' & v & -> & Hv & _ & Hh & Hmax & H1 & H2 & H3 & _)]; [by split|].
  split; simpl.
  - rewrite Hh, Hmax. by apply push_version_length.
  - intros w. rewrite Hh. intros [?| ->]%push_version_elem; eauto.
  - rewrite Hh. unfold push_version. by rewrite last_snoc.
Qed.

(** The successful branch of [rollback]. *)
Lemma rollback_some m steps v :
  (0 < steps)%nat → history m !! (length (history m) - steps - 1)%nat = Some v →
  (steps < length (history m))%nat →
  rollback m steps =
  (true, {| mgr_current := v_table v; mgr_l4_config := v_l4_config v; mgr_rewrites := v_rewrites v;
            sources := sources m; priorities := priorities m;
            history := take (length (history m) - steps) (history m);
            max_history := max_history m; l4_changed := l4_changed m |}).
Proof.
  intros Hs Hv Hlt. unfold rollback. rewrite !decide_False by lia. by rewrite Hv.
Qed.

Lemma rollback_cases m steps :
  rollback m steps = (false, m) ∨
  (0 < steps < length (history m))%nat ∧
  ∃ v, history m !! (length (history m) - steps - 1)%nat = Some v.
Proof.
  unfold rollback. do 2 (case_decide; [by left|]). right. split; [lia|].
  apply lookup_lt_is_Some_2. lia.
Qed.

Lemma mgr_inv_rollback m steps : mgr_inv m → mgr_inv (snd (rollback m steps)).
Proof.
  intros [Hb Hc Hs]. destruct (rollback_cases m steps) as [->|(Hlt & v & Hv)]; [by split|].
  rewrite (rollback_some m steps v) by (done || lia). split; simpl.
  - rewrite length_take. lia.
  - intros w Hw%elem_of_take. destruct Hw as (i & Hw & _). eapply Hc, list_elem_of_lookup_2, Hw.
  - rewrite last_lookup, length_take, lookup_take_lt by lia.
    replace (Init.Nat.pred ((length (history m) - steps) `min` length (history m)))
      with (length (history m) - steps - 1)%nat by lia.
    by rewrite Hv.
Qed.
End history.

(** ** Properties of the history *)

Section history_properties.
Context `{!HashOrder, !RegexSyntax}.

Lemma mgr_inv_new max : mgr_inv (RouteManager_new max).
Proof. split; simpl; [lia|by intros v ?%elem_of_nil|done]. Qed.

Lemma mgr_inv_exec m ops : mgr_inv m → mgr_inv (exec_ops m ops).
Proof.
  revert m. induction ops as [|[s p|uuid now s t|n] ops IH]; intros m Hm; simpl; [done|..]; apply IH.
  - by destruct Hm.
  - by apply mgr_inv_apply.
  - by apply mgr_inv_rollback.
Qed.

(** C22. After any sequence of priority changes, updates (accepted or refused) and
    rollbacks, the table, the L4 configuration and the rewrites the proxy serves are
    those of the newest retained version, compiled together from one merged table
    with distinct listener ids, and the history stays within its bound. *)
Theorem manager_serves_newest_version (max : nat) (ops : list manager_op) :
  mgr_inv (exec_ops (RouteManager_new max) ops).
Proof. apply mgr_inv_exec, mgr_inv_new. Qed.

(** Rolling back one step undoes a successful update: with at least two versions
    retained, the proxy serves again exactly the table, L4 configuration and rewrites
    it served before. *)
Theorem rollback_undoes_apply (m m' : RouteManager) (uuid : nat) (now : Z) (s : string) (t : RouteTable) :
  mgr_inv m → history m ≠ [] → (2 ≤ max_history m)%nat →
  apply m uuid now s t = (Ok tt, m') →
  (rollback m' 1).1 = true ∧
  mgr_current (rollback m' 1).2 = mgr_current m ∧
  mgr_l4_config (rollback m' 1).2 = mgr_l4_config m ∧
  mgr_rewrites (rollback m' 1).2 = mgr_rewrites m.
Proof.
  intros [_ _ Hs] Hne Hmax Ha.
  destruct (apply_cases m uuid now s t) as [[e He]|(m2 & v & He & _ & _ & Hh & _)]; [congruence|].
  rewrite Ha in He. injection He as <-.
  destruct (last (history m)) as [w|] eqn:Hw; [|by apply last_None in Hw].
  assert (∃ h, history m' = h ++ [w; v]) as [h Hh'].
  { rewrite Hh. unfold push_version. apply last_Some in Hw as [h Hw]. rewrite Hw.
    case_decide as Hd; [|exists h; by rewrite <-(assoc_L app)].
    rewrite length_app in Hd. simpl in Hd. destruct h as [|x h]; [simpl in Hd; lia|].
    exists h. simpl. by rewrite drop_0, <-(assoc_L app). }
  rewrite (rollback_some m' 1 w); [by destruct Hs as (-> & -> & ->)|lia| |].
  - rewrite Hh', length_app. simpl. rewrite lookup_app_r by lia.
    by replace (length h + 2 - 1 - 1 - length h)%nat with 0%nat by lia.
  - rewrite Hh', length_app. simpl. lia.
Qed.
End history_properties.

(** ** Examples *)

#[local] Instance every_regex : RegexSyntax := λ _, true.
#[local] Instance literal_regex : RegexEngine := λ pattern v, bool_decide (pattern = v).

Module ManagerTables.
Definition fixed_rule (status : Z) : Rule :=
  {| rule_matches := [RequestMatch_default];
     rule_action := ActFixedResponse {| fr_status := status; fr_headers := []; fr_body := None |};
     rule_order := 0 |}.

Definition host_with (hm : HostnameMatch) (rules : list Rule) : HostRoute :=
  {| hr_hostname := hm; hr_listener_ids := []; hr_listener_hostname := None; hr_listener_port := None;
     hr_gateway_api := false; hr_disable_secure_redirection := false; hr_rules := rules |}.

Definition table_with (hm : HostnameMatch) (rules : list Rule) (acme : string) : RouteTable :=
  {| rt_listeners := []; rt_hosts := [host_with hm rules]; rt_acme_routes := {["/token" := acme]};
     rt_l4_routes := []; rt_tls_certs := [] |}.

(** Source [high] has priority 10 and answers 201 with two rules, source [low] has
    priority 0 and answers 200 with one rule, both for the same hostname. *)
Definition two_sources (hm : HostnameMatch) : RouteManager :=
  exec_ops (RouteManager_new 4)
    [OpSetPriority "high" 10; OpSetPriority "low" 0;
     OpApply 0 0 "high" (table_with hm [fixed_rule 201; fixed_rule 201] "high-solver");
     OpApply 1 1 "low" (table_with hm [fixed_rule 200] "low-solver")].

Definition get_request : Request :=
  {| req_host := "www.example.com"; req_port := 80; req_path := "/"; req_method := "GET";
     req_header := λ _, None; req_query := None |}.

Definition served_status (m : RouteManager) : option Z :=
  match lookup_route (mgr_current m) get_request with
  | Some p => match request_stages (plan p) with
              | [StageTerminal (TermFixedResponse status _ _)] => Some status
              | _ => None
              end
  | None => None
  end.

Definition any_table (status : Z) : RouteTable := table_with HostAny [fixed_rule status] "solver".
End ManagerTables.
Import ManagerTables.

(** Source priority decides for exact hostnames only. For one catch-all hostname the
    lowest-priority source replaces the others, for one wildcard hostname the source
    with fewer rules is consulted first whatever its priority, and the ACME route of
    the lowest-priority source overwrites the others. *)
Theorem priority_only_for_exact_hosts :
  served_status (two_sources (HostExact "www.example.com")) = Some 201 ∧
  served_status (two_sources HostAny) = Some 200 ∧
  served_status (two_sources (HostWildcard "example.com")) = Some 200 ∧
  acme_routes (mgr_current (two_sources HostAny)) !! "/token" = Some "low-solver".
Proof. vm_compute. done. Qed.

(** A rollback does not survive the next update of another source: the source tables
    keep the version that was rolled back, and any later update serves it again. *)
Theorem rollback_is_forgotten :
  let m := exec_ops (RouteManager_new 4)
             [OpApply 0 0 "gateway-api" (any_table 200); OpApply 1 1 "gateway-api" (any_table 503);
              OpRollback 1] in
  served_status m = Some 200 ∧
  served_status (exec_op m (OpApply 2 2 "other" RouteTable_default)) = Some 503.
Proof. vm_compute. done. Qed.

Lemma rollback_undoes_apply_witness :
  let m := exec_ops (RouteManager_new 4) [OpApply 0 0 "gateway-api" (any_table 200)] in
  let m' := exec_op m (OpApply 1 1 "gateway-api" (any_table 503)) in
  served_status m' = Some 503 ∧ mgr_current (rollback m' 1).2 = mgr_current m.
Proof.
  intros m m'. split; [vm_compute; reflexivity|].
  apply (rollback_undoes_apply m m' 1 1 "gateway-api" (any_table 503)).
  - apply mgr_inv_exec, mgr_inv_new.
  - vm_compute. discriminate.
  - vm_compute. repeat constructor.
  - vm_compute. reflexivity.
Defined.

Lemma manager_serves_newest_version_witness :
  mgr_inv (exec_ops (RouteManager_new 4)
    [OpApply 0 0 "gateway-api" (any_table 200); OpSetPriority "other" 5; OpRollback 1]).
Proof. apply manager_serves_newest_version. Defined.

Import L4.L4Examples.

Lemma merge_sources_listeners_witness :
  NoDup (lc_id <$> rt_listeners (merge_sources (H := reverse_order)
    {[ "low" := shared_table; "high" := https_only_table ]} {[ "high" := 10 ]})).
Proof. apply merge_sources_listeners. Defined.

(** Two iteration orders give the same sockets for two sources that share an address. *)
Lemma merged_l4_deterministic_witness :
  let sources := {[ "low" := shared_table; "high" := https_only_table ]} in
  match compile_l4 (H := map_order) (merge_sources (H := map_order) sources ∅),
        compile_l4 (H := reverse_order) (merge_sources (H := reverse_order) sources ∅) with
  | Ok a, Ok b => listener_shape <$> listeners a = listener_shape <$> listeners b
  | _, _ => False
  end.
Proof.
  intros sources. pose proof (merged_l4_deterministic map_order reverse_order sources ∅) as Hd.
  destruct (compile_l4 (H := map_order) _) as [a|e] eqn:Ha; [|by vm_compute in Ha].
  destruct (compile_l4 (H := reverse_order) _) as [b|e] eqn:Hb; [by destruct Hd|done].
Defined.
