(* ===== verification/RateLimit.v ===== *)
(** * Rate limiting: CIDR blocks and bucket keys ([src/rate_limit]).

    [cidr.rs] and [key.rs]. *)

From S2P Require Import Prelude Net.

(** ** CIDR blocks *)

Record CidrBlock := {
  cb_addr : IpAddr;
  cb_prefix_len : Z;
}.

(** [CidrBlock::parse]. *)
Definition CidrBlock_parse (s : string) : option CidrBlock :=
  match split_once "/" s with
  | Some (addr_str, len_str) =>
      match parse_uint 255 len_str with
      | Some prefix_len =>
          match parse_ip addr_str with
          | Some addr =>
              if match addr with V4 _ => 32 <? prefix_len | V6 _ => 128 <? prefix_len end then None
              else Some {| cb_addr := addr; cb_prefix_len := prefix_len |}
          | None => None
          end
      | None => None
      end
  | None => None
  end.

(** [normalise]. *)
Definition normalise (ip : IpAddr) : IpAddr :=
  match ip with
  | V6 v6 => match to_ipv4_mapped v6 with Some v4 => V4 v4 | None => V6 v6 end
  | V4 _ => ip
  end.

(** [v4_mask], [v6_mask]. The subtraction is on [u8] and the shift amount is taken modulo
    the width, as in a release build; a debug build panics when either overflows. *)
Definition v4_mask (prefix_len : Z) : Z :=
  if prefix_len =? 0 then 0
  else wrap 32 (Z.shiftl u32_max (wrap 8 (32 - prefix_len) mod 32)).

Definition v6_mask (prefix_len : Z) : Z :=
  if prefix_len =? 0 then 0
  else wrap 128 (Z.shiftl (2^128 - 1) (wrap 8 (128 - prefix_len) mod 128)).

(** [CidrBlock::contains]. *)
Definition contains (c : CidrBlock) (ip : IpAddr) : bool :=
  match normalise (cb_addr c), normalise ip with
  | V4 net, V4 candidate =>
      let mask := v4_mask (cb_prefix_len c) in Z.land net mask =? Z.land candidate mask
  | V6 net, V6 candidate =>
      let mask := v6_mask (cb_prefix_len c) in Z.land net mask =? Z.land candidate mask
  | _, _ => false
  end.

(** [parse_cidrs], [is_bypassed]. *)
Definition parse_cidrs (strings : list string) : list CidrBlock := omap CidrBlock_parse strings.

Definition is_bypassed (ip : IpAddr) (cidrs : list CidrBlock) : bool := existsb (λ c, contains c ip) cidrs.

(** ** Keys ([key.rs]) *)

Inductive RateLimitKey :=
| Identity (h : Z)
| Ip (addr : IpAddr).

#[export] Instance RateLimitKey_eq_dec : EqDecision RateLimitKey.
Proof. solve_decision. Defined.

(** [RateLimitKey::is_authenticated]. *)
Definition is_authenticated (k : RateLimitKey) : bool :=
  match k with Identity _ => true | Ip _ => false end.

(** [extract_cookie_value]. *)
Definition extract_cookie_value (cookies name : string) : option string :=
  find_map (λ pair, match split_once "=" (str_trim pair) with
                    | Some (k, v) => if decide (str_trim k = name) then Some (str_trim v) else None
                    | None => None
                    end) (str_split ";" cookies).

(** [rustc_hash::FxHasher] on a string. *)
Class FxHash := fx_hash : string → Z.

(** [extract_key]. *)
Definition extract_key `{!FxHash} (cookie_header auth_header : option string) (client_ip : IpAddr) :
    RateLimitKey :=
  let from_cookie := cookie_header ≫= λ cookies, extract_cookie_value cookies "ory_kratos_session" in
  match from_cookie with
  | Some value => Identity (fx_hash value)
  | None =>
      match auth_header ≫= strip_prefix "Bearer " with
      | Some token =>
          let token := str_trim token in
          if str_is_empty token then Ip client_ip else Identity (fx_hash token)
      | None => Ip client_ip
      end
  end.

(** ** Lemmas: masks *)

(** A [w]-bit mask that keeps the bits from [k] up. *)
Definition high_mask (w k : Z) : Z := wrap w (Z.shiftl (2^w - 1) k).

Lemma high_mask_ones w k : 0 ≤ k ≤ w → high_mask w k = Z.ones w - Z.ones k.
Proof.
  intros Hk. unfold high_mask, wrap. rewrite Z.shiftl_mul_pow2, !Z.ones_equiv by lia.
  assert (0 < 2^k) by (apply Z.pow_pos_nonneg; lia).
  assert (2^k ≤ 2^w) by (apply Z.pow_le_mono_r; lia).
  symmetry. apply (Z.mod_unique_pos _ _ (2^k - 1)); lia.
Qed.

(** Masking a [w]-bit number clears its low [k] bits. *)
Lemma land_high_mask w k x :
  0 ≤ k ≤ w → 0 ≤ x < 2^w → Z.land x (high_mask w k) = x / 2^k * 2^k.
Proof.
  intros Hk Hx. rewrite high_mask_ones by done.
  assert (0 < 2^k) by (apply Z.pow_pos_nonneg; lia).
  assert (Z.ones w - Z.ones k = Z.ldiff (Z.ones w) (Z.ones k)) as ->.
  { apply Z.sub_nocarry_ldiff. apply Z.bits_inj'. intros n Hn.
    rewrite Z.ldiff_spec, Z.bits_0. destruct (decide (n < k)).
    - rewrite (Z.ones_spec_low w) by lia. apply andb_false_r.
    - by rewrite (Z.ones_spec_high k) by lia. }
  assert (x / 2^k * 2^k = Z.ldiff x (Z.ones k)) as ->.
  { rewrite <-Z.shiftl_mul_pow2, <-Z.shiftr_div_pow2 by lia. by rewrite Z.ldiff_ones_r by lia. }
  apply Z.bits_inj'. intros n Hn. rewrite Z.land_spec, !Z.ldiff_spec.
  destruct (decide (n < w)).
  - rewrite (Z.ones_spec_low w) by lia. done.
  - replace (Z.testbit x n) with false; [done|]. symmetry.
    destruct (decide (x = 0)) as [->|]; [apply Z.bits_0|]. apply Z.bits_above_log2; [lia|].
    assert (Z.log2 x < w) by (apply Z.log2_lt_pow2; lia). lia.
Qed.

Lemma masked_eq w k x y :
  0 ≤ k ≤ w → 0 ≤ x < 2^w → 0 ≤ y < 2^w →
  Z.land x (high_mask w k) = Z.land y (high_mask w k) ↔ x / 2^k = y / 2^k.
Proof.
  intros Hk Hx Hy. rewrite !land_high_mask by done.
  assert (0 < 2^k) by (apply Z.pow_pos_nonneg; lia). nia.
Qed.

Lemma v4_mask_high p : 0 ≤ p ≤ 32 → v4_mask p = high_mask 32 (32 - p).
Proof.
  intros Hp. unfold v4_mask. destruct (Z.eqb_spec p 0) as [->|]; [reflexivity|].
  unfold high_mask. rewrite (wrap_small 8), Z.mod_small by (simpl; lia). done.
Qed.

Lemma v6_mask_high p : 0 ≤ p ≤ 128 → v6_mask p = high_mask 128 (128 - p).
Proof.
  intros Hp. unfold v6_mask. destruct (Z.eqb_spec p 0) as [->|]; [reflexivity|].
  unfold high_mask. rewrite (wrap_small 8), Z.mod_small by (simpl; lia). done.
Qed.

Definition ip_ok (ip : IpAddr) : Prop :=
  match ip with V4 b => 0 ≤ b < 2^32 | V6 b => 0 ≤ b < 2^128 end.

Lemma normalise_ok ip : ip_ok ip → ip_ok (normalise ip).
Proof.
  destruct ip as [b|b]; [by intros ?|]. unfold normalise, to_ipv4_mapped.
  destruct (Z.shiftr b 32 =? 65535); [|by intros ?]. intros _. unfold ip_ok.
  change u32_max with (Z.ones 32). rewrite Z.land_ones by lia. apply Z.mod_pos_bound. lia.
Qed.

(** ** Properties *)



Lemma parsed_cidr_len s c :
  CidrBlock_parse s = Some c →
  0 ≤ cb_prefix_len c ≤ match cb_addr c with V4 _ => 32 | V6 _ => 128 end.
Proof.
  unfold CidrBlock_parse. repeat case_match; intros ?; simplify_eq/=.
  all: match goal with H : parse_uint _ _ = Some _ |- _ => apply parse_uint_bound in H; [|lia] end; lia.
Qed.

(** An IPv4-mapped IPv6 network is not matched at its own prefix length: the block of
    all IPv4-mapped addresses parses, but the mask is computed with the 128-bit
    length on a 32-bit address and the block contains no address other than
    [0.0.0.0]. *)
Theorem mapped_network_mismatch :
  ∃ c, CidrBlock_parse "::ffff:0.0.0.0/96" = Some c ∧
  contains c (V6 281470849515521) = false ∧
  ∀ b, 0 < b < 2^32 → contains c (V4 b) = false.
Proof.
  eexists. split; [vm_compute; reflexivity|]. split; [vm_compute; reflexivity|].
  intros b Hb. unfold contains.
  assert (v4_mask 96 = Z.ones 32) as Hmask by reflexivity.
  simpl. rewrite Hmask, !Z.land_ones by lia. rewrite (Z.mod_small b) by lia.
  destruct b; [lia|done|done].
Qed.
