(* ===== verification/Filters.v ===== *)
(** * Filter helpers ([src/proxy/filters.rs], [src/proxy/match_.rs]).

    Path normalisation and the path mutations, CORS origin matching, redirect locations
    and the weighted backend counter. *)

From S2P Require Import Prelude Ir Hostname Compile Lookup.

(** ** Path normalisation ([normalize_path]) *)

(** The segment loop; the stack is kept with its top at the head. *)
Fixpoint resolve_segments (stack : list string) (segments : list string) : option (list string) :=
  match segments with
  | [] => Some stack
  | s :: rest =>
      if decide (s = "" ∨ s = ".") then resolve_segments stack rest
      else if decide (s = "..") then
        match stack with
        | [] => None
        | _ :: stack' => resolve_segments stack' rest
        end
      else resolve_segments (s :: stack) rest
  end.

(** [normalize_path]. *)
Definition normalize_path (path : string) : option string :=
  if starts_with path "/" then
    match resolve_segments [] (str_split slash path) with
    | Some stack => Some (String slash (str_join "/" (reverse stack)))
    | None => None
    end
  else None.

(** ** Path mutations ([apply_upstream_request_mutation]) *)

Definition strip_leading_slash (s : string) : string := default s (strip_prefix "/" s).

(** The closure of the [PrefixReplace] branch, on the rest after the prefix. *)
Definition replace_prefix (replacement rest : string) : string :=
  let rest := strip_leading_slash rest in
  if str_is_empty replacement || bool_decide (replacement = "/") then "/" +:+ rest
  else
    let replacement := default replacement (strip_suffix "/" replacement) in
    if str_is_empty rest then replacement else replacement +:+ "/" +:+ rest.

(** The new path a mutation asks for: [None] when it leaves the path alone, otherwise the
    result of the normalisation ([Some None] is the 400 error). *)
Definition mutated_path (m : UpstreamRequestMutation) (old_path : string) : option (option string) :=
  match m with
  | MutStripPrefix prefix =>
      match strip_prefix prefix old_path with
      | Some stripped => Some (normalize_path (if str_is_empty stripped then "/" else stripped))
      | None => None
      end
  | MutPrependPath prefix =>
      let trimmed := strip_leading_slash old_path in
      Some (normalize_path (if ends_with prefix "/" then prefix +:+ trimmed
                            else prefix +:+ "/" +:+ trimmed))
  | MutRewritePath (FullReplace path) => Some (normalize_path path)
  | MutRewritePath (PrefixReplace prefix replacement) =>
      Some (normalize_path (match strip_prefix prefix old_path with
                            | Some rest => replace_prefix replacement rest
                            | None => old_path
                            end))
  | _ => None
  end.

(** ** CORS ([cors_allow_origin]) *)

(** [split_once] on a string separator, for a two-character separator. *)
Fixpoint split_once_star_dot (s : string) : option (string * string) :=
  match strip_prefix "*." s with
  | Some rest => Some ("", rest)
  | None =>
      match s with
      | "" => None
      | String a s' => match split_once_star_dot s' with
                       | Some (p, q) => Some (String a p, q)
                       | None => None
                       end
      end
  end.

Definition origin_matches (origin allowed : string) : bool :=
  bool_decide (allowed = "*") || eq_ignore_ascii_case allowed origin ||
  match split_once_star_dot allowed with
  | Some (prefix, suffix) =>
      match strip_prefix prefix origin with
      | Some rest =>
          match strip_suffix suffix rest ≫= strip_suffix "." with
          | Some rest => negb (str_is_empty rest)
          | None => false
          end
      | None => false
      end
  | None => false
  end.

Definition cors_allow_origin (origin : string) (allow_origins : list string) (allow_credentials : bool) :
    bool :=
  match allow_origins with
  | [] => negb allow_credentials
  | _ => existsb (origin_matches origin) allow_origins
  end.

(** ** Weighted backends ([pick_weighted_backend_ir_index]) *)

Definition total_weight (ws : list Z) : Z := foldr Z.add 0 ws.

(** The cursor loop: the index of the first backend whose cumulative weight exceeds
    [pick]. *)
Fixpoint pick_index (pick cursor : Z) (i : nat) (ws : list Z) : nat :=
  match ws with
  | [] => 0
  | w :: ws' => if pick <? cursor + w then i else pick_index pick (cursor + w) (S i) ws'
  end.

(** The counter is a process-wide [AtomicU64]; the result is the index and the new
    counter. *)
Definition pick_weighted_backend_ir_index (counter : Z) (backends : list WeightedBackend) :
    option nat * Z :=
  match backends with
  | [] => (None, counter)
  | _ =>
      let ws := wb_weight <$> backends in
      let total := total_weight ws in
      if total =? 0 then (Some 0%nat, counter)
      else (Some (pick_index (counter mod total) 0 0 ws), wrap 64 (counter + 1))
  end.

(** ** Redirects ([build_redirect_location_ir]) *)

(** Decimal rendering of a port. *)
Definition digit_char (d : Z) : ascii := Ascii.ascii_of_N (Z.to_N (48 + d)).

Fixpoint show_digits (fuel : nat) (n : Z) (acc : string) : string :=
  match fuel with
  | O => acc
  | S fuel =>
      let acc := String (digit_char (n mod 10)) acc in
      if n / 10 =? 0 then acc else show_digits fuel (n / 10) acc
  end.

(** Five digits are enough for a [u16]. *)
Definition show_port (n : Z) : string := show_digits 5 n "".

Definition redirect_path (p : option PathRewrite) (original_path : string) : string :=
  match p with
  | Some (PrefixReplace prefix replacement) =>
      match strip_prefix prefix original_path with
      | Some rest => replacement +:+ rest
      | None => original_path
      end
  | Some (FullReplace replacement) => replacement
  | None => original_path
  end.

Definition redirect_port (rd : RedirectAction) (scheme : string) (downstream_port : Z) : Z :=
  let default_port :=
    match rd_scheme rd with
    | Some _ => if decide (scheme = "https") then 443
                else if decide (scheme = "http") then 80 else downstream_port
    | None => downstream_port
    end in
  default default_port (rd_port rd).

Definition build_redirect_location_ir (rd : RedirectAction) (uri_host : option string)
    (original_path request_host downstream_scheme : string) (downstream_port : Z) : string :=
  let scheme := default downstream_scheme (rd_scheme rd) in
  let host := match rd_hostname rd with
              | Some h => h
              | None => default request_host uri_host
              end in
  let path := redirect_path (rd_path rd) original_path in
  let effective_port := redirect_port rd scheme downstream_port in
  let omit_port := (effective_port =? 0) ||
                   (bool_decide (scheme = "http") && (effective_port =? 80)) ||
                   (bool_decide (scheme = "https") && (effective_port =? 443)) in
  if omit_port then scheme +:+ "://" +:+ host +:+ path
  else scheme +:+ "://" +:+ host +:+ ":" +:+ show_port effective_port +:+ path.

(** ** Lemmas: normalisation *)

(** A segment that survives normalisation. *)
Definition plain_segment (s : string) : Prop := s ≠ "" ∧ s ≠ "." ∧ s ≠ ".." ∧ ¬ str_elem slash s.

(** The change of depth of a segment. *)
Definition seg_depth (s : string) : Z :=
  if decide (s = "" ∨ s = ".") then 0 else if decide (s = "..") then -1 else 1.

Definition path_depth (segs : list string) : Z := foldr (λ s d, seg_depth s + d) 0 segs.

Lemma resolve_plain stack segs st :
  resolve_segments stack segs = Some st → Forall plain_segment stack →
  Forall (λ s, ¬ str_elem slash s) segs → Forall plain_segment st.
Proof.
  revert stack. induction segs as [|s segs IH]; intros stack; simpl; [by intros [= <-]|].
  intros Hr Hst [Hs Hsegs]%Forall_cons. repeat case_decide.
  - by eapply IH.
  - destruct stack as [|x stack]; [done|]. apply Forall_cons in Hst as [_ Hst]. by eapply IH.
  - eapply IH; [done| |done]. apply Forall_cons. split; [|done]. unfold plain_segment. tauto.
Qed.

(** Resolution fails exactly when some initial part of the path climbs above the root. *)
Lemma resolve_None stack segs :
  resolve_segments stack segs = None ↔
  ∃ pre, pre `prefix_of` segs ∧ Z.of_nat (length stack) + path_depth pre < 0.
Proof.
  revert stack. induction segs as [|s segs IH]; intros stack; simpl.
  - split; [done|]. intros (pre & ->%prefix_nil_inv & Hd). simpl in Hd. lia.
  - assert (∀ stack' : list string, Z.of_nat (length stack') = Z.of_nat (length stack) + seg_depth s →
      (∃ pre, pre `prefix_of` segs ∧ Z.of_nat (length stack') + path_depth pre < 0) ↔
      (∃ pre, pre `prefix_of` s :: segs ∧ Z.of_nat (length stack) + path_depth pre < 0)) as Hstep.
    { intros stack' Hl. split.
      - intros (pre & Hp & Hd). exists (s :: pre). split; [by apply prefix_cons|]. simpl. lia.
      - intros ([|s' pre] & Hp & Hd); [simpl in Hd; lia|].
        pose proof (prefix_cons_inv_1 _ _ _ _ Hp) as ->. apply prefix_cons_inv_2 in Hp.
        exists pre. split; [done|]. simpl in Hd. lia. }
    unfold seg_depth in Hstep. repeat case_decide.
    + rewrite IH. apply Hstep. lia.
    + destruct stack as [|x stack]; [|rewrite IH; apply Hstep; simpl; lia].
      split; [|done]. intros _. exists [".."]. split; [subst; by exists segs|]. vm_compute. done.
    + rewrite IH. apply Hstep. simpl. lia.
Qed.

Lemma resolve_depth stack segs st :
  resolve_segments stack segs = Some st →
  Z.of_nat (length st) = Z.of_nat (length stack) + path_depth segs.
Proof.
  revert stack. induction segs as [|s segs IH]; intros stack; simpl; [intros [= <-]; lia|].
  unfold seg_depth. repeat case_decide; [..|intros Hr%IH; simpl in Hr; lia].
  - intros Hr%IH. lia.
  - destruct stack as [|x stack]; [done|]. intros Hr%IH. simpl. lia.
Qed.

Lemma split_path_join l :
  Forall (λ s, s ≠ "" ∧ ¬ str_elem slash s) l → split_path (String slash (str_join "/" l)) = l.
Proof.
  intros Hl. change (String slash (str_join "/" l)) with ("" +:+ String slash (str_join "/" l)).
  rewrite split_path_app. change (split_path "") with (@nil string). rewrite app_nil_l.
  destruct l as [|w l]; [done|]. unfold split_path. rewrite (str_split_join slash); [|done|].
  - clear -Hl. induction Hl as [|x l' (Hx & _) _ IH]; [done|]. by rewrite filter_cons_True, IH.
  - eapply Forall_impl; [exact Hl|]. by intros x [_ ?].
Qed.

Lemma split_path_segments path : Forall (λ s, s ≠ "" ∧ ¬ str_elem slash s) (split_path path).
Proof.
  apply Forall_forall. intros s [Hs Hin]%list_elem_of_filter. split; [done|].
  by eapply str_split_no_sep.
Qed.

Lemma canonical_rejoin path :
  let q := String slash (str_join "/" (split_path path)) in
  canonical_path q ∧ split_path q = split_path path.
Proof.
  simpl. pose proof (split_path_join _ (split_path_segments path)) as Hs.
  split; [unfold canonical_path; by rewrite Hs|done].
Qed.

(** A path of plain segments, possibly with empty ones between, is normalised by
    dropping the empty ones. *)
Lemma resolve_filter stack segs :
  Forall (λ s, s = "" ∨ plain_segment s) segs →
  resolve_segments stack segs = Some (reverse (filter (λ s, s ≠ "") segs) ++ stack).
Proof.
  intros Hs. revert stack. induction Hs as [|s segs [->|(H1 & H2 & H3 & _)] _ IH]; intros stack; simpl; [done|..].
  - rewrite filter_cons_False by tauto. apply IH.
  - rewrite decide_False, decide_False, filter_cons_True by tauto.
    rewrite IH, reverse_cons. by rewrite <-(assoc_L app).
Qed.

Definition no_dots (path : string) : Prop :=
  Forall (λ s, s ≠ "." ∧ s ≠ "..") (split_path path).

Lemma normalize_no_dots path :
  starts_with path "/" = true → no_dots path →
  normalize_path path = Some (String slash (str_join "/" (split_path path))).
Proof.
  intros Hs Hd. unfold normalize_path. rewrite Hs, resolve_filter.
  - rewrite app_nil_r, reverse_involutive. done.
  - apply Forall_forall. intros s Hin. destruct (decide (s = "")) as [|Hne]; [by left|]. right.
    unfold no_dots in Hd. rewrite Forall_forall in Hd.
    destruct (Hd s) as [? ?]; [by apply list_elem_of_filter|].
    split_and!; [done..|]. by eapply str_split_no_sep.
Qed.

(** ** Properties: paths *)

(** C28. Normalised paths cannot escape: the result is absolute and canonical, none of its
    segments is empty, [.] or [..], and normalising again changes nothing. A path is
    refused exactly when it is not absolute or some initial part of it has more
    [..] segments than names, and otherwise the result has as many segments as the path
    has names left after each [..] removed one. *)
Theorem normalize_path_safe (path : string) :
  match normalize_path path with
  | Some q => canonical_path q ∧ Forall plain_segment (split_path q) ∧ normalize_path q = Some q ∧
              starts_with path "/" = true ∧
              (∀ pre, pre `prefix_of` str_split slash path → 0 ≤ path_depth pre) ∧
              Z.of_nat (length (split_path q)) = path_depth (str_split slash path)
  | None => starts_with path "/" = false ∨
            ∃ pre, pre `prefix_of` str_split slash path ∧ path_depth pre < 0
  end.
Proof.
  unfold normalize_path at 1. destruct (starts_with path "/") eqn:Hs; [|by left].
  destruct (resolve_segments [] _) as [st|] eqn:Hr.
  - assert (Forall plain_segment (reverse st)) as Hp.
    { apply Forall_reverse. eapply resolve_plain; [done|constructor|].
      apply Forall_forall. intros s. apply str_split_no_sep. }
    assert (split_path (String slash (str_join "/" (reverse st))) = reverse st) as Hsp.
    { apply split_path_join. eapply Forall_impl; [exact Hp|]. by intros s (? & _ & _ & ?). }
    unfold canonical_path. rewrite Hsp. split_and!; try done.
    + rewrite normalize_no_dots, Hsp; [done|by apply starts_with_spec; eexists|].
      unfold no_dots. rewrite Hsp. eapply Forall_impl; [exact Hp|]. by intros s (_ & ? & ? & _).
    + intros pre Hpre. apply Z.nlt_ge. intros Hlt.
      by rewrite (proj2 (resolve_None [] (str_split slash path))) in Hr by eauto.
    + rewrite length_reverse. by apply resolve_depth in Hr.
  - right. by apply resolve_None in Hr.
Qed.

Lemma split_path_trailing s : split_path (s +:+ "/") = split_path s.
Proof.
  change (s +:+ "/") with (s +:+ String slash ""). rewrite split_path_app.
  change (split_path "") with (@nil string). by rewrite app_nil_r.
Qed.

Lemma split_path_leading s : split_path ("/" +:+ s) = split_path s.
Proof.
  change ("/" +:+ s) with ("" +:+ String slash s). rewrite split_path_app. done.
Qed.

Lemma starts_with_app a b p : starts_with a p = true → starts_with (a +:+ b) p = true.
Proof.
  rewrite !starts_with_spec. intros [r ->]. exists (r +:+ b). by rewrite str_app_assoc.
Qed.

(** The replacement with its trailing slash removed. *)
Lemma strip_replacement r :
  starts_with r "/" = true → r ≠ "/" →
  starts_with (default r (strip_suffix "/" r)) "/" = true ∧
  split_path (default r (strip_suffix "/" r)) = split_path r.
Proof.
  intros Hs Hne. destruct (strip_suffix "/" r) as [r'|] eqn:Hr; simpl; [|done].
  apply strip_suffix_Some in Hr as ->. rewrite split_path_trailing. split; [|done].
  apply starts_with_spec in Hs as [x Hx]. apply starts_with_spec.
  destruct r' as [|a r']; [done|]. rewrite !str_app_cons, str_app_nil_l in Hx. simplify_eq. by exists r'.
Qed.

(** [replace_prefix] puts the segments of the replacement before those of the rest. *)
Lemma replace_prefix_segments r rest :
  starts_with r "/" = true → rest = "" ∨ starts_with rest "/" = true →
  starts_with (replace_prefix r rest) "/" = true ∧
  split_path (replace_prefix r rest) = split_path r ++ split_path rest.
Proof.
  intros Hr Hrest.
  assert (split_path (strip_leading_slash rest) = split_path rest) as Hsl.
  { destruct Hrest as [->|[x ->]%starts_with_spec]; [done|]. unfold strip_leading_slash.
    assert (strip_prefix "/" ("/" +:+ x) = Some x) as -> by by apply strip_prefix_Some.
    by rewrite split_path_leading. }
  unfold replace_prefix. destruct (decide (r = "/")) as [->|Hne].
  { simpl (str_is_empty "/" || _). cbv iota. rewrite split_path_leading, Hsl. split; [|done].
    apply starts_with_spec. by eexists. }
  assert (str_is_empty r || bool_decide (r = "/") = false) as ->.
  { rewrite bool_decide_eq_false_2 by done. destruct r; [|done].
    apply starts_with_spec in Hr as [x Hx]. done. }
  destruct (strip_replacement r Hr Hne) as [Hs Hsp].
  destruct (str_is_empty (strip_leading_slash rest)) eqn:He.
  - unfold str_is_empty in He. apply bool_decide_eq_true in He. rewrite He in Hsl.
    rewrite <-Hsl, Hsp. change (split_path "") with (@nil string). by rewrite app_nil_r.
  - split; [by apply starts_with_app|].
    change ("/" +:+ strip_leading_slash rest) with (String slash (strip_leading_slash rest)).
    by rewrite split_path_app, Hsp, Hsl.
Qed.


(** A prefix rewrite is exact on path segments: when a canonical request path is under
    a canonical prefix, the rewritten path is canonical and its segments are those of
    the replacement followed by what comes after the prefix, whatever slashes the
    replacement starts or ends with. *)
Theorem prefix_rewrite_exact `{!RegexEngine} (prefix replacement path : string) :
  canonical_path prefix → canonical_path path → prefix ≠ "/" →
  path_holds (Some (PathPrefix prefix)) path = true →
  starts_with replacement "/" = true → no_dots replacement → no_dots path →
  ∃ q, mutated_path (MutRewritePath (PrefixReplace prefix replacement)) path = Some (Some q) ∧
       canonical_path q ∧
       split_path q = split_path replacement ++ drop (length (split_path prefix)) (split_path path).
Proof.
  intros Hp Hc Hne Hm Hr Hdr Hdp.
  apply path_prefix_segments_aux in Hm; [|done..]. destruct Hm as [?|Hm]; [done|].
  assert (∃ rest, strip_prefix prefix path = Some rest ∧ (rest = "" ∨ starts_with rest "/" = true) ∧
                  split_path path = split_path prefix ++ split_path rest) as (rest & Hst & Hrest & Hsp).
  { destruct Hm as [->|[x ->]].
    - exists "". split_and!; [apply strip_prefix_Some; by rewrite str_app_nil_r|by left|].
      change (split_path "") with (@nil string). by rewrite app_nil_r.
    - exists (String slash x). split_and!; [by apply strip_prefix_Some|right|].
      + apply starts_with_spec. by exists x.
      + by rewrite split_path_app, <-(split_path_leading x). }
  destruct (replace_prefix_segments replacement rest Hr Hrest) as [Hs Hseg].
  assert (no_dots (replace_prefix replacement rest)) as Hd.
  { unfold no_dots in *. rewrite Hseg. rewrite Hsp in Hdp. apply Forall_app in Hdp as [_ Hdp].
    by apply Forall_app. }
  destruct (canonical_rejoin (replace_prefix replacement rest)) as [Hcan Hid].
  exists (String slash (str_join "/" (split_path (replace_prefix replacement rest)))).
  simpl mutated_path. rewrite Hst, normalize_no_dots by done. split_and!; [done..|].
  rewrite Hid, Hseg, Hsp. f_equal. by rewrite drop_app_length.
Qed.

#[local] Instance literal_engine : RegexEngine := λ pattern v, bool_decide (pattern = v).

Lemma prefix_rewrite_exact_witness :
  ∃ q, mutated_path (MutRewritePath (PrefixReplace "/api/v1" "/backend/")) "/api/v1/users/7" = Some (Some q) ∧
       canonical_path q ∧ split_path q = ["backend"; "users"; "7"].
Proof.
  apply (prefix_rewrite_exact "/api/v1" "/backend/" "/api/v1/users/7"); try reflexivity;
    try discriminate; apply (bool_decide_unpack _); vm_compute; exact I.
Defined.

(** The prefix replacement of redirects does not join at the slash the way the rewrite
    does: replacing a prefix by the root gives a path with a doubled slash in the
    redirect and the intended path in the rewrite. *)
Theorem redirect_prefix_doubles_slash :
  redirect_path (Some (PrefixReplace "/old" "/")) "/old/page" = "//page" ∧
  mutated_path (MutRewritePath (PrefixReplace "/old" "/")) "/old/page" = Some (Some "/page").
Proof. vm_compute. done. Qed.

(** ** Properties: weighted backends *)

Lemma total_weight_nonneg ws : Forall (λ w, 0 ≤ w) ws → 0 ≤ total_weight ws.
Proof. unfold total_weight. induction 1; simpl; lia. Qed.

(** The picks of one full turn, in order: each index as often as its weight. *)
Definition turn (i : nat) (ws : list Z) : list nat :=
  concat (imap (λ j w, replicate (Z.to_nat w) (i + j)%nat) ws).

Lemma turn_cons i w ws : turn i (w :: ws) = replicate (Z.to_nat w) i ++ turn (S i) ws.
Proof.
  unfold turn. rewrite imap_cons. simpl. rewrite Nat.add_0_r. do 2 f_equal. apply imap_ext.
  intros j x _. simpl. f_equal. lia.
Qed.

Lemma pick_index_turn ws cursor i :
  Forall (λ w, 0 ≤ w) ws →
  (λ p, pick_index p cursor i ws) <$> seqZ cursor (total_weight ws) = turn i ws.
Proof.
  intros Hw. revert cursor i. induction Hw as [|w ws Hw Hws IH]; intros cursor i; [done|].
  pose proof (total_weight_nonneg ws Hws) as Ht. rewrite turn_cons.
  change (total_weight (w :: ws)) with (w + total_weight ws).
  rewrite seqZ_app, fmap_app by lia. f_equal.
  - apply list_eq_Forall2, Forall2_same_length_lookup_2.
    { by rewrite length_fmap, length_seqZ, length_replicate. }
    intros j x y Hx Hy. apply list_lookup_fmap_Some in Hx as (p & -> & [-> Hj]%lookup_seqZ).
    apply lookup_replicate in Hy as [-> _]. simpl.
    destruct (Z.ltb_spec (cursor + Z.of_nat j) (cursor + w)); [done|lia].
  - rewrite <-(IH (cursor + w) (S i)). apply list_fmap_ext. intros j p [-> Hj]%lookup_seqZ. simpl.
    destruct (Z.ltb_spec (cursor + w + Z.of_nat j) (cursor + w)); [lia|done].
Qed.

(** A window of [t] consecutive counters has every residue once. *)
Lemma seqZ_mod_perm c t : 0 < t → (λ k, k mod t) <$> seqZ c t ≡ₚ seqZ 0 t.
Proof.
  intros Ht. apply NoDup_Permutation.
  - apply NoDup_fmap_2_strong; [|apply NoDup_seqZ].
    intros x y Hx%elem_of_seqZ Hy%elem_of_seqZ Hxy.
    pose proof (Z.div_mod x t ltac:(lia)). pose proof (Z.div_mod y t ltac:(lia)).
    assert (x / t = y / t) by nia. congruence.
  - apply NoDup_seqZ.
  - intros r. rewrite list_elem_of_fmap, elem_of_seqZ. split.
    + intros (k & -> & _). pose proof (Z.mod_pos_bound k t Ht). lia.
    + intros Hr. exists (c + (r - c) mod t). rewrite elem_of_seqZ.
      pose proof (Z.mod_pos_bound (r - c) t Ht). split; [|lia].
      rewrite Zplus_mod_idemp_r. replace (c + (r - c)) with r by lia. rewrite Z.mod_small; lia.
Qed.

(** [n] consecutive picks of one route. *)
Fixpoint pick_run (n : nat) (counter : Z) (backends : list WeightedBackend) : list nat :=
  match n with
  | O => []
  | S n' => let '(i, counter') := pick_weighted_backend_ir_index counter backends in
            option_list i ++ pick_run n' counter' backends
  end.

Lemma pick_run_seqZ n counter backends :
  0 ≤ counter → counter + Z.of_nat n ≤ 2^64 - 1 → 0 < total_weight (wb_weight <$> backends) →
  pick_run n counter backends =
  (λ k, pick_index (k mod total_weight (wb_weight <$> backends)) 0 0 (wb_weight <$> backends))
    <$> seqZ counter (Z.of_nat n).
Proof.
  revert counter. induction n as [|n IH]; intros counter Hc Hn Ht; [done|].
  rewrite seqZ_cons by lia. rewrite fmap_cons.
  destruct backends as [|b bs]; [simpl in Ht; lia|]. cbn [pick_run pick_weighted_backend_ir_index].
  destruct (Z.eqb_spec (total_weight (wb_weight <$> b :: bs)) 0); [lia|].
  cbn [option_list app]. f_equal. rewrite wrap_small by lia. rewrite IH by lia.
  replace (Z.pred (Z.of_nat (S n))) with (Z.of_nat n) by lia.
  by replace (Z.succ counter) with (counter + 1) by lia.
Qed.

Definition count_nat (i : nat) (l : list nat) : nat := length (filter (λ j, j = i) l).

Lemma count_replicate i j n : count_nat i (replicate n j) = if decide (j = i) then n else 0%nat.
Proof.
  unfold count_nat. induction n as [|n IH]; [by case_decide|]. cbn [replicate].
  rewrite filter_cons. case_decide; simpl; by rewrite IH.
Qed.

Lemma count_turn i j ws w :
  ws !! j = Some w → count_nat (i + j) (turn i ws) = Z.to_nat w.
Proof.
  assert (∀ l1 l2 k, count_nat k (l1 ++ l2) = (count_nat k l1 + count_nat k l2)%nat) as Happ.
  { intros l1 l2 k. unfold count_nat. by rewrite filter_app, length_app. }
  assert (∀ ws' i' k, (k < i')%nat → count_nat k (turn i' ws') = 0%nat) as Hlow.
  { induction ws' as [|x ws' IH]; intros i' k Hk; [done|].
    rewrite turn_cons, Happ, count_replicate, decide_False, IH by lia. done. }
  revert i j. induction ws as [|x ws IH]; intros i j; [done|].
  rewrite turn_cons, Happ, count_replicate. destruct j as [|j]; simpl.
  - intros [= ->]. rewrite Nat.add_0_r, decide_True, Hlow by lia. lia.
  - intros Hj. rewrite decide_False by lia.
    replace (i + S j)%nat with (S i + j)%nat by lia. rewrite IH by done. lia.
Qed.

(** Weighted selection is exactly proportional: over any window of as many
    consecutive picks as the total weight, wherever the counter starts (short of its
    64-bit wrap), a route sends each backend exactly as many requests as its weight
    says, none to a backend of weight zero. *)
Theorem weighted_picks_proportional (backends : list WeightedBackend) (counter : Z) (j : nat)
    (b : WeightedBackend) :
  Forall (λ w, 0 ≤ w) (wb_weight <$> backends) →
  0 < total_weight (wb_weight <$> backends) →
  0 ≤ counter → counter + total_weight (wb_weight <$> backends) ≤ 2^64 - 1 →
  backends !! j = Some b →
  count_nat j (pick_run (Z.to_nat (total_weight (wb_weight <$> backends))) counter backends)
  = Z.to_nat (wb_weight b).
Proof.
  intros Hw Ht Hc Hmax Hj. set (ws := wb_weight <$> backends) in *.
  rewrite pick_run_seqZ by (fold ws; lia). fold ws. rewrite Z2Nat.id by lia.
  assert ((λ k, pick_index (k mod total_weight ws) 0 0 ws) <$> seqZ counter (total_weight ws)
          ≡ₚ turn 0 ws) as Hp.
  { rewrite <-(pick_index_turn ws 0 0) by done.
    rewrite <-(seqZ_mod_perm counter (total_weight ws)) by done.
    by rewrite <-list_fmap_compose. }
  unfold count_nat. rewrite Hp. apply (count_turn 0). unfold ws. by rewrite list_lookup_fmap, Hj.
Qed.

Module WeightExamples.
Definition backend (addr : string) (w : Z) : WeightedBackend :=
  {| wb_backend := addr; wb_weight := w; wb_request_filters := []; wb_protocol := BackendHttp;
     wb_tls := None |}.
Definition canary : list WeightedBackend := [backend "stable:80" 3; backend "off:80" 0; backend "canary:80" 1].
Definition even : list WeightedBackend := [backend "a:80" 1; backend "b:80" 1].

(** Two routes that receive requests in turn share the process-wide counter. *)
Fixpoint alternate (n : nat) (counter : Z) (r1 r2 : list WeightedBackend) : list nat * list nat :=
  match n with
  | O => ([], [])
  | S n' =>
      let '(i, c1) := pick_weighted_backend_ir_index counter r1 in
      let '(j, c2) := pick_weighted_backend_ir_index c1 r2 in
      let '(l1, l2) := alternate n' c2 r1 r2 in
      (option_list i ++ l1, option_list j ++ l2)
  end.
End WeightExamples.
Import WeightExamples.

Lemma weighted_picks_proportional_witness :
  count_nat 0 (pick_run 4 41 canary) = 3%nat ∧ count_nat 1 (pick_run 4 41 canary) = 0%nat.
Proof.
  split.
  - apply (weighted_picks_proportional canary 41 0 (backend "stable:80" 3)); try reflexivity; try lia;
      [apply (bool_decide_unpack _); vm_compute; exact I|vm_compute; done].
  - apply (weighted_picks_proportional canary 41 1 (backend "off:80" 0)); try reflexivity; try lia;
      [apply (bool_decide_unpack _); vm_compute; exact I|vm_compute; done].
Defined.

(** The counter is shared by all routes, so proportionality holds for a route only
    while no other route interleaves: two routes split evenly between two backends
    that receive requests in turn send all of theirs to one backend each. *)
Theorem shared_counter_skews_routes :
  alternate 10 0 even even = (replicate 10 0%nat, replicate 10 1%nat).
Proof. vm_compute. done. Qed.

(** ** Properties: CORS *)

Lemma split_once_star_dot_Some s p q : split_once_star_dot s = Some (p, q) → s = p +:+ "*." +:+ q.
Proof.
  revert p. induction s as [|a s IH]; intros p.
  - simpl. done.
  - cbn [split_once_star_dot]. destruct (strip_prefix "*." (String a s)) as [rest|] eqn:Hst.
    + intros [= <- <-]. by apply strip_prefix_Some in Hst.
    + destruct (split_once_star_dot s) as [[p' q']|]; [|done]. intros [= <- <-].
      by rewrite str_app_cons, (IH p').
Qed.

Lemma origin_matches_spec origin allowed :
  origin_matches origin allowed = true ↔
  allowed = "*" ∨ eq_ignore_ascii_case allowed origin = true ∨
  ∃ p q x, split_once_star_dot allowed = Some (p, q) ∧ x ≠ "" ∧ origin = p +:+ x +:+ "." +:+ q.
Proof.
  unfold origin_matches. rewrite !orb_true_iff, bool_decide_eq_true.
  match goal with |- (_ ∨ ?P) ↔ _ ∨ _ ∨ ?Q => enough (P ↔ Q) by tauto end.
  destruct (split_once_star_dot allowed) as [[p q]|]; [|naive_solver].
  destruct (strip_prefix p origin) as [rest|] eqn:Hst.
  - apply strip_prefix_Some in Hst as ->. rewrite wildcard_test_spec. split.
    + intros (x & Hx & ->). by exists p, q, x.
    + intros (p' & q' & x & [= <- <-] & Hx & Heq). apply (inj (String.app p)) in Heq. eauto.
  - split; [done|]. intros (p' & q' & x & [= <- <-] & Hx & ->).
    assert (strip_prefix p (p +:+ x +:+ "." +:+ q) = Some (x +:+ "." +:+ q)) as Hs
      by by apply strip_prefix_Some.
    congruence.
Qed.

(** An origin is allowed exactly when the list is empty and credentials are off, or an
    entry is [*], is the origin up to ASCII case, or is a wildcard [p*.q] and the
    origin is [p], a non-empty label part, a dot and [q]. *)
Theorem cors_allow_origin_iff (origin : string) (allowed : list string) (credentials : bool) :
  cors_allow_origin origin allowed credentials = true ↔
  (allowed = [] ∧ credentials = false) ∨
  ∃ a, a ∈ allowed ∧
    (a = "*" ∨ eq_ignore_ascii_case a origin = true ∨
     ∃ p q x, split_once_star_dot a = Some (p, q) ∧ x ≠ "" ∧ origin = p +:+ x +:+ "." +:+ q).
Proof.
  setoid_rewrite <-origin_matches_spec. unfold cors_allow_origin.
  destruct allowed as [|a l].
  - rewrite negb_true_iff. split; [by left|]. intros [[_ ?]|(a & Ha & _)]; [done|].
    by apply elem_of_nil in Ha.
  - rewrite existsb_exists. setoid_rewrite <-list_elem_of_In. naive_solver.
Qed.

(** ** Properties: redirects *)

Lemma digit_value_char d : 0 ≤ d ≤ 9 → digit_value (digit_char d) = Some d.
Proof.
  intros Hd. assert (d ∈ seqZ 0 10) as Hin by (apply elem_of_seqZ; lia).
  revert d Hd Hin. change (seqZ 0 10) with [0; 1; 2; 3; 4; 5; 6; 7; 8; 9].
  intros d _ Hin. repeat (apply elem_of_cons in Hin as [->|Hin]; [reflexivity|]).
  by apply elem_of_nil in Hin.
Qed.

Lemma parse_show_digits max fuel n s :
  (0 < fuel)%nat → 0 ≤ n ≤ max → n < 10 ^ Z.of_nat fuel →
  parse_digits max 0 (show_digits fuel n s) = parse_digits max n s.
Proof.
  revert n s. induction fuel as [|fuel IH]; intros n s Hf Hn Hlt; [lia|]. cbn [show_digits].
  pose proof (Z.mod_pos_bound n 10 ltac:(lia)). pose proof (Z.div_mod n 10 ltac:(lia)).
  assert (∀ a, a = n / 10 → parse_digits max a (String (digit_char (n mod 10)) s) = parse_digits max n s) as Hstep.
  { intros a ->. cbn [parse_digits]. rewrite digit_value_char by lia.
    replace (n / 10 * 10 + n mod 10) with n by lia. by rewrite (proj2 (Z.leb_le n max)) by lia. }
  destruct (Z.eqb_spec (n / 10) 0) as [Hz|Hz]; [by apply Hstep|].
  assert (n / 10 < 10 ^ Z.of_nat fuel).
  { apply Z.div_lt_upper_bound; [lia|]. rewrite Nat2Z.inj_succ, Z.pow_succ_r in Hlt by lia. lia. }
  destruct fuel as [|fuel]; [simpl in *; lia|]. rewrite IH by lia. by apply Hstep.
Qed.

Lemma show_digits_head fuel n s :
  (0 < fuel)%nat → 0 ≤ n → ∃ d s', show_digits fuel n s = String (digit_char d) s' ∧ 0 ≤ d ≤ 9.
Proof.
  revert n s. induction fuel as [|fuel IH]; intros n s Hf Hn; [lia|]. cbn [show_digits].
  pose proof (Z.mod_pos_bound n 10 ltac:(lia)).
  case_match; [exists (n mod 10), s; split; [done|lia]|].
  destruct fuel as [|fuel]; [exists (n mod 10), s; split; [done|lia]|].
  apply IH; [lia|]. apply Z.div_pos; lia.
Qed.

(** The text of a port reads back as the port. *)
Lemma parse_show_port n : 0 ≤ n ≤ u16_max → parse_uint u16_max (show_port n) = Some n.
Proof.
  intros Hn. unfold parse_uint, show_port.
  destruct (show_digits_head 5 n "") as (d & s' & Hs & Hd); [lia..|].
  assert (strip_prefix "+" (show_digits 5 n "") = None) as ->.
  { rewrite Hs. destruct (strip_prefix "+" (String (digit_char d) s')) as [r|] eqn:Hp; [|done].
    apply strip_prefix_Some in Hp. rewrite str_app_cons in Hp. injection Hp as Hp _.
    pose proof (digit_value_char d Hd) as Hv. by rewrite Hp in Hv. }
  rewrite decide_False by (by rewrite Hs).
  rewrite parse_show_digits; [done|lia|done|]. unfold u16_max in Hn. simpl. lia.
Qed.

(** Ports in redirect locations: an explicit http or https scheme without a port
    never leaks the listener port, whatever it is; otherwise the port shown is the
    effective one, its decimal text reads back as the same number, and it is omitted
    exactly when it is zero or the default of the scheme. *)
Theorem redirect_location_port (rd : RedirectAction) (uri_host : option string)
    (path request_host downstream_scheme : string) (downstream_port : Z) :
  let scheme := default downstream_scheme (rd_scheme rd) in
  let host := match rd_hostname rd with Some h => h | None => default request_host uri_host end in
  let port := redirect_port rd scheme downstream_port in
  0 ≤ downstream_port ≤ u16_max → (∀ p, rd_port rd = Some p → 0 ≤ p ≤ u16_max) →
  (rd_port rd = None → rd_scheme rd = Some "https" ∨ rd_scheme rd = Some "http" →
   build_redirect_location_ir rd uri_host path request_host downstream_scheme downstream_port
   = scheme +:+ "://" +:+ host +:+ redirect_path (rd_path rd) path) ∧
  (port = 0 ∨ scheme = "http" ∧ port = 80 ∨ scheme = "https" ∧ port = 443 →
   build_redirect_location_ir rd uri_host path request_host downstream_scheme downstream_port
   = scheme +:+ "://" +:+ host +:+ redirect_path (rd_path rd) path) ∧
  (¬ (port = 0 ∨ scheme = "http" ∧ port = 80 ∨ scheme = "https" ∧ port = 443) →
   ∃ text, parse_uint u16_max text = Some port ∧
     build_redirect_location_ir rd uri_host path request_host downstream_scheme downstream_port
     = scheme +:+ "://" +:+ host +:+ ":" +:+ text +:+ redirect_path (rd_path rd) path).
Proof.
  intros scheme host port Hdp Hrp. unfold build_redirect_location_ir. fold scheme host port.
  split; [|split].
  - intros Hnone Hs. unfold port, redirect_port, scheme. rewrite Hnone.
    destruct Hs as [-> | ->]; reflexivity.
  - intros Hyes. match goal with |- (if ?c then _ else _) = _ => destruct c eqn:Ho end; [done|].
    apply not_true_iff_false in Ho. destruct Ho.
    rewrite !orb_true_iff, !andb_true_iff, !Z.eqb_eq, !bool_decide_eq_true. tauto.
  - intros Hno. exists (show_port port). split.
    + assert (0 ≤ port ≤ u16_max) as Hport.
      { unfold port, redirect_port. destruct (rd_port rd) as [p|]; [by apply Hrp|]. simpl.
        repeat case_match; unfold u16_max in *; lia. }
      by apply parse_show_port.
    + match goal with |- (if ?c then _ else _) = _ => destruct c eqn:Ho end; [|done].
      exfalso. apply Hno.
      rewrite !orb_true_iff, !andb_true_iff, !Z.eqb_eq, !bool_decide_eq_true in Ho. tauto.
Qed.

Lemma redirect_location_port_witness :
  build_redirect_location_ir
    {| rd_status_code := 301; rd_scheme := Some "https"; rd_hostname := None; rd_port := None;
       rd_path := None |} None "/a" "example.com" "http" 8080 = "https://example.com/a".
Proof.
  refine (proj1 (redirect_location_port {| rd_status_code := 301; rd_scheme := Some "https";
    rd_hostname := None; rd_port := None; rd_path := None |} None "/a" "example.com" "http" 8080 _ _) _ _);
    [unfold u16_max; lia|done|reflexivity|by left].
Defined.
