(* ===== verification/Pipeline.v ===== *)
(** * The header pipeline of the proxy ([src/proxy/filters.rs]).

    [upstream_request_filter_inner], [apply_upstream_request_mutation] and
    [apply_response_mutation]. Header maps and URIs belong to the [http] and
    [pingora] crates; they enter as classes that state what the pipeline relies on,
    and the theorems hold for every implementation of them. *)

From S2P Require Import Prelude Ir Hostname Compile Lookup Filters.

(** ** Interfaces *)

(** A header map with case-insensitive names. [h_insert] and [h_append] fail on an
    invalid name or value; [h_to_str] is [HeaderValue::to_str], which fails on a value
    that is not visible ASCII. *)
Class HeaderOps (H : Type) := {
  h_get_all : H → string → list string;
  h_insert : H → string → string → option H;
  h_append : H → string → string → option H;
  h_remove : H → string → H;
  h_insert_spec h n v h' n' :
    h_insert h n v = Some h' →
    h_get_all h' n' = if eq_ignore_ascii_case n n' then [v] else h_get_all h n';
  h_append_spec h n v h' n' :
    h_append h n v = Some h' →
    h_get_all h' n' = if eq_ignore_ascii_case n n' then h_get_all h n' ++ [v] else h_get_all h n';
  h_remove_spec h n n' :
    h_get_all (h_remove h n) n' = if eq_ignore_ascii_case n n' then [] else h_get_all h n';
  h_empty : H;
  h_empty_spec n : h_get_all h_empty n = [];
  h_to_str : string → option string;
  h_to_str_spec v s : h_to_str v = Some s → s = v;
}.

(** [headers.get(name)]: the first value. *)
Definition h_get {H} `{!HeaderOps H} (h : H) (n : string) : option string := head (h_get_all h n).

(** [headers.get(name).and_then(|v| v.to_str().ok())]. *)
Definition h_str {H} `{!HeaderOps H} (h : H) (n : string) : option string := h_get h n ≫= h_to_str.

(** The URI type of the [http] crate: parsing of a path and query, of an authority, and
    the consistency test of [Uri::from_parts]. *)
Class UriOps := {
  parse_path_and_query : string → option (string * option string);
  authority_valid : string → bool;
  from_parts_ok : option string → option string → bool;
}.

(** ** Requests *)

Record UpstreamRequest (H : Type) := {
  ur_headers : H;
  ur_path : string;
  ur_query : option string;
  ur_scheme : option string;
  ur_authority : option string;
}.
#[global] Arguments ur_headers {H} _.
#[global] Arguments ur_path {H} _.
#[global] Arguments ur_query {H} _.
#[global] Arguments ur_scheme {H} _.
#[global] Arguments ur_authority {H} _.
#[global] Arguments Build_UpstreamRequest {H} _ _ _ _ _.

(** [pingora_core::Error], by the response it leads to. *)
Inductive ProxyError :=
| HTTPStatus (code : Z) (context : string)
| InternalError (context : string).

Section pipeline.
Context {H : Type} `{!HeaderOps H, !UriOps}.

Definition with_headers (r : UpstreamRequest H) (h : H) : UpstreamRequest H :=
  Build_UpstreamRequest h (ur_path r) (ur_query r) (ur_scheme r) (ur_authority r).

Definition insert_header (r : UpstreamRequest H) (n v context : string) :
    result (UpstreamRequest H) ProxyError :=
  match h_insert (ur_headers r) n v with
  | Some h => Ok (with_headers r h)
  | None => Err (InternalError context)
  end.

Definition append_header (r : UpstreamRequest H) (n v context : string) :
    result (UpstreamRequest H) ProxyError :=
  match h_append (ur_headers r) n v with
  | Some h => Ok (with_headers r h)
  | None => Err (InternalError context)
  end.

(** The query part appended to a new path. *)
Definition query_part (q : option string) : string :=
  match q with Some q => "?" +:+ q | None => "" end.

(** The three path mutations share their second half: the new path is normalised, parsed
    with the old query, and put in the URI. *)
Definition set_path (r : UpstreamRequest H) (normalised : option string) (what : string) :
    result (UpstreamRequest H) ProxyError :=
  match normalised with
  | None => Err (HTTPStatus 400 ("invalid path after " +:+ what))
  | Some p =>
      match parse_path_and_query (p +:+ query_part (ur_query r)) with
      | None => Err (InternalError ("invalid uri after " +:+ what))
      | Some (p', q') =>
          if from_parts_ok (ur_scheme r) (ur_authority r)
          then Ok (Build_UpstreamRequest (ur_headers r) p' q' (ur_scheme r) (ur_authority r))
          else Err (InternalError ("invalid uri parts after " +:+ what))
      end
  end.

Definition mutation_name (m : UpstreamRequestMutation) : string :=
  match m with
  | MutStripPrefix _ => "prefix strip"
  | MutPrependPath _ => "prefix prepend"
  | _ => "path rewrite"
  end.

(** [apply_upstream_request_mutation]. *)
Definition apply_upstream_request_mutation (r : UpstreamRequest H) (m : UpstreamRequestMutation) :
    result (UpstreamRequest H) ProxyError :=
  match m with
  | MutSetHeader name value => insert_header r name value "failed to set request header"
  | MutAddHeader name value => append_header r name value "failed to add request header"
  | MutRemoveHeader name => Ok (with_headers r (h_remove (ur_headers r) name))
  | MutStripPrefix _ | MutPrependPath _ | MutRewritePath _ =>
      match mutated_path m (ur_path r) with
      | Some p => set_path r p (mutation_name m)
      | None => Ok r
      end
  | MutRewriteHostname hostname =>
      (let? r := insert_header r "host" hostname "failed to rewrite host header" in
       if authority_valid hostname then
         let scheme := Some (default "http" (ur_scheme r)) in
         if from_parts_ok scheme (Some hostname)
         then Ok (Build_UpstreamRequest (ur_headers r) (ur_path r) (ur_query r) scheme (Some hostname))
         else Err (InternalError "failed to rewrite uri hostname")
       else Err (InternalError "invalid rewrite hostname"))%result
  end.

Fixpoint apply_mutations (r : UpstreamRequest H) (ms : list UpstreamRequestMutation) :
    result (UpstreamRequest H) ProxyError :=
  match ms with
  | [] => Ok r
  | m :: ms' => (let? r' := apply_upstream_request_mutation r m in apply_mutations r' ms')%result
  end.

Fixpoint insert_headers (r : UpstreamRequest H) (hs : list (string * string)) (context : string) :
    result (UpstreamRequest H) ProxyError :=
  match hs with
  | [] => Ok r
  | (n, v) :: hs' => (let? r' := insert_header r n v context in insert_headers r' hs' context)%result
  end.

(** What the filter reads of the session and its context. *)
Record FilterCtx := {
  fc_downstream_scheme : string;
  fc_x_forwarded_for : bool;
  fc_client_ip : option string;
  fc_request_id : string;
  fc_session_headers : H;
  fc_auth_headers : list (string * string);
  fc_plan : option CompiledPlan;
  fc_backend_index : option nat;
}.

(** The WebSocket headers copied from the session. *)
Definition websocket_headers (ctx : FilterCtx) : list (string * string) :=
  match fc_plan ctx with
  | Some p =>
      if websocket p
      then omap (λ n, (λ v, (n, v)) <$> h_get (fc_session_headers ctx) n) ["connection"; "upgrade"]
      else []
  | None => []
  end.

(** The mutations of the route, then those of the selected backend. *)
Definition route_mutations (ctx : FilterCtx) : list UpstreamRequestMutation :=
  match fc_plan ctx with
  | Some p =>
      upstream_request_mutations p ++
      match fc_backend_index ctx, upstream p with
      | Some idx, Some u => default [] (ua_backend_request_mutations u !! idx)
      | _, _ => []
      end
  | None => []
  end.

(** [upstream_request_filter_inner]. *)
Definition upstream_request_filter_inner (ctx : FilterCtx) (r : UpstreamRequest H) :
    result (UpstreamRequest H) ProxyError :=
  (let? r := insert_header r "x-forwarded-proto" (fc_downstream_scheme ctx)
               "failed to insert x-forwarded-proto" in
   let? r := (if fc_x_forwarded_for ctx then
                match fc_client_ip ctx with
                | Some ip => insert_header r "x-forwarded-for" ip "failed to insert x-forwarded-for"
                | None => Ok r
                end
              else Ok r) in
   let? r := insert_header r "x-request-id" (fc_request_id ctx) "failed to insert x-request-id" in
   let? r := insert_headers r (websocket_headers ctx) "websocket header" in
   let? r := insert_headers r (fc_auth_headers ctx) "failed to insert auth header" in
   let? r := apply_mutations r (route_mutations ctx) in
   Ok (with_headers r (h_remove (ur_headers r) "expect")))%result.

(** ** Responses *)

(** [let _ = upstream_response.insert_header(..)]: a failure is ignored. *)
Definition try_insert (h : H) (n v : string) : H := default h (h_insert h n v).
Definition try_append (h : H) (n v : string) : H := default h (h_append h n v).

(** Methods or headers to allow: [*] becomes what was requested when credentials are on. *)
Definition allow_list (entries : list string) (credentials : bool) (requested : option string) : string :=
  if existsb (λ e, bool_decide (e = "*")) entries then
    if credentials then default "*" requested else "*"
  else str_join ", " entries.

(** The CORS branch of [apply_response_mutation]. *)
Definition apply_cors (session : H) (resp : H) (cors : CorsConfig) : H :=
  match h_str session "origin" with
  | Some origin =>
      if cors_allow_origin origin (allow_origins cors) (allow_credentials cors) then
        let resp := try_insert resp "Access-Control-Allow-Origin" origin in
        let resp := try_insert resp "Vary" "Origin" in
        let resp := if allow_credentials cors
                    then try_insert resp "Access-Control-Allow-Credentials" "true" else resp in
        let resp := match allow_methods cors with
                    | [] => resp
                    | ms => try_insert resp "Access-Control-Allow-Methods"
                              (allow_list ms (allow_credentials cors)
                                 (h_str session "access-control-request-method"))
                    end in
        let resp := match allow_headers cors with
                    | [] => resp
                    | hs => try_insert resp "Access-Control-Allow-Headers"
                              (allow_list hs (allow_credentials cors)
                                 (h_str session "access-control-request-headers"))
                    end in
        let resp := match expose_headers cors with
                    | [] => resp
                    | hs => try_insert resp "Access-Control-Expose-Headers" (str_join ", " hs)
                    end in
        match max_age cors with
        | Some age => try_insert resp "Access-Control-Max-Age" (pretty age)
        | None => resp
        end
      else resp
  | None => resp
  end.

(** [apply_response_mutation]. *)
Definition apply_response_mutation (session : H) (resp : H) (m : ResponseMutation) : H :=
  match m with
  | RmSetHeader name value => try_insert resp name value
  | RmAddHeader name value => try_append resp name value
  | RmRemoveHeader name => h_remove resp name
  | RmCors cors => apply_cors session resp cors
  end.

(** ** Lemmas *)

(** Whether a mutation changes the values of a header. *)
Definition touches (n : string) (m : UpstreamRequestMutation) : bool :=
  match m with
  | MutSetHeader name _ | MutAddHeader name _ | MutRemoveHeader name => eq_ignore_ascii_case name n
  | MutRewriteHostname _ => eq_ignore_ascii_case "host" n
  | _ => false
  end.

Lemma insert_header_get r n v c r' n' :
  insert_header r n v c = Ok r' →
  h_get_all (ur_headers r') n' =
    if eq_ignore_ascii_case n n' then [v] else h_get_all (ur_headers r) n'.
Proof.
  unfold insert_header. destruct (h_insert _ n v) as [h|] eqn:Hi; [|done]. intros [= <-]. simpl.
  by apply (h_insert_spec _ _ _ _ _ Hi).
Qed.

Lemma set_path_headers r p w r' : set_path r p w = Ok r' → ur_headers r' = ur_headers r.
Proof. unfold set_path. repeat case_match; intros; by simplify_eq. Qed.

Lemma mutation_frame r m r' n :
  apply_upstream_request_mutation r m = Ok r' → touches n m = false →
  h_get_all (ur_headers r') n = h_get_all (ur_headers r) n.
Proof.
  destruct m as [name v|name v|name|p|p|pr|h]; cbn [apply_upstream_request_mutation touches].
  - intros Hi Ht. by rewrite (insert_header_get _ _ _ _ _ _ Hi), Ht.
  - unfold append_header. destruct (h_append _ name v) as [h|] eqn:Ha; [|done]. intros [= <-] Ht. simpl.
    by rewrite (h_append_spec _ _ _ _ _ Ha), Ht.
  - intros [= <-] Ht. simpl. by rewrite h_remove_spec, Ht.
  - case_match; [|by intros [= <-]]. by intros ->%set_path_headers.
  - case_match; [|by intros [= <-]]. by intros ->%set_path_headers.
  - case_match; [|by intros [= <-]]. by intros ->%set_path_headers.
  - intros (r1 & Hi & Hr)%result_bind_ok Ht. repeat case_match; try done. simplify_eq. simpl.
    by rewrite (insert_header_get _ _ _ _ _ _ Hi), Ht.
Qed.

Lemma mutations_frame r ms r' n :
  apply_mutations r ms = Ok r' → forallb (λ m, negb (touches n m)) ms = true →
  h_get_all (ur_headers r') n = h_get_all (ur_headers r) n.
Proof.
  revert r. induction ms as [|m ms IH]; intros r; simpl; [by intros [= <-]|].
  intros (r1 & Hm & Hr)%result_bind_ok [Ht Hts]%andb_true_iff. rewrite (IH _ Hr Hts).
  eapply mutation_frame; [done|]. by destruct (touches n m).
Qed.

Lemma insert_headers_frame r hs c r' n :
  insert_headers r hs c = Ok r' → forallb (λ h, negb (eq_ignore_ascii_case h.1 n)) hs = true →
  h_get_all (ur_headers r') n = h_get_all (ur_headers r) n.
Proof.
  revert r. induction hs as [|[m v] hs IH]; intros r; simpl; [by intros [= <-]|].
  intros (r1 & Hi & Hr)%result_bind_ok [Ht Hts]%andb_true_iff. rewrite (IH _ Hr Hts).
  rewrite (insert_header_get _ _ _ _ _ _ Hi). by destruct (eq_ignore_ascii_case m n).
Qed.

Lemma apply_mutations_app r ms1 ms2 r' :
  apply_mutations r (ms1 ++ ms2) = Ok r' →
  ∃ r1, apply_mutations r ms1 = Ok r1 ∧ apply_mutations r1 ms2 = Ok r'.
Proof.
  revert r. induction ms1 as [|m ms1 IH]; intros r; simpl; [eauto|].
  intros (r1 & -> & (r2 & ? & ?)%IH)%result_bind_ok. simpl. eauto.
Qed.

(** The steps of the filter up to the mutations. *)
Definition filter_prefix (ctx : FilterCtx) (r : UpstreamRequest H) : result (UpstreamRequest H) ProxyError :=
  (let? r := insert_header r "x-forwarded-proto" (fc_downstream_scheme ctx)
               "failed to insert x-forwarded-proto" in
   let? r := (if fc_x_forwarded_for ctx then
                match fc_client_ip ctx with
                | Some ip => insert_header r "x-forwarded-for" ip "failed to insert x-forwarded-for"
                | None => Ok r
                end
              else Ok r) in
   insert_header r "x-request-id" (fc_request_id ctx) "failed to insert x-request-id")%result.

Lemma filter_steps ctx r r' :
  upstream_request_filter_inner ctx r = Ok r' →
  ∃ r1 r2 r3 r4, filter_prefix ctx r = Ok r1 ∧
    insert_headers r1 (websocket_headers ctx) "websocket header" = Ok r2 ∧
    insert_headers r2 (fc_auth_headers ctx) "failed to insert auth header" = Ok r3 ∧
    apply_mutations r3 (route_mutations ctx) = Ok r4 ∧
    r' = with_headers r4 (h_remove (ur_headers r4) "expect").
Proof.
  unfold upstream_request_filter_inner, filter_prefix.
  intros (a & -> & (b & Hb & (c & Hc & (d & Hd & (e & He & (f & Hf & ?)%result_bind_ok)
    %result_bind_ok)%result_bind_ok)%result_bind_ok)%result_bind_ok)%result_bind_ok.
  simplify_eq. simpl. rewrite Hb. simpl. eauto 10.
Qed.

Lemma websocket_header_names ctx n :
  eq_ignore_ascii_case "connection" n = false → eq_ignore_ascii_case "upgrade" n = false →
  forallb (λ h, negb (eq_ignore_ascii_case h.1 n)) (websocket_headers ctx) = true.
Proof.
  intros Hc Hu. apply forallb_forall. intros [m v] Hin%list_elem_of_In. simpl.
  unfold websocket_headers in Hin. repeat case_match; try by apply elem_of_nil in Hin.
  apply list_elem_of_omap in Hin as (k & Hk & Hv).
  destruct (h_get (fc_session_headers ctx) k); simplify_eq/=.
  apply elem_of_cons in Hk as [->|Hk]; [by rewrite Hc|].
  apply list_elem_of_singleton in Hk as ->. by rewrite Hu.
Qed.

(** Nothing after the first three steps changes a header no one else writes. *)
Lemma filter_header ctx r r' n :
  upstream_request_filter_inner ctx r = Ok r' →
  eq_ignore_ascii_case "connection" n = false → eq_ignore_ascii_case "upgrade" n = false →
  eq_ignore_ascii_case "expect" n = false →
  forallb (λ h, negb (eq_ignore_ascii_case h.1 n)) (fc_auth_headers ctx) = true →
  forallb (λ m, negb (touches n m)) (route_mutations ctx) = true →
  ∃ r1, filter_prefix ctx r = Ok r1 ∧ h_get_all (ur_headers r') n = h_get_all (ur_headers r1) n.
Proof.
  intros (r1 & r2 & r3 & r4 & H1 & H2 & H3 & H4 & ->)%filter_steps Hc Hu He Ha Hm.
  exists r1. split; [done|]. simpl. rewrite h_remove_spec, He.
  rewrite (mutations_frame _ _ _ _ H4 Hm), (insert_headers_frame _ _ _ _ _ H3 Ha).
  eapply insert_headers_frame; [done|]. by apply websocket_header_names.
Qed.
End pipeline.

(** ** An implementation of the interface: an association list *)

Section list_headers.
Abbreviation headers := (list (string * string)).

Definition lh_get_all (h : headers) (n : string) : list string :=
  snd <$> filter (λ kv, eq_ignore_ascii_case kv.1 n = true) h.
Definition lh_remove (h : headers) (n : string) : headers :=
  filter (λ kv, eq_ignore_ascii_case kv.1 n = false) h.
Definition lh_append (h : headers) (n v : string) : option headers := Some (h ++ [(n, v)]).
Definition lh_insert (h : headers) (n v : string) : option headers := lh_append (lh_remove h n) n v.

Definition visible_ascii (a : ascii) : bool :=
  let n := Ascii.N_of_ascii a in ((32 <=? n)%N && (n <? 127)%N) || (n =? 9)%N.

Lemma eq_ignore_ascii_case_iff a b : eq_ignore_ascii_case a b = true ↔ str_lower a = str_lower b.
Proof. unfold eq_ignore_ascii_case. apply bool_decide_eq_true. Qed.

Lemma lh_remove_spec h n n' :
  lh_get_all (lh_remove h n) n' = if eq_ignore_ascii_case n n' then [] else lh_get_all h n'.
Proof.
  unfold lh_get_all, lh_remove. rewrite list_filter_filter.
  destruct (eq_ignore_ascii_case n n') eqn:Hnn.
  - destruct (filter _ h) as [|[k v] l] eqn:Hf; [done|]. exfalso.
    assert ((k, v) ∈ (k, v) :: l) as Hin by left. rewrite <-Hf in Hin.
    apply list_elem_of_filter in Hin as [[H1 H2] _]. simpl in *.
    assert (eq_ignore_ascii_case k n = true) as Hkn; [|congruence].
    rewrite eq_ignore_ascii_case_iff in *. congruence.
  - f_equal. apply list_filter_iff. intros [k v]. simpl. split; [by intros [? ?]|].
    intros Hk. split; [done|]. apply not_true_is_false. intros Hkn.
    assert (eq_ignore_ascii_case n n' = true) as Hx; [|congruence].
    rewrite eq_ignore_ascii_case_iff in *. congruence.
Qed.

Lemma lh_append_get h n v n' :
  lh_get_all (h ++ [(n, v)]) n' =
  if eq_ignore_ascii_case n n' then lh_get_all h n' ++ [v] else lh_get_all h n'.
Proof.
  unfold lh_get_all. rewrite filter_app, fmap_app, filter_cons, filter_nil. simpl.
  destruct (eq_ignore_ascii_case n n'); [by rewrite decide_True|].
  rewrite decide_False by done. by rewrite app_nil_r.
Qed.

#[export] Program Instance list_headers : HeaderOps headers := {|
  h_get_all := lh_get_all; h_insert := lh_insert; h_append := lh_append; h_remove := lh_remove;
  h_empty := [];
  h_to_str v := if forallb visible_ascii (String.list_ascii_of_string v) then Some v else None;
|}.
Next Obligation.
  intros h n v h' n' [= <-]. rewrite lh_append_get, lh_remove_spec. by destruct (eq_ignore_ascii_case n n').
Qed.
Next Obligation. intros h n v h' n' [= <-]. apply lh_append_get. Qed.
Next Obligation. apply lh_remove_spec. Qed.
Next Obligation. done. Qed.
Next Obligation. intros v s. simpl. case_match; congruence. Qed.
End list_headers.

(** ** Properties *)

Section pipeline_properties.
Context {H : Type} `{!HeaderOps H, !UriOps}.

(** C23. The forwarding headers a backend sees are the proxy's: whatever values the client
    sent for them (in any number and case), after the filter [x-forwarded-proto] and
    [x-request-id] have exactly one value, the downstream scheme and the request id,
    and so has [x-forwarded-for] when it is enabled and the client address is known,
    unless a header of the auth subrequest or a mutation of the route writes them. *)
Theorem forwarded_headers_not_spoofable (ctx : FilterCtx (H := H)) (r r' : UpstreamRequest H) :
  upstream_request_filter_inner ctx r = Ok r' →
  (∀ n, n ∈ ["x-forwarded-proto"; "x-forwarded-for"; "x-request-id"] →
     forallb (λ h, negb (eq_ignore_ascii_case h.1 n)) (fc_auth_headers ctx) = true ∧
     forallb (λ m, negb (touches n m)) (route_mutations ctx) = true) →
  h_get_all (ur_headers r') "x-forwarded-proto" = [fc_downstream_scheme ctx] ∧
  h_get_all (ur_headers r') "x-request-id" = [fc_request_id ctx] ∧
  (∀ ip, fc_x_forwarded_for ctx = true → fc_client_ip ctx = Some ip →
     h_get_all (ur_headers r') "x-forwarded-for" = [ip]).
Proof.
  intros Hf Hn.
  assert (∃ r1, filter_prefix ctx r = Ok r1 ∧
    ∀ n, n ∈ ["x-forwarded-proto"; "x-forwarded-for"; "x-request-id"] →
      h_get_all (ur_headers r') n = h_get_all (ur_headers r1) n) as (r1 & H1 & Heq).
  { pose proof Hf as (r1 & _ & _ & _ & H1 & _)%filter_steps. exists r1. split; [done|].
    intros n Hin. destruct (Hn n Hin) as [Ha Hm].
    destruct (filter_header ctx r r' n Hf) as (r2 & H2 & ->); [..|congruence]; [| | |done..];
      repeat (apply elem_of_cons in Hin as [->|Hin]; [reflexivity|]); by apply elem_of_nil in Hin. }
  rewrite !Heq by set_solver.
  unfold filter_prefix in H1. apply result_bind_ok in H1 as (a & Ha & H1).
  apply result_bind_ok in H1 as (b & Hb & H1).
  assert (h_get_all (ur_headers b) "x-forwarded-proto" = [fc_downstream_scheme ctx]) as Hp.
  { pose proof (insert_header_get _ _ _ _ _ "x-forwarded-proto" Ha) as Hpa. simpl in Hpa.
    destruct (fc_x_forwarded_for ctx); [|by simplify_eq].
    destruct (fc_client_ip ctx); [|by simplify_eq].
    by rewrite (insert_header_get _ _ _ _ _ _ Hb). }
  split_and!; rewrite ?(insert_header_get _ _ _ _ _ _ H1); simpl; [done..|].
  intros ip Hx Hip. rewrite Hx, Hip in Hb.
  by rewrite (insert_header_get _ _ _ _ _ _ Hb).
Qed.

(** No request reaches a backend with an [Expect] header, whatever the client sent,
    the auth subrequest returned or the mutations added. *)
Theorem expect_never_forwarded (ctx : FilterCtx (H := H)) (r r' : UpstreamRequest H) (n : string) :
  upstream_request_filter_inner ctx r = Ok r' → eq_ignore_ascii_case "expect" n = true →
  h_get_all (ur_headers r') n = [].
Proof.
  intros (r1 & r2 & r3 & r4 & _ & _ & _ & _ & ->)%filter_steps Hn. simpl. by rewrite h_remove_spec, Hn.
Qed.

(** Mutations apply in compiler order and the last writer wins: a header set by a
    mutation and not touched afterwards arrives with exactly that value, so a backend
    mutation overrides the route's, and the route's overrides the client. *)
Theorem last_mutation_wins (ctx : FilterCtx (H := H)) (r r' : UpstreamRequest H)
    (before after : list UpstreamRequestMutation) (n v : string) :
  upstream_request_filter_inner ctx r = Ok r' →
  route_mutations ctx = before ++ MutSetHeader n v :: after →
  forallb (λ m, negb (touches n m)) after = true →
  eq_ignore_ascii_case "expect" n = false →
  h_get_all (ur_headers r') n = [v].
Proof.
  intros (r1 & r2 & r3 & r4 & _ & _ & _ & Hm & ->)%filter_steps Hroute Ha He. simpl.
  rewrite h_remove_spec, He. rewrite Hroute in Hm.
  apply apply_mutations_app in Hm as (r5 & _ & (r6 & Hi & Hr)%result_bind_ok).
  rewrite (mutations_frame _ _ _ _ Hr Ha). simpl in Hi.
  by rewrite (insert_header_get _ _ _ _ _ _ Hi), eq_ignore_ascii_case_refl.
Qed.

Lemma try_insert_get h n v n' :
  eq_ignore_ascii_case n n' = false → h_get_all (try_insert h n v) n' = h_get_all h n'.
Proof.
  intros Hn. unfold try_insert. destruct (h_insert h n v) as [h'|] eqn:Hi; simpl; [|done].
  by rewrite (h_insert_spec _ _ _ _ _ Hi), Hn.
Qed.

(** CORS never grants an origin that is not allowed: the mutation leaves the response
    as it is when the request has no [Origin] or the origin is refused, and otherwise
    the only value it can give to [Access-Control-Allow-Origin] is that origin. *)
Theorem cors_grants_only_allowed (session resp : H) (cors : CorsConfig) :
  match h_str session "origin" with
  | Some origin =>
      if cors_allow_origin origin (allow_origins cors) (allow_credentials cors)
      then h_get_all (apply_cors session resp cors) "Access-Control-Allow-Origin"
           ∈ [[origin]; h_get_all resp "Access-Control-Allow-Origin"]
      else apply_cors session resp cors = resp
  | None => apply_cors session resp cors = resp
  end.
Proof.
  unfold apply_cors. destruct (h_str session "origin") as [origin|]; [|done].
  destruct (cors_allow_origin origin _ _); [|done]. cbv zeta.
  assert (h_get_all (try_insert resp "Access-Control-Allow-Origin" origin) "Access-Control-Allow-Origin"
    ∈ [[origin]; h_get_all resp "Access-Control-Allow-Origin"]) as Hacao.
  { unfold try_insert. destruct (h_insert resp _ origin) as [h|] eqn:Hi; simpl; [|set_solver].
    rewrite (h_insert_spec _ _ _ _ _ Hi). set_solver. }
  destruct (allow_credentials cors), (allow_methods cors), (allow_headers cors), (expose_headers cors),
    (max_age cors); rewrite ?try_insert_get by reflexivity; done.
Qed.
End pipeline_properties.

(** ** Witnesses *)

(** A URI implementation that accepts everything and splits at the question mark. *)
#[local] Instance simple_uri : UriOps := {|
  parse_path_and_query s := match split_once "?" s with
                            | Some (p, q) => Some (p, Some q)
                            | None => Some (s, None)
                            end;
  authority_valid _ := true;
  from_parts_ok _ _ := true;
|}.

Module PipelineExamples.
Definition plan_with (ms : list UpstreamRequestMutation) : CompiledPlan :=
  {| precedence := 0; plan_rule_order := 0; plan_gateway_api := true;
     plan_disable_secure_redirection := false; plan_listener_hostname := None;
     plan_match := RequestMatch_default; request_stages := []; upstream := None;
     upstream_request_mutations := ms; response_mutations := []; body_rewrites := [];
     plan_cache := None; websocket := false; plan_client_cert_id := None |}.

Definition mutations : list UpstreamRequestMutation :=
  [MutAddHeader "X-Team" "client"; MutSetHeader "x-team" "edge"; MutStripPrefix "/api";
   MutAddHeader "Expect" "100-continue"].

Definition ctx : FilterCtx (H := list (string * string)) :=
  {| fc_downstream_scheme := "https"; fc_x_forwarded_for := true; fc_client_ip := Some "203.0.113.9";
     fc_request_id := "req-1"; fc_session_headers := []; fc_auth_headers := [];
     fc_plan := Some (plan_with mutations); fc_backend_index := None |}.

Definition spoofed : UpstreamRequest (list (string * string)) :=
  Build_UpstreamRequest [("X-Forwarded-For", "10.0.0.1"); ("x-forwarded-for", "10.0.0.2");
                         ("X-Forwarded-Proto", "http"); ("expect", "100-continue")]
    "/api/users" (Some "q=1") None None.

Definition filtered : UpstreamRequest (list (string * string)) :=
  match upstream_request_filter_inner ctx spoofed with Ok r => r | Err _ => spoofed end.
End PipelineExamples.
Import PipelineExamples.

Lemma filtered_ok : upstream_request_filter_inner ctx spoofed = Ok filtered.
Proof. vm_compute. reflexivity. Qed.

Lemma forwarded_headers_not_spoofable_witness :
  ur_path filtered = "/users" ∧ h_get_all (ur_headers filtered) "x-forwarded-for" = ["203.0.113.9"].
Proof.
  split; [vm_compute; reflexivity|].
  refine (proj2 (proj2 (forwarded_headers_not_spoofable ctx spoofed filtered filtered_ok _)) _ eq_refl eq_refl).
  intros n Hin. repeat (apply elem_of_cons in Hin as [->|Hin]; [split; vm_compute; reflexivity|]).
  by apply elem_of_nil in Hin.
Defined.

Lemma expect_never_forwarded_witness : h_get_all (ur_headers filtered) "Expect" = [].
Proof. apply (expect_never_forwarded ctx spoofed filtered "Expect" filtered_ok). reflexivity. Defined.

Lemma last_mutation_wins_witness : h_get_all (ur_headers filtered) "x-team" = ["edge"].
Proof.
  apply (last_mutation_wins ctx spoofed filtered [MutAddHeader "X-Team" "client"]
           [MutStripPrefix "/api"; MutAddHeader "Expect" "100-continue"] "x-team" "edge" filtered_ok);
    reflexivity.
Defined.

Lemma cors_grants_only_allowed_witness :
  let cors := {| allow_origins := ["https://a.example"]; allow_methods := []; allow_headers := [];
                 expose_headers := []; max_age := None; allow_credentials := true |} in
  apply_cors (H := list (string * string)) [("Origin", "https://evil.example")] [] cors = [].
Proof.
  intros cors.
  exact (cors_grants_only_allowed [("Origin", "https://evil.example")] [] cors).
Defined.
