(* ===== verification/BodyFilter.v ===== *)
(** * The response side of the proxy ([src/proxy/filters.rs]).

    [upstream_response_filter_inner] prepares the response headers and decides whether the
    body is rewritten; [response_body_filter_inner] buffers the chunks of a body and
    replaces text in it. A body is a byte string. [String::from_utf8_lossy] and
    [str::replace] of the standard library are defined here. *)

From S2P Require Import Prelude Ir Hostname Compile Lookup Filters Pipeline.

(** ** [String::from_utf8_lossy] *)

Definition byte_in (lo hi : N) (a : ascii) : bool :=
  let n := Ascii.N_of_ascii a in ((lo <=? n) && (n <=? hi))%N.

(** A continuation byte, [b & 192 == 128]. *)
Definition is_cont (a : ascii) : bool := byte_in 128 191 a.

(** U+FFFD in UTF-8. *)
Definition replacement_char : string :=
  String (Ascii.ascii_of_N 239) (String (Ascii.ascii_of_N 191) (String (Ascii.ascii_of_N 189) "")).

(** The second bytes allowed after a lead byte of three and of four bytes. *)
Definition second_of_three (b c : ascii) : bool :=
  (byte_in 224 224 b && byte_in 160 191 c) || (byte_in 225 236 b && is_cont c) ||
  (byte_in 237 237 b && byte_in 128 159 c) || (byte_in 238 239 b && is_cont c).

Definition second_of_four (b c : ascii) : bool :=
  (byte_in 240 240 b && byte_in 144 191 c) || (byte_in 241 243 b && is_cont c) ||
  (byte_in 244 244 b && byte_in 128 143 c).

(** Each maximal part that cannot be the start of a character becomes one U+FFFD. *)
Fixpoint from_utf8_lossy (s : string) : string :=
  match s with
  | EmptyString => ""
  | String b s1 =>
      if byte_in 0 127 b then String b (from_utf8_lossy s1)
      else if byte_in 194 223 b then
        match s1 with
        | String c s2 => if is_cont c then String b (String c (from_utf8_lossy s2))
                         else replacement_char +:+ from_utf8_lossy s1
        | EmptyString => replacement_char
        end
      else if byte_in 224 239 b then
        match s1 with
        | String c s2 =>
            if second_of_three b c then
              match s2 with
              | String d s3 => if is_cont d then String b (String c (String d (from_utf8_lossy s3)))
                               else replacement_char +:+ from_utf8_lossy s2
              | EmptyString => replacement_char
              end
            else replacement_char +:+ from_utf8_lossy s1
        | EmptyString => replacement_char
        end
      else if byte_in 240 244 b then
        match s1 with
        | String c s2 =>
            if second_of_four b c then
              match s2 with
              | String d s3 =>
                  if is_cont d then
                    match s3 with
                    | String e s4 =>
                        if is_cont e then String b (String c (String d (String e (from_utf8_lossy s4))))
                        else replacement_char +:+ from_utf8_lossy s3
                    | EmptyString => replacement_char
                    end
                  else replacement_char +:+ from_utf8_lossy s2
              | EmptyString => replacement_char
              end
            else replacement_char +:+ from_utf8_lossy s1
        | EmptyString => replacement_char
        end
      else replacement_char +:+ from_utf8_lossy s1
  end.

(** ** [str::replace] *)

(** Matches do not overlap and are found from the left; [skip] bytes belong to the last
    match. *)
Fixpoint replace_from (find rep : string) (skip : nat) (s : string) : string :=
  match s with
  | EmptyString => ""
  | String a s' =>
      match skip with
      | S k => replace_from find rep k s'
      | O => if starts_with s find
             then rep +:+ replace_from find rep (String.length find - 1) s'
             else String a (replace_from find rep 0 s')
      end
  end.

(** The empty pattern matches at every character boundary. *)
Fixpoint replace_empty (rep : string) (s : string) : string :=
  match s with
  | EmptyString => rep
  | String a s' => (if is_cont a then "" else rep) +:+ String a (replace_empty rep s')
  end.

Definition str_replace (find rep s : string) : string :=
  if decide (find = "") then replace_empty rep s else replace_from find rep 0 s.

(** ** [upstream_response_filter_inner] *)

Definition MAX_BODY_REWRITE_BYTES : Z := 10 * 1024 * 1024.

Section response_filter.
Context {H : Type} `{!HeaderOps H}.

Definition should_rewrite (content_type : string) : bool :=
  starts_with content_type "text/html" || starts_with content_type "application/javascript" ||
  starts_with content_type "text/javascript".

(** The response headers and the body buffer after the filter. [buffer] is
    [ctx.body_buffer] before it. *)
Definition upstream_response_filter_inner (request_id : string) (session : H)
    (plan : option CompiledPlan) (resp : H) (buffer : option string) : H * option string :=
  let resp := try_insert resp "x-request-id" request_id in
  match plan with
  | None => (resp, buffer)
  | Some p =>
      let resp := foldl (apply_response_mutation session) resp (response_mutations p) in
      match body_rewrites p with
      | [] => (resp, buffer)
      | _ => if should_rewrite (default "" (h_str resp "content-type"))
             then (h_remove resp "content-length", Some "")
             else (resp, buffer)
      end
  end.

(** ** [response_body_filter_inner] *)

(** Whether a rewrite applies to a response; [written] is [session.response_written()]. *)
Definition rewrite_applies (written : option H) (br : BodyRewrite) : bool :=
  let ct := default "" (h ← written; h_str h "content-type") in
  match br_types br with [] => true | ts => existsb (starts_with ct) ts end.

Definition rewrite_body (written : option H) (plan : option CompiledPlan) (buffer : string) : string :=
  foldl (λ body br, if rewrite_applies written br then str_replace (br_find br) (br_replace br) body
                    else body)
    (from_utf8_lossy buffer) (default [] (body_rewrites <$> plan)).

(** [None] is the buffer when no rewriting goes on. The result is the new buffer and the
    body passed on. *)
Definition response_body_filter_inner (written : option H) (plan : option CompiledPlan)
    (buffer : option string) (body : option string) (end_of_stream : bool) :
    option string * option string :=
  match buffer with
  | None => (None, body)
  | Some buf =>
      let appended :=
        match body with
        | Some data =>
            if MAX_BODY_REWRITE_BYTES <? saturating_add_u64 (str_len buf) (str_len data) then None
            else Some (buf +:+ data)
        | None => Some buf
        end in
      match appended with
      | None => (None, body)
      | Some buf =>
          if end_of_stream then (None, Some (rewrite_body written plan buf)) else (Some buf, None)
      end
  end.

(** The filter over the chunks of a response, the last one with [end_of_stream]. *)
Fixpoint filter_body (written : option H) (plan : option CompiledPlan) (buffer : option string)
    (chunks : list (option string)) : list (option string) :=
  match chunks with
  | [] => []
  | c :: rest =>
      let '(buffer, out) :=
        response_body_filter_inner written plan buffer c (bool_decide (rest = [])) in
      out :: filter_body written plan buffer rest
  end.
End response_filter.

(** What a client receives, or an upstream sends, as a sequence of chunks. *)
Definition bytes_of (chunks : list (option string)) : string :=
  foldr (λ c rest, default "" c +:+ rest) "" chunks.

(** ** Lemmas *)

Lemma str_len_app s t : str_len (s +:+ t) = str_len s + str_len t.
Proof. unfold str_len. rewrite str_length_app. lia. Qed.

Lemma str_len_nonneg s : 0 ≤ str_len s.
Proof. unfold str_len. lia. Qed.

(** ASCII bodies are left alone by the conversion. *)
Lemma from_utf8_lossy_ascii s :
  forallb (byte_in 0 127) (String.list_ascii_of_string s) = true → from_utf8_lossy s = s.
Proof.
  induction s as [|b s IH]; [done|]. cbn [String.list_ascii_of_string forallb].
  intros [Hb Hs]%andb_true_iff. cbn [from_utf8_lossy]. rewrite Hb. by rewrite IH.
Qed.

(** [find] does not start inside [pre] of [pre ++ rest]. *)
Fixpoint no_match_in (find pre rest : string) : Prop :=
  match pre with
  | EmptyString => True
  | String a pre' => starts_with (pre +:+ rest) find = false ∧ no_match_in find pre' rest
  end.

Lemma replace_from_skip find rep k s t :
  String.length s = k → replace_from find rep k (s +:+ t) = replace_from find rep 0 t.
Proof.
  revert k. induction s as [|a s IH]; intros [|k] Hk; try done. simpl in Hk. rewrite str_app_cons.
  cbn [replace_from]. apply IH. lia.
Qed.

Lemma replace_from_pre find rep pre rest :
  no_match_in find pre rest →
  replace_from find rep 0 (pre +:+ rest) = pre +:+ replace_from find rep 0 rest.
Proof.
  induction pre as [|a pre IH]; [done|]. cbn [no_match_in]. intros [Ha Hp]. rewrite !str_app_cons.
  cbn [replace_from]. rewrite str_app_cons in Ha. by rewrite Ha, IH.
Qed.

Lemma replace_from_match find rep rest :
  find ≠ "" → replace_from find rep 0 (find +:+ rest) = rep +:+ replace_from find rep 0 rest.
Proof.
  destruct find as [|a find]; [done|]. intros _. rewrite str_app_cons.
  cbn [replace_from]. assert (starts_with (String a (find +:+ rest)) (String a find) = true) as ->.
  { apply starts_with_spec. by exists rest. }
  f_equal. apply replace_from_skip. cbn [String.length]. by rewrite Nat.sub_succ, Nat.sub_0_r.
Qed.

Section body_lemmas.
Context {H : Type} `{!HeaderOps H}.
Context (written : option H) (plan : option CompiledPlan).

(** Appending a chunk that fits. *)
Lemma body_step_fits buf c e :
  str_len buf + str_len (default "" c) ≤ MAX_BODY_REWRITE_BYTES →
  response_body_filter_inner written plan (Some buf) c e =
    if e then (None, Some (rewrite_body written plan (buf +:+ default "" c)))
    else (Some (buf +:+ default "" c), None).
Proof.
  intros Hl. unfold response_body_filter_inner. destruct c as [data|]; cbn [from_option id] in *.
  - destruct (MAX_BODY_REWRITE_BYTES <? _) eqn:Hm; [|done]. apply Z.ltb_lt in Hm.
    unfold saturating_add_u64 in Hm. lia.
  - by rewrite str_app_nil_r.
Qed.

Lemma filter_body_none chunks : filter_body written plan None chunks = chunks.
Proof. induction chunks as [|c rest IH]; [done|]. cbn. by rewrite IH. Qed.

Lemma filter_body_fits buf chunks :
  chunks ≠ [] → str_len buf + str_len (bytes_of chunks) ≤ MAX_BODY_REWRITE_BYTES →
  filter_body written plan (Some buf) chunks =
    replicate (length chunks - 1) None ++ [Some (rewrite_body written plan (buf +:+ bytes_of chunks))].
Proof.
  revert buf. induction chunks as [|c rest IH]; [done|]. intros buf _ Hl.
  cbn [bytes_of foldr] in Hl. fold (bytes_of rest) in Hl. rewrite str_len_app in Hl.
  pose proof (str_len_nonneg (bytes_of rest)). cbn [filter_body].
  rewrite body_step_fits by lia. destruct rest as [|c' rest].
  - rewrite bool_decide_eq_true_2 by done. cbn. by rewrite !str_app_nil_r.
  - rewrite bool_decide_eq_false_2 by done. rewrite IH by (rewrite ?str_len_app; done || lia).
    cbn [length Nat.sub bytes_of foldr replicate app]. rewrite Nat.sub_0_r. by rewrite !str_app_assoc.
Qed.

Lemma filter_body_overflow buf pre c post :
  str_len buf + str_len (bytes_of pre) ≤ MAX_BODY_REWRITE_BYTES →
  MAX_BODY_REWRITE_BYTES < str_len buf + str_len (bytes_of pre) + str_len c →
  str_len buf + str_len (bytes_of pre) + str_len c ≤ u64_max →
  filter_body written plan (Some buf) (pre ++ Some c :: post) =
    replicate (length pre) None ++ Some c :: post.
Proof.
  revert buf. induction pre as [|p pre IH]; intros buf H1 H2 H3.
  - cbn [app filter_body bytes_of foldr] in *. unfold response_body_filter_inner at 1.
    destruct (MAX_BODY_REWRITE_BYTES <? _) eqn:Hm; [by rewrite filter_body_none|].
    apply Z.ltb_ge in Hm. unfold saturating_add_u64, str_len in *. simpl in *. lia.
  - cbn [bytes_of foldr] in *. fold (bytes_of pre) in *. rewrite str_len_app in *.
    pose proof (str_len_nonneg (bytes_of pre)). cbn [app filter_body]. rewrite body_step_fits by lia.
    rewrite bool_decide_eq_false_2 by (by destruct pre).
    cbn [length replicate app]. rewrite IH by (rewrite str_len_app; lia). done.
Qed.
End body_lemmas.

(** ** Properties *)

Section body_properties.
Context {H : Type} `{!HeaderOps H}.

(** C30. Rewriting a body does not depend on how it was cut into chunks: when the response
    filter turns rewriting on, [Content-Length] is gone from the response, and for every
    body of at most ten mebibytes, in whatever chunks it arrives, the client receives
    nothing until the end and then the rewritten whole. *)
Theorem body_rewrite_chunking (request_id : string) (session resp resp' : H) (p : CompiledPlan)
    (buffer : string) (written : option H) (chunks : list (option string)) :
  upstream_response_filter_inner request_id session (Some p) resp None = (resp', Some buffer) →
  chunks ≠ [] → str_len (bytes_of chunks) ≤ MAX_BODY_REWRITE_BYTES →
  h_get_all resp' "content-length" = [] ∧
  filter_body written (Some p) (Some buffer) chunks =
    replicate (length chunks - 1) None ++ [Some (rewrite_body written (Some p) (bytes_of chunks))].
Proof.
  unfold upstream_response_filter_inner. destruct (body_rewrites p) as [|br brs]; [done|].
  destruct (should_rewrite _); [|done]. intros [= <- <-] Hne Hl. split.
  - by rewrite h_remove_spec.
  - by rewrite filter_body_fits.
Qed.

(** A body over the limit loses its beginning: when a chunk takes the body over ten
    mebibytes, the chunks buffered before it are never sent, and the client receives the
    body from that chunk on. *)
Theorem oversized_body_loses_start (written : option H) (plan : option CompiledPlan)
    (pre post : list (option string)) (c : string) :
  str_len (bytes_of pre) ≤ MAX_BODY_REWRITE_BYTES →
  MAX_BODY_REWRITE_BYTES < str_len (bytes_of pre) + str_len c ≤ u64_max →
  bytes_of (filter_body written plan (Some "") (pre ++ Some c :: post)) = bytes_of (Some c :: post).
Proof.
  intros H1 [H2 H3]. change 0 with (str_len "") in *.
  rewrite filter_body_overflow by (unfold str_len in *; simpl; lia).
  induction (length pre) as [|n IH]; [done|]. cbn [replicate app bytes_of foldr]. exact IH.
Qed.

(** [str::replace] is exact: text without the pattern is kept, and the first occurrence is
    replaced and the rest treated likewise. *)
Theorem str_replace_exact (find rep pre rest : string) :
  find ≠ "" →
  (no_match_in find pre "" → str_replace find rep pre = pre) ∧
  (no_match_in find pre (find +:+ rest) →
     str_replace find rep (pre +:+ find +:+ rest) = pre +:+ rep +:+ str_replace find rep rest).
Proof.
  intros Hf. unfold str_replace. rewrite !decide_False by done. split; intros Hn.
  - rewrite <-(str_app_nil_r pre) at 1. rewrite replace_from_pre by done. cbn. apply str_app_nil_r.
  - by rewrite replace_from_pre, replace_from_match.
Qed.
End body_properties.

(** ** Witnesses *)

Module BodyExamples.
Definition html_plan : CompiledPlan :=
  {| precedence := 0; plan_rule_order := 0; plan_gateway_api := false;
     plan_disable_secure_redirection := false; plan_listener_hostname := None;
     plan_match := RequestMatch_default; request_stages := []; upstream := None;
     upstream_request_mutations := []; response_mutations := [];
     body_rewrites := [{| br_find := "internal.example"; br_replace := "www.example";
                          br_types := ["text/html"] |}];
     plan_cache := None; websocket := false; plan_client_cert_id := None |}.

Definition html : list (string * string) :=
  [("Content-Type", "text/html"); ("Content-Length", "27")].

(** The first bytes of a gzip stream. *)
Definition gzip_start : string :=
  String (Ascii.ascii_of_N 31) (String (Ascii.ascii_of_N 139) (String (Ascii.ascii_of_N 8) "")).
End BodyExamples.
Import BodyExamples.

Lemma body_rewrite_chunking_witness :
  filter_body (Some html) (Some html_plan) (Some "") [Some "see http://inter"; Some "nal.example"] =
    [None; Some "see http://www.example"].
Proof.
  refine (proj2 (body_rewrite_chunking "req-1" [] html [("Content-Type", "text/html"); ("x-request-id", "req-1")]
    html_plan "" (Some html) [Some "see http://inter"; Some "nal.example"] _ _ _)); vm_compute; done.
Defined.

(** A mebibyte of spaces. *)
Definition mebibyte : string := Nat.iter 20 (λ s, s +:+ s) " ".

Lemma mebibyte_len : str_len mebibyte = 1024 * 1024.
Proof.
  unfold mebibyte. assert (∀ n, str_len (Nat.iter n (λ s, s +:+ s) " ") = 2 ^ Z.of_nat n) as ->.
  { induction n as [|n IH]; [done|]. rewrite Nat.iter_succ, str_len_app, IH.
    rewrite (Nat2Z.inj_succ n), (Z.pow_succ_r 2 (Z.of_nat n)) by apply Nat2Z.is_nonneg. apply Z.add_diag. }
  done.
Qed.

Lemma oversized_body_loses_start_witness :
  bytes_of (filter_body (Some html) (Some html_plan) (Some "")
    (replicate 10 (Some mebibyte) ++ [Some "<end>"])) = "<end>".
Proof.
  refine (oversized_body_loses_start (Some html) (Some html_plan) (replicate 10 (Some mebibyte)) [] "<end>" _ _).
  - cbn [replicate bytes_of foldr from_option id]. rewrite !str_len_app, mebibyte_len. vm_compute. done.
  - cbn [replicate bytes_of foldr from_option id]. rewrite !str_len_app, mebibyte_len. vm_compute. done.
Defined.

(** A compressed body does not survive: the conversion replaces the second byte of a gzip
    stream, and the response still has its [Content-Encoding]. *)
Theorem compressed_body_corrupted :
  let resp := [("Content-Type", "text/html"); ("Content-Encoding", "gzip")] in
  upstream_response_filter_inner "req-1" [] (Some html_plan) resp None =
    (resp ++ [("x-request-id", "req-1")], Some "") ∧
  filter_body (Some resp) (Some html_plan) (Some "") [Some gzip_start] =
    [Some (String (Ascii.ascii_of_N 31) (replacement_char +:+ String (Ascii.ascii_of_N 8) ""))].
Proof. vm_compute. done. Qed.
