(* ===== verification/StaticFiles.v ===== *)
(** * Responses of the proxy's own and static files ([src/static_files.rs]).

    A response the proxy writes itself is a status, headers and an optional body. The file
    system is a class: [canonicalize], [metadata] and [read] of [tokio::fs]. Paths are
    strings with the joining, component and extension rules of [std::path] on Unix. *)

From S2P Require Import Prelude Ir Hostname Compile Lookup Filters Pipeline.

(** ** Responses *)

Record Response (H : Type) := {
  resp_status : Z;
  resp_headers : H;
  resp_body : option string;
}.
#[global] Arguments resp_status {H} _.
#[global] Arguments resp_headers {H} _.
#[global] Arguments resp_body {H} _.
#[global] Arguments Build_Response {H} _ _ _.

Section responses.
Context {H : Type} `{!HeaderOps H}.

(** [ResponseHeader::build(code, None)], which refuses a status outside 100..999. *)
Definition build_response (code : Z) : result (Response H) ProxyError :=
  if (100 <=? code) && (code <=? 999) then Ok (Build_Response code h_empty None)
  else Err (InternalError "invalid status code").

(** [resp.insert_header(n, v)?]. *)
Definition resp_insert (r : Response H) (n v : string) : result (Response H) ProxyError :=
  match h_insert (resp_headers r) n v with
  | Some h => Ok (Build_Response (resp_status r) h (resp_body r))
  | None => Err (InternalError "invalid header")
  end.

Fixpoint resp_insert_all (r : Response H) (hs : list (string * string)) : result (Response H) ProxyError :=
  match hs with
  | [] => Ok r
  | (n, v) :: hs => (let? r := resp_insert r n v in resp_insert_all r hs)%result
  end.

Definition with_body (r : Response H) (body : option string) : Response H :=
  Build_Response (resp_status r) (resp_headers r) body.

(** The response with a status and headers that the proxy writes in most places. *)
Definition respond (code : Z) (hs : list (string * string)) : result (Response H) ProxyError :=
  (let? r := build_response code in resp_insert_all r hs)%result.
End responses.

(** ** Paths ([std::path]) *)

(** [Path::join]: an absolute path replaces the base. *)
Definition path_join (base p : string) : string :=
  if starts_with p "/" then p
  else if str_is_empty base || ends_with base "/" then base +:+ p
  else base +:+ "/" +:+ p.

(** The named components of a path; empty segments and [.] do not count. *)
Definition components (p : string) : list string :=
  filter (λ s, s ≠ "" ∧ s ≠ ".") (str_split slash p).

(** [Path::starts_with]: by whole components, with both paths absolute or both not. *)
Definition path_starts_with (p base : string) : bool :=
  bool_decide (starts_with p "/" = starts_with base "/") &&
  bool_decide (components base `prefix_of` components p).

(** [Path::file_name] and [Path::extension]. *)
Definition file_name (p : string) : option string :=
  match last (components p) with
  | Some n => if decide (n = "..") then None else Some n
  | None => None
  end.

Definition extension (p : string) : option string :=
  n ← file_name p;
  match reverse (str_split "." n) with
  | ext :: before :: rest => if decide (rest = [] ∧ before = "") then None else Some ext
  | _ => None
  end.

(** ** Content types *)

Definition content_type_for (ext : string) : string :=
  if bool_decide (ext ∈ ["html"; "htm"]) then "text/html; charset=utf-8"
  else if bool_decide (ext = "css") then "text/css; charset=utf-8"
  else if bool_decide (ext ∈ ["js"; "mjs"]) then "application/javascript; charset=utf-8"
  else if bool_decide (ext = "json") then "application/json; charset=utf-8"
  else if bool_decide (ext = "svg") then "image/svg+xml"
  else if bool_decide (ext = "png") then "image/png"
  else if bool_decide (ext ∈ ["jpg"; "jpeg"]) then "image/jpeg"
  else if bool_decide (ext = "gif") then "image/gif"
  else if bool_decide (ext = "ico") then "image/x-icon"
  else if bool_decide (ext = "webp") then "image/webp"
  else if bool_decide (ext = "avif") then "image/avif"
  else if bool_decide (ext = "woff") then "font/woff"
  else if bool_decide (ext = "woff2") then "font/woff2"
  else if bool_decide (ext = "ttf") then "font/ttf"
  else if bool_decide (ext = "otf") then "font/otf"
  else if bool_decide (ext = "eot") then "application/vnd.ms-fontobject"
  else if bool_decide (ext = "xml") then "application/xml; charset=utf-8"
  else if bool_decide (ext = "txt") then "text/plain; charset=utf-8"
  else if bool_decide (ext = "map") then "application/json"
  else if bool_decide (ext = "webmanifest") then "application/manifest+json"
  else if bool_decide (ext = "mp4") then "video/mp4"
  else if bool_decide (ext = "webm") then "video/webm"
  else if bool_decide (ext = "mp3") then "audio/mpeg"
  else if bool_decide (ext = "pdf") then "application/pdf"
  else if bool_decide (ext = "wasm") then "application/wasm"
  else "application/octet-stream".

Definition cache_control_for (ext : string) : string :=
  if bool_decide (ext ∈ ["js"; "mjs"; "css"; "woff"; "woff2"; "ttf"; "otf"; "eot"; "wasm"])
  then "public, max-age=31536000, immutable"
  else if bool_decide (ext ∈ ["png"; "jpg"; "jpeg"; "gif"; "webp"; "avif"; "svg"; "ico"])
  then "public, max-age=86400"
  else "no-cache".

(** ** Files *)

Class FileSystem := {
  fs_canonicalize : string → option string;
  fs_metadata : string → option (bool * Z);
  fs_read : string → option string;
  fs_canonical_absolute p c : fs_canonicalize p = Some c → starts_with c "/" = true;
  fs_canonical_no_dots p c : fs_canonicalize p = Some c → ".." ∉ components c;
  fs_canonical_idem p c : fs_canonicalize p = Some c → fs_canonicalize c = Some c;
}.

Record StaticFile := {
  file_body : string;
  file_content_type : string;
  file_cache_control : string;
  file_len : Z;
}.

Section static_files.
Context `{FS : !FileSystem}.

Definition read_static_file (root path : string) : option StaticFile :=
  canonical ← fs_canonicalize path;
  root ← fs_canonicalize root;
  if path_starts_with canonical root then
    match fs_metadata canonical with
    | Some (true, len) =>
        body ← fs_read canonical;
        let ext := default "" (extension canonical) in
        Some {| file_len := len; file_body := body; file_content_type := content_type_for ext;
                file_cache_control := cache_control_for ext |}
    | _ => None
    end
  else None.

(** [path.contains("..")]. *)
Fixpoint contains_dots (s : string) : bool :=
  match s with
  | EmptyString => false
  | String _ s' => starts_with s ".." || contains_dots s'
  end.

Definition build_candidates (root path : string) : option (list string) :=
  if contains_dots path then None
  else
    let relative := default path (strip_prefix "/" path) in
    Some (if str_is_empty relative then [path_join root "index.html"]
          else [path_join root relative; path_join root (relative +:+ ".html");
                path_join root (relative +:+ "/index.html")]).

(** The file served for a path: the first candidate that can be read, or the fallback. *)
Definition find_file (static_root : string) (fallback : option string) (path : string) :
    option StaticFile :=
  root ← fs_canonicalize static_root;
  candidates ← build_candidates root path;
  match find_map (read_static_file root) candidates with
  | Some f => Some f
  | None => fb ← fallback; read_static_file root (path_join root fb)
  end.

Context {H : Type} `{!HeaderOps H}.

(** [try_serve]: the response written, or [None] to go on. *)
Definition try_serve (static_root : string) (fallback : option string) (path : string)
    (extra_headers : list (string * string)) : result (option (Response H)) ProxyError :=
  match find_file static_root fallback path with
  | None => Ok None
  | Some f =>
      (let? r := respond 200 ([("Content-Type", file_content_type f);
                               ("Content-Length", pretty (file_len f));
                               ("Cache-Control", file_cache_control f)] ++ extra_headers) in
       Ok (Some (with_body r (Some (file_body f)))))%result
  end.
End static_files.

(** ** Lemmas *)

Lemma resp_insert_get {H} `{!HeaderOps H} (r r' : Response H) n v n' :
  resp_insert r n v = Ok r' →
  resp_status r' = resp_status r ∧ resp_body r' = resp_body r ∧
  h_get_all (resp_headers r') n' =
    if eq_ignore_ascii_case n n' then [v] else h_get_all (resp_headers r) n'.
Proof.
  unfold resp_insert. destruct (h_insert _ n v) as [h|] eqn:Hi; [|done]. intros [= <-]. simpl.
  split_and!; [done..|]. by apply (h_insert_spec _ _ _ _ _ Hi).
Qed.

(** A header of a response is the last one inserted under its name. *)
Lemma resp_insert_all_get {H} `{!HeaderOps H} (r r' : Response H) hs n :
  resp_insert_all r hs = Ok r' →
  resp_status r' = resp_status r ∧ resp_body r' = resp_body r ∧
  h_get_all (resp_headers r') n =
    match last (filter (λ h : string * string, eq_ignore_ascii_case h.1 n = true) hs) with
    | Some h => [h.2]
    | None => h_get_all (resp_headers r) n
    end.
Proof.
  revert r. induction hs as [|[m v] hs IH]; intros r; simpl; [by intros [= <-]|].
  intros (r1 & Hi & Hr)%result_bind_ok.
  destruct (resp_insert_get _ _ _ _ n Hi) as (Hs & Hb & Hg).
  destruct (IH _ Hr) as (Hs' & Hb' & Hg'). split_and!; [congruence..|].
  rewrite Hg', Hg, filter_cons. simpl. destruct (eq_ignore_ascii_case m n).
  - rewrite decide_True by done. rewrite last_cons. by destruct (last _).
  - by rewrite decide_False by done.
Qed.

Lemma respond_get {H} `{!HeaderOps H} code hs (r : Response H) n :
  respond code hs = Ok r →
  resp_status r = code ∧ resp_body r = None ∧
  h_get_all (resp_headers r) n =
    match last (filter (λ h : string * string, eq_ignore_ascii_case h.1 n = true) hs) with
    | Some h => [h.2]
    | None => []
    end.
Proof.
  unfold respond, build_response. destruct (_ && _); [|done]. cbn [result_bind].
  intros (Hs & Hb & Hg)%(resp_insert_all_get _ _ _ n). simpl in *. rewrite h_empty_spec in Hg. done.
Qed.

Section static_lemmas.
Context `{FS : !FileSystem}.

(** A file that is read lies under the root. *)
Lemma read_static_file_under root path f :
  read_static_file root path = Some f →
  ∃ c root' rest, fs_canonicalize path = Some c ∧ fs_canonicalize root = Some root' ∧
    components c = components root' ++ rest ∧ (".." ∉ rest) ∧
    fs_metadata c = Some (true, file_len f) ∧ fs_read c = Some (file_body f).
Proof.
  unfold read_static_file. destruct (fs_canonicalize path) as [c|] eqn:Hc; [|done].
  destruct (fs_canonicalize root) as [root'|] eqn:Hr; [|done]. simpl.
  destruct (path_starts_with c root') eqn:Hp; [|done].
  destruct (fs_metadata c) as [[[] len]|] eqn:Hm; try done.
  destruct (fs_read c) as [body|] eqn:Hb; [|done]. intros [= <-]. simpl.
  unfold path_starts_with in Hp. simp_bool.
  match goal with H : _ `prefix_of` _ |- _ => destruct H as [rest Hrest] end.
  exists c, root', rest. split_and!; try done.
  intros Hin. apply (fs_canonical_no_dots _ _ Hc). rewrite Hrest. apply elem_of_app. by right.
Qed.

Lemma find_file_read static_root fallback path f :
  find_file static_root fallback path = Some f →
  ∃ root p, fs_canonicalize static_root = Some root ∧ read_static_file root p = Some f.
Proof.
  unfold find_file. destruct (fs_canonicalize static_root) as [root|]; [|done]. simpl.
  destruct (build_candidates root path) as [cs|]; [|done]. simpl.
  destruct (find_map _ cs) as [f'|] eqn:Hf.
  - intros [= ->]. apply find_map_Some in Hf as (p & _ & Hp). eauto.
  - destruct fallback as [fb|]; [|done]. simpl. eauto.
Qed.
End static_lemmas.

(** ** Properties *)

(** C29. Static files cannot be read outside the configured root: whatever the request path,
    the fallback and the symbolic links of the file system, a response written from a
    file has status 200 and the bytes of a regular file whose canonical path extends the
    canonical root by components other than [..]. *)
Theorem static_files_confined `{FS : !FileSystem} {H} `{!HeaderOps H} (static_root : string)
    (fallback : option string) (path : string) (extra : list (string * string)) (r : Response H) :
  try_serve static_root fallback path extra = Ok (Some r) →
  ∃ root c rest len, fs_canonicalize static_root = Some root ∧ fs_canonicalize c = Some c ∧
    components c = components root ++ rest ∧ (".." ∉ rest) ∧
    fs_metadata c = Some (true, len) ∧ fs_read c = resp_body r ∧ resp_status r = 200.
Proof.
  unfold try_serve. destruct (find_file static_root fallback path) as [f|] eqn:Hf; [|done].
  intros (r1 & Hr & [= <-])%result_bind_ok.
  apply find_file_read in Hf as (root & p & Hroot & Hp).
  apply read_static_file_under in Hp as (c & root' & rest & Hc & Hroot' & Hcs & Hd & Hm & Hb).
  rewrite (fs_canonical_idem _ _ Hroot) in Hroot'. injection Hroot' as <-.
  exists root, c, rest, (file_len f). destruct (respond_get _ _ _ "" Hr) as (Hs & _ & _).
  split_and!; try done. by eapply fs_canonical_idem.
Qed.

(** What is served for a path is decided by the [try_files] chain: the first of the
    file itself, the file with [.html] and the [index.html] below it that is a readable
    regular file under the root, else the fallback; a path with two adjacent dots is
    never served, and nothing is when the root does not exist. *)
Theorem try_files_order `{FS : !FileSystem} (static_root root : string) (fallback : option string)
    (relative : string) :
  fs_canonicalize static_root = Some root → relative ≠ "" →
  find_file static_root fallback ("/" +:+ relative) =
    if contains_dots relative then None
    else match read_static_file root (path_join root relative),
               read_static_file root (path_join root (relative +:+ ".html")),
               read_static_file root (path_join root (relative +:+ "/index.html")) with
         | Some f, _, _ => Some f
         | None, Some f, _ => Some f
         | None, None, Some f => Some f
         | None, None, None => fb ← fallback; read_static_file root (path_join root fb)
         end.
Proof.
  intros Hr Hne. unfold find_file. rewrite Hr. simpl. unfold build_candidates.
  assert (contains_dots ("/" +:+ relative) = contains_dots relative) as -> by done.
  destruct (contains_dots relative); [done|].
  assert (strip_prefix "/" ("/" +:+ relative) = Some relative) as -> by (by destruct relative).
  cbn [from_option id mbind option_bind]. unfold str_is_empty. rewrite bool_decide_eq_false_2 by done.
  unfold find_map. cbn [omap list_omap].
  by destruct (read_static_file root (path_join root relative)),
    (read_static_file root (path_join root (relative +:+ ".html"))),
    (read_static_file root (path_join root (relative +:+ "/index.html"))).
Qed.

(** ** Witnesses *)

(** A file system of one directory with a page and a link that leads out of it. *)
Module StaticExamples.
Definition canonical_of (p : string) : option string :=
  if bool_decide (p ∈ ["/srv/www"; "/srv/www/"]) then Some "/srv/www"
  else if bool_decide (p = "/srv/www/about.html") then Some "/srv/www/about.html"
  else if bool_decide (p ∈ ["/srv/www/leak"; "/etc/passwd"]) then Some "/etc/passwd"
  else None.

#[export] Program Instance example_fs : FileSystem := {|
  fs_canonicalize := canonical_of;
  fs_metadata p := if bool_decide (p = "/srv/www") then Some (false, 0)
                   else if bool_decide (p = "/srv/www/about.html") then Some (true, 5)
                   else if bool_decide (p = "/etc/passwd") then Some (true, 4) else None;
  fs_read p := if bool_decide (p = "/srv/www/about.html") then Some "hello"
               else if bool_decide (p = "/etc/passwd") then Some "root" else None;
|}.
Next Obligation. intros p c. unfold canonical_of. repeat case_match; intros [= <-]; done. Qed.
Next Obligation.
  intros p c. unfold canonical_of. repeat case_match; intros [= <-]; apply (bool_decide_unpack _); done.
Qed.
Next Obligation. intros p c. unfold canonical_of at 1. repeat case_match; intros [= <-]; done. Qed.
End StaticExamples.
Import StaticExamples.

Lemma static_files_confined_witness :
  (∃ root c rest len, fs_canonicalize "/srv/www/" = Some root ∧ fs_canonicalize c = Some c ∧
     components c = components root ++ rest ∧ (".." ∉ rest) ∧
     fs_metadata c = Some (true, len) ∧ fs_read c = Some "hello" ∧ 200 = 200) ∧
  try_serve (H := list (string * string)) "/srv/www/" None "/leak" [] = Ok None.
Proof.
  split; [|vm_compute; reflexivity].
  apply (static_files_confined "/srv/www/" None "/about" []
    (Build_Response 200 [("Content-Type", "text/html; charset=utf-8"); ("Content-Length", "5");
                         ("Cache-Control", "no-cache")] (Some "hello"))).
  vm_compute. reflexivity.
Defined.

Lemma try_files_order_witness : file_body <$> find_file "/srv/www" None "/about" = Some "hello".
Proof.
  rewrite (try_files_order "/srv/www" "/srv/www" None "about") by done. vm_compute. reflexivity.
Defined.
