(* ===== verification/Float64.v ===== *)
(** * Binary64 arithmetic ([f64]).

    The operations on [f64] the sources use, on the IEEE 754 specification of the standard
    library ([SpecFloat] with a precision of 53 and a maximal exponent of 1024), and the
    fact that they are exact on integers below 2^53. *)

From S2P Require Import Prelude.
From Stdlib Require Export SpecFloat.

Abbreviation f64 := spec_float.

(** [n as f64] for an integer. *)
Definition f64_of_Z (n : Z) : f64 := binary_normalize 53 1024 n 0 false.

Definition fadd : f64 → f64 → f64 := SFadd 53 1024.
Definition fsub : f64 → f64 → f64 := SFsub 53 1024.
Definition fmul : f64 → f64 → f64 := SFmul 53 1024.
Definition fdiv : f64 → f64 → f64 := SFdiv 53 1024.

Definition is_nan (x : f64) : bool := match x with S754_nan => true | _ => false end.

Definition is_finite (x : f64) : bool :=
  match x with S754_zero _ | S754_finite _ _ _ => true | _ => false end.

(** [f64::min]: a NaN loses against a number. *)
Definition fmin (x y : f64) : f64 :=
  if is_nan x then y else if is_nan y then x else if SFltb x y then x else y.

(** [f64::ceil]. *)
Definition fceil (x : f64) : f64 :=
  match x with
  | S754_finite s m e =>
      if 0 <=? e then x
      else let d := 2 ^ (- e) in
           if s then match - (Z.pos m / d) with 0 => S754_zero true | n => f64_of_Z n end
           else f64_of_Z ((Z.pos m + d - 1) / d)
  | _ => x
  end.

(** [x as u64]: truncation towards zero, saturating, zero for a NaN. *)
Definition f64_to_u64 (x : f64) : Z :=
  match x with
  | S754_finite false m e => Z.min u64_max (if 0 <=? e then Z.pos m * 2 ^ e else Z.pos m / 2 ^ (- e))
  | S754_infinity false => u64_max
  | _ => 0
  end.

(** [Duration::as_secs_f64] of a duration in nanoseconds. *)
Definition as_secs_f64 (nanos : Z) : f64 :=
  fadd (f64_of_Z (nanos / 1000000000)) (fdiv (f64_of_Z (nanos mod 1000000000)) (f64_of_Z 1000000000)).

(** ** Exactness on integers *)

(** Number of binary digits. *)
Definition bits (n : Z) : Z := Z.log2 n + 1.

(** The representation of an integer below 2^53: its mantissa has 53 digits. *)
Definition fz (n : Z) : f64 :=
  match n with
  | Z.pos p => S754_finite false (Z.to_pos (Z.pos p * 2 ^ (53 - bits n))) (bits n - 53)
  | _ => S754_zero false
  end.

Lemma digits2_bits p : Z.pos (digits2_pos p) = bits (Z.pos p).
Proof.
  unfold bits. induction p as [p IH|p IH|]; [| |done].
  - cbn [digits2_pos]. rewrite Pos2Z.inj_succ, IH.
    change (Z.pos p~1) with (2 * Z.pos p + 1). rewrite Z.log2_succ_double; lia.
  - cbn [digits2_pos]. rewrite Pos2Z.inj_succ, IH.
    change (Z.pos p~0) with (2 * Z.pos p). rewrite Z.log2_double; lia.
Qed.

Lemma bits_mul_pow2 n k : 0 < n → 0 ≤ k → bits (n * 2 ^ k) = bits n + k.
Proof. intros. unfold bits. rewrite Z.log2_mul_pow2 by lia. lia. Qed.

Lemma bits_le n k : 0 < n < 2 ^ k → 1 ≤ bits n ≤ k.
Proof.
  intros [H1 H2]. unfold bits. pose proof (Z.log2_nonneg n).
  pose proof (proj1 (Z.log2_lt_pow2 n k H1) H2). lia.
Qed.

Lemma bits_mono n m : 0 < n → n ≤ m → bits n ≤ bits m.
Proof. intros. unfold bits. pose proof (Z.log2_le_mono n m). lia. Qed.

Lemma pos_iter_xO p d : Z.pos (Pos.iter xO p d) = Z.pos p * 2 ^ Z.pos d.
Proof.
  revert p. induction d as [|d IH] using Pos.peano_ind; intros p; [simpl; lia|].
  rewrite Pos.iter_succ, Pos2Z.inj_xO, IH, Pos2Z.inj_succ, Z.pow_succ_r by lia. lia.
Qed.

(** Shifting out zeros is exact. *)
Lemma shr_1_double m : 0 ≤ m → shr_1 (Build_shr_record (2 * m) false false) = Build_shr_record m false false.
Proof. by destruct m as [|p|p]. Qed.

Lemma iter_pos_comm {A} (f : A → A) p x : iter_pos f p (f x) = f (iter_pos f p x).
Proof. revert x. induction p as [p IH|p IH|]; intros x; cbn [iter_pos]; by rewrite ?IH. Qed.

Lemma iter_pos_succ {A} (f : A → A) p x : iter_pos f (Pos.succ p) x = f (iter_pos f p x).
Proof.
  revert x. induction p as [p IH|p IH|]; intros x; [| |done].
  - change (Pos.succ p~1) with (Pos.succ p)~0%positive. cbn [iter_pos]. by rewrite !IH, !iter_pos_comm.
  - change (Pos.succ p~0) with p~1%positive. cbn [iter_pos]. by rewrite !iter_pos_comm.
Qed.

Lemma shr_exact m p : 0 ≤ m →
  iter_pos shr_1 p (Build_shr_record (m * 2 ^ Z.pos p) false false) = Build_shr_record m false false.
Proof.
  revert m. induction p as [|p IH] using Pos.peano_ind; intros m Hm.
  - cbn [iter_pos]. replace (m * 2 ^ 1) with (2 * m) by lia. by apply shr_1_double.
  - rewrite iter_pos_succ, Pos2Z.inj_succ, Z.pow_succ_r by lia.
    replace (m * (2 * 2 ^ Z.pos p)) with ((2 * m) * 2 ^ Z.pos p) by lia.
    rewrite IH by lia. by apply shr_1_double.
Qed.

Lemma fexp_53 m e j : 0 < m → bits m = 53 + j → 0 ≤ j → -1074 ≤ e + j →
  fexp 53 1024 (Zdigits2 m + e) - e = j.
Proof.
  destruct m as [|p|p]; [lia| |lia]. intros _ Hb Hj He. cbn [Zdigits2]. rewrite digits2_bits, Hb.
  unfold fexp, emin. lia.
Qed.

(** Rounding an exact 53-digit mantissa, shifted left by [k]. *)
Lemma round_aux_exact a k e :
  0 < a → bits a = 53 → 0 ≤ k → -1074 ≤ e + k ≤ 971 →
  binary_round_aux 53 1024 false (a * 2 ^ k) e loc_Exact = S754_finite false (Z.to_pos a) (e + k).
Proof.
  intros Ha Hb Hk He. unfold binary_round_aux.
  unfold shr_fexp at 1. rewrite (fexp_53 _ e k); [| |rewrite bits_mul_pow2; lia|lia..].
  2: { apply Z.mul_pos_pos; [lia|]. apply Z.pow_pos_nonneg; lia. }
  assert (shr (shr_record_of_loc (a * 2 ^ k) loc_Exact) e k = (Build_shr_record a false false, e + k)) as ->.
  { cbn [shr_record_of_loc]. destruct k as [|p|p]; [|cbn [shr]; by rewrite shr_exact by lia|lia].
    cbn [shr]. by rewrite Z.pow_0_r, Z.mul_1_r, Z.add_0_r. }
  cbn [loc_of_shr_record round_nearest_even shr_m]. unfold shr_fexp.
  rewrite (fexp_53 a (e + k) 0) by lia. cbn [shr shr_record_of_loc shr_m].
  destruct a as [|p|p]; [lia| |lia]. cbn [Z.to_pos].
  destruct (Z.leb_spec (e + k) (1024 - 53)); [done|lia].
Qed.

Lemma fz_pos n : 0 < n → fz n = S754_finite false (Z.to_pos (n * 2 ^ (53 - bits n))) (bits n - 53).
Proof. by destruct n. Qed.

Lemma fz_mantissa n : 0 < n < 2 ^ 53 →
  0 < n * 2 ^ (53 - bits n) ∧ bits (n * 2 ^ (53 - bits n)) = 53.
Proof.
  intros Hn. pose proof (bits_le n 53 Hn). split.
  - apply Z.mul_pos_pos; [lia|]. apply Z.pow_pos_nonneg; lia.
  - rewrite bits_mul_pow2; lia.
Qed.

(** The same with a product that keeps at least 53 digits. *)
Lemma round_aux_int n j : 0 < n < 2 ^ 53 → 53 ≤ bits n + j → 0 ≤ j →
  binary_round_aux 53 1024 false (n * 2 ^ j) (- j) loc_Exact = fz n.
Proof.
  intros Hn Hj H0. pose proof (bits_le n 53 Hn). destruct (fz_mantissa n Hn) as [Hm Hb].
  replace (n * 2 ^ j) with ((n * 2 ^ (53 - bits n)) * 2 ^ (bits n + j - 53)).
  2: { rewrite <-Z.mul_assoc, <-Z.pow_add_r by lia. do 2 f_equal. lia. }
  rewrite round_aux_exact by (done || lia). rewrite fz_pos by lia. f_equal. lia.
Qed.

Lemma normalize_int n j : 0 ≤ n < 2 ^ 53 → 0 ≤ j →
  binary_normalize 53 1024 (n * 2 ^ j) (- j) false = fz n.
Proof.
  intros Hn Hj. destruct (decide (n = 0)) as [->|Hn0]; [done|].
  assert (0 < n < 2 ^ 53) as Hpos by lia. pose proof (bits_le n 53 Hpos).
  assert (0 < n * 2 ^ j) as Hm by (apply Z.mul_pos_pos; [lia|apply Z.pow_pos_nonneg; lia]).
  destruct (n * 2 ^ j) as [|p|p] eqn:Hp; [lia| |lia]. cbn [binary_normalize]. unfold binary_round.
  rewrite digits2_bits, <-Hp, bits_mul_pow2 by lia.
  assert (fexp 53 1024 (bits n + j + - j) = bits n - 53) as -> by (unfold fexp, emin; lia).
  unfold shl_align. destruct (bits n - 53 - - j) as [|d|d] eqn:Hd.
  - rewrite <-Hp. apply round_aux_int; lia.
  - rewrite <-Hp. apply round_aux_int; lia.
  - rewrite pos_iter_xO, <-Hp. replace (bits n - 53) with (- (53 - bits n)) by lia.
    rewrite <-Z.mul_assoc, <-Z.pow_add_r by lia. replace (j + Z.pos d) with (53 - bits n) by lia.
    apply round_aux_int; lia.
Qed.

Lemma f64_of_Z_fz n : 0 ≤ n < 2 ^ 53 → f64_of_Z n = fz n.
Proof.
  intros Hn. unfold f64_of_Z. rewrite <-(normalize_int n 0) by lia. by rewrite Z.mul_1_r.
Qed.

(** The mantissa of [fz n] aligned to an exponent [- j]. *)
Lemma shl_align_fz n j : 0 < n < 2 ^ 53 → 53 - bits n ≤ j →
  Z.pos (shl_align (Z.to_pos (n * 2 ^ (53 - bits n))) (bits n - 53) (- j)).1 = n * 2 ^ j.
Proof.
  intros Hn Hj. pose proof (bits_le n 53 Hn). destruct (fz_mantissa n Hn) as [Hm _].
  unfold shl_align. destruct (- j - (bits n - 53)) as [|d|d] eqn:Hd; cbn [fst].
  - rewrite Z2Pos.id by lia. do 2 f_equal. lia.
  - lia.
  - rewrite pos_iter_xO, Z2Pos.id by lia. rewrite <-Z.mul_assoc, <-Z.pow_add_r by lia. do 2 f_equal. lia.
Qed.

Lemma fz_align n m : 0 < n < 2 ^ 53 → 0 < m < 2 ^ 53 →
  ∃ j, 0 ≤ j ∧ 53 - bits n ≤ j ∧ 53 - bits m ≤ j ∧ Z.min (bits n - 53) (bits m - 53) = - j.
Proof.
  intros Hn Hm. pose proof (bits_le n 53 Hn). pose proof (bits_le m 53 Hm).
  exists (53 - Z.min (bits n) (bits m)). lia.
Qed.

Lemma fadd_exact n m : 0 ≤ n → 0 ≤ m → n + m < 2 ^ 53 → fadd (fz n) (fz m) = fz (n + m).
Proof.
  intros H1 H2 H3. destruct (decide (n = 0)) as [->|]; [by destruct m|].
  destruct (decide (m = 0)) as [->|]; [rewrite Z.add_0_r; by destruct n|].
  rewrite (fz_pos n), (fz_pos m) by lia. unfold fadd, SFadd. cbn [cond_Zopp].
  destruct (fz_align n m) as (j & Hj & Hn & Hm & ->); [lia..|].
  rewrite !shl_align_fz by lia. rewrite <-Z.mul_add_distr_r. apply normalize_int; lia.
Qed.

Lemma fsub_exact n m : 0 ≤ m ≤ n → n < 2 ^ 53 → fsub (fz n) (fz m) = fz (n - m).
Proof.
  intros H1 H2. destruct (decide (m = 0)) as [->|]; [rewrite Z.sub_0_r; by destruct n|].
  rewrite (fz_pos n), (fz_pos m) by lia. unfold fsub, SFsub. cbn [cond_Zopp].
  destruct (fz_align n m) as (j & Hj & Hn & Hm & ->); [lia..|].
  rewrite !shl_align_fz by lia. rewrite <-Z.mul_sub_distr_r. apply normalize_int; lia.
Qed.

Lemma fmul_exact n m : 0 ≤ n < 2 ^ 53 → 0 ≤ m < 2 ^ 53 → n * m < 2 ^ 53 → fmul (fz n) (fz m) = fz (n * m).
Proof.
  intros Hn Hm Hnm. destruct (decide (n = 0)) as [->|]; [by destruct m|].
  destruct (decide (m = 0)) as [->|]; [rewrite Z.mul_0_r; by destruct n|].
  assert (0 < n * m) by (apply Z.mul_pos_pos; lia).
  pose proof (bits_le n 53 ltac:(lia)). pose proof (bits_le m 53 ltac:(lia)).
  destruct (fz_mantissa n ltac:(lia)) as [Hn' _]. destruct (fz_mantissa m ltac:(lia)) as [Hm' _].
  rewrite (fz_pos n), (fz_pos m) by lia. unfold fmul, SFmul. cbn [xorb].
  rewrite Pos2Z.inj_mul, !Z2Pos.id by lia.
  replace (n * 2 ^ (53 - bits n) * (m * 2 ^ (53 - bits m))) with (n * m * 2 ^ (106 - bits n - bits m)).
  2: { rewrite <-Z.mul_shuffle1, <-Z.pow_add_r by lia. do 2 f_equal. lia. }
  replace (bits n - 53 + (bits m - 53)) with (- (106 - bits n - bits m)) by lia.
  apply round_aux_int; [lia| |lia].
  assert (bits n + bits m - 1 ≤ bits (n * m)); [|lia].
  unfold bits. pose proof (Z.log2_mul_below n m). lia.
Qed.

Lemma fz_compare n m : 0 ≤ n < 2 ^ 53 → 0 ≤ m < 2 ^ 53 → SFcompare (fz n) (fz m) = Some (n ?= m).
Proof.
  intros Hn Hm. destruct (decide (n = 0)) as [->|]; [by destruct m; try lia|].
  destruct (decide (m = 0)) as [->|]; [by destruct n; try lia|].
  destruct (fz_mantissa n ltac:(lia)) as [Hn' _]. destruct (fz_mantissa m ltac:(lia)) as [Hm' _].
  rewrite (fz_pos n), (fz_pos m) by lia. unfold SFcompare. f_equal.
  destruct (Z.compare_spec (bits n - 53) (bits m - 53)) as [He|He|He].
  - change (Pos.compare_cont Eq ?a ?b) with (Pos.compare a b).
    rewrite Pos2Z.inj_compare, !Z2Pos.id by lia. replace (bits m) with (bits n) by lia.
    symmetry. apply Zmult_compare_compat_r. apply Z.lt_gt, Z.pow_pos_nonneg; [lia|].
    pose proof (bits_le n 53 ltac:(lia)). lia.
  - symmetry. apply Z.compare_lt_iff. destruct (Z.lt_ge_cases n m); [done|].
    pose proof (bits_mono m n). lia.
  - symmetry. apply Z.compare_gt_iff. destruct (Z.lt_ge_cases m n); [done|].
    pose proof (bits_mono n m). lia.
Qed.

Lemma fz_not_nan n : is_nan (fz n) = false.
Proof. by destruct n. Qed.

Lemma fmin_exact n m : 0 ≤ n < 2 ^ 53 → 0 ≤ m < 2 ^ 53 → fmin (fz n) (fz m) = fz (Z.min n m).
Proof.
  intros Hn Hm. unfold fmin. rewrite !fz_not_nan. unfold SFltb. rewrite fz_compare by done.
  destruct (Z.compare_spec n m); f_equal; lia.
Qed.

Lemma fle_exact n m : 0 ≤ n < 2 ^ 53 → 0 ≤ m < 2 ^ 53 → SFleb (fz n) (fz m) = (n <=? m).
Proof. intros Hn Hm. unfold SFleb. rewrite fz_compare by done. unfold Z.leb. by destruct (n ?= m). Qed.

(** A whole number of seconds converts exactly. *)
Lemma as_secs_whole t : 0 ≤ t < 2 ^ 53 → as_secs_f64 (t * 1000000000) = fz t.
Proof.
  intros Ht. unfold as_secs_f64. rewrite Z.div_mul, Z.mod_mul by lia.
  rewrite f64_of_Z_fz by done. vm_compute (fdiv _ _). change (S754_zero false) with (fz 0).
  rewrite fadd_exact by lia. by rewrite Z.add_0_r.
Qed.

(** ** One over an integer *)

(** Rounding a mantissa of 53 digits goes up by at most one. *)
Lemma round_aux_near q e l : 2 ^ 52 ≤ q < 2 ^ 53 → -1074 ≤ e < 971 →
  ∃ m e', binary_round_aux 53 1024 false q e l = S754_finite false m e' ∧
    (e' = e ∧ Z.pos m < 2 ^ 53 ∨ e' = e + 1 ∧ Z.pos m = 2 ^ 52).
Proof.
  intros Hq He.
  assert (∀ n, 2 ^ 52 ≤ n < 2 ^ 53 → bits n = 53) as Hbits.
  { intros n Hn. unfold bits. rewrite (Z.log2_unique n 52) by lia. done. }
  unfold binary_round_aux, shr_fexp at 1. rewrite (fexp_53 q e 0) by (rewrite ?Hbits; lia).
  cbn [shr]. assert (shr_m (shr_record_of_loc q l) = q ∧ loc_of_shr_record (shr_record_of_loc q l) = l) as [-> ->].
  { by destruct l as [|[]]. }
  assert (round_nearest_even q l = q ∨ round_nearest_even q l = q + 1) as Hr.
  { destruct l as [|[]]; cbn [round_nearest_even]; [by left| |by left|by right]. destruct (Z.even q); auto. }
  set (q1 := round_nearest_even q l) in *. unfold shr_fexp. cbn [shr_record_of_loc].
  destruct (Z.lt_ge_cases q1 (2 ^ 53)).
  - rewrite (fexp_53 q1 e 0) by (rewrite ?Hbits; lia). cbn [shr shr_m].
    destruct q1 as [|p|p]; [lia| |lia]. destruct (Z.leb_spec e (1024 - 53)); [|lia].
    exists p, e. split; [done|]. left. lia.
  - assert (q1 = 2 ^ 53) as -> by lia. rewrite (fexp_53 (2 ^ 53) e 1) by (done || lia).
    cbn [shr]. change (2 ^ 53) with (2 ^ 52 * 2 ^ 1). rewrite shr_exact by lia. cbn [shr_m].
    change (2 ^ 52) with (Z.pos 4503599627370496). destruct (Z.leb_spec (e + 1) (1024 - 53)); [|lia].
    eexists _, _. split; [done|]. by right.
Qed.

(** The quotient of one and an integer lies above zero and not above one. *)
Lemma fdiv_one r : 1 ≤ r < 2 ^ 53 →
  ∃ m e, fdiv (fz 1) (fz r) = S754_finite false m e ∧ e < 0 ∧ Z.pos m ≤ 2 ^ (- e).
Proof.
  intros Hr. pose proof (bits_le r 53 ltac:(lia)) as Hd. destruct (fz_mantissa r ltac:(lia)) as [Hm Hb].
  rewrite (fz_pos r) by lia. change (fz 1) with (S754_finite false 4503599627370496 (-52)).
  set (M := r * 2 ^ (53 - bits r)) in *. unfold fdiv, SFdiv. cbn [xorb].
  assert (2 ^ 52 ≤ M < 2 ^ 53) as HM.
  { pose proof (Z.log2_spec M Hm) as Hs. unfold bits in Hb. replace (Z.log2 M) with 52 in Hs by lia. done. }
  assert (SFdiv_core_binary 53 1024 (Z.pos 4503599627370496) (-52) (Z.pos (Z.to_pos M)) (bits r - 53)
    = (2 ^ 105 / M, - 52 - bits r, new_location M (2 ^ 105 mod M))) as ->.
  { unfold SFdiv_core_binary. cbn [Zdigits2]. rewrite !digits2_bits, Z2Pos.id, Hb by lia.
    assert (Z.min (fexp 53 1024 (bits (Z.pos 4503599627370496) + -52 - (53 + (bits r - 53))))
      (-52 - (bits r - 53)) = - 52 - bits r) as ->.
    { change (bits (Z.pos 4503599627370496)) with 53. unfold fexp, emin. lia. }
    replace (-52 - (bits r - 53) - (-52 - bits r)) with 53 by lia.
    change (Z.shiftl (Z.pos 4503599627370496) 53) with (2 ^ 105).
    unfold Z.div, Z.modulo. by destruct (Z.div_eucl (2 ^ 105) M). }
  pose proof (Z.div_mod (2 ^ 105) M ltac:(lia)) as Hdm. pose proof (Z.mod_pos_bound (2 ^ 105) M ltac:(lia)) as Hmod.
  set (q := 2 ^ 105 / M) in *. set (rem := 2 ^ 105 mod M) in *.
  assert (2 ^ 52 ≤ q ≤ 2 ^ 53) as Hq by nia.
  assert (2 * 2 ^ 52 = 2 ^ 53) by done.
  destruct (decide (q = 2 ^ 53)) as [Hq53|Hq53].
  - assert (rem = 0) as -> by nia. cbn [new_location]. unfold new_location, new_location_even, new_location_odd.
    rewrite Hq53. destruct (Z.even M); cbn [Z.eqb]; (change (2 ^ 53) with (2 ^ 52 * 2 ^ 1);
      rewrite round_aux_exact by (done || lia); eexists _, _; split; [done|]; split; [lia|];
      change (Z.pos (Z.to_pos (2 ^ 52))) with (2 ^ 52); apply Z.pow_le_mono_r; lia).
  - destruct (round_aux_near q (- 52 - bits r) (new_location M rem)) as (m & e' & -> & Hm'); [lia..|].
    exists m, e'. split; [done|]. destruct Hm' as [(-> & ?)|(-> & ->)].
    + split; [lia|]. assert (2 ^ 53 ≤ 2 ^ (- (- 52 - bits r))) by (apply Z.pow_le_mono_r; lia). lia.
    + split; [lia|]. apply Z.pow_le_mono_r; lia.
Qed.

(** The rounded-up quotient is one. *)
Lemma ceil_one_over r : 1 ≤ r < 2 ^ 53 → f64_to_u64 (fceil (fdiv (fz 1) (fz r))) = 1.
Proof.
  intros Hr. destruct (fdiv_one r Hr) as (m & e & -> & He & Hm). cbn [fceil].
  destruct (Z.leb_spec 0 e); [lia|].
  assert (0 < 2 ^ (- e)) by (apply Z.pow_pos_nonneg; lia).
  assert ((Z.pos m + 2 ^ (- e) - 1) / 2 ^ (- e) = 1) as ->; [|done].
  symmetry. apply (Z.div_unique _ _ _ (Z.pos m - 1)); lia.
Qed.

(** A number over itself. *)
Lemma fdiv_self n : 0 < n → fdiv (fz n) (fz n) = fz 1.
Proof.
  intros Hn. rewrite fz_pos by done. set (m := Z.to_pos _). set (e := bits n - 53). unfold fdiv, SFdiv. cbn [xorb].
  assert (SFdiv_core_binary 53 1024 (Z.pos m) e (Z.pos m) e = (2 ^ 53, -53, loc_Exact)) as ->; [|done].
  unfold SFdiv_core_binary. rewrite !Z.sub_diag. change (Z.min (fexp 53 1024 0) 0) with (-53).
  change (0 - -53) with 53. rewrite Z.shiftl_mul_pow2, Z.mul_comm by lia.
  pose proof (Z.div_mul (2 ^ 53) (Z.pos m) ltac:(lia)) as Hd.
  pose proof (Z.mod_mul (2 ^ 53) (Z.pos m) ltac:(lia)) as Hm. unfold Z.div, Z.modulo in *.
  destruct (Z.div_eucl _ _) as [q r]. subst. unfold new_location, new_location_even, new_location_odd.
  by destruct (Z.even _).
Qed.

Lemma fdiv_zero n : 0 < n → fdiv (fz 0) (fz n) = fz 0.
Proof. intros Hn. by rewrite (fz_pos n). Qed.
