(* ===== verification/FloatRound.v ===== *)
(** * Rounding of IEEE 754 arithmetic.

    The operations of [SpecFloat], at any precision, return the exact result rounded to
    nearest, ties to even, and this rounding is monotone. Values are integers: a float is a
    multiple of the least positive one, and [fv] is that multiple, with the infinities one
    step beyond the largest finite value. *)

From S2P Require Import Prelude Float64.

(** ** Rounding a fraction to an integer *)

(** [n / d] rounded to nearest, ties to even. *)
Definition rne (n d : Z) : Z :=
  let q := n / d in
  match 2 * (n mod d) ?= d with
  | Lt => q
  | Gt => q + 1
  | Eq => if Z.even q then q else q + 1
  end.

Lemma rne_bounds n d : 0 < d → n / d ≤ rne n d ≤ n / d + 1.
Proof. intros. unfold rne. destruct (_ ?= _); [destruct (Z.even _)|..]; lia. Qed.

Lemma rne_mono n1 d1 n2 d2 : 0 < d1 → 0 < d2 → n1 * d2 ≤ n2 * d1 → rne n1 d1 ≤ rne n2 d2.
Proof.
  intros H1 H2 Hle.
  pose proof (rne_bounds n1 d1 H1). pose proof (rne_bounds n2 d2 H2).
  pose proof (Z.div_mod n1 d1 ltac:(lia)). pose proof (Z.mod_pos_bound n1 d1 H1).
  pose proof (Z.div_mod n2 d2 ltac:(lia)). pose proof (Z.mod_pos_bound n2 d2 H2).
  destruct (Z.lt_ge_cases (n1 / d1) (n2 / d2)) as [Hlt|Hge]; [lia|].
  assert (n1 / d1 = n2 / d2) as Hq.
  { assert (n1 / d1 * (d1 * d2) < (n2 / d2 + 1) * (d1 * d2)) as Hlt by nia.
    apply Z.mul_lt_mono_pos_r in Hlt; nia. }
  unfold rne in *. rewrite Hq in *. set (q := n2 / d2) in *.
  assert ((n1 mod d1) * d2 ≤ (n2 mod d2) * d1) by nia.
  destruct (Z.compare_spec (2 * (n1 mod d1)) d1), (Z.compare_spec (2 * (n2 mod d2)) d2);
    destruct (Z.even q); lia || nia.
Qed.

Lemma rne_scale c n d : 0 < c → 0 < d → rne (n * c) (d * c) = rne n d.
Proof. intros. apply Z.le_antisymm; apply rne_mono; nia. Qed.

Lemma rne_exact q d : 0 < d → rne (q * d) d = q.
Proof.
  intros. unfold rne. rewrite Z.div_mul, Z.mod_mul, Z.mul_0_r by lia.
  destruct (Z.compare_spec 0 d); lia.
Qed.

Lemma rne_le n d k : 0 < d → n ≤ k * d → rne n d ≤ k.
Proof. intros. rewrite <- (rne_exact k d) by done. apply rne_mono; nia. Qed.

Lemma rne_ge n d k : 0 < d → k * d ≤ n → k ≤ rne n d.
Proof. intros. rewrite <- (rne_exact k d) at 1 by done. apply rne_mono; nia. Qed.

(** The error is at most one half. *)
Lemma rne_error n d : 0 < d → 2 * Z.abs (rne n d * d - n) ≤ d.
Proof.
  intros. unfold rne. pose proof (Z.div_mod n d ltac:(lia)). pose proof (Z.mod_pos_bound n d ltac:(lia)).
  destruct (Z.compare_spec (2 * (n mod d)) d); [destruct (Z.even _)|..]; nia.
Qed.

(** ** The position of a fraction between integers *)

Definition located (n d m : Z) (l : location) : Prop :=
  m = n / d ∧
  match l with
  | loc_Exact => n mod d = 0
  | loc_Inexact Lt => 0 < n mod d ∧ 2 * (n mod d) < d
  | loc_Inexact Eq => 2 * (n mod d) = d
  | loc_Inexact Gt => d < 2 * (n mod d)
  end.

Lemma located_rne n d m l : 0 < d → located n d m l → round_nearest_even m l = rne n d.
Proof.
  intros Hd [-> Hl]. unfold rne. destruct l as [|[]]; cbn [round_nearest_even].
  - rewrite Hl, Z.mul_0_r. by destruct (Z.compare_spec 0 d); [lia| |lia].
  - by rewrite Hl, Z.compare_refl.
  - destruct (Z.compare_spec (2 * (n mod d)) d); [lia|done|lia].
  - destruct (Z.compare_spec (2 * (n mod d)) d); [lia|lia|done].
Qed.

Lemma loc_shr_record m l : loc_of_shr_record (shr_record_of_loc m l) = l ∧ shr_m (shr_record_of_loc m l) = m.
Proof. by destruct l as [|[]]. Qed.

Lemma shr_1_spec m r s : 0 ≤ m → shr_1 (Build_shr_record m r s) = Build_shr_record (m / 2) (Z.odd m) (r || s).
Proof. rewrite <- Z.div2_div. by destruct m as [|[p|p|]|p]. Qed.

(** The position at twice the unit. *)
Lemma located_half n d mrs :
  0 ≤ n → 0 < d → located n d (shr_m mrs) (loc_of_shr_record mrs) →
  located n (2 * d) (shr_m (shr_1 mrs)) (loc_of_shr_record (shr_1 mrs)).
Proof.
  destruct mrs as [m r s]. cbn [shr_m]. intros Hn Hd [-> Hl].
  assert (0 ≤ n / d) as Hq0 by (by apply Z.div_pos). rewrite shr_1_spec by done.
  pose proof (Z.mod_pos_bound n d Hd) as Hr.
  assert (n / (2 * d) = (n / d) / 2 ∧ n mod (2 * d) = n mod d + d * ((n / d) mod 2)) as [Hq Hm].
  { rewrite (Z.mul_comm 2 d), <- Z.div_div, Z.rem_mul_r by lia. lia. }
  unfold located. rewrite Hq, Hm, Zmod_odd. cbn [shr_m]. split; [done|].
  destruct r, s, (Z.odd (n / d)); cbn [orb loc_of_shr_record] in *; lia.
Qed.

Lemma located_iter n d p : ∀ mrs, 0 ≤ n → 0 < d → located n d (shr_m mrs) (loc_of_shr_record mrs) →
  let mrs' := iter_pos shr_1 p mrs in located n (d * 2 ^ Z.pos p) (shr_m mrs') (loc_of_shr_record mrs').
Proof.
  induction p as [|p IH] using Pos.peano_ind; intros mrs Hn Hd Hl; cbn zeta.
  - cbn [iter_pos]. replace (d * 2 ^ 1) with (2 * d) by lia. by apply located_half.
  - rewrite iter_pos_succ, Pos2Z.inj_succ, Z.pow_succ_r by lia.
    replace (d * (2 * 2 ^ Z.pos p)) with (2 * (d * 2 ^ Z.pos p)) by lia.
    apply located_half; [done| |by apply IH]. pose proof (Z.pow_pos_nonneg 2 (Z.pos p)). nia.
Qed.

Lemma located_shr n d m l e j :
  0 ≤ n → 0 < d → 0 ≤ j → located n d m l →
  ∃ mrs, shr (shr_record_of_loc m l) e j = (mrs, e + j) ∧
         located n (d * 2 ^ j) (shr_m mrs) (loc_of_shr_record mrs).
Proof.
  intros Hn Hd Hj Hl. destruct (loc_shr_record m l) as [Hloc Hm].
  destruct j as [|p|p]; [| |lia]; cbn [shr]; eexists; (split; [reflexivity || by rewrite Z.add_0_r|]).
  - rewrite Hm, Hloc. by replace (d * 2 ^ 0) with d by lia.
  - apply located_iter; [done..|]. by rewrite Hm, Hloc.
Qed.

(** ** Rounding to a precision *)

Section rounding.
Context (prec emax : Z) (Hprec : 1 < prec) (Hemax : prec < emax).

Abbreviation unit := (- emin prec emax).

Lemma unit_pos : 0 < unit.
Proof. unfold emin. lia. Qed.

(** The exponent, in units, to which [n / d] is rounded. *)
Definition kexp (n d : Z) : Z := Z.max 0 (Z.log2 (n / d) - (prec - 1)).

Definition rnd (n d : Z) : Z := let k := kexp n d in rne n (d * 2 ^ k) * 2 ^ k.

Lemma kexp_nonneg n d : 0 ≤ kexp n d.
Proof. unfold kexp. lia. Qed.

Lemma pow2_pos k : 0 ≤ k → 0 < 2 ^ k.
Proof. intros. by apply Z.pow_pos_nonneg. Qed.

#[local] Hint Resolve kexp_nonneg pow2_pos : core.

Lemma frac_le_div n1 d1 n2 d2 : 0 < d1 → 0 < d2 → n1 * d2 ≤ n2 * d1 → n1 / d1 ≤ n2 / d2.
Proof.
  intros H1 H2 Hle. apply Z.div_le_lower_bound; [done|].
  pose proof (Z.mul_div_le n1 d1 H1). nia.
Qed.

Lemma kexp_mono n1 d1 n2 d2 : 0 < d1 → 0 < d2 → n1 * d2 ≤ n2 * d1 → kexp n1 d1 ≤ kexp n2 d2.
Proof.
  intros H1 H2 Hle. unfold kexp. pose proof (Z.log2_le_mono _ _ (frac_le_div _ _ _ _ H1 H2 Hle)). lia.
Qed.

(** Below the precision's range at this exponent, and inside the binade above the least. *)
Lemma kexp_upper n d : 0 ≤ n → 0 < d → n < d * 2 ^ (kexp n d + prec).
Proof.
  intros Hn Hd. assert (n / d < 2 ^ (kexp n d + prec)) as Hlt.
  { destruct (Z.eq_dec (n / d) 0) as [->|Hne]; [pose proof (kexp_nonneg n d); apply pow2_pos; lia|].
    assert (0 < n / d) by (pose proof (Z.div_pos n d); lia).
    apply Z.log2_lt_pow2; [done|]. unfold kexp. lia. }
  pose proof (Z.div_mod n d ltac:(lia)). pose proof (Z.mod_pos_bound n d Hd). nia.
Qed.

Lemma kexp_lower n d : 0 ≤ n → 0 < d → 0 < kexp n d → d * 2 ^ (kexp n d + prec - 1) ≤ n.
Proof.
  intros Hn Hd Hk. assert (kexp n d + prec - 1 = Z.log2 (n / d)) as -> by (unfold kexp in *; lia).
  assert (0 < n / d).
  { destruct (Z.eq_dec (n / d) 0) as [E|]; [|pose proof (Z.div_pos n d); lia].
    unfold kexp in Hk. rewrite E in Hk. cbn in Hk. lia. }
  pose proof (Z.log2_spec (n / d) ltac:(lia)). pose proof (Z.mul_div_le n d Hd). nia.
Qed.

Lemma mantissa_bounds n d : 0 ≤ n → 0 < d →
  0 ≤ rne n (d * 2 ^ kexp n d) ≤ 2 ^ prec ∧ (0 < kexp n d → 2 ^ (prec - 1) ≤ rne n (d * 2 ^ kexp n d)).
Proof.
  intros Hn Hd. pose proof (kexp_nonneg n d) as Hk. pose proof (pow2_pos _ Hk).
  assert (0 < d * 2 ^ kexp n d) by nia. split_and!.
  - apply rne_ge; nia.
  - apply rne_le; [done|]. pose proof (kexp_upper n d Hn Hd) as Hu. rewrite Z.pow_add_r in Hu by lia. nia.
  - intros Hk'. apply rne_ge; [done|]. pose proof (kexp_lower n d Hn Hd Hk') as Hl.
    replace (kexp n d + prec - 1) with (kexp n d + (prec - 1)) in Hl by lia. rewrite Z.pow_add_r in Hl by lia. nia.
Qed.

Lemma rnd_mono n1 d1 n2 d2 : 0 ≤ n1 → 0 ≤ n2 → 0 < d1 → 0 < d2 → n1 * d2 ≤ n2 * d1 → rnd n1 d1 ≤ rnd n2 d2.
Proof.
  intros Hn1 Hn2 H1 H2 Hle. unfold rnd. pose proof (kexp_mono _ _ _ _ H1 H2 Hle) as Hk.
  pose proof (kexp_nonneg n1 d1) as Hk1. pose proof (kexp_nonneg n2 d2) as Hk2.
  pose proof (pow2_pos _ Hk1). pose proof (pow2_pos _ Hk2).
  destruct (Z.eq_dec (kexp n1 d1) (kexp n2 d2)) as [E|Hne].
  - rewrite E in *. apply Z.mul_le_mono_nonneg_r; [lia|]. apply rne_mono; nia.
  - destruct (mantissa_bounds n1 d1 Hn1 H1) as [[_ Hup] _]. destruct (mantissa_bounds n2 d2 Hn2 H2) as [_ Hlo].
    specialize (Hlo ltac:(lia)).
    trans (2 ^ prec * 2 ^ kexp n1 d1); [nia|]. trans (2 ^ (prec - 1) * 2 ^ kexp n2 d2); [|nia].
    rewrite <- !Z.pow_add_r by lia. apply Z.pow_le_mono_r; lia.
Qed.

Lemma rnd_nonneg n d : 0 ≤ n → 0 < d → 0 ≤ rnd n d.
Proof. intros Hn Hd. unfold rnd. destruct (mantissa_bounds n d Hn Hd) as [[? _] _]. pose proof (pow2_pos _ (kexp_nonneg n d)). nia. Qed.

Lemma kexp_scale c n d : 0 < c → 0 < d → kexp (n * c) (d * c) = kexp n d.
Proof. intros. unfold kexp. by rewrite Z.div_mul_cancel_r by lia. Qed.

Lemma rnd_scale c n d : 0 < c → 0 < d → rnd (n * c) (d * c) = rnd n d.
Proof.
  intros. unfold rnd. rewrite kexp_scale by done. f_equal.
  replace (d * c * 2 ^ kexp n d) with (d * 2 ^ kexp n d * c) by lia. apply rne_scale; [done|].
  pose proof (pow2_pos _ (kexp_nonneg n d)). nia.
Qed.

(** ** Values *)

(** The value of an infinity, one step beyond the largest finite one. *)
Definition over : Z := 2 ^ (emax + unit).

Definition fv (x : spec_float) : Z :=
  match x with
  | S754_finite s m e => cond_Zopp s (Z.pos m * 2 ^ (e + unit))
  | S754_infinity s => cond_Zopp s over
  | _ => 0
  end.

Definition number (x : spec_float) : Prop := valid_binary prec emax x = true ∧ x ≠ S754_nan.

Lemma bounded_value m e :
  bounded prec emax m e = true → 0 ≤ e + unit ∧ 0 < Z.pos m * 2 ^ (e + unit) < over.
Proof.
  unfold bounded, canonical_mantissa. rewrite andb_true_iff, Z.eqb_eq, Z.leb_le, digits2_bits.
  intros [Hc He]. unfold fexp in Hc. assert (0 ≤ e + unit) as Hu by lia. pose proof (pow2_pos _ Hu).
  split; [done|]. split; [nia|]. unfold over.
  assert (Z.pos m < 2 ^ prec) as Hm.
  { unfold bits in Hc. apply Z.log2_lt_pow2; lia. }
  replace (emax + unit) with (prec + (emax - prec - e) + (e + unit)) by lia.
  rewrite (Z.pow_add_r 2 (_ + _)), (Z.pow_add_r 2 prec) by lia. pose proof (pow2_pos (emax - prec - e) ltac:(lia)).
  pose proof (pow2_pos prec ltac:(lia)). apply Z.mul_lt_mono_pos_r; [done|].
  apply (Z.lt_le_trans _ (2 ^ prec)); [done|]. set (a := 2 ^ prec) in *. set (b := 2 ^ (emax - prec - e)) in *. nia.
Qed.

Lemma over_pos : 0 < over.
Proof. apply pow2_pos. pose proof unit_pos. lia. Qed.
Lemma bounded_mantissa m e :
  bounded prec emax m e = true → Z.pos m < 2 ^ prec ∧ (0 < e + unit → 2 ^ (prec - 1) ≤ Z.pos m).
Proof.
  unfold bounded, canonical_mantissa. rewrite andb_true_iff, Z.eqb_eq, Z.leb_le, digits2_bits.
  intros [Hc He]. unfold fexp, bits in Hc. split; [apply Z.log2_lt_pow2; lia|].
  intros Hu. replace (prec - 1) with (Z.log2 (Z.pos m)) by lia. apply Z.log2_spec. lia.
Qed.

Lemma bounded_exponent_lt m1 e1 m2 e2 :
  bounded prec emax m1 e1 = true → bounded prec emax m2 e2 = true → e1 < e2 →
  Z.pos m1 * 2 ^ (e1 + unit) < Z.pos m2 * 2 ^ (e2 + unit).
Proof.
  intros H1 H2 Hlt. destruct (bounded_value _ _ H1) as [Hu1 _]. destruct (bounded_mantissa _ _ H1) as [Hm1 _].
  destruct (bounded_mantissa _ _ H2) as [_ Hm2]. specialize (Hm2 ltac:(lia)).
  pose proof (pow2_pos _ Hu1). pose proof (pow2_pos (prec - 1) ltac:(lia)).
  replace (e2 + unit) with (1 + (e2 - e1 - 1) + (e1 + unit)) by lia.
  rewrite (Z.pow_add_r 2 (_ + _)), (Z.pow_add_r 2 1) by lia. pose proof (pow2_pos (e2 - e1 - 1) ltac:(lia)).
  assert (2 ^ prec = 2 * 2 ^ (prec - 1)) as Hp by (rewrite <- Z.pow_succ_r by lia; f_equal; lia).
  change (2 ^ 1) with 2. rewrite Z.mul_assoc. apply Z.mul_lt_mono_pos_r; [done|].
  set (a := 2 ^ (prec - 1)) in *. set (b := 2 ^ (e2 - e1 - 1)) in *. nia.
Qed.

Lemma bounded_compare m1 e1 m2 e2 :
  bounded prec emax m1 e1 = true → bounded prec emax m2 e2 = true →
  (Z.pos m1 * 2 ^ (e1 + unit) ?= Z.pos m2 * 2 ^ (e2 + unit)) =
  match e1 ?= e2 with Lt => Lt | Gt => Gt | Eq => Pos.compare_cont Eq m1 m2 end.
Proof.
  intros H1 H2. destruct (Z.compare_spec e1 e2) as [<-|Hlt|Hlt].
  - destruct (bounded_value _ _ H1) as [Hu _]. pose proof (pow2_pos _ Hu).
    rewrite <- Zmult_compare_compat_r by lia. done.
  - by apply Z.compare_lt_iff, bounded_exponent_lt.
  - by apply Z.compare_gt_iff, bounded_exponent_lt.
Qed.

Lemma SFcompare_fv x y : number x → number y → SFcompare x y = Some (fv x ?= fv y).
Proof.
  intros [Hx Nx] [Hy Ny]. pose proof over_pos.
  destruct x as [sx|sx| |sx mx ex], y as [sy|sy| |sy my ey]; try done; cbn [valid_binary] in Hx, Hy;
    try (destruct (bounded_value _ _ Hx) as [_ Bx]); try (destruct (bounded_value _ _ Hy) as [_ By]);
    cbn [fv SFcompare]; f_equal.
  all: try (destruct sx); try (destruct sy); cbn [cond_Zopp]; rewrite ?Z.compare_opp, ?bounded_compare by done;
    try done; symmetry; try (apply Z.compare_lt_iff; lia); try (apply Z.compare_gt_iff; lia);
    try (apply Z.compare_eq_iff; lia).
  change (Pos.compare_cont Eq) with Pos.compare.
  rewrite (Z.compare_antisym ex ey), (Pos.compare_antisym mx my). by destruct (ex ?= ey).
Qed.

Lemma SFleb_fv x y : number x → number y → SFleb x y = (fv x <=? fv y).
Proof. intros. unfold SFleb. rewrite SFcompare_fv by done. by unfold Z.leb; destruct (_ ?= _). Qed.

Lemma SFltb_fv x y : number x → number y → SFltb x y = (fv x <? fv y).
Proof. intros. unfold SFltb. rewrite SFcompare_fv by done. by unfold Z.ltb; destruct (_ ?= _). Qed.

(** ** The rounding step of [SpecFloat] *)

Lemma kexp_located n d a b m e :
  0 ≤ n → 0 < d → 0 ≤ a → 0 ≤ b → b - a = e + unit → 0 < m → m = (n * 2 ^ a) / (d * 2 ^ b) →
  fexp prec emax (bits m + e) = kexp n d - unit.
Proof.
  intros Hn Hd Ha Hb He Hm Hq. pose proof (pow2_pos a Ha). pose proof (pow2_pos b Hb).
  unfold fexp, kexp, bits.
  assert (Z.max 0 (Z.log2 (n / d) - (prec - 1)) = Z.max 0 (Z.log2 m + e + unit - (prec - 1))) as ->; [|lia].
  destruct (Z.le_gt_cases a b) as [Hab|Hab].
  - assert (m = (n / d) / 2 ^ (b - a)) as Hm'.
    { rewrite Hq, Z.div_div by (try apply pow2_pos; lia). rewrite <- (Z.div_mul_cancel_r n (d * 2 ^ (b - a)) (2 ^ a)).
      - f_equal. rewrite <- Z.mul_assoc, <- Z.pow_add_r by lia. do 2 f_equal. lia.
      - pose proof (pow2_pos (b - a) ltac:(lia)). nia.
      - lia. }
    rewrite <- Z.shiftr_div_pow2 in Hm' by lia.
    assert (0 < n / d) as Hnd.
    { destruct (Z.eq_dec (n / d) 0) as [E|]; [|pose proof (Z.div_pos n d); lia].
      rewrite E, Z.shiftr_0_l in Hm'. lia. }
    pose proof (Z.log2_shiftr (n / d) (b - a) Hnd) as Hl. rewrite <- Hm' in Hl.
    assert (b - a ≤ Z.log2 (n / d)) as Hge; [|lia].
    apply Z.log2_le_pow2; [done|]. rewrite Z.shiftr_div_pow2 in Hm' by lia.
    pose proof (Z.mul_div_le (n / d) (2 ^ (b - a)) (pow2_pos (b - a) ltac:(lia))). nia.
  - assert (n / d = m / 2 ^ (a - b)) as Hm'.
    { rewrite Hq, Z.div_div by (try apply pow2_pos; nia).
      rewrite <- (Z.div_mul_cancel_r n d (2 ^ a)) by lia. f_equal.
      rewrite <- Z.mul_assoc, <- Z.pow_add_r by lia. do 2 f_equal. lia. }
    rewrite Hm', <- Z.shiftr_div_pow2, Z.log2_shiftr by lia. lia.
Qed.

Lemma bits_unique m k : 0 ≤ k → 2 ^ k ≤ m < 2 ^ (k + 1) → bits m = k + 1.
Proof. intros. unfold bits. by rewrite (Z.log2_unique m k) by lia. Qed.

Lemma round_carry s M e :
  0 ≤ M ≤ 2 ^ prec → 0 ≤ e + unit → (0 < e + unit → 2 ^ (prec - 1) ≤ M) →
  let '(mrs, e') := shr_fexp prec emax M e loc_Exact in
  let x := match shr_m mrs with
           | Z0 => S754_zero s
           | Z.pos m => if e' <=? emax - prec then S754_finite s m e' else S754_infinity s
           | _ => S754_nan
           end in
  number x ∧ fv x = cond_Zopp s (Z.min (M * 2 ^ (e + unit)) over).
Proof.
  intros HM He Hlo. pose proof (pow2_pos _ He) as Hpe. pose proof over_pos as Hover.
  unfold shr_fexp. cbn [shr_record_of_loc].
  destruct (Z.eq_dec M 0) as [->|HM0].
  { cbn [Zdigits2]. assert (fexp prec emax (0 + e) - e ≤ 0) as Hz by (unfold fexp; lia).
    destruct (fexp prec emax (0 + e) - e) as [|p|p]; [| |]; try lia; cbn [shr shr_m];
      (split; [done|]); cbn [fv]; rewrite Z.mul_0_l, Z.min_l by lia; by destruct s. }
  destruct M as [|p|p]; [done| |lia]. cbn [Zdigits2]. rewrite digits2_bits.
  destruct (Z.eq_dec (Z.pos p) (2 ^ prec)) as [Hc|Hc].
  - assert (bits (Z.pos p) = prec + 1) as Hb.
    { rewrite Hc. apply bits_unique; [lia|]. split; [lia|]. apply Z.pow_lt_mono_r; lia. }
    assert (fexp prec emax (bits (Z.pos p) + e) - e = 1) as -> by (rewrite Hb; unfold fexp; lia).
    cbn [shr iter_pos].
    assert (2 ^ prec = 2 * 2 ^ (prec - 1)) as Hp by (rewrite <- Z.pow_succ_r by lia; f_equal; lia).
    rewrite Hc, Hp, shr_1_double by (pose proof (pow2_pos (prec - 1)); lia). cbn [shr_m].
    assert (bits (2 ^ (prec - 1)) = prec) as Hb'.
    { replace prec with (prec - 1 + 1) at 2 by lia. apply bits_unique; [lia|]. split; [lia|]. apply Z.pow_lt_mono_r; lia. }
    destruct (2 ^ (prec - 1)) as [|q|q] eqn:Hq; [pose proof (pow2_pos (prec - 1)); lia| |pose proof (pow2_pos (prec - 1)); lia].
    assert (Z.pos q * 2 ^ (e + 1 + unit) = 2 * Z.pos q * 2 ^ (e + unit)) as Hv.
    { replace (e + 1 + unit) with (1 + (e + unit)) by lia. rewrite (Z.pow_add_r 2 1) by lia. lia. }
    destruct (Z.leb_spec (e + 1) (emax - prec)) as [Hle|Hgt].
    + assert (bounded prec emax q (e + 1) = true) as Hbd.
      { unfold bounded, canonical_mantissa. rewrite digits2_bits, Hb', andb_true_iff, Z.eqb_eq, Z.leb_le.
        unfold fexp. lia. }
      split; [done|]. cbn [fv]. destruct (bounded_value _ _ Hbd) as [_ Hlt]. rewrite Z.min_l by lia. by rewrite Hv.
    + split; [done|]. cbn [fv]. rewrite Z.min_r; [done|].
      rewrite <- Hp, <- Z.pow_add_r by lia. apply Z.pow_le_mono_r; lia.
  - assert (fexp prec emax (bits (Z.pos p) + e) = e) as Hfe.
    { pose proof (bits_le (Z.pos p) prec ltac:(lia)). unfold fexp.
      destruct (Z.eq_dec (e + unit) 0); [lia|].
      replace (bits (Z.pos p)) with prec; [lia|]. specialize (Hlo ltac:(lia)).
      replace prec with (prec - 1 + 1) at 1 by lia. symmetry. apply bits_unique; [lia|].
      split; [done|]. replace (prec - 1 + 1) with prec by lia. lia. }
    rewrite Hfe, Z.sub_diag. cbn [shr shr_m].
    destruct (Z.leb_spec e (emax - prec)) as [Hle|Hgt].
    + assert (bounded prec emax p e = true) as Hbd.
      { unfold bounded, canonical_mantissa. rewrite digits2_bits, Hfe, Z.eqb_refl. by apply Z.leb_le. }
      split; [done|]. cbn [fv]. destruct (bounded_value _ _ Hbd) as [_ Hlt]. by rewrite Z.min_l by lia.
    + split; [done|]. cbn [fv]. rewrite Z.min_r; [done|]. unfold over.
      trans (2 ^ (prec - 1) * 2 ^ (e + unit)); [|apply Z.mul_le_mono_nonneg_r; [lia|]; apply Hlo; unfold emin; lia].
      rewrite <- Z.pow_add_r by lia. apply Z.pow_le_mono_r; lia.
Qed.

Lemma round_aux_value s n d a b m e l :
  0 ≤ n → 0 < d → 0 ≤ a → 0 ≤ b → b - a = e + unit → 0 < m → e ≤ fexp prec emax (bits m + e) →
  located (n * 2 ^ a) (d * 2 ^ b) m l →
  let x := binary_round_aux prec emax s m e l in number x ∧ fv x = cond_Zopp s (Z.min (rnd n d) over).
Proof.
  intros Hn Hd Ha Hb He Hm Hf Hl. cbn zeta.
  generalize (eq_refl (binary_round_aux prec emax s m e l)). generalize (binary_round_aux prec emax s m e l) at 2 3 4.
  intros x. unfold binary_round_aux, shr_fexp at 1.
  pose proof (pow2_pos a Ha). pose proof (pow2_pos b Hb).
  pose proof (kexp_located n d a b m e Hn Hd Ha Hb He Hm (proj1 Hl)) as Hk.
  assert (Zdigits2 m = bits m) as -> by (destruct m; [lia|apply digits2_bits|lia]).
  destruct (located_shr (n * 2 ^ a) (d * 2 ^ b) m l e (fexp prec emax (bits m + e) - e)) as (mrs & -> & Hl');
    [nia|nia|lia|done|].
  pose proof (kexp_nonneg n d) as Hk0. pose proof (pow2_pos _ Hk0).
  assert (d * 2 ^ b * 2 ^ (fexp prec emax (bits m + e) - e) = d * 2 ^ kexp n d * 2 ^ a) as HD.
  { rewrite <- !Z.mul_assoc, <- (Z.pow_add_r 2 b), <- (Z.pow_add_r 2 (kexp n d)) by lia. do 2 f_equal. lia. }
  assert (0 < d * 2 ^ kexp n d) by (by apply Z.mul_pos_pos).
  rewrite HD in Hl'. apply located_rne in Hl'; [|by apply Z.mul_pos_pos]. rewrite Hl', rne_scale by done.
  replace (e + (fexp prec emax (bits m + e) - e)) with (kexp n d - unit) by lia.
  destruct (mantissa_bounds n d Hn Hd) as [HM HM'].
  pose proof (round_carry s (rne n (d * 2 ^ kexp n d)) (kexp n d - unit) HM) as Hc.
  destruct (shr_fexp _ _ _ _ _) as [mrs' e']. destruct Hc as [Hnum Hfv]; [lia|intros ?; apply HM'; lia|].
  intros <-. split; [done|]. etrans; [exact Hfv|]. unfold rnd. by replace (kexp n d - unit + unit) with (kexp n d) by lia.
Qed.

(** The signed rounding of [n / d], with overflow. *)
Definition srnd (n d : Z) : Z := Z.sgn n * Z.min (rnd (Z.abs n) d) over.

Lemma srnd_opp n d : srnd (- n) d = - srnd n d.
Proof. unfold srnd. rewrite Z.sgn_opp, Z.abs_opp. lia. Qed.

Lemma srnd_pos n d : 0 ≤ n → srnd n d = Z.min (rnd n d) over ∨ n = 0 ∧ srnd n d = 0.
Proof. intros. unfold srnd. destruct (Z.eq_dec n 0) as [->|]; [by right|left]. rewrite Z.sgn_pos, Z.abs_eq by lia. lia. Qed.

Lemma srnd_nonneg n d : 0 ≤ n → 0 < d → 0 ≤ srnd n d.
Proof.
  intros Hn Hd. pose proof (rnd_nonneg n d Hn Hd). pose proof over_pos.
  destruct (srnd_pos n d Hn) as [->|[_ ->]]; lia.
Qed.

Lemma srnd_mono n1 d1 n2 d2 : 0 < d1 → 0 < d2 → n1 * d2 ≤ n2 * d1 → srnd n1 d1 ≤ srnd n2 d2.
Proof.
  assert (∀ n1 d1 n2 d2, 0 ≤ n1 → 0 ≤ n2 → 0 < d1 → 0 < d2 → n1 * d2 ≤ n2 * d1 → srnd n1 d1 ≤ srnd n2 d2) as Hpos.
  { intros m1 e1 m2 e2 Hm1 Hm2 He1 He2 Hle. pose proof (rnd_mono _ _ _ _ Hm1 Hm2 He1 He2 Hle).
    pose proof (srnd_nonneg m2 e2 Hm2 He2).
    destruct (srnd_pos m1 e1 Hm1) as [->|[-> ->]]; [|done].
    destruct (srnd_pos m2 e2 Hm2) as [->|[-> ->]]; [lia|].
    assert (m1 = 0) as -> by nia. pose proof over_pos. pose proof (rnd_mono 0 e1 0 e1).
    assert (rnd 0 e1 = 0) as ->; [|lia]. unfold rnd. rewrite <- (Z.mul_0_l (e1 * 2 ^ kexp 0 e1)) at 1.
    rewrite rne_exact; [lia|]. pose proof (pow2_pos _ (kexp_nonneg 0 e1)). nia. }
  intros H1 H2 Hle. destruct (Z.le_gt_cases 0 n1), (Z.le_gt_cases 0 n2).
  - by apply Hpos.
  - nia.
  - pose proof (srnd_nonneg n2 d2 ltac:(lia) H2). pose proof (srnd_nonneg (- n1) d1 ltac:(lia) H1).
    rewrite srnd_opp in *. lia.
  - pose proof (Hpos (- n2) d2 (- n1) d1). rewrite !srnd_opp in *. lia.
Qed.

(** ** The operations *)

Lemma binary_round_value s m e : 0 ≤ e + unit →
  let x := binary_round prec emax s m e in
  number x ∧ fv x = cond_Zopp s (Z.min (rnd (Z.pos m * 2 ^ (e + unit)) 1) over).
Proof.
  intros He. cbn zeta. unfold binary_round, shl_align. rewrite digits2_bits.
  pose proof (pow2_pos _ He). set (f := fexp prec emax (bits (Z.pos m) + e)).
  assert (0 ≤ f + unit) by (unfold f, fexp; lia).
  destruct (f - e) as [|p|p] eqn:Hd.
  1, 2: apply (round_aux_value s _ 1 0 (e + unit)); fold f; try lia;
    split; rewrite Z.mul_1_r, Z.mul_1_l; [by rewrite Z.div_mul by lia|by rewrite Z.mod_mul by lia].
  assert (Z.pos (Pos.iter xO m p) = Z.pos m * 2 ^ (e - f)) as Hp by (rewrite pos_iter_xO; do 2 f_equal; lia).
  pose proof (pow2_pos (f + unit) ltac:(lia)).
  assert (Z.pos m * 2 ^ (e + unit) = Z.pos m * 2 ^ (e - f) * 2 ^ (f + unit)) as Hn.
  { rewrite <- Z.mul_assoc, <- Z.pow_add_r by lia. do 2 f_equal. lia. }
  apply (round_aux_value s _ 1 0 (f + unit)); try lia.
  - rewrite Hp, bits_mul_pow2 by lia. replace (bits (Z.pos m) + (e - f) + f) with (bits (Z.pos m) + e) by lia. fold f. lia.
  - rewrite Hp, Hn. split; rewrite Z.mul_1_r, Z.mul_1_l; [by rewrite Z.div_mul by lia|by rewrite Z.mod_mul by lia].
Qed.

Lemma normalize_value v e z : 0 ≤ e + unit →
  let x := binary_normalize prec emax v e z in number x ∧ fv x = srnd (v * 2 ^ (e + unit)) 1.
Proof.
  intros He. pose proof (pow2_pos _ He). cbn zeta. unfold srnd. destruct v as [|p|p]; cbn [binary_normalize].
  - done.
  - destruct (binary_round_value false p e He) as [Hn ->]. split; [done|]. cbn [cond_Zopp].
    rewrite Z.sgn_pos, Z.abs_eq by lia. lia.
  - destruct (binary_round_value true p e He) as [Hn ->]. split; [done|]. cbn [cond_Zopp].
    rewrite Z.sgn_neg, Z.abs_neq by lia.
    replace (- (Z.neg p * 2 ^ (e + unit))) with (Z.pos p * 2 ^ (e + unit)) by lia. lia.
Qed.

Definition finite (x : spec_float) : Prop :=
  number x ∧ match x with S754_infinity _ => False | _ => True end.

Lemma finite_value s m e : finite (S754_finite s m e) → 0 ≤ e + unit.
Proof. intros [[Hb _] _]. by apply bounded_value in Hb as [? _]. Qed.

Lemma finite_lt x : finite x → - over < fv x < over.
Proof.
  pose proof over_pos. intros [[Hb _] Hf]. destruct x as [s|s| |s m e]; try done.
  - simpl. lia.
  - simpl. lia.
  - apply bounded_value in Hb as [_ ?]. cbn [fv]. destruct s; cbn [cond_Zopp]; lia.
Qed.

Lemma number_finite x : number x → - over < fv x < over → finite x.
Proof. intros Hn Hf. split; [done|]. destruct x as [|[]| |]; try done; simpl in Hf; lia. Qed.

(** A float rounds to itself. *)
Lemma rnd_float m e : bounded prec emax m e = true → rnd (Z.pos m * 2 ^ (e + unit)) 1 = Z.pos m * 2 ^ (e + unit).
Proof.
  intros Hb. destruct (bounded_value m e Hb) as [Hu _]. destruct (bounded_mantissa m e Hb) as [Hm Hm'].
  pose proof (pow2_pos _ Hu). unfold rnd.
  assert (kexp (Z.pos m * 2 ^ (e + unit)) 1 = e + unit) as ->.
  { unfold kexp. rewrite Z.div_1_r, Z.log2_mul_pow2 by lia.
    assert (Z.log2 (Z.pos m) < prec) by (apply Z.log2_lt_pow2; lia).
    destruct (Z.eq_dec (e + unit) 0); [lia|].
    assert (prec - 1 ≤ Z.log2 (Z.pos m)) by (apply Z.log2_le_pow2; [lia|apply Hm'; lia]). lia. }
  rewrite Z.mul_1_l, rne_exact by done. done.
Qed.

Lemma srnd_float x : finite x → srnd (fv x) 1 = fv x.
Proof.
  intros Hx. pose proof (finite_lt x Hx). destruct Hx as [[Hb _] Hf]. destruct x as [s|s| |s m e]; try done.
  cbn [valid_binary] in Hb. pose proof (rnd_float m e Hb) as Hr. destruct (bounded_value m e Hb) as [_ Hv].
  assert (srnd (Z.pos m * 2 ^ (e + unit)) 1 = Z.pos m * 2 ^ (e + unit)) as Hs.
  { unfold srnd. rewrite Z.sgn_pos, Z.abs_eq, Hr by lia. lia. }
  destruct s; cbn [fv cond_Zopp]; rewrite ?srnd_opp, Hs; done.
Qed.

Lemma shl_align_value m e e' : e' ≤ e → Z.pos (fst (shl_align m e e')) * 2 ^ (e' + unit) = Z.pos m * 2 ^ (e + unit) ∨ e' + unit < 0.
Proof.
  intros He. destruct (Z.lt_ge_cases (e' + unit) 0) as [|Hu]; [by right|left]. unfold shl_align.
  destruct (e' - e) as [|p|p] eqn:Hd; [|lia|]; cbn [fst].
  - do 3 f_equal. lia.
  - rewrite pos_iter_xO, <- Z.mul_assoc, <- Z.pow_add_r by lia. do 2 f_equal. lia.
Qed.

Theorem SFadd_value x y : finite x → finite y →
  number (SFadd prec emax x y) ∧ fv (SFadd prec emax x y) = srnd (fv x + fv y) 1.
Proof.
  intros Hx Hy. pose proof (srnd_float x Hx) as Rx. pose proof (srnd_float y Hy) as Ry.
  destruct x as [sx|sx| |sx mx ex], y as [sy|sy| |sy my ey]; try (exfalso; by destruct Hx as [[] ?]); try (exfalso; by destruct Hy as [[] ?]).
  - cbn [SFadd]. by destruct sx, sy.
  - cbn [SFadd]. change (fv (S754_zero sx)) with 0. rewrite Z.add_0_l. split; [by destruct Hy|done].
  - cbn [SFadd]. change (fv (S754_zero sy)) with 0. rewrite Z.add_0_r. split; [by destruct Hx|done].
  - pose proof (finite_value _ _ _ Hx). pose proof (finite_value _ _ _ Hy). cbn [SFadd].
    destruct (normalize_value (cond_Zopp sx (Z.pos (fst (shl_align mx ex (Z.min ex ey)))) +
      cond_Zopp sy (Z.pos (fst (shl_align my ey (Z.min ex ey))))) (Z.min ex ey) false) as [Hn Hv]; [lia|].
    split; [done|]. rewrite Hv. f_equal. cbn [fv].
    destruct (shl_align_value mx ex (Z.min ex ey)) as [Ex|]; [lia| |lia].
    destruct (shl_align_value my ey (Z.min ex ey)) as [Ey|]; [lia| |lia].
    destruct sx, sy; cbn [cond_Zopp]; lia.
Qed.

Lemma bits_mul a b : 0 < a → 0 < b → bits a + bits b - 1 ≤ bits (a * b).
Proof. intros. unfold bits. pose proof (Z.log2_mul_below a b). lia. Qed.

Theorem SFmul_value x y : finite x → finite y →
  number (SFmul prec emax x y) ∧ fv (SFmul prec emax x y) = srnd (fv x * fv y) (2 ^ unit).
Proof.
  intros Hx Hy. pose proof unit_pos.
  destruct x as [sx|sx| |sx mx ex], y as [sy|sy| |sy my ey]; try (exfalso; by destruct Hx as [[] ?]); try (exfalso; by destruct Hy as [[] ?]).
  - done.
  - done.
  - cbn [SFmul fv]. by rewrite Z.mul_0_r.
  - pose proof (finite_value _ _ _ Hx). pose proof (finite_value _ _ _ Hy). cbn [SFmul].
    destruct Hx as [[Hx _] _], Hy as [[Hy _] _]. cbn [valid_binary] in Hx, Hy.
    assert (ex + ey ≤ fexp prec emax (bits (Z.pos (mx * my)) + (ex + ey))) as Hf.
    { pose proof (bits_mul (Z.pos mx) (Z.pos my) ltac:(lia) ltac:(lia)). unfold fexp.
      unfold bounded, canonical_mantissa in Hx, Hy. rewrite andb_true_iff, Z.eqb_eq, digits2_bits in Hx, Hy.
      unfold fexp in Hx, Hy. rewrite Pos2Z.inj_mul.
      assert (1 ≤ bits (Z.pos mx)) by (unfold bits; pose proof (Z.log2_nonneg (Z.pos mx)); lia).
      assert (1 ≤ bits (Z.pos my)) by (unfold bits; pose proof (Z.log2_nonneg (Z.pos my)); lia). lia. }
    set (n := Z.pos (mx * my) * 2 ^ (ex + ey + 2 * unit)).
    pose proof (pow2_pos (ex + ey + 2 * unit) ltac:(lia)). pose proof (pow2_pos unit ltac:(lia)).
    destruct (round_aux_value (xorb sx sy) n (2 ^ unit) unit (ex + ey + 2 * unit) (Z.pos (mx * my)) (ex + ey) loc_Exact)
      as [Hn Hv]; try lia.
    { assert (n * 2 ^ unit = Z.pos (mx * my) * (2 ^ unit * 2 ^ (ex + ey + 2 * unit))) as -> by (unfold n; lia).
      assert (0 < 2 ^ unit * 2 ^ (ex + ey + 2 * unit)) by (by apply Z.mul_pos_pos).
      split; [by rewrite Z.div_mul by lia|by rewrite Z.mod_mul by lia]. }
    split; [done|]. rewrite Hv.
    assert (Z.pos mx * 2 ^ (ex + unit) * (Z.pos my * 2 ^ (ey + unit)) = n) as En.
    { unfold n. replace (ex + ey + 2 * unit) with (ex + unit + (ey + unit)) by lia.
      rewrite (Z.pow_add_r 2 (ex + unit)) by lia. lia. }
    assert (0 < n) by (by apply Z.mul_pos_pos).
    assert (fv (S754_finite sx mx ex) * fv (S754_finite sy my ey) = cond_Zopp (xorb sx sy) n) as ->
      by (rewrite <- En; cbn [fv]; destruct sx, sy; cbn [cond_Zopp xorb]; lia).
    unfold srnd. destruct (xorb sx sy); cbn [cond_Zopp].
    + rewrite Z.sgn_neg, Z.abs_neq, Z.opp_involutive by lia. lia.
    + rewrite Z.sgn_pos, Z.abs_eq by lia. lia.
Qed.

(** *** Division *)

Lemma located_scale c n d m l : 0 < c → 0 < d → located n d m l → located (n * c) (d * c) m l.
Proof.
  intros Hc Hd [-> Hl]. unfold located. rewrite Z.div_mul_cancel_r, Z.mul_mod_distr_r by lia.
  split; [done|]. destruct l as [|[]]; nia.
Qed.

Lemma located_new_location n d : 0 < d → located n d (n / d) (new_location d (n mod d)).
Proof.
  intros Hd. split; [done|]. pose proof (Z.mod_pos_bound n d Hd). set (r := n mod d) in *.
  unfold new_location, new_location_even, new_location_odd.
  destruct (Z.even d) eqn:He; (destruct (Z.eqb_spec r 0); [done|]).
  - destruct (Z.compare_spec (2 * r) d); lia.
  - assert (2 * r ≠ d) by (intros E; rewrite <- E, Z.even_mul in He; done).
    destruct (Z.compare_spec (2 * r + 1) d); lia.
Qed.

Lemma quotient_digits m1 m2 s :
  0 < m1 → 0 < m2 → 0 ≤ s → 0 < m1 * 2 ^ s / m2 → bits m1 + s - bits m2 ≤ bits (m1 * 2 ^ s / m2).
Proof.
  intros H1 H2 Hs Hq. pose proof (pow2_pos s Hs). set (q := m1 * 2 ^ s / m2) in *.
  assert (bits m1 + s = bits (m1 * 2 ^ s)) as -> by (by rewrite bits_mul_pow2).
  assert (m1 * 2 ^ s < (q + 1) * m2) as Hlt.
  { pose proof (Z.div_mod (m1 * 2 ^ s) m2 ltac:(lia)). pose proof (Z.mod_pos_bound (m1 * 2 ^ s) m2 H2). fold q in H0. lia. }
  assert (m1 * 2 ^ s < 2 ^ (bits q + bits m2)) as Hb.
  { rewrite Z.pow_add_r by (unfold bits; pose proof (Z.log2_nonneg q); pose proof (Z.log2_nonneg m2); lia).
    assert (q + 1 ≤ 2 ^ bits q) by (pose proof (Z.log2_spec q Hq); unfold bits; lia).
    assert (m2 < 2 ^ bits m2) by (pose proof (Z.log2_spec m2 H2); unfold bits; lia). nia. }
  assert (0 < m1 * 2 ^ s) as Hpos by nia.
  pose proof (proj1 (Z.log2_lt_pow2 _ _ Hpos) Hb). unfold bits in *. lia.
Qed.

Lemma SFdiv_value m1 e1 m2 e2 :
  let x := S754_finite false m1 e1 in let y := S754_finite false m2 e2 in
  finite x → finite y → fv y ≤ fv x * 2 ^ unit →
  number (SFdiv prec emax x y) ∧ fv (SFdiv prec emax x y) = srnd (fv x * 2 ^ unit) (fv y).
Proof.
  cbn zeta. intros Hx Hy. pose proof unit_pos. pose proof (finite_value _ _ _ Hx) as Hu1.
  pose proof (finite_value _ _ _ Hy) as Hu2. cbn [fv cond_Zopp SFdiv xorb].
  pose proof (pow2_pos _ Hu1). pose proof (pow2_pos _ Hu2). pose proof (pow2_pos unit ltac:(lia)). intros Hge.
  unfold SFdiv_core_binary. cbn [Zdigits2]. rewrite !digits2_bits.
  set (D := bits (Z.pos m1) + e1 - (bits (Z.pos m2) + e2)). set (e' := Z.min (fexp prec emax D) (e1 - e2)).
  set (s := e1 - e2 - e'). assert (0 ≤ s) as Hs by (unfold s, e'; lia).
  assert (match s with Z.pos _ => Z.shiftl (Z.pos m1) s | 0 => Z.pos m1 | Z.neg _ => 0 end = Z.pos m1 * 2 ^ s) as ->.
  { destruct s as [|p|p] eqn:Es; [by rewrite Z.pow_0_r, Z.mul_1_r| |lia]. by rewrite Z.shiftl_mul_pow2 by lia. }
  pose proof (pow2_pos s Hs) as Hps.
  assert (Z.pos m2 ≤ Z.pos m1 * 2 ^ s) as Hm2.
  { destruct (Z.le_gt_cases e' (- unit)) as [Hle|Hgt].
    - assert (Z.pos m2 * 2 ^ (e2 + unit) ≤ Z.pos m1 * 2 ^ s * 2 ^ (e2 + unit)) as Hm; [|nia].
      trans (Z.pos m1 * 2 ^ (e1 + unit) * 2 ^ unit); [done|].
      rewrite <- !Z.mul_assoc, <- !Z.pow_add_r by lia. apply Z.mul_le_mono_nonneg_l; [lia|].
      apply Z.pow_le_mono_r; unfold s; lia.
    - assert (bits (Z.pos m2) + prec ≤ bits (Z.pos m1) + s) as Hbits by (unfold s, e', fexp in *; lia).
      rewrite <- (bits_mul_pow2 (Z.pos m1) s) in Hbits by lia. unfold bits in Hbits.
      assert (Z.log2 (Z.pos m2) < Z.log2 (Z.pos m1 * 2 ^ s)) by lia.
      destruct (Z.le_gt_cases (Z.pos m2) (Z.pos m1 * 2 ^ s)) as [|Hlt]; [done|].
      pose proof (Z.log2_le_mono _ _ (Z.lt_le_incl _ _ Hlt)). lia. }
  assert (0 < Z.pos m1 * 2 ^ s / Z.pos m2) as Hq by (apply Z.div_str_pos; lia).
  pose proof (quotient_digits (Z.pos m1) (Z.pos m2) s ltac:(lia) ltac:(lia) Hs Hq) as Hdig.
  pose proof (located_new_location (Z.pos m1 * 2 ^ s) (Z.pos m2) ltac:(lia)) as Hloc.
  unfold Z.div, Z.modulo in Hq, Hdig, Hloc. destruct (Z.div_eucl _ _) as [q r].
  assert (0 < Z.pos m1 * 2 ^ (e1 + unit) * 2 ^ unit) by (repeat apply Z.mul_pos_pos; lia).
  assert (0 < Z.pos m2 * 2 ^ (e2 + unit)) by (apply Z.mul_pos_pos; lia).
  destruct (round_aux_value false (Z.pos m1 * 2 ^ (e1 + unit) * 2 ^ unit) (Z.pos m2 * 2 ^ (e2 + unit))
    (Z.max 0 (- (e' + unit))) (Z.max 0 (e' + unit)) q e' (new_location (Z.pos m2) r)) as [Hn Hv]; try lia.
  - unfold fexp in *. unfold e' at 1. unfold s in Hdig. unfold D. lia.
  - set (b := Z.max 0 (e' + unit)) in *. set (a := Z.max 0 (- (e' + unit))) in *.
    assert (0 ≤ a ∧ 0 ≤ b ∧ b = e' + unit + a) as (Ha & Hb & Hab) by (unfold a, b; lia).
    pose proof (located_scale (2 ^ (e2 + unit + b)) _ (Z.pos m2) _ _ (pow2_pos (e2 + unit + b) ltac:(lia)) ltac:(lia) Hloc) as Hl.
    assert (Z.pos m1 * 2 ^ (e1 + unit) * 2 ^ unit * 2 ^ a = Z.pos m1 * 2 ^ s * 2 ^ (e2 + unit + b)) as ->.
    { rewrite <- !Z.mul_assoc, <- !Z.pow_add_r by lia. do 2 f_equal. unfold s, a, b. lia. }
    assert (Z.pos m2 * 2 ^ (e2 + unit) * 2 ^ b = Z.pos m2 * 2 ^ (e2 + unit + b)) as ->; [|done].
    rewrite <- !Z.mul_assoc, <- !Z.pow_add_r by lia. done.
  - split; [done|]. rewrite Hv. cbn [cond_Zopp]. unfold srnd. rewrite Z.sgn_pos, Z.abs_eq by lia. lia.
Qed.

Lemma SFsub_value x y : finite x → finite y →
  number (SFsub prec emax x y) ∧ fv (SFsub prec emax x y) = srnd (fv x - fv y) 1.
Proof.
  intros Hx Hy. pose proof (srnd_float x Hx) as Rx. pose proof (srnd_float y Hy) as Ry.
  destruct x as [sx|sx| |sx mx ex], y as [sy|sy| |sy my ey]; try (exfalso; by destruct Hx as [[] ?]); try (exfalso; by destruct Hy as [[] ?]).
  - cbn [SFsub]. by destruct sx, sy.
  - cbn [SFsub]. change (fv (S754_zero sx)) with 0. rewrite Z.sub_0_l, srnd_opp, Ry.
    split; [by destruct Hy as [[] _]|]. destruct sy; cbn [fv cond_Zopp negb]; lia.
  - cbn [SFsub]. change (fv (S754_zero sy)) with 0. rewrite Z.sub_0_r. split; [by destruct Hx|done].
  - pose proof (finite_value _ _ _ Hx). pose proof (finite_value _ _ _ Hy). cbn [SFsub].
    destruct (normalize_value (cond_Zopp sx (Z.pos (fst (shl_align mx ex (Z.min ex ey)))) -
      cond_Zopp sy (Z.pos (fst (shl_align my ey (Z.min ex ey))))) (Z.min ex ey) false) as [Hn Hv]; [lia|].
    split; [done|]. rewrite Hv. f_equal. cbn [fv].
    destruct (shl_align_value mx ex (Z.min ex ey)) as [Ex|]; [lia| |lia].
    destruct (shl_align_value my ey (Z.min ex ey)) as [Ey|]; [lia| |lia].
    destruct sx, sy; cbn [cond_Zopp]; lia.
Qed.

(** ** Monotonicity

    Of a bound and a number the bound is a lower one when [up] is false, an upper one when it
    is true; [cond_Zopp up] turns the second case into the first. *)

Lemma number_le x : number x → - over ≤ fv x ≤ over.
Proof.
  pose proof over_pos. intros Hn. destruct x as [s|s| |s m e]; try (simpl; destruct s; simpl; lia).
  - simpl. lia.
  - assert (finite (S754_finite s m e)) as ?%finite_lt by done. lia.
Qed.

Lemma number_infinite x s : number x → fv x = cond_Zopp s over → x = S754_infinity s.
Proof.
  pose proof over_pos. intros Hn Hv. destruct x as [s'|s'| |s' m e].
  - simpl in Hv. destruct s; simpl in Hv; lia.
  - simpl in Hv. f_equal. destruct s, s'; simpl in Hv; lia || done.
  - by destruct Hn.
  - assert (finite (S754_finite s' m e)) as ?%finite_lt by done. destruct s; simpl cond_Zopp in Hv; lia.
Qed.

(** A number not below a finite bound is finite or the infinity on the far side. *)
Lemma beyond_finite up b v :
  finite b → number v → cond_Zopp up (fv b) ≤ cond_Zopp up (fv v) → finite v ∨ v = S754_infinity up.
Proof.
  intros Hb Hv Hle. pose proof (finite_lt b Hb). pose proof (number_le v Hv).
  destruct (Z.eq_dec (fv v) (cond_Zopp up over)) as [E|Hne]; [right; by apply number_infinite|left].
  apply number_finite; [done|]. destruct up; simpl in *; lia.
Qed.

Lemma infinity_beyond up x : number x →
  number (S754_infinity up) ∧ cond_Zopp up (fv x) ≤ cond_Zopp up (fv (S754_infinity up)).
Proof. intros ?%number_le. split; [done|]. cbn [fv]. destruct up; cbn [cond_Zopp]; lia. Qed.

Lemma SFadd_mono up a b v p :
  finite a → finite b → number v → number p →
  cond_Zopp up (fv a) ≤ cond_Zopp up (fv v) → cond_Zopp up (fv b) ≤ cond_Zopp up (fv p) →
  number (SFadd prec emax v p) ∧ cond_Zopp up (fv (SFadd prec emax a b)) ≤ cond_Zopp up (fv (SFadd prec emax v p)).
Proof.
  intros Ha Hb Hv Hp Hav Hbp. destruct (SFadd_value a b Ha Hb) as [Hn Hf]. pose proof (number_le _ Hn) as Hle.
  destruct (beyond_finite up a v Ha Hv Hav) as [Fv| ->], (beyond_finite up b p Hb Hp Hbp) as [Fp| ->].
  - destruct (SFadd_value v p Fv Fp) as [Hn' Hf']. split; [done|]. rewrite Hf, Hf'.
    destruct up; simpl in *; [|apply srnd_mono; lia].
    pose proof (srnd_mono (fv v + fv p) 1 (fv a + fv b) 1). lia.
  - assert (SFadd prec emax v (S754_infinity up) = S754_infinity up) as ->
      by (by destruct Fv as [[] ?], v as [| | |]). by apply infinity_beyond.
  - assert (SFadd prec emax (S754_infinity up) p = S754_infinity up) as ->
      by (by destruct Fp as [[] ?], p as [| | |]). by apply infinity_beyond.
  - assert (SFadd prec emax (S754_infinity up) (S754_infinity up) = S754_infinity up) as -> by (by destruct up).
    by apply infinity_beyond.
Qed.

(** A factor of a known sign. *)
Lemma SFmul_infinity w s : finite w → fv w ≠ 0 →
  SFmul prec emax w (S754_infinity s) = S754_infinity (xorb (fv w <? 0) s).
Proof.
  intros [[Hb _] Hf] Hne. destruct w as [sw|sw| |sw m e]; try done. cbn [valid_binary] in Hb.
  destruct (bounded_value m e Hb) as [_ Hv]. cbn [SFmul fv]. f_equal. f_equal.
  destruct sw; cbn [cond_Zopp]; symmetry; [apply Z.ltb_lt|apply Z.ltb_ge]; lia.
Qed.

Lemma SFmul_mono w x y :
  finite w → number x → number y → finite x ∧ finite y ∨ fv w ≠ 0 → fv x ≤ fv y →
  let up := fv w <? 0 in
  number (SFmul prec emax w x) ∧ number (SFmul prec emax w y) ∧
  cond_Zopp up (fv (SFmul prec emax w x)) ≤ cond_Zopp up (fv (SFmul prec emax w y)).
Proof.
  intros Hw Hx Hy Hor Hle. cbn zeta. pose proof (pow2_pos unit ltac:(pose proof unit_pos; lia)).
  assert (∀ z, number z → finite z ∨ fv w ≠ 0 → number (SFmul prec emax w z)) as Hnum.
  { intros z Hz Hz'. destruct (decide (fv z = over)) as [E|], (decide (fv z = - over)) as [E'|].
    - pose proof over_pos. lia.
    - rewrite (number_infinite z false Hz E), SFmul_infinity in *; [done|done|].
      destruct Hz' as [[_ []]|]; done.
    - rewrite (number_infinite z true Hz E'), SFmul_infinity in *; [done|done|].
      destruct Hz' as [[_ []]|]; done.
    - apply SFmul_value; [done|]. apply number_finite; [done|]. pose proof (number_le z Hz). lia. }
  assert (number (SFmul prec emax w x)) as Nx by (apply Hnum; [done|naive_solver]).
  assert (number (SFmul prec emax w y)) as Ny by (apply Hnum; [done|naive_solver]).
  split_and!; [done..|]. pose proof (number_le _ Nx) as Lx. pose proof (number_le _ Ny) as Ly.
  pose proof (number_le x Hx). pose proof (number_le y Hy).
  destruct (decide (fv x = - over)) as [Ex|].
  { rewrite (number_infinite x true Hx Ex) in *. rewrite (SFmul_infinity w true); [|done|by destruct Hor as [[[_ []] _]|]].
    cbn [fv]. destruct (fv w <? 0); cbn [cond_Zopp xorb]; lia. }
  destruct (decide (fv y = over)) as [Ey|].
  { rewrite (number_infinite y false Hy Ey) in *. rewrite (SFmul_infinity w false); [|done|by destruct Hor as [[_ [_ []]]|]].
    cbn [fv]. destruct (fv w <? 0); cbn [cond_Zopp xorb]; lia. }
  destruct (SFmul_value w x Hw) as [_ ->]; [apply number_finite; [done|lia]|].
  destruct (SFmul_value w y Hw) as [_ ->]; [apply number_finite; [done|lia]|].
  destruct (Z.ltb_spec (fv w) 0); cbn [cond_Zopp].
  - assert (srnd (fv w * fv y) (2 ^ unit) ≤ srnd (fv w * fv x) (2 ^ unit)); [|lia].
    apply srnd_mono; [done..|]. apply Z.mul_le_mono_nonneg_r; nia.
  - apply srnd_mono; [done..|]. apply Z.mul_le_mono_nonneg_r; nia.
Qed.

Lemma bounded_iff m e :
  bounded prec emax m e = true ↔
  Z.pos m < 2 ^ prec ∧ 0 ≤ e + unit ∧ e ≤ emax - prec ∧ (e + unit = 0 ∨ 2 ^ (prec - 1) ≤ Z.pos m).
Proof.
  split.
  - intros Hb. destruct (bounded_mantissa m e Hb) as [Hm Hm']. destruct (bounded_value m e Hb) as [Hu _].
    unfold bounded in Hb. apply andb_true_iff in Hb as [_ He%Z.leb_le]. split_and!; [done..|].
    destruct (Z.eq_dec (e + unit) 0); [by left|right; apply Hm'; lia].
  - intros (Hm & Hu & He & Hor). unfold bounded, canonical_mantissa.
    rewrite andb_true_iff, Z.eqb_eq, Z.leb_le, digits2_bits. split; [|done].
    pose proof (bits_le (Z.pos m) prec ltac:(lia)). unfold fexp. destruct Hor as [Hz|Hl]; [lia|].
    assert (bits (Z.pos m) = prec); [|lia].
    replace prec with (prec - 1 + 1) by lia. apply bits_unique; [lia|]. replace (prec - 1 + 1) with prec by lia. lia.
Qed.
End rounding.
