(* ===== verification/Ensemble.v ===== *)
(** * The decision ensembles ([src/ensemble]).

    A packed decision tree followed by a two-layer network, for the DDoS and the scanner
    detector, with the weights the repository ships. Arithmetic is binary32 ([SpecFloat] with
    a precision of 24 and a maximal exponent of 128). [exp] belongs to the platform's libm
    and is a class. *)

From stdpp Require Import finite.
From S2P Require Import Prelude Float64.

(** ** Binary32 *)

Abbreviation f32 := spec_float.

Definition f32_add : f32 → f32 → f32 := SFadd 24 128.
Definition f32_sub : f32 → f32 → f32 := SFsub 24 128.
Definition f32_mul : f32 → f32 → f32 := SFmul 24 128.
Definition f32_div : f32 → f32 → f32 := SFdiv 24 128.

(** A decimal literal [n / 10^k], rounded to nearest. *)
Definition lit (n : Z) (k : nat) : f32 :=
  let ten_k := S754_finite false (Z.to_pos (10 ^ Z.of_nat k)) 0 in
  match n with
  | 0 => S754_zero false
  | Z.pos p => f32_div (S754_finite false p 0) ten_k
  | Z.neg p => f32_div (S754_finite true p 0) ten_k
  end.

(** [x as f32] and [x as f64] between the two widths. *)
Definition convert (prec emax : Z) (x : spec_float) : spec_float :=
  match x with
  | S754_finite s m e => binary_normalize prec emax (if s then Z.neg m else Z.pos m) e s
  | _ => x
  end.

Definition f64_as_f32 (x : f64) : f32 := convert 24 128 x.
Definition f32_as_f64 (x : f32) : f64 := convert 53 1024 x.

(** [f32::clamp(0.0, 1.0)]; a NaN stays. *)
Definition clamp01 (x : f32) : f32 :=
  if SFltb x (lit 0 0) then lit 0 0 else if SFltb (lit 1 0) x then lit 1 0 else x.

(** [f32::exp] and [f64::ln]. *)
Class Libm := {
  f32_exp : f32 → f32;
  f64_ln : f64 → f64;
}.

(** ** The tree ([tree.rs]) *)

Inductive TreeDecision := TreeBlock | TreeAllow | TreeDefer.

#[export] Instance TreeDecision_eq_dec : EqDecision TreeDecision.
Proof. solve_decision. Defined.

(** Feature index, threshold, left and right child; 255 marks a leaf. *)
Abbreviation PackedNode := (Z * f32 * nat * nat)%type.

Definition leaf_decision (threshold : f32) : TreeDecision :=
  if SFltb threshold (lit 25 2) then TreeAllow
  else if SFltb (lit 75 2) threshold then TreeBlock
  else TreeDefer.

(** One round of the loop: the next index or what the function ends with, [None] being the
    panic of an index out of range. *)
Definition tree_step (nodes : list PackedNode) (input : list f32) (idx : nat) :
    nat + option TreeDecision :=
  match nodes !! idx with
  | None => inr None
  | Some (feature, threshold, lchild, rchild) =>
      if feature =? 255 then inr (Some (leaf_decision threshold))
      else match input !! Z.to_nat feature with
           | None => inr None
           | Some x => inl (if SFleb x threshold then lchild else rchild)
           end
  end.

(** The loop; [None] when the fuel does not suffice. *)
Fixpoint tree_walk (fuel : nat) (nodes : list PackedNode) (input : list f32) (idx : nat) :
    option (option TreeDecision) :=
  match fuel with
  | O => None
  | S fuel =>
      match tree_step nodes input idx with
      | inr r => Some r
      | inl idx' => tree_walk fuel nodes input idx'
      end
  end.

Definition tree_predict (nodes : list PackedNode) (input : list f32) : option (option TreeDecision) :=
  tree_walk (S (length nodes)) nodes input 0.

(** ** The network ([mlp.rs]) *)

Definition relu_f32 (x : f32) : f32 := if SFltb (lit 0 0) x then x else lit 0 0.

(** [bias + w[0] * x[0] + ..], from the left. *)
Definition dot (bias : f32) (w x : list f32) : f32 :=
  foldl (λ acc wx, f32_add acc (f32_mul wx.1 wx.2)) bias (zip w x).

Section mlp.
Context `{!Libm}.

Definition sigmoid_f32 (x : f32) : f32 := f32_div (lit 1 0) (f32_add (lit 1 0) (f32_exp (SFopp x))).

Definition mlp_predict_32 (w1 : list (list f32)) (b1 w2 : list f32) (b2 : f32) (input : list f32) : f32 :=
  let hidden := zip_with (λ b w, relu_f32 (dot b w input)) b1 w1 in
  sigmoid_f32 (dot b2 w2 hidden).
End mlp.

(** ** The shipped weights *)

(** *** [ddos_weights.rs] *)

Definition ddos_THRESHOLD : f32 := lit 5 1.

Definition ddos_NORM_MINS : list f32 :=
  [lit 0 0; lit 1 0; lit 1 0; lit 0 0; lit 0 0; lit 0 0; lit 833333 8; lit 2 2; lit 0 0; lit 1 0;
   lit 0 0; lit 0 0; lit 0 0; lit 0 0].

Definition ddos_NORM_MAXS : list f32 :=
  [lit 10000 0; lit 50 0; lit 19 0; lit 1 0; lit 75898047 4; lit 14999917 7; lit 500 0; lit 1 0;
   lit 17124028 2; lit 30 0; lit 1 0; lit 1 0; lit 1 0; lit 1 0].

Definition ddos_W1 : list (list f32) :=
  [[lit 30719012 8; lit 5461929 7; lit (-20061351) 8; lit 2965906 7; lit 3413888 7;
    lit (-19088192) 8; lit 3486638 7; lit (-24303232) 8; lit 20615512 8; lit 1265669 7;
    lit (-16653502) 8; lit 109614 6; lit (-168147) 6; lit 9950374 8];
   [lit 4600264 7; lit 49129087 8; lit (-138696) 7; lit 6449063 7; lit 5185009 7; lit 69266915 8;
    lit 31095454 8; lit 26951542 8; lit (-2092636) 7; lit (-9662568) 8; lit 19281134 8;
    lit 36575633 8; lit 23089127 8; lit (-3582983) 8];
   [lit 4547556 8; lit (-4854088) 8; lit (-10979871) 8; lit (-18705507) 8; lit (-4464985) 7;
    lit 20949614 8; lit 7324096 7; lit 13469182 7; lit (-13529004) 8; lit 6943985 7;
    lit (-4002752) 7; lit 47921708 8; lit (-43529814) 8; lit 4878187 7];
   [lit 6154745 7; lit 15222968 7; lit 48276836 8; lit 12717143 7; lit (-3617651) 7;
    lit (-33192506) 8; lit (-8267399) 7; lit 67331636 8; lit (-21094124) 8; lit 10306789 7;
    lit (-9182073) 8; lit 14452021 7; lit 5261166 7; lit 6117616 7];
   [lit (-37162983) 8; lit 48245564 8; lit (-53393066) 8; lit (-2000939) 7; lit (-6583384) 8;
    lit 17612432 8; lit 59905756 8; lit 13953311 7; lit 6745706 7; lit 6159161 8; lit (-56609136) 8;
    lit (-29591814) 8; lit 5523947 7; lit (-5680115) 7];
   [lit 7581556 7; lit (-64557153) 8; lit 84678394 8; lit 41179815 8; lit (-5061906) 7;
    lit (-9139232) 8; lit (-6459465) 7; lit (-74464273) 8; lit 8710265 7; lit 81111395 8;
    lit (-350274) 6; lit 95135874 8; lit 85043454 8; lit 17211748 7];
   [lit 9888807 7; lit (-4631047) 8; lit (-62931997) 8; lit (-37154037) 8; lit 10281786 7;
    lit (-10412159) 7; lit 7484892 7; lit (-2642636) 7; lit 2314224 7; lit (-17234743) 8;
    lit (-6168957) 7; lit (-59363395) 8; lit (-85756373) 8; lit 53024006 8];
   [lit 5950946 7; lit 26622522 8; lit (-74383926) 8; lit 48256168 8; lit (-75522244) 8;
    lit 46806136 8; lit (-6219461) 7; lit 9251838 8; lit 25921744 8; lit 7298726 7; lit 66349596 8;
    lit 53999704 8; lit (-2553512) 7; lit (-92465514) 8];
   [lit 5098174 7; lit (-14485381) 7; lit (-64814043) 8; lit (-78203505) 8; lit (-8803879) 7;
    lit 6827851 7; lit 58861315 8; lit 55924416 8; lit (-52396554) 8; lit 45195666 8;
    lit (-44876143) 8; lit (-11349974) 8; lit 64508075 8; lit 6376592 8];
   [lit 4449451 7; lit 79238343 8; lit (-221281) 6; lit 31375706 7; lit 5497291 7; lit 20649412 7;
    lit (-20301908) 8; lit 4841397 7; lit (-25992882) 8; lit 77544886 8; lit (-18115431) 8;
    lit 18713058 7; lit 7196575 7; lit 1954586 6];
   [lit 10051867 7; lit 18023807 7; lit (-28449696) 8; lit (-2740687) 8; lit (-25104911) 7;
    lit 5608166 7; lit (-43591678) 8; lit 35916934 7; lit (-4795443) 7; lit 18255627 7;
    lit 6438794 7; lit 56122434 8; lit (-19696619) 8; lit 3490709 6];
   [lit (-32992145) 8; lit (-3573111) 8; lit 24143853 7; lit (-748284) 8; lit 6277516 7;
    lit 17890904 7; lit 25103322 8; lit 59640545 8; lit (-10183074) 8; lit 83787775 8;
    lit 14171274 8; lit 8816884 8; lit 16381627 8; lit (-442762) 7];
   [lit 9841868 8; lit 58517164 8; lit 2630968 8; lit 6579794 7; lit (-3991833) 8; lit 5283304 7;
    lit 37459302 8; lit 183297 7; lit (-12048343) 7; lit 76000416 8; lit 2081347 8; lit 11045324 7;
    lit 46800232 8; lit 5070755 7];
   [lit 13568293 8; lit (-4429439) 8; lit 18404786 8; lit 74804515 8; lit (-2402807) 8;
    lit 25729915 8; lit 6455511 7; lit 964451 7; lit 31338552 8; lit 62685025 8; lit (-19832127) 8;
    lit 19511666 7; lit 66340035 8; lit 12918239 7];
   [lit (-20969683) 8; lit 56657153 8; lit (-870556) 7; lit 71007556 8; lit (-11011623) 8;
    lit 11617458 7; lit 6505049 7; lit 13144143 7; lit 72755563 8; lit 11594768 7;
    lit (-34925875) 8; lit 1019314 8; lit (-1428105) 6; lit 14942981 8];
   [lit (-4701733) 7; lit 2621496 6; lit (-3753245) 7; lit 11748857 7; lit 6293089 7; lit 6219579 7;
    lit (-12959687) 8; lit 23622985 7; lit (-25786853) 8; lit 3494137 8; lit 17079077 7;
    lit (-2720823) 8; lit 578222 6; lit 157692 5];
   [lit (-68229634) 8; lit 87380433 8; lit 10317185 7; lit 35238963 8; lit (-7899854) 7;
    lit 97562903 8; lit (-8061648) 7; lit 10717075 7; lit (-79917014) 8; lit (-43357334) 8;
    lit 10913382 7; lit 49446958 8; lit 1079701 6; lit 27838916 8];
   [lit (-77235895) 8; lit (-660107) 6; lit (-9969614) 8; lit (-38052577) 8; lit (-77211934) 8;
    lit (-7341681) 7; lit (-67031443) 8; lit 62016815 8; lit 97461295 8; lit 10716721 7;
    lit (-68821293) 8; lit 51563287 8; lit (-73027885) 8; lit (-14203216) 8];
   [lit 90449816 8; lit (-23423387) 8; lit 11103957 7; lit 61329746 8; lit (-21385542) 8;
    lit 5244973 7; lit 42514217 8; lit 42172486 8; lit (-3339705) 7; lit 35888657 8;
    lit (-5407481) 7; lit 48481938 8; lit (-5116262) 8; lit (-23848286) 8];
   [lit 6794817 7; lit 5056278 7; lit 4534457 7; lit 47307885 8; lit (-44913152) 8;
    lit (-11515936) 8; lit 14361705 8; lit (-36479098) 8; lit (-32777452) 8; lit 11798909 8;
    lit (-5713791) 7; lit 30936614 8; lit 31339252 8; lit 51131296 8];
   [lit (-2567763) 7; lit 25580657 8; lit (-12398625) 8; lit 24844812 8; lit 18556698 8;
    lit 21818036 8; lit 5824855 7; lit 50517905 8; lit 34329867 8; lit 15851928 8; lit (-5844067) 7;
    lit 33611965 8; lit 6743925 7; lit (-5277068) 7];
   [lit 6684005 7; lit (-49819222) 8; lit 29022828 8; lit 10492916 8; lit (-6216156) 8;
    lit 37093312 8; lit (-24731418) 8; lit 22893915 8; lit 32447502 8; lit 63166237 8;
    lit (-13788179) 8; lit 52650315 8; lit 15229015 8; lit 23656118 8];
   [lit 3397852 7; lit 15498674 8; lit (-25265032) 8; lit (-42916322) 8; lit 69121236 8;
    lit 20443739 8; lit 5405095 7; lit 8900955 8; lit (-13801514) 8; lit 25456557 8;
    lit (-10714018) 8; lit 8712567 8; lit 27245566 8; lit (-2968322) 7];
   [lit (-5526243) 8; lit (-11729403) 7; lit 7328646 8; lit (-7892461) 8; lit 31488195 8;
    lit (-1112767) 8; lit 5546209 7; lit 65152955 8; lit (-10721418) 8; lit (-99451303) 8;
    lit 110284 8; lit (-53097665) 8; lit 14362922 8; lit 17380728 8];
   [lit (-29576833) 7; lit 4645191 7; lit 2022021 7; lit 7685877 7; lit 13804838 8;
    lit (-8037142) 7; lit (-11160404) 8; lit (-15160939) 8; lit 31488597 8; lit (-10203149) 8;
    lit 16458754 8; lit (-8558689) 8; lit (-2708265) 7; lit 3877234 8];
   [lit (-14654562) 8; lit (-7008671) 7; lit 9809728 8; lit (-6096619) 7; lit 26278028 8;
    lit 7354698 8; lit 8616283 8; lit 36018923 8; lit 7040872 8; lit 41008693 8; lit 13071685 8;
    lit 18236822 8; lit 4330611 7; lit (-10742717) 8];
   [lit 4148879 7; lit (-10255218) 8; lit 10218169 8; lit 21971215 8; lit (-5527666) 8;
    lit (-5026562) 7; lit 6767768 8; lit (-9040122) 8; lit 16871217 8; lit (-2748547) 8;
    lit 21738021 8; lit 21068999 8; lit 10562737 8; lit (-7191363) 7];
   [lit 9367306 8; lit (-1411305) 7; lit (-44151428) 8; lit (-5189204) 8; lit 22411002 8;
    lit (-9538609) 8; lit 17464676 8; lit (-30709952) 8; lit 21021855 8; lit (-27705607) 8;
    lit 17645715 8; lit 19070518 8; lit 180941 6; lit 101156 6];
   [lit (-11084171) 8; lit (-60070217) 8; lit 10072551 8; lit (-9865215) 8; lit 19512057 8;
    lit (-32474023) 8; lit 14499906 8; lit 6266983 8; lit (-15383074) 8; lit 10347557 8;
    lit (-10143858) 8; lit (-9821036) 8; lit (-19187087) 8; lit (-21955618) 8];
   [lit 9774263 8; lit 21607652 8; lit (-2206883) 7; lit (-7350298) 7; lit 14551027 8;
    lit (-246539) 8; lit (-3201774) 7; lit (-14855191) 8; lit 15684886 8; lit (-21544383) 8;
    lit (-3659518) 7; lit 15791711 7; lit 4534199 7; lit 6496001 7];
   [lit 3760023 8; lit 12075356 8; lit (-24193284) 8; lit 1641891 7; lit (-13468136) 8;
    lit 40612614 8; lit 44222566 8; lit 17999728 8; lit 3759175 7; lit 67439985 8;
    lit (-29388478) 8; lit (-20486754) 8; lit 20614263 8; lit (-26352599) 7];
   [lit (-10479005) 8; lit (-1701723) 7; lit (-42374054) 8; lit 3009436 7; lit 28561834 8;
    lit 40433934 8; lit (-3086211) 8; lit 14986947 7; lit (-41601327) 8; lit 20835553 8;
    lit 11987518 7; lit (-222666) 8; lit 5140011 7; lit 27829245 8]].

Definition ddos_B1 : list f32 :=
  [lit 76754266 8; lit (-52365464) 8; lit (-7451479) 8; lit (-24194083) 8; lit 81372803 8;
   lit (-14967601) 8; lit 8696844 7; lit (-11282827) 8; lit 82378083 8; lit 3708726 8;
   lit (-14121835) 8; lit (-33332673) 8; lit (-24595253) 8; lit (-20005627) 8; lit 80769247 8;
   lit 67842513 8; lit 6222556 7; lit 5510468 7; lit 87356585 8; lit (-16369765) 8; lit 83232063 8;
   lit (-40881905) 8; lit (-2851989) 8; lit (-4714838) 8; lit 6923687 7; lit (-30938062) 8;
   lit 87852216 8; lit (-14689557) 8; lit (-526306) 6; lit (-22946648) 8; lit (-13811214) 8;
   lit (-41019145) 8].

Definition ddos_W2 : list f32 :=
  [lit (-84622073) 8; lit 23214445 7; lit 703307 6; lit 89360833 8; lit (-10805361) 7; lit 692133 6;
   lit (-10721848) 7; lit 8234566 7; lit (-1119533) 6; lit (-25882442) 7; lit 8152005 7;
   lit 11986597 7; lit 9180468 7; lit 10455406 7; lit (-10304987) 7; lit (-94034135) 8;
   lit (-16619369) 7; lit (-15319228) 7; lit (-10962915) 7; lit (-407772) 5; lit (-11477821) 7;
   lit 11520213 7; lit 42650393 8; lit 5517467 7; lit (-12831967) 7; lit 2061294 6;
   lit (-1102206) 6; lit 9728605 8; lit 16476451 7; lit (-14975634) 8; lit 7942869 7; lit 15672641 7].

Definition ddos_B2 : f32 := lit (-58103424) 8.

Definition ddos_TREE_NODES : list PackedNode :=
  [(10, lit 1399998 7, 1%nat, 2%nat); (255, lit 1 0, 0%nat, 0%nat); (255, lit 0 0, 0%nat, 0%nat)].

(** *** [scanner_weights.rs] *)

Definition scanner_THRESHOLD : f32 := lit 5 1.

Definition scanner_NORM_MINS : list f32 :=
  [lit 0 0; lit 1 0; lit 0 0; lit 0 0; lit 0 0; lit 0 0; lit 0 0; lit 0 0; lit 0 0; lit 0 0;
   lit 0 0; lit 0 0].

Definition scanner_NORM_MAXS : list f32 :=
  [lit 1 0; lit 10 0; lit 1 0; lit 1 0; lit 1 0; lit 1 0; lit 1 0; lit 1 0; lit 1 0; lit 1 0;
   lit 1 0; lit 1 0].

Definition scanner_W1 : list (list f32) :=
  [[lit (-24775992) 8; lit (-1126875) 6; lit (-84061) 5; lit 13527651 7; lit 10467718 7;
    lit 15783296 7; lit 14799507 7; lit 13858048 7; lit (-9956404) 7; lit (-12030927) 7;
    lit (-24385734) 8; lit 13236767 7];
   [lit (-13179692) 7; lit (-12229957) 8; lit 8979469 7; lit 11483274 7; lit 11721016 7;
    lit 13238773 7; lit 13779974 7; lit 12298481 7; lit 9281616 7; lit 14518969 7; lit 97822803 8;
    lit (-8962597) 7];
   [lit (-14679074) 7; lit (-14399563) 7; lit 14427627 7; lit 13096734 7; lit 13742458 7;
    lit (-11661354) 7; lit 14606367 7; lit (-12970145) 7; lit 20172349 8; lit (-5374112) 8;
    lit (-2462341) 8; lit 2529524 7];
   [lit 57722956 8; lit 39603359 8; lit (-3453349) 8; lit (-6384056) 8; lit 8056496 8;
    lit 30015573 8; lit (-19045275) 8; lit 3973702 7; lit 41070747 8; lit 3414693 8;
    lit (-25483453) 8; lit 24018581 8];
   [lit 2473495 8; lit 5047939 8; lit 5960084 7; lit 3570932 7; lit (-32843903) 8; lit 17655721 8;
    lit 20441811 8; lit 511898 7; lit 24312067 8; lit 12677322 8; lit 12109834 8; lit (-9230414) 8];
   [lit (-3397392) 8; lit (-8393703) 8; lit 4276247 7; lit 21609549 8; lit (-2886477) 7;
    lit (-11998425) 8; lit (-5842599) 8; lit 8733107 7; lit 52526826 8; lit 35321006 8;
    lit 3129373 7; lit 51823896 8];
   [lit (-2690669) 7; lit (-424665) 7; lit 5114691 8; lit 27629042 8; lit (-37589836) 8;
    lit (-7396606) 8; lit (-4650927) 7; lit 26079515 8; lit 33588448 8; lit 5591919 7;
    lit 5876844 7; lit 81638134 8];
   [lit (-48464304) 8; lit 7611119 7; lit 6296005 8; lit (-13527128) 8; lit (-4134483) 7;
    lit (-19461812) 8; lit 5281543 7; lit 968153 6; lit 47175986 8; lit (-1397777) 7;
    lit 41216326 8; lit (-3041369) 8];
   [lit (-5156134) 8; lit 90191734 8; lit 78513384 8; lit (-12501779) 7; lit (-5463726) 7;
    lit (-3609862) 7; lit (-5988282) 7; lit (-9037451) 7; lit 9133649 7; lit 10580621 7;
    lit 4994302 8; lit (-9102882) 7];
   [lit 6837651 7; lit 7305489 8; lit 4479009 7; lit (-56647295) 8; lit (-6657054) 7;
    lit (-93897015) 8; lit (-40558589) 8; lit (-15107085) 7; lit 4675978 7; lit (-13673836) 7;
    lit (-5270236) 8; lit 98130196 8];
   [lit 8678816 7; lit 69321704 8; lit (-5377896) 7; lit (-15425719) 7; lit (-44623125) 8;
    lit 7261559 7; lit (-7526963) 7; lit 8194634 7; lit 17503875 8; lit 63745797 8; lit 4847808 7;
    lit (-31573632) 8];
   [lit (-1361719) 8; lit 21524477 8; lit (-10345778) 8; lit (-38488832) 8; lit 4296741 7;
    lit 7547253 7; lit (-741087) 7; lit (-65231675) 8; lit 42633417 8; lit (-10289414) 8;
    lit 9583388 8; lit (-29391766) 8];
   [lit (-6778818) 8; lit (-44469842) 8; lit 595291 7; lit (-5513981) 7; lit 143086 6;
    lit (-5373114) 7; lit (-742635) 7; lit 28065708 8; lit 29584157 8; lit 47813708 8;
    lit 2095048 8; lit (-3645842) 7];
   [lit (-21983556) 8; lit 5543554 7; lit (-1393966) 7; lit 5828126 7; lit (-20551582) 8;
    lit 30075905 8; lit 13396217 8; lit (-18145087) 8; lit (-4328374) 7; lit 18541494 8;
    lit 753079 7; lit (-4916608) 8];
   [lit 46939296 8; lit 57935077 8; lit (-5478116) 8; lit (-1144989) 8; lit 54106784 8;
    lit (-18313073) 8; lit 12232503 8; lit (-32802504) 8; lit (-1167463) 8; lit (-13702804) 8;
    lit (-19521871) 8; lit 9115479 8];
   [lit 25263065 8; lit (-27172634) 8; lit (-12802953) 8; lit 5002774 7; lit 5213343 8;
    lit 49081728 8; lit 15367918 8; lit 20471051 8; lit (-22081012) 8; lit 5170901 7; lit 1776243 8;
    lit 22513707 8];
   [lit (-20733139) 8; lit 60041994 8; lit 5273124 8; lit 7473211 8; lit 14580894 8;
    lit (-7200708) 7; lit (-5235065) 7; lit (-15482022) 8; lit 19132918 8; lit 52586436 8;
    lit (-4793828) 8; lit (-479114) 8];
   [lit 19872986 8; lit (-1917711) 7; lit (-22340146) 8; lit (-48786804) 8; lit (-5101035) 7;
    lit (-5536311) 7; lit (-2952039) 7; lit (-2137868) 7; lit (-40099174) 8; lit (-9184421) 8;
    lit (-8521358) 8; lit 6183369 7];
   [lit 21346046 8; lit 53319895 8; lit (-44765636) 8; lit (-4764151) 8; lit (-30569363) 8;
    lit 1976534 7; lit (-4147972) 7; lit 34292534 8; lit (-29234713) 8; lit 5434167 7;
    lit 6012179 7; lit (-226344) 8];
   [lit (-29598647) 8; lit (-37357926) 8; lit (-25650844) 8; lit (-5165816) 8; lit 5582903 7;
    lit 2102835 7; lit (-28581545) 8; lit (-3729993) 7; lit 57590896 8; lit (-1573592) 8;
    lit (-19411144) 8; lit 13814686 8];
   [lit 10028259 8; lit 2526089 8; lit (-20488358) 8; lit 25667843 8; lit 17100072 8; lit 1034015 8;
    lit (-3299477) 7; lit 53425753 8; lit 64935833 8; lit 30769956 8; lit (-26756367) 8;
    lit (-3389005) 8];
   [lit (-18916467) 8; lit 38340616 8; lit (-16475976) 8; lit 5981121 7; lit 12739281 8;
    lit (-16611671) 8; lit (-31913927) 8; lit 7577144 8; lit 2855249 7; lit 54843456 8;
    lit 40937552 8; lit 38236183 8];
   [lit (-2051945) 7; lit (-4122134) 8; lit (-20013523) 8; lit 42193425 8; lit (-27304563) 8;
    lit (-21811043) 8; lit 13115846 8; lit 16724831 8; lit 13073303 8; lit 20492 5; lit 31806493 8;
    lit 13444173 8];
   [lit 1762132 8; lit 32608625 8; lit 19381267 8; lit (-33404192) 8; lit (-46299583) 8;
    lit (-28042898) 8; lit 20772585 8; lit 20139317 8; lit 4195232 7; lit (-30363685) 8;
    lit 20015827 8; lit (-3338646) 8];
   [lit 13760759 8; lit 7168494 8; lit 2616171 7; lit 41468662 8; lit (-3778528) 8; lit 38290465 8;
    lit 4878003 7; lit 39562985 8; lit 24758396 8; lit (-5975538) 8; lit (-22738078) 8;
    lit 27877593 8];
   [lit 701694 7; lit (-3804595) 8; lit (-8812129) 8; lit 19664441 8; lit 13347355 8; lit 503093 6;
    lit 26076415 8; lit 1904421 7; lit (-20414594) 8; lit 6433342 7; lit 1516009 7; lit 16449226 8];
   [lit 310397 6; lit (-1906084) 8; lit 2562201 7; lit 10707659 8; lit 5488334 7; lit 19277412 8;
    lit 42004701 8; lit (-9319381) 8; lit 19968294 8; lit 7109389 8; lit (-2897983) 7;
    lit 12353907 8];
   [lit 28500485 8; lit 1991569 8; lit 5190456 8; lit 29366553 8; lit 1045146 8; lit (-2013574) 8;
    lit (-179632) 7; lit 13775185 8; lit 11095868 8; lit (-25678155) 8; lit 10733776 8;
    lit (-7584792) 8];
   [lit 12738188 8; lit 7762879 8; lit (-6429479) 8; lit 39944342 8; lit 7958066 8; lit 46697047 8;
    lit (-1067493) 7; lit (-12212183) 8; lit (-1540831) 8; lit 8788434 8; lit 17299946 8;
    lit 25846422 8];
   [lit 26692817 8; lit 930361 8; lit 24862845 8; lit 2167275 8; lit (-9902105) 8;
    lit (-35391217) 8; lit (-41734406) 8; lit 44949567 8; lit 4633083 7; lit 4060362 7;
    lit 8397861 8; lit 39809385 8];
   [lit (-3075646) 7; lit (-43368185) 8; lit (-478506) 8; lit 45611116 8; lit (-5069341) 8;
    lit 21090019 8; lit 2821929 7; lit 7687758 8; lit 5491597 7; lit 46933413 8; lit 3559989 7;
    lit 17573997 8];
   [lit (-19320646) 8; lit 4475119 7; lit (-14140815) 8; lit 427075 8; lit (-19792002) 8;
    lit (-19400074) 8; lit 19292155 8; lit 39845818 8; lit 21028778 8; lit (-10284913) 8;
    lit 31191504 8; lit (-36995885) 8]].

Definition scanner_B1 : list f32 :=
  [lit (-24357778) 8; lit (-24826238) 8; lit (-3415382) 8; lit 968227 8; lit 5155063 7;
   lit 45242083 8; lit 6065408 7; lit 2545613 7; lit (-36509025) 8; lit (-22825) 5; lit 3829522 8;
   lit 6556156 7; lit (-19379658) 8; lit (-2571616) 7; lit 45115772 8; lit 73442084 8;
   lit 6135299 7; lit 595023 6; lit 32757106 8; lit 28512844 8; lit 2666353 7; lit 2716975 7;
   lit 33571365 8; lit (-3450369) 7; lit (-8054741) 8; lit (-6313029) 8; lit 4362915 7;
   lit 359361 6; lit 39375633 8; lit (-19984132) 8; lit 4909262 7; lit (-27418151) 8].

Definition scanner_W2 : list f32 :=
  [lit (-4975564) 8; lit (-54667705) 8; lit (-39323062) 8; lit 72362727 8; lit 8680174 7;
   lit 19362108 7; lit 10125941 7; lit 7597875 7; lit (-6799726) 7; lit (-6306393) 7;
   lit (-7149173) 8; lit 8189915 7; lit (-6902561) 7; lit (-12359849) 8; lit 10953345 7;
   lit 8809226 7; lit 8967879 7; lit 8790803 7; lit 11246085 7; lit 76745653 8; lit 856321 6;
   lit 7299253 7; lit 9398387 7; lit (-55915666) 8; lit (-6110417) 7; lit (-5636998) 7;
   lit 14348092 7; lit 71174467 8; lit 10311962 7; lit (-57950914) 8; lit 8118892 7;
   lit (-78019017) 8].

Definition scanner_B2 : f32 := lit 2462628 7.

Definition scanner_TREE_NODES : list PackedNode :=
  [(3, lit 5 1, 1%nat, 2%nat); (255, lit 1 0, 0%nat, 0%nat); (255, lit 0 0, 0%nat, 0%nat)].

(** ** The ensembles ([ddos.rs], [scanner.rs]) *)

(** [normalize]: min-max scaling with the trained bounds. *)
Definition normalize_feature (lo hi x : f32) : f32 :=
  let range := f32_sub hi lo in
  if SFltb (lit 0 0) range then clamp01 (f32_div (f32_sub x lo) range) else lit 0 0.

Fixpoint normalize (mins maxs raw : list f32) : list f32 :=
  match mins, maxs, raw with
  | lo :: mins, hi :: maxs, x :: raw => normalize_feature lo hi x :: normalize mins maxs raw
  | _, _, _ => []
  end.

Inductive DDoSAction := DDoSAllow | DDoSBlock.
Inductive ScannerAction := ScannerAllow | ScannerBlock.
Inductive EnsemblePath := PathTreeBlock | PathTreeAllow | PathMlp.

Record EnsembleVerdict (A : Type) := {
  ev_action : A;
  ev_score : f64;
  ev_reason : string;
  ev_path : EnsemblePath;
}.
#[global] Arguments ev_action {A} _.
#[global] Arguments ev_score {A} _.
#[global] Arguments ev_reason {A} _.
#[global] Arguments ev_path {A} _.

Section ensembles.
Context `{!Libm}.

(** The tree first, the network on [Defer]; [None] if the tree panics or does not end. *)
Definition ensemble_predict {A} (block allow : A) (nodes : list PackedNode) (w1 : list (list f32))
    (b1 w2 : list f32) (b2 threshold : f32) (input : list f32) : option (EnsembleVerdict A) :=
  match tree_predict nodes input with
  | Some (Some TreeBlock) =>
      Some {| ev_action := block; ev_score := f64_of_Z 1; ev_reason := "ensemble:tree_block";
              ev_path := PathTreeBlock |}
  | Some (Some TreeAllow) =>
      Some {| ev_action := allow; ev_score := f64_of_Z 0; ev_reason := "ensemble:tree_allow";
              ev_path := PathTreeAllow |}
  | Some (Some TreeDefer) =>
      let score := mlp_predict_32 w1 b1 w2 b2 input in
      Some {| ev_action := if SFltb threshold score then block else allow; ev_score := f32_as_f64 score;
              ev_reason := "ensemble:mlp"; ev_path := PathMlp |}
  | _ => None
  end.

Definition ddos_ensemble_predict (raw : list f32) : option (EnsembleVerdict DDoSAction) :=
  ensemble_predict DDoSBlock DDoSAllow ddos_TREE_NODES ddos_W1 ddos_B1 ddos_W2 ddos_B2 ddos_THRESHOLD
    (normalize ddos_NORM_MINS ddos_NORM_MAXS raw).

Definition scanner_ensemble_predict (raw : list f32) : option (EnsembleVerdict ScannerAction) :=
  ensemble_predict ScannerBlock ScannerAllow scanner_TREE_NODES scanner_W1 scanner_B1 scanner_W2
    scanner_B2 scanner_THRESHOLD (normalize scanner_NORM_MINS scanner_NORM_MAXS raw).
End ensembles.

(** ** The audits ([monotonicity_audit.rs], [ddos_monotonicity_audit.rs]) *)

Record MonotonicityAudit := {
  tree_split_features : list Z;
  tree_has_defer_leaf : bool;
  per_feature_mlp_min_product : list f32;
}.

Definition is_leaf (n : PackedNode) : bool := n.1.1.1 =? 255.

(** [min_j (W2[j] * W1[j][i])], from infinity. *)
Definition min_product (w1 : list (list f32)) (w2 : list f32) (i : nat) : f32 :=
  foldl (λ m wr, let p := f32_mul wr.1 (default (lit 0 0) (wr.2 !! i)) in if SFltb p m then p else m)
    (S754_infinity false) (zip w2 w1).

Definition audit (num_features : nat) (nodes : list PackedNode) (w1 : list (list f32)) (w2 : list f32) :
    MonotonicityAudit :=
  {| tree_split_features := (λ n : PackedNode, n.1.1.1) <$> filter (λ n, is_leaf n = false) nodes;
     tree_has_defer_leaf :=
       existsb (λ n : PackedNode, is_leaf n && SFleb (lit 25 2) n.1.1.2 && SFleb n.1.1.2 (lit 75 2)) nodes;
     per_feature_mlp_min_product := min_product w1 w2 <$> seq 0 num_features |}.

Definition for_ddos : MonotonicityAudit := audit 14 ddos_TREE_NODES ddos_W1 ddos_W2.
Definition for_scanner : MonotonicityAudit := audit 12 scanner_TREE_NODES scanner_W1 scanner_W2.

(** [feature_idx as u8] is exact for the features there are. *)
Definition is_provably_monotone (a : MonotonicityAudit) (feature_idx : nat) : bool :=
  if bool_decide (wrap 8 (Z.of_nat feature_idx) ∈ tree_split_features a) then false
  else if negb (tree_has_defer_leaf a) then true
  else SFleb (lit 0 0) (default (lit 0 0) (per_feature_mlp_min_product a !! feature_idx)).

Definition provably_monotone_features (num_features : nat) (a : MonotonicityAudit) : list nat :=
  filter (λ i, is_provably_monotone a i = true) (seq 0 num_features).

(** ** Lemmas: the loop *)

Fixpoint visit (k : nat) (nodes : list PackedNode) (input : list f32) (idx : nat) : option nat :=
  match k with
  | O => Some idx
  | S k => match tree_step nodes input idx with inl i => visit k nodes input i | inr _ => None end
  end.

Lemma walk_None nodes input k idx : tree_walk k nodes input idx = None ↔ is_Some (visit k nodes input idx).
Proof.
  revert idx. induction k as [|k IH]; intros idx; simpl; [split; eauto|].
  destruct (tree_step nodes input idx); [apply IH|]. split; [done|by intros []].
Qed.

Lemma visit_add nodes input i k idx :
  visit (i + k) nodes input idx = visit i nodes input idx ≫= visit k nodes input.
Proof.
  revert idx. induction i as [|i IH]; intros idx; [done|]. simpl.
  destruct (tree_step nodes input idx); [apply IH|done].
Qed.

Lemma visit_le nodes input i k idx :
  (i ≤ k)%nat → is_Some (visit k nodes input idx) → is_Some (visit i nodes input idx).
Proof.
  intros Hle [x Hx]. replace k with (i + (k - i))%nat in Hx by lia. rewrite visit_add in Hx.
  destruct (visit i nodes input idx); [eauto|done].
Qed.

(** A walk that comes back to a node never ends. *)
Lemma visit_cycle nodes input i j idx x :
  (i < j)%nat → visit i nodes input idx = Some x → visit j nodes input idx = Some x →
  ∀ k, is_Some (visit k nodes input idx).
Proof.
  intros Hij Hi Hj k. induction k as [k IH] using lt_wf_ind.
  destruct (decide (k ≤ j)%nat); [eapply visit_le; [done|by rewrite Hj]|].
  replace k with (j + (k - j))%nat by lia. rewrite visit_add, Hj. simpl.
  destruct (IH (i + (k - j))%nat) as [y Hy]; [lia|]. rewrite visit_add, Hi in Hy. simpl in Hy. eauto.
Qed.

Lemma visit_in_range nodes input i idx x :
  is_Some (visit (S i) nodes input idx) → visit i nodes input idx = Some x → (x < length nodes)%nat.
Proof.
  intros [y Hy] Hi. rewrite <-Nat.add_1_r, visit_add, Hi in Hy. simpl in Hy. unfold tree_step in Hy.
  destruct (nodes !! x) as [n|] eqn:Hx; [by eapply lookup_lt_Some|done].
Qed.

Lemma tree_step_input nodes input input' idx :
  (∀ f t l r, nodes !! idx = Some (f, t, l, r) → f ≠ 255 → input !! Z.to_nat f = input' !! Z.to_nat f) →
  tree_step nodes input idx = tree_step nodes input' idx.
Proof.
  intros Hf. unfold tree_step. destruct (nodes !! idx) as [[[[f t] l] r]|]; [|done].
  destruct (Z.eqb_spec f 255); [done|]. by erewrite Hf.
Qed.

Lemma tree_walk_input nodes input input' fuel idx :
  (∀ j f t l r, nodes !! j = Some (f, t, l, r) → f ≠ 255 → input !! Z.to_nat f = input' !! Z.to_nat f) →
  tree_walk fuel nodes input idx = tree_walk fuel nodes input' idx.
Proof.
  intros Hf. revert idx. induction fuel as [|fuel IH]; intros idx; [done|]. simpl.
  rewrite (tree_step_input nodes input input') by eauto. destruct (tree_step _ _ _); [apply IH|done].
Qed.

Lemma SFcompare_antisym x y : SFcompare x y = CompOpp <$> SFcompare y x.
Proof.
  destruct x as [[]|[]| |[] m1 e1], y as [[]|[]| |[] m2 e2]; try done; cbn [SFcompare fmap option_fmap option_map].
  all: change (Pos.compare_cont Eq m1 m2) with (m1 ?= m2)%positive.
  all: change (Pos.compare_cont Eq m2 m1) with (m2 ?= m1)%positive.
  all: rewrite (Z.compare_antisym e1 e2), (Pos.compare_antisym m1 m2).
  all: by destruct (e1 ?= e2), (m1 ?= m2)%positive.
Qed.

(** Without a [Defer] leaf the tree never defers. *)
Lemma leaf_not_defer t :
  SFleb (lit 25 2) t && SFleb t (lit 75 2) = false → is_nan t = false → leaf_decision t ≠ TreeDefer.
Proof.
  unfold leaf_decision, SFleb, SFltb. intros Hd Hn.
  rewrite (SFcompare_antisym t (lit 25 2)), (SFcompare_antisym (lit 75 2) t).
  destruct (SFcompare (lit 25 2) t) as [[]|] eqn:H1, (SFcompare t (lit 75 2)) as [[]|] eqn:H2; simpl in *; try done.
  all: exfalso; clear -Hn H1 H2; by destruct t as [[]|[]| |[] m e].
Qed.

Lemma tree_walk_no_defer nodes input fuel idx :
  Forall (λ nd : PackedNode, is_nan nd.1.1.2 = false) nodes →
  existsb (λ n : PackedNode, is_leaf n && SFleb (lit 25 2) n.1.1.2 && SFleb n.1.1.2 (lit 75 2)) nodes = false →
  tree_walk fuel nodes input idx ≠ Some (Some TreeDefer).
Proof.
  intros Hnan Hd. revert idx. induction fuel as [|fuel IH]; intros idx; [done|]. cbn [tree_walk]. unfold tree_step.
  destruct (nodes !! idx) as [[[[f t] l] r]|] eqn:Hn; [|done].
  destruct (f =? 255) eqn:Hf; [|destruct (input !! _); [apply IH|done]]. intros [= Hl]. revert Hl.
  apply leaf_not_defer; [|by apply (proj1 (Forall_lookup _ _) Hnan _ _ Hn)].
  apply not_true_is_false. intros Hin. apply (not_true_iff_false _) in Hd. apply Hd, existsb_exists.
  exists (f, t, l, r). split; [by eapply list_elem_of_In, list_elem_of_lookup_2|].
  unfold is_leaf. simpl. rewrite Hf. exact Hin.
Qed.

(** A tree whose inner nodes point forward, inside the array, and test features there are. *)
Definition node_wf (len num_features idx : nat) (n : PackedNode) : bool :=
  let '(f, _, l, r) := n in
  (f =? 255) ||
  ((0 <=? f) && (f <? Z.of_nat num_features) && bool_decide (idx < l < len)%nat && bool_decide (idx < r < len)%nat).

Definition tree_wf (nodes : list PackedNode) (num_features : nat) : bool :=
  bool_decide (nodes ≠ []) && forallb id (imap (node_wf (length nodes) num_features) nodes).

Lemma tree_wf_node nodes n idx nd :
  tree_wf nodes n = true → nodes !! idx = Some nd → node_wf (length nodes) n idx nd = true.
Proof.
  unfold tree_wf. intros [_ Hall]%andb_true_iff Hl. rewrite forallb_forall in Hall. apply (Hall _).
  apply list_elem_of_In, list_elem_of_lookup. exists idx. by rewrite list_lookup_imap, Hl.
Qed.

Lemma tree_walk_wf nodes input fuel idx :
  tree_wf nodes (length input) = true → (idx < length nodes)%nat → (length nodes - idx ≤ fuel)%nat →
  ∃ d, tree_walk fuel nodes input idx = Some (Some d).
Proof.
  intros Hwf. revert idx. induction fuel as [|fuel IH]; intros idx Hidx Hf; [lia|].
  destruct (lookup_lt_is_Some_2 nodes idx Hidx) as [[[[f t] l] r] Hn].
  pose proof (tree_wf_node _ _ _ _ Hwf Hn) as Hnw. cbn [tree_walk].
  unfold tree_step. rewrite Hn. cbn [node_wf] in Hnw.
  destruct (f =? 255) eqn:Hleaf; [eauto|]. rewrite orb_false_l in Hnw. simp_bool.
  destruct (lookup_lt_is_Some_2 input (Z.to_nat f)) as [x Hx]; [lia|]. rewrite Hx.
  destruct (SFleb x t); apply IH; lia.
Qed.

(** *** The shipped trees are stumps *)

Lemma stump_predict f t input x :
  f ≠ 255 → input !! Z.to_nat f = Some x →
  tree_predict [(f, t, 1%nat, 2%nat); (255, lit 1 0, 0%nat, 0%nat); (255, lit 0 0, 0%nat, 0%nat)] input =
  Some (Some (if SFleb x t then TreeBlock else TreeAllow)).
Proof.
  intros Hf Hx. unfold tree_predict. cbn [length tree_walk]. unfold tree_step at 1. cbn [lookup list_lookup].
  rewrite (proj2 (Z.eqb_neq f 255) Hf), Hx. by destruct (SFleb x t).
Qed.

Lemma normalize_lookup mins maxs raw i lo hi x :
  mins !! i = Some lo → maxs !! i = Some hi → raw !! i = Some x →
  normalize mins maxs raw !! i = Some (normalize_feature lo hi x).
Proof.
  revert mins maxs raw. induction i as [|i IH]; intros [|? mins] [|? maxs] [|? raw]; try done; simpl; [|apply IH].
  by intros [= ->] [= ->] [= ->].
Qed.

Lemma ddos_predict_spec `{!Libm} raw x :
  raw !! 10%nat = Some x →
  ∃ v, ddos_ensemble_predict raw = Some v ∧ ev_path v ≠ PathMlp ∧
    ev_action v = if SFleb (normalize_feature (lit 0 0) (lit 1 0) x) (lit 1399998 7)
                  then DDoSBlock else DDoSAllow.
Proof.
  intros Hx. unfold ddos_ensemble_predict, ensemble_predict. unfold ddos_TREE_NODES.
  erewrite stump_predict; [|done|by apply (normalize_lookup _ _ _ 10)].
  destruct (SFleb _ _); eexists; (split; [reflexivity|done]).
Qed.

Lemma scanner_predict_spec `{!Libm} raw x :
  raw !! 3%nat = Some x →
  ∃ v, scanner_ensemble_predict raw = Some v ∧ ev_path v ≠ PathMlp ∧
    ev_action v = if SFleb (normalize_feature (lit 0 0) (lit 1 0) x) (lit 5 1)
                  then ScannerBlock else ScannerAllow.
Proof.
  intros Hx. unfold scanner_ensemble_predict, ensemble_predict. unfold scanner_TREE_NODES.
  erewrite stump_predict; [|done|by apply (normalize_lookup _ _ _ 3)].
  destruct (SFleb _ _); eexists; (split; [reflexivity|done]).
Qed.

(** ** Properties *)

(** C37. The loop of the decision tree cannot hang on the shipped trees: one round per node
    (and one more for an index out of range) decides whether it ends at all, a tree whose
    inner nodes point forward inside the array ends in a decision without an index out of
    range, and both shipped trees are such trees. *)
Theorem tree_predict_terminates :
  (∀ nodes input, tree_predict nodes input = None → ∀ fuel, tree_walk fuel nodes input 0 = None) ∧
  (∀ nodes input, tree_wf nodes (length input) = true → ∃ d, tree_predict nodes input = Some (Some d)) ∧
  tree_wf ddos_TREE_NODES 14 = true ∧ tree_wf scanner_TREE_NODES 12 = true.
Proof.
  split_and!; [| |done..].
  - unfold tree_predict. intros nodes input Hnone%walk_None fuel. apply walk_None.
    assert (∀ i, (i ≤ length nodes)%nat → ∃ x, visit i nodes input 0 = Some x ∧ (x < length nodes)%nat) as Hv.
    { intros i Hi. destruct (visit_le nodes input i (S (length nodes)) 0) as [x Hx]; [lia|done|].
      exists x. split; [done|]. eapply visit_in_range; [|done]. eapply visit_le; [|done]. lia. }
    destruct (nat_pigeonhole (λ i, default 0%nat (visit i nodes input 0)) (S (length nodes)) (length nodes))
      as (i & j & [Hi Hj] & Hij).
    { lia. }
    { intros i Hi. destruct (Hv i) as (y & -> & Hy); [lia|done]. }
    destruct (Hv i) as (y & Hy & _), (Hv j) as (z & Hz & _); [lia..|]. rewrite Hy, Hz in Hij. simpl in Hij.
    subst z. by apply (visit_cycle nodes input i j 0 y).
  - intros nodes input Hwf. apply tree_walk_wf; [done| |lia]. unfold tree_wf in Hwf. simp_bool.
    destruct nodes; [done|simpl; lia].
Qed.

(** With the shipped weights the DDoS ensemble looks at one of its fourteen features:
    the verdict is to block exactly when the normalised share of requests with cookies is
    at most 0.1399998. Request rate, bursts, errors and suspicious paths never matter and
    the network is never consulted. *)
Theorem ddos_verdict_is_cookie_ratio `{!Libm} (raw : list f32) (cookie_ratio : f32) :
  raw !! 10%nat = Some cookie_ratio →
  ∃ v, ddos_ensemble_predict raw = Some v ∧ ev_path v ≠ PathMlp ∧
    ev_action v = if SFleb (normalize_feature (lit 0 0) (lit 1 0) cookie_ratio) (lit 1399998 7)
                  then DDoSBlock else DDoSAllow.
Proof. apply ddos_predict_spec. Qed.

(** What the audits call provably monotone is: when the tree has no leaf that defers, a
    feature the audit accepts does not influence the verdict at all. *)
Theorem audit_monotone_sound `{!Libm} {A} (block allow : A) n nodes w1 b1 w2 b2 threshold input i x :
  Forall (λ nd : PackedNode, 0 ≤ nd.1.1.1 ∧ is_nan nd.1.1.2 = false) nodes →
  tree_has_defer_leaf (audit n nodes w1 w2) = false →
  is_provably_monotone (audit n nodes w1 w2) i = true → (i < 256)%nat →
  ensemble_predict block allow nodes w1 b1 w2 b2 threshold (<[i := x]> input) =
  ensemble_predict block allow nodes w1 b1 w2 b2 threshold input.
Proof.
  intros Hnodes Hd Hm Hi. unfold ensemble_predict.
  assert (tree_predict nodes (<[i := x]> input) = tree_predict nodes input) as ->.
  { apply tree_walk_input. intros j f t l r Hj Hf. rewrite list_lookup_insert_ne; [done|].
    intros ->. unfold is_provably_monotone in Hm. case_bool_decide as Hin; [done|]. apply Hin.
    destruct (proj1 (Forall_lookup _ _) Hnodes _ _ Hj) as [Hpos _]. simpl in Hpos.
    unfold wrap. rewrite Z2Nat.id, Z.mod_small by lia. apply list_elem_of_fmap. exists (f, t, l, r).
    split; [done|]. apply list_elem_of_filter. split; [|by eapply list_elem_of_lookup_2].
    unfold is_leaf. simpl. by apply Z.eqb_neq. }
  destruct (tree_predict nodes input) as [[[]|]|] eqn:Ht; try done. exfalso. revert Ht.
  apply tree_walk_no_defer; [|done]. eapply Forall_impl; [done|]. by intros ? [].
Qed.

Lemma ddos_verdict_is_cookie_ratio_witness :
  let libm := {| f32_exp := id; f64_ln := id |} in
  ev_action <$> ddos_ensemble_predict (replicate 10 (lit 10000 0) ++ lit 15 2 :: replicate 3 (lit 1 0)) =
    Some DDoSAllow.
Proof.
  intros libm.
  destruct (ddos_verdict_is_cookie_ratio (replicate 10 (lit 10000 0) ++ lit 15 2 :: replicate 3 (lit 1 0)) (lit 15 2))
    as (v & -> & _ & Hv); [reflexivity|]. simpl. rewrite Hv. vm_compute. reflexivity.
Defined.

Lemma audit_monotone_sound_witness :
  let libm := {| f32_exp := id; f64_ln := id |} in
  provably_monotone_features 14 for_ddos = [0; 1; 2; 3; 4; 5; 6; 7; 8; 9; 11; 12; 13]%nat ∧
  provably_monotone_features 12 for_scanner = [0; 1; 2; 4; 5; 6; 7; 8; 9; 10; 11]%nat ∧
  ∀ x input, ensemble_predict DDoSBlock DDoSAllow ddos_TREE_NODES ddos_W1 ddos_B1 ddos_W2 ddos_B2
               ddos_THRESHOLD (<[0%nat := x]> input) =
             ensemble_predict DDoSBlock DDoSAllow ddos_TREE_NODES ddos_W1 ddos_B1 ddos_W2 ddos_B2
               ddos_THRESHOLD input.
Proof.
  intros libm. split; [vm_compute; reflexivity|]. split; [vm_compute; reflexivity|]. intros x input.
  apply (audit_monotone_sound _ _ 14).
  - repeat constructor; cbn; done.
  - vm_compute. reflexivity.
  - vm_compute. reflexivity.
  - lia.
Defined.
