(* ===== verification/Crown.v ===== *)
(** * Certified robustness of the networks ([src/ensemble/crown.rs], [ddos_crown.rs]).

    Interval bounds are propagated through the network with every operation rounded outward
    by one unit in the last place, and a binary search finds a radius within which the
    verdict cannot change. The arithmetic is that of [Ensemble], binary32; [FloatRound] gives
    the value of each operation. *)

From S2P Require Import Prelude Float64 Ensemble FloatRound.

(** ** Operations *)

Definition f32_half : f32 := lit 5 1.

(** The neighbour of a finite number away from zero and towards zero. *)
Definition away (s : bool) (m : positive) (e : Z) : f32 :=
  if decide (Z.pos m + 1 < 2 ^ 24) then S754_finite s (Pos.succ m) e
  else if decide (e < 104) then S754_finite s (2 ^ 23) (e + 1)
  else S754_infinity s.

Definition toward (s : bool) (m : positive) (e : Z) : f32 :=
  if bool_decide (m = 1%positive) then S754_zero s
  else if bool_decide (m = (2 ^ 23)%positive) && bool_decide (-149 < e) then S754_finite s (2 ^ 24 - 1) (e - 1)
  else S754_finite s (Pos.pred m) e.

(** [f32::next_up] and [f32::next_down]. *)
Definition next_up (x : f32) : f32 :=
  match x with
  | S754_nan | S754_infinity false => x
  | S754_zero _ => S754_finite false 1 (-149)
  | S754_infinity true => S754_finite true (2 ^ 24 - 1) 104
  | S754_finite false m e => away false m e
  | S754_finite true m e => toward true m e
  end.

Definition next_down (x : f32) : f32 :=
  match x with
  | S754_nan | S754_infinity true => x
  | S754_zero _ => S754_finite true 1 (-149)
  | S754_infinity false => S754_finite false (2 ^ 24 - 1) 104
  | S754_finite false m e => toward false m e
  | S754_finite true m e => away true m e
  end.

Definition add_down (a b : f32) : f32 := next_down (f32_add a b).
Definition add_up (a b : f32) : f32 := next_up (f32_add a b).
Definition mul_down (a b : f32) : f32 := next_down (f32_mul a b).
Definition mul_up (a b : f32) : f32 := next_up (f32_mul a b).

(** [f32::max]: the other argument when one is a NaN. *)
Definition f32_max (a b : f32) : f32 :=
  match SFcompare a b with
  | None => if is_nan a then b else a
  | Some Lt => b
  | Some _ => a
  end.

Definition SIGMOID_ULP_SLACK : nat := 8.

Record PreSigmoidInterval := {
  psi_lo : f32;
  psi_hi : f32;
}.

(** One round of the loop over the inputs: a weight and the bounds of its input. *)
Definition ibp_step (acc : f32 * f32) (wx : f32 * (f32 * f32)) : f32 * f32 :=
  let '(w, (x_lo, x_hi)) := wx in
  if SFleb (lit 0 0) w then (add_down acc.1 (mul_down w x_lo), add_up acc.2 (mul_up w x_hi))
  else (add_down acc.1 (mul_down w x_hi), add_up acc.2 (mul_up w x_lo)).

Definition ibp_row (w : list f32) (x : list (f32 * f32)) (b : f32) : f32 * f32 :=
  foldl ibp_step (b, b) (zip w x).

Definition ibp_linear (w : list (list f32)) (x_lo x_hi b : list f32) : list f32 * list f32 :=
  let out := zip_with (λ b w, ibp_row w (zip x_lo x_hi) b) b w in (out.*1, out.*2).

Definition ibp_mlp_pre_sigmoid (w1 : list (list f32)) (b1 w2 : list f32) (b2 : f32) (input_lo input_hi : list f32) :
    PreSigmoidInterval :=
  let '(z1_lo, z1_hi) := ibp_linear w1 input_lo input_hi b1 in
  let a1_lo := (λ z, f32_max z (lit 0 0)) <$> z1_lo in
  let a1_hi := (λ z, f32_max z (lit 0 0)) <$> z1_hi in
  let out := ibp_row w2 (zip a1_lo a1_hi) b2 in
  {| psi_lo := out.1; psi_hi := out.2 |}.

Definition input_box (input : list f32) (eps : f32) : list f32 * list f32 :=
  ((λ x, next_down (f32_sub x eps)) <$> input, (λ x, next_up (f32_add x eps)) <$> input).

Section crown.
Context `{!Libm}.

Definition sigmoid_down (x : f32) : f32 := Nat.iter SIGMOID_ULP_SLACK next_down (sigmoid_f32 x).
Definition sigmoid_up (x : f32) : f32 := Nat.iter SIGMOID_ULP_SLACK next_up (sigmoid_f32 x).

Definition verdict_stable (w1 : list (list f32)) (b1 w2 : list f32) (b2 : f32) (input : list f32)
    (eps threshold : f32) (expected_above : bool) : bool :=
  let '(input_lo, input_hi) := input_box input eps in
  let pre := ibp_mlp_pre_sigmoid w1 b1 w2 b2 input_lo input_hi in
  if expected_above then SFltb threshold (sigmoid_down (psi_lo pre))
  else SFltb (sigmoid_up (psi_hi pre)) threshold.

(** The loop of the binary search; [None] when the fuel does not suffice. *)
Fixpoint radius_search (fuel : nat) (stable : f32 → bool) (tol lo hi : f32) : option f32 :=
  match fuel with
  | O => None
  | S fuel =>
      if SFltb tol (f32_sub hi lo) then
        let mid := f32_mul (f32_add lo hi) f32_half in
        if stable mid then radius_search fuel stable tol mid hi else radius_search fuel stable tol lo mid
      else Some lo
  end.

(** [None] when the search does not end, [Some None] when nothing is certified. *)
Definition certified_radius (fuel : nat) (w1 : list (list f32)) (b1 w2 : list f32) (b2 : f32) (input : list f32)
    (threshold max_eps tol : f32) : option (option f32) :=
  let center_score := mlp_predict_32 w1 b1 w2 b2 input in
  let expected_above := SFltb threshold center_score in
  let stable := λ eps, verdict_stable w1 b1 w2 b2 input eps threshold expected_above in
  if negb (stable (lit 0 0)) then Some None
  else Some <$> radius_search fuel stable tol (lit 0 0) max_eps.

(** [ddos_crown.rs]. *)
Definition ddos_pre_sigmoid_interval (input_lo input_hi : list f32) : PreSigmoidInterval :=
  ibp_mlp_pre_sigmoid ddos_W1 ddos_B1 ddos_W2 ddos_B2 input_lo input_hi.

Definition ddos_certified_radius (fuel : nat) (input : list f32) (max_eps tol : f32) : option (option f32) :=
  certified_radius fuel ddos_W1 ddos_B1 ddos_W2 ddos_B2 input ddos_THRESHOLD max_eps tol.
End crown.

(** ** Neighbours *)

Abbreviation num := (number 24 128).
Abbreviation fin := (finite 24 128).
Abbreviation val := (fv 24 128).
Abbreviation limit := (over 24 128).

Lemma f32_bounded m e :
  bounded 24 128 m e = true ↔
  Z.pos m < 2 ^ 24 ∧ -149 ≤ e ≤ 104 ∧ (e = -149 ∨ 2 ^ 23 ≤ Z.pos m).
Proof.
  rewrite bounded_iff by done. change (- emin 24 128) with 149. change (24 - 1) with 23. lia.
Qed.

Lemma val_finite s m e : val (S754_finite s m e) = cond_Zopp s (Z.pos m * 2 ^ (e + 149)).
Proof. done. Qed.

Lemma pow2_step e : -149 ≤ e → 2 ^ (e + 1 + 149) = 2 * 2 ^ (e + 149).
Proof. intros. replace (e + 1 + 149) with (Z.succ (e + 149)) by lia. by rewrite Z.pow_succ_r by lia. Qed.

Lemma away_spec s m e : bounded 24 128 m e = true →
  num (away s m e) ∧ Z.pos m * 2 ^ (e + 149) < cond_Zopp s (val (away s m e)).
Proof.
  intros Hb. pose proof (bounded_value 24 128 ltac:(done) m e Hb) as [Hu [_ Hv]].
  change (- emin 24 128) with 149 in *. apply f32_bounded in Hb as (Hm & He & Hor).
  pose proof (pow2_pos (e + 149) ltac:(lia)). unfold away.
  repeat case_decide.
  - split; [split; [apply f32_bounded; lia|done]|]. rewrite val_finite.
    assert (cond_Zopp s (cond_Zopp s (Z.pos (Pos.succ m) * 2 ^ (e + 149))) = Z.pos (Pos.succ m) * 2 ^ (e + 149)) as ->
      by (destruct s; simpl; lia). nia.
  - split; [split; [apply f32_bounded; lia|done]|]. rewrite val_finite, pow2_step by lia.
    assert (cond_Zopp s (cond_Zopp s (Z.pos (2 ^ 23) * (2 * 2 ^ (e + 149)))) = 2 ^ 24 * 2 ^ (e + 149)) as ->
      by (destruct s; simpl cond_Zopp; lia). nia.
  - split; [done|]. cbn [fv]. destruct s; simpl cond_Zopp; lia.
Qed.

Lemma toward_spec s m e : bounded 24 128 m e = true →
  num (toward s m e) ∧ 0 ≤ cond_Zopp s (val (toward s m e)) < Z.pos m * 2 ^ (e + 149).
Proof.
  intros Hb. pose proof Hb as (Hm & He & Hor)%f32_bounded. pose proof (pow2_pos (e + 149) ltac:(lia)).
  unfold toward. case_bool_decide as H1; [split; [done|]; simpl; destruct s; simpl; lia|].
  destruct (bool_decide _ && bool_decide _) eqn:Hc; simp_bool.
  - split; [split; [apply f32_bounded; lia|done]|]. rewrite val_finite. subst m.
    assert (2 ^ (e + 149) = 2 * 2 ^ (e - 1 + 149)) as -> by (rewrite <- pow2_step by lia; f_equal; lia).
    pose proof (pow2_pos (e - 1 + 149) ltac:(lia)).
    assert (cond_Zopp s (cond_Zopp s (Z.pos (2 ^ 24 - 1) * 2 ^ (e - 1 + 149))) = (2 ^ 24 - 1) * 2 ^ (e - 1 + 149)) as ->
      by (destruct s; simpl cond_Zopp; lia). change (Z.pos (2 ^ 23)) with (2 ^ 23). lia.
  - assert (e = -149 ∨ 2 ^ 23 < Z.pos m) as Hor'.
    { apply andb_false_iff in Hc as [Hc|Hc]; simp_bool; [|lia]. destruct Hor as [|Hle]; [by left|right].
      change (2 ^ 23) with (Z.pos (2 ^ 23)) in *. lia. }
    split; [split; [apply f32_bounded; lia|done]|]. rewrite val_finite.
    assert (cond_Zopp s (cond_Zopp s (Z.pos (Pos.pred m) * 2 ^ (e + 149))) = Z.pos (Pos.pred m) * 2 ^ (e + 149)) as ->
      by (destruct s; simpl cond_Zopp; lia). nia.
Qed.

(** The neighbour below, or above when [up] is set. *)
Definition next (up : bool) (x : f32) : f32 := if up then next_up x else next_down x.

Lemma next_spec up x : num x →
  num (next up x) ∧ cond_Zopp up (val (next up x)) ≤ cond_Zopp up (val x) ∧ cond_Zopp up (val (next up x)) < limit ∧
  (cond_Zopp up (val x) = - limit → cond_Zopp up (val (next up x)) = - limit).
Proof.
  intros [Hb Hn]. assert (0 < limit) by done.
  assert (∀ m e, bounded 24 128 m e = true → Z.pos m * 2 ^ (e + 149) < limit) as Hlt.
  { intros m e Hbm. by destruct (bounded_value 24 128 ltac:(done) m e Hbm) as [_ [_ ?]]. }
  destruct up; unfold next; cbn [cond_Zopp].
  - destruct x as [s|[]| |[] m e]; try done; cbn [valid_binary] in Hb; cbn [next_up].
    + destruct (toward_spec true m e Hb) as [Ht Hv]. specialize (Hlt m e Hb). rewrite val_finite. simpl cond_Zopp in *.
      split; [done|]. lia.
    + destruct (away_spec false m e Hb) as [Ht Hv]. specialize (Hlt m e Hb). rewrite val_finite. simpl cond_Zopp in *.
      split; [done|]. pose proof (pow2_pos (e + 149)). apply f32_bounded in Hb. lia.
  - destruct x as [s|[]| |[] m e]; try done; cbn [valid_binary] in Hb; cbn [next_down].
    + destruct (away_spec true m e Hb) as [Ht Hv]. specialize (Hlt m e Hb). rewrite val_finite. simpl cond_Zopp in *.
      split; [done|]. pose proof (pow2_pos (e + 149)). apply f32_bounded in Hb. lia.
    + destruct (toward_spec false m e Hb) as [Ht Hv]. specialize (Hlt m e Hb). rewrite val_finite. simpl cond_Zopp in *.
      split; [done|]. lia.
Qed.

(** ** Bounds *)

(** [b] bounds [v] from below, or from above when [up] is set. The far infinity bounds
    everything, also a NaN; the near one is never a bound. *)
Definition bound (up : bool) (b v : f32) : Prop :=
  num b ∧ cond_Zopp up (val b) < limit ∧
  (cond_Zopp up (val b) = - limit ∨ num v ∧ cond_Zopp up (val b) ≤ cond_Zopp up (val v)).

Lemma bound_refl up x : fin x → bound up x x.
Proof.
  intros Hx. pose proof (finite_lt 24 128 ltac:(done) ltac:(done) x Hx). destruct Hx as [Hx _].
  split; [done|]. split; [destruct up; simpl; lia|]. by right.
Qed.

Lemma bound_next up b v : num b → num v → cond_Zopp up (val b) ≤ cond_Zopp up (val v) → bound up (next up b) v.
Proof.
  intros Hb Hv Hle. destruct (next_spec up b Hb) as (Hn & Hl & Hlt & _). split; [done|]. split; [done|]. right.
  split; [done|lia].
Qed.

Lemma far_infinite up b : num b → cond_Zopp up (val b) = - limit → b = S754_infinity (negb up).
Proof.
  intros Hb Hv. apply (number_infinite 24 128); [done..|]. destruct up; simpl in *; lia.
Qed.

Lemma far_next up : bound up (next up (S754_infinity (negb up))) S754_nan.
Proof. destruct up; (split; [done|]); (split; [done|]); by left. Qed.

Lemma bound_far up b v v' : bound up b v → cond_Zopp up (val b) = - limit → bound up b v'.
Proof. intros (? & ? & _) ?. split; [done|]. split; [done|]. by left. Qed.

Lemma add_far up b b' : b = S754_infinity (negb up) → num b' → cond_Zopp up (val b') < limit →
  f32_add b b' = b ∧ f32_add b' b = b.
Proof.
  intros -> Hn Hlt. assert (0 < limit) by done.
  destruct b' as [s|s| |s m e]; [by destruct up, s| |by destruct Hn|by destruct up, s].
  destruct up, s; try done; simpl in Hlt; lia.
Qed.

Lemma bound_add up b v b' v' :
  bound up b v → bound up b' v' → bound up (next up (f32_add b b')) (f32_add v v').
Proof.
  intros (Hb & Hlt & Hor) (Hb' & Hlt' & Hor').
  destruct (decide (cond_Zopp up (val b) = - limit)) as [E|Hne].
  { apply far_infinite in E; [|done]. destruct (add_far up b b' E Hb' Hlt') as [-> _]. rewrite E.
    eapply bound_far; [apply far_next|]. by destruct up. }
  destruct (decide (cond_Zopp up (val b') = - limit)) as [E|Hne'].
  { apply far_infinite in E; [|done]. destruct (add_far up b' b E Hb Hlt) as [_ ->]. rewrite E.
    eapply bound_far; [apply far_next|]. by destruct up. }
  destruct Hor as [|[Hv Hle]]; [done|]. destruct Hor' as [|[Hv' Hle']]; [done|].
  assert (∀ x, num x → cond_Zopp up (val x) < limit → cond_Zopp up (val x) ≠ - limit → fin x) as Hfin.
  { intros x Hx H1 H2. apply (number_finite 24 128); [done..|].
    pose proof (number_le 24 128 ltac:(done) ltac:(done) x Hx). destruct up; simpl in *; lia. }
  destruct (SFadd_mono 24 128 ltac:(done) ltac:(done) up b b' v v') as [Hn Hs]; [by apply Hfin|by apply Hfin|done..|].
  destruct (SFadd_value 24 128 ltac:(done) ltac:(done) b b') as [Hs' _]; [by apply Hfin|by apply Hfin|].
  exact (bound_next up _ _ Hs' Hn Hs).
Qed.

(** ** Intervals *)

(** [x] lies between the bounds [b]. *)
Definition in_box (b : f32 * f32) (x : f32) : Prop :=
  num b.1 ∧ num b.2 ∧ num x ∧ val b.1 ≤ val x ≤ val b.2.

(** A weight with a defined product with every number, infinities included. *)
Definition weight_ok (w : f32) : bool :=
  match w with S754_finite _ m e => bounded 24 128 m e | _ => false end.

Definition bias_ok (b : f32) : bool :=
  match b with S754_zero _ => true | S754_finite _ m e => bounded 24 128 m e | _ => false end.

Lemma weight_ok_spec w : weight_ok w = true → fin w ∧ val w ≠ 0.
Proof.
  destruct w as [| | |s m e]; try discriminate. intros Hb. split; [by repeat split|].
  destruct (bounded_value 24 128 eq_refl m e Hb) as [_ [Hv _]]. rewrite val_finite.
  change (- emin 24 128) with 149 in Hv. revert Hv. generalize (Z.pos m * 2 ^ (e + 149)). intros v Hv.
  destruct s; cbn [cond_Zopp]; lia.
Qed.

Lemma bias_ok_spec b : bias_ok b = true → fin b.
Proof. destruct b; try discriminate; intros Hb; by repeat split. Qed.

Lemma bound_mul up w b x :
  weight_ok w = true → in_box b x →
  bound up (next up (f32_mul w (if xorb up (val w <? 0) then b.2 else b.1))) (f32_mul w x).
Proof.
  intros [Hw Hne]%weight_ok_spec (H1 & H2 & Hx & [Hle1 Hle2]).
  destruct (SFmul_mono 24 128 eq_refl eq_refl w b.1 x Hw H1 Hx (or_intror Hne) Hle1) as (N1 & Nx & L1).
  destruct (SFmul_mono 24 128 eq_refl eq_refl w x b.2 Hw Hx H2 (or_intror Hne) Hle2) as (_ & N2 & L2).
  unfold f32_mul. destruct (val w <? 0), up; cbn [xorb cond_Zopp] in *;
    (apply bound_next; [assumption..|]); cbn [cond_Zopp];
    first [exact L1|exact (proj2 (Z.opp_le_mono _ _) L2)|exact (proj1 (Z.opp_le_mono _ _) L2)].
Qed.

Lemma zero_num s : num (S754_zero s).
Proof. split; [reflexivity|discriminate]. Qed.

Lemma ibp_step_sound acc v w b x :
  weight_ok w = true → in_box b x → bound false acc.1 v → bound true acc.2 v →
  let acc' := ibp_step acc (w, b) in
  bound false acc'.1 (f32_add v (f32_mul w x)) ∧ bound true acc'.2 (f32_add v (f32_mul w x)).
Proof.
  intros Hw Hx Hlo Hhi. pose proof (bound_mul false w b x Hw Hx) as Ml. pose proof (bound_mul true w b x Hw Hx) as Mh.
  apply weight_ok_spec in Hw as [[Hw _] _].
  assert (SFleb (lit 0 0) w = negb (val w <? 0)) as Hsign.
  { rewrite (SFleb_fv 24 128 eq_refl eq_refl) by (exact (zero_num _) || exact Hw).
    rewrite Z.ltb_antisym, negb_involutive. reflexivity. }
  destruct b as [x_lo x_hi]. unfold ibp_step. cbv zeta beta match. rewrite Hsign.
  destruct (val w <? 0); cbn [xorb negb fst snd] in *;
    (split; [exact (bound_add false _ _ _ _ Hlo Ml)|exact (bound_add true _ _ _ _ Hhi Mh)]).
Qed.

Lemma ibp_fold_sound ws : ∀ boxes xs acc v,
  forallb weight_ok ws = true → Forall2 in_box boxes xs → bound false acc.1 v → bound true acc.2 v →
  let acc' := foldl ibp_step acc (zip ws boxes) in
  let v' := foldl (λ acc wx, f32_add acc (f32_mul wx.1 wx.2)) v (zip ws xs) in
  bound false acc'.1 v' ∧ bound true acc'.2 v'.
Proof.
  induction ws as [|w ws IH]; intros boxes xs acc v Hws Hxs Hlo Hhi; [by split|].
  destruct Hxs as [|b x boxes xs Hx Hxs]; [by split|]. cbn [forallb] in Hws. apply andb_true_iff in Hws as [Hw Hws].
  cbn [zip zip_with foldl fst snd].
  destruct (ibp_step_sound acc v w b x Hw Hx Hlo Hhi) as [Hl Hh]. by apply IH.
Qed.

Lemma ibp_row_sound ws boxes xs b :
  forallb weight_ok ws = true → Forall2 in_box boxes xs → bias_ok b = true →
  bound false (ibp_row ws boxes b).1 (dot b ws xs) ∧ bound true (ibp_row ws boxes b).2 (dot b ws xs).
Proof. intros Hws Hxs Hb%bias_ok_spec. apply ibp_fold_sound; [done..|by apply bound_refl|by apply bound_refl]. Qed.

(** A number or a NaN. *)
Definition valid (x : f32) : Prop := num x ∨ x = S754_nan.

Lemma infinity_num s : num (S754_infinity s).
Proof. split; [reflexivity|discriminate]. Qed.

Lemma num_finite x : num x → (∃ s, x = S754_infinity s) ∨ fin x.
Proof. intros Hx. destruct x as [|s| |]; [|left; by exists s|by destruct Hx|]; right; (split; [exact Hx|exact I]). Qed.

Ltac nonfinite := (right; reflexivity) || (left; exact (infinity_num _)).

Lemma valid_add x y : valid x → valid y → valid (f32_add x y).
Proof.
  intros [Hx| ->]; [|intros _; destruct y; nonfinite]. intros [Hy| ->]; [|destruct x; nonfinite].
  destruct (num_finite x Hx) as [[s ->]|Fx]; [destruct y as [|s'| |]; [|destruct s, s'|..]; nonfinite|].
  destruct (num_finite y Hy) as [[s' ->]|Fy]; [destruct x as [|s| |]; [|destruct s, s'|..]; nonfinite|].
  left. exact (proj1 (SFadd_value 24 128 eq_refl eq_refl x y Fx Fy)).
Qed.

Lemma valid_mul x y : valid x → valid y → valid (f32_mul x y).
Proof.
  intros [Hx| ->]; [|intros _; destruct y; nonfinite]. intros [Hy| ->]; [|destruct x; nonfinite].
  destruct (num_finite x Hx) as [[s ->]|Fx]; [destruct y; nonfinite|].
  destruct (num_finite y Hy) as [[s' ->]|Fy]; [destruct x; nonfinite|].
  left. exact (proj1 (SFmul_value 24 128 eq_refl eq_refl x y Fx Fy)).
Qed.

Lemma valid_dot ws xs b : forallb weight_ok ws = true → Forall num xs → bias_ok b = true → valid (dot b ws xs).
Proof.
  intros Hws Hxs Hb%bias_ok_spec. assert (valid b) as Hv by (left; exact (proj1 Hb)). clear Hb. unfold dot. revert xs b Hxs Hv.
  induction ws as [|w ws IH]; intros xs b Hxs Hv; [exact Hv|]. destruct Hxs as [|x xs Hx Hxs]; [exact Hv|].
  cbn [forallb] in Hws. apply andb_true_iff in Hws as [Hw Hws]. apply weight_ok_spec in Hw as [[Hw _] _].
  cbn [zip zip_with foldl fst snd]. apply IH; [done..|]. apply valid_add; [exact Hv|]. apply valid_mul; by left.
Qed.

(** The rectifier takes a NaN to zero, which the bounds of a NaN contain. *)
Lemma relu_val z : num z → num (relu_f32 z) ∧ val (relu_f32 z) = Z.max 0 (val z).
Proof.
  intros Hz. unfold relu_f32. rewrite (SFltb_fv 24 128 eq_refl eq_refl) by (exact (zero_num _) || exact Hz).
  change (val (lit 0 0)) with 0. destruct (Z.ltb_spec 0 (val z)).
  - split; [exact Hz|lia].
  - split; [exact (zero_num _)|]. change (val (lit 0 0)) with 0. lia.
Qed.

Lemma max_val z : num z → num (f32_max z (lit 0 0)) ∧ val (f32_max z (lit 0 0)) = Z.max 0 (val z).
Proof.
  intros Hz. unfold f32_max. rewrite (SFcompare_fv 24 128 eq_refl eq_refl) by (exact (zero_num _) || exact Hz).
  change (val (lit 0 0)) with 0. destruct (Z.compare_spec (val z) 0).
  - split; [exact Hz|lia].
  - split; [exact (zero_num _)|]. change (val (lit 0 0)) with 0. lia.
  - split; [exact Hz|lia].
Qed.

Lemma relu_box lo hi z :
  valid z → bound false lo z → bound true hi z → in_box (f32_max lo (lit 0 0), f32_max hi (lit 0 0)) (relu_f32 z).
Proof.
  intros Hz (Hlo & Llo & Olo) (Hhi & Lhi & Ohi). cbn [cond_Zopp] in *. assert (0 < limit) as Hlim by reflexivity.
  destruct (max_val lo Hlo) as [Nlo Vlo], (max_val hi Hhi) as [Nhi Vhi].
  unfold in_box. cbn [fst snd]. rewrite Vlo, Vhi. destruct Hz as [Hz| ->].
  - destruct (relu_val z Hz) as [Nr Vr]. rewrite Vr. pose proof (number_le 24 128 eq_refl eq_refl z Hz) as Hr.
    revert Hlim Llo Olo Lhi Ohi Hr. generalize limit. intros lim. intros. split_and!; [assumption..| |]; lia.
  - change (val (relu_f32 S754_nan)) with 0.
    assert (∀ P : Prop, ¬ (num S754_nan ∧ P)) as Hnan by (intros P [[_ []] _]; reflexivity).
    destruct Olo as [Olo|Olo]; [|by apply Hnan in Olo]. destruct Ohi as [Ohi|Ohi]; [|by apply Hnan in Ohi].
    revert Hlim Olo Ohi. generalize limit. intros lim. intros.
    split_and!; [assumption..|exact (zero_num _)| |]; lia.
Qed.

(** ** The network *)

(** Every weight is finite and not zero, every bias finite. *)
Definition network_ok (w1 : list (list f32)) (b1 w2 : list f32) (b2 : f32) : bool :=
  forallb (forallb weight_ok) w1 && forallb bias_ok b1 && forallb weight_ok w2 && bias_ok b2.

(** The output before the sigmoid, as [mlp_predict_32] computes it. *)
Definition pre_sigmoid (w1 : list (list f32)) (b1 w2 : list f32) (b2 : f32) (input : list f32) : f32 :=
  dot b2 w2 (zip_with (λ b w, relu_f32 (dot b w input)) b1 w1).

Lemma in_box_num boxes xs : Forall2 in_box boxes xs → Forall num xs.
Proof. induction 1 as [|b x boxes xs (_ & _ & Hx & _)]; constructor; assumption. Qed.

Lemma hidden_box w1 boxes xs : ∀ b1,
  forallb (forallb weight_ok) w1 = true → forallb bias_ok b1 = true → Forall2 in_box boxes xs →
  let out := zip_with (λ b w, ibp_row w boxes b) b1 w1 in
  Forall2 in_box (zip ((λ z, f32_max z (lit 0 0)) <$> out.*1) ((λ z, f32_max z (lit 0 0)) <$> out.*2))
    (zip_with (λ b w, relu_f32 (dot b w xs)) b1 w1).
Proof.
  induction w1 as [|w w1 IH]; intros [|b b1] Hw Hb Hx; try constructor.
  - cbn [forallb] in Hw, Hb. apply andb_true_iff in Hw as [Hw _], Hb as [Hb _].
    destruct (ibp_row_sound w boxes xs b Hw Hx Hb) as [Hlo Hhi].
    apply relu_box; [|exact Hlo|exact Hhi]. exact (valid_dot w xs b Hw (in_box_num _ _ Hx) Hb).
  - cbn [forallb] in Hw, Hb. apply andb_true_iff in Hw as [_ Hw], Hb as [_ Hb]. exact (IH b1 Hw Hb Hx).
Qed.

Lemma ibp_mlp_sound w1 b1 w2 b2 lo hi xs :
  network_ok w1 b1 w2 b2 = true → Forall2 in_box (zip lo hi) xs →
  let pre := ibp_mlp_pre_sigmoid w1 b1 w2 b2 lo hi in
  let z := pre_sigmoid w1 b1 w2 b2 xs in
  valid z ∧ bound false (psi_lo pre) z ∧ bound true (psi_hi pre) z.
Proof.
  unfold network_ok. intros Hok Hx. repeat apply andb_true_iff in Hok as [Hok ?].
  pose proof (hidden_box w1 (zip lo hi) xs b1 ltac:(assumption) ltac:(assumption) Hx) as Hh.
  split; [|exact (ibp_row_sound w2 _ _ b2 ltac:(assumption) Hh ltac:(assumption))].
  apply valid_dot; [assumption| |assumption]. exact (in_box_num _ _ Hh).
Qed.

(** ** The input box *)

(** [x'] is within [eps] of [x]; the distance is exact. *)
Definition within (eps x x' : f32) : Prop := fin x' ∧ Z.abs (val x' - val x) ≤ val eps.

Lemma input_box_contains eps x x' :
  num eps → 0 ≤ val eps → fin x → within eps x x' →
  in_box (next_down (f32_sub x eps), next_up (f32_add x eps)) x'.
Proof.
  intros He H0 Hx [Hx' Hd]. destruct (num_finite eps He) as [[s ->]|Fe].
  { destruct s; [by destruct H0|]. pose proof (number_le 24 128 eq_refl eq_refl x' (proj1 Hx')) as [Hl Hu].
    assert (f32_sub x (S754_infinity false) = S754_infinity true ∧ f32_add x (S754_infinity false) = S754_infinity false)
      as [-> ->] by (destruct Hx as [[_ Hn] Hf]; destruct x; [by split|by destruct Hf|by destruct Hn|by split]).
    split; [exact (infinity_num _)|]. split; [exact (infinity_num _)|]. split; [exact (proj1 Hx')|by split]. }
  destruct (SFsub_value 24 128 eq_refl eq_refl x eps Hx Fe) as [Ns Vs].
  destruct (SFadd_value 24 128 eq_refl eq_refl x eps Hx Fe) as [Na Va].
  pose proof (srnd_float 24 128 eq_refl eq_refl x' Hx') as Hr.
  pose proof (srnd_mono 24 128 eq_refl eq_refl (val x - val eps) 1 (val x') 1 eq_refl eq_refl ltac:(lia)) as Ml.
  pose proof (srnd_mono 24 128 eq_refl eq_refl (val x') 1 (val x + val eps) 1 eq_refl eq_refl ltac:(lia)) as Mh.
  rewrite Hr, <- Vs in Ml. rewrite Hr, <- Va in Mh.
  destruct (next_spec false _ Ns) as (Nd & Ld & _), (next_spec true _ Na) as (Nu & Lu & _).
  cbn [next cond_Zopp] in *. unfold in_box. cbn [fst snd].
  split_and!; [exact Nd|exact Nu|exact (proj1 Hx')|exact (Z.le_trans _ _ _ Ld Ml)|].
  apply Z.opp_le_mono in Lu. exact (Z.le_trans _ _ _ Mh Lu).
Qed.

Lemma input_box_sound eps xs xs' :
  num eps → 0 ≤ val eps → Forall fin xs → Forall2 (within eps) xs xs' →
  Forall2 in_box (zip (input_box xs eps).1 (input_box xs eps).2) xs'.
Proof.
  intros He H0 Hxs Hw. induction Hw as [|x x' xs xs' Hx Hw IH]; [constructor|].
  apply Forall_cons in Hxs as [Fx Fxs]. constructor; [by apply input_box_contains|by apply IH].
Qed.
