(* ===== verification/Certify.v ===== *)
(** * What a certified radius certifies ([src/ensemble/crown.rs]).

    The verdict is the same on every input within the radius that [certified_radius] returns.
    The slack of eight units on the sigmoid covers an exponential whose error is below one
    unit in the last place; the binary search ends for tolerances that the arithmetic can
    resolve, and does not end below them. *)

From S2P Require Import Prelude Float64 Ensemble FloatRound Crown.

(** ** The exponential *)

(** What the certificate relies on: the exponential is a number and not negative, it is exact
    at the infinities, and it is increasing up to one unit in the last place. An error below
    one unit in the last place of the real exponential gives [exp_step]. *)
Class ExpLaws `{!Libm} : Prop := {
  exp_number x : num x → num (f32_exp x) ∧ 0 ≤ val (f32_exp x);
  exp_step x y : num x → num y → val x ≤ val y →
    val (f32_exp x) ≤ val (f32_exp y) ∨ fin (f32_exp x) ∧ val (f32_exp x) ≤ val (next_up (f32_exp y));
  exp_infinity : f32_exp (S754_infinity false) = S754_infinity false;
  exp_minus_infinity : f32_exp (S754_infinity true) = S754_zero false;
}.

(** ** The size of one step *)

Lemma away_val s m e : bounded 24 128 m e = true → cond_Zopp s (val (away s m e)) = (Z.pos m + 1) * 2 ^ (e + 149).
Proof.
  intros (Hm & He & Hor)%f32_bounded. unfold away. repeat case_decide.
  - rewrite val_finite. rewrite Pos2Z.inj_succ. generalize (2 ^ (e + 149)). intros. destruct s; cbn [cond_Zopp]; lia.
  - rewrite val_finite, pow2_step by lia. assert (Z.pos m + 1 = 2 ^ 24) as -> by lia. change (Z.pos (2 ^ 23)) with (2 ^ 23).
    generalize (2 ^ (e + 149)). intros. destruct s; cbn [cond_Zopp]; lia.
  - assert (Z.pos m + 1 = 2 ^ 24) as -> by lia. assert (e = 104) as -> by lia. by destruct s.
Qed.

Lemma toward_val s m e : bounded 24 128 m e = true →
  ∃ g, cond_Zopp s (val (toward s m e)) = Z.pos m * 2 ^ (e + 149) - g ∧
       (g = 2 ^ (e + 149) ∨ Z.pos m = 2 ^ 23 ∧ 2 * g = 2 ^ (e + 149)).
Proof.
  intros (Hm & He & Hor)%f32_bounded. unfold toward. case_bool_decide as H1.
  { exists (2 ^ (e + 149)). subst m. rewrite Z.mul_1_l, Z.sub_diag. split; [by destruct s|by left]. }
  destruct (bool_decide _ && bool_decide _) eqn:Hc; simp_bool.
  - exists (2 ^ (e - 1 + 149)). subst m.
    assert (2 ^ (e + 149) = 2 * 2 ^ (e - 1 + 149)) as -> by (rewrite <- pow2_step by lia; f_equal; lia).
    rewrite val_finite. change (Z.pos (2 ^ 24 - 1)) with (2 ^ 24 - 1). change (Z.pos (2 ^ 23)) with (2 ^ 23).
    generalize (2 ^ (e - 1 + 149)). intros. split; [destruct s; cbn [cond_Zopp]; lia|by right].
  - exists (2 ^ (e + 149)). rewrite val_finite. split; [|by left].
    assert (Z.pos (Pos.pred m) = Z.pos m - 1) as -> by lia.
    generalize (2 ^ (e + 149)). intros. destruct s; cbn [cond_Zopp]; lia.
Qed.

(** A step down is at least a part in [2 ^ 24], of any number. *)
Lemma next_down_rel x : num x → 2 ^ 24 * val (next_down x) ≤ (2 ^ 24 - 1) * val x.
Proof.
  intros [Hb Hn]. destruct x as [s|[]| |[] m e]; try done; cbn [valid_binary next_down] in *.
  - pose proof (away_val true m e Hb) as Ha. apply f32_bounded in Hb as (Hm & He & _). rewrite val_finite.
    pose proof (pow2_pos (e + 149) ltac:(lia)) as Hp. revert Hp Ha. generalize (2 ^ (e + 149)) (val (away true m e)).
    intros p v ??. cbn [cond_Zopp] in *. nia.
  - pose proof (toward_val false m e Hb) as (g & Hg & Hor). apply f32_bounded in Hb as (Hm & He & _). rewrite val_finite.
    pose proof (pow2_pos (e + 149) ltac:(lia)) as Hp. revert Hp Hg Hor. generalize (2 ^ (e + 149)) (val (toward false m e)).
    intros p v ???. cbn [cond_Zopp] in *. assert (Z.pos m * p ≤ 2 ^ 24 * p) by (apply Z.mul_le_mono_nonneg_r; lia).
    destruct Hor as [->|[Em Hg2]]; [|rewrite Em in *]; lia.
Qed.

Lemma next_up_rel x : num x → 0 ≤ val x →
  val (next_up x) = limit ∨ (2 ^ 24 + 1) * val x ≤ 2 ^ 24 * val (next_up x).
Proof.
  intros [Hb Hn] H0. destruct x as [s|[]| |[] m e]; try done; cbn [valid_binary next_up] in *.
  - by right.
  - by left.
  - destruct (bounded_value 24 128 eq_refl m e Hb) as [_ [Hv _]]. rewrite val_finite in H0.
    change (- emin 24 128) with 149 in Hv. revert H0 Hv. generalize (Z.pos m * 2 ^ (e + 149)). cbn [cond_Zopp]. lia.
  - right. pose proof (away_val false m e Hb) as Ha. apply f32_bounded in Hb as (Hm & He & _). rewrite val_finite.
    pose proof (pow2_pos (e + 149) ltac:(lia)) as Hp. revert Hp Ha. generalize (2 ^ (e + 149)) (val (away false m e)).
    intros p v ??. cbn [cond_Zopp] in *. nia.
Qed.

(** A step is at most a part in [2 ^ 23] of a normal number. *)
Lemma next_up_gap x : fin x → 0 ≤ val x →
  val x < val (next_up x) ∧ 2 ^ 23 * (val (next_up x) - val x) ≤ Z.max (val x) (2 ^ 23).
Proof.
  intros [[Hb Hn] Hf] H0. destruct x as [s|s| |[] m e]; try done; cbn [valid_binary next_up] in *.
  - destruct (bounded_value 24 128 eq_refl m e Hb) as [_ [Hv _]]. rewrite val_finite in H0.
    change (- emin 24 128) with 149 in Hv. revert H0 Hv. generalize (Z.pos m * 2 ^ (e + 149)). cbn [cond_Zopp]. lia.
  - pose proof (away_val false m e Hb) as Ha. apply f32_bounded in Hb as (Hm & He & Hor). rewrite val_finite.
    pose proof (pow2_pos (e + 149) ltac:(lia)) as Hp. cbn [cond_Zopp] in *. rewrite Ha.
    destruct Hor as [->|Hor]; [change (2 ^ (-149 + 149)) with 1; lia|].
    revert Hp. generalize (2 ^ (e + 149)). intros p ?. nia.
Qed.

Lemma next_down_gap x : fin x → 2 ^ 24 ≤ val x →
  val (next_down x) < val x ∧ 2 ^ 23 * (val x - val (next_down x)) ≤ val x.
Proof.
  intros [[Hb Hn] Hf] H0. destruct x as [s|s| |[] m e]; try done; cbn [valid_binary next_down] in *.
  - destruct (bounded_value 24 128 eq_refl m e Hb) as [_ [Hv _]]. rewrite val_finite in H0.
    change (- emin 24 128) with 149 in Hv. revert H0 Hv. generalize (Z.pos m * 2 ^ (e + 149)). cbn [cond_Zopp]. lia.
  - pose proof (toward_val false m e Hb) as (g & Hg & Hor). apply f32_bounded in Hb as (Hm & He & Hor').
    rewrite val_finite in *. pose proof (pow2_pos (e + 149) ltac:(lia)) as Hp. cbn [cond_Zopp] in *. rewrite Hg.
    destruct Hor' as [->|Hor']; [change (2 ^ (-149 + 149)) with 1 in *; lia|].
    revert Hp Hor. generalize (2 ^ (e + 149)). intros p ??. destruct Hor as [->|[-> ?]]; nia.
Qed.

(** ** Several steps *)

Lemma iter_next up n x : num x →
  num (Nat.iter n (next up) x) ∧ cond_Zopp up (val (Nat.iter n (next up) x)) ≤ cond_Zopp up (val x).
Proof.
  intros Hx. induction n as [|n [IHn IHv]]; [by split|]. rewrite Nat.iter_succ.
  destruct (next_spec up _ IHn) as (Hn & Hv & _). split; [exact Hn|exact (Z.le_trans _ _ _ Hv IHv)].
Qed.

Lemma iter_down_rel n x : num x → (2 ^ 24) ^ Z.of_nat n * val (Nat.iter n next_down x) ≤ (2 ^ 24 - 1) ^ Z.of_nat n * val x.
Proof.
  intros Hx. induction n as [|n IH]; [cbn; lia|]. rewrite Nat2Z.inj_succ, !Z.pow_succ_r by lia. rewrite Nat.iter_succ.
  pose proof (next_down_rel _ (proj1 (iter_next false n x Hx))) as Hr. change (next false) with next_down in Hr.
  revert IH Hr. generalize (Nat.iter n next_down x). intros y IH Hr.
  assert (0 ≤ (2 ^ 24) ^ Z.of_nat n) by (apply Z.pow_nonneg; lia).
  apply (Z.mul_le_mono_nonneg_l _ _ ((2 ^ 24) ^ Z.of_nat n)) in Hr; [|done].
  revert IH Hr. generalize ((2 ^ 24) ^ Z.of_nat n) ((2 ^ 24 - 1) ^ Z.of_nat n). intros. lia.
Qed.

Lemma iter_up_rel n x : num x → 0 ≤ val x →
  val (Nat.iter n next_up x) = limit ∨
  (2 ^ 24 + 1) ^ Z.of_nat n * val x ≤ (2 ^ 24) ^ Z.of_nat n * val (Nat.iter n next_up x).
Proof.
  intros Hx H0. induction n as [|n IH]; [right; cbn; lia|]. rewrite Nat2Z.inj_succ, !Z.pow_succ_r by lia.
  rewrite Nat.iter_succ. destruct (iter_next true n x Hx) as [Hy Hv]. change (next true) with next_up in *.
  cbn [cond_Zopp] in Hv. revert IH Hy Hv. generalize (Nat.iter n next_up x). intros y IH Hy Hv.
  destruct IH as [IH|IH].
  { left. rewrite (number_infinite 24 128 eq_refl eq_refl y false Hy IH). reflexivity. }
  destruct (next_up_rel y Hy ltac:(lia)) as [Hr|Hr]; [by left|right].
  assert (0 ≤ (2 ^ 24) ^ Z.of_nat n) by (apply Z.pow_nonneg; lia).
  apply (Z.mul_le_mono_nonneg_l _ _ ((2 ^ 24) ^ Z.of_nat n)) in Hr; [|done].
  revert IH Hr. generalize ((2 ^ 24) ^ Z.of_nat n) ((2 ^ 24 + 1) ^ Z.of_nat n). intros. lia.
Qed.

(** ** Rounding against a float *)

Lemma srnd_num x : num x → srnd 24 128 (val x) 1 = val x.
Proof.
  intros Hx. destruct (num_finite x Hx) as [[[] ->]|Fx]; [vm_compute; reflexivity..|].
  exact (srnd_float 24 128 eq_refl eq_refl x Fx).
Qed.

Lemma srnd_ge f n d : num f → 0 < d → val f * d ≤ n → val f ≤ srnd 24 128 n d.
Proof.
  intros Hf Hd Hle. rewrite <- (srnd_num f Hf). apply srnd_mono; [reflexivity|reflexivity|reflexivity|exact Hd|].
  rewrite Z.mul_1_r. exact Hle.
Qed.

Lemma srnd_le f n d : num f → 0 < d → n ≤ val f * d → srnd 24 128 n d ≤ val f.
Proof.
  intros Hf Hd Hle. rewrite <- (srnd_num f Hf). apply srnd_mono; [reflexivity|reflexivity|exact Hd|reflexivity|].
  rewrite Z.mul_1_r. exact Hle.
Qed.

(** The neighbours of a rounded quotient enclose the quotient. *)
Lemma rounded_below q n d : fin q → 0 ≤ val q → 0 < d → val q = srnd 24 128 n d → n < val (next_up q) * d.
Proof.
  intros Fq H0 Hd Hv. destruct (next_up_gap q Fq H0) as [Hlt _].
  destruct (next_spec true q (proj1 Fq)) as [Hn _]. apply Z.nle_gt. intros Hge.
  pose proof (srnd_ge _ n d Hn Hd Hge) as Hc. rewrite <- Hv in Hc. cbn [next] in Hc. lia.
Qed.

Lemma next_down_lt q : fin q → val (next_down q) < val q.
Proof.
  intros [[Hb Hn] Hf]. destruct q as [s|s| |[] m e]; try done; cbn [valid_binary next_down] in *.
  - destruct (away_spec true m e Hb) as [_ Ha]. rewrite val_finite. cbn [cond_Zopp] in *. lia.
  - destruct (toward_spec false m e Hb) as [_ Ha]. rewrite val_finite. cbn [cond_Zopp] in *. lia.
Qed.

Lemma rounded_above q n d : fin q → 0 < d → val q = srnd 24 128 n d → val (next_down q) * d < n.
Proof.
  intros Fq Hd Hv. pose proof (next_down_lt q Fq) as Hlt.
  destruct (next_spec false q (proj1 Fq)) as [Hn _]. apply Z.nle_gt. intros Hge.
  pose proof (srnd_le _ n d Hn Hd Hge) as Hc. rewrite <- Hv in Hc. cbn [next] in Hc. lia.
Qed.

(** ** The sigmoid *)

Lemma one_eq : lit 1 0 = S754_finite false 8388608 (-23).
Proof. vm_compute. reflexivity. Qed.

Lemma one_fin : fin (lit 1 0).
Proof. rewrite one_eq. repeat split. discriminate. Qed.

Lemma one_val : val (lit 1 0) = 2 ^ 149.
Proof. vm_compute. reflexivity. Qed.

Lemma fin_max x : fin x → val x ≤ (2 ^ 24 - 1) * 2 ^ 253.
Proof.
  intros [[Hb _] Hf]. destruct x as [s|s| |s m e]; [discriminate|by destruct Hf|discriminate|].
  cbn [valid_binary] in Hb. apply f32_bounded in Hb as (Hm & He & _). rewrite val_finite.
  assert (Z.pos m * 2 ^ (e + 149) ≤ (2 ^ 24 - 1) * 2 ^ 253) as Hle.
  { apply Z.mul_le_mono_nonneg; [lia|lia|apply Z.pow_nonneg; lia|]. apply Z.pow_le_mono_r; lia. }
  pose proof (pow2_pos (e + 149) ltac:(lia)). revert Hle. generalize ((2 ^ 24 - 1) * 2 ^ 253). intros M Hle.
  destruct s; cbn [cond_Zopp]; nia.
Qed.

Lemma add_one a : fin a → 0 ≤ val a →
  let y := f32_add (lit 1 0) a in
  fin y ∧ 2 ^ 149 ≤ val y ∧ val y = srnd 24 128 (2 ^ 149 + val a) 1.
Proof.
  intros Fa H0 y. destruct (SFadd_value 24 128 eq_refl eq_refl (lit 1 0) a one_fin Fa) as [Ny Vy].
  rewrite one_val in Vy. change (SFadd 24 128 (lit 1 0) a) with y in *.
  assert (2 ^ 149 ≤ val y) as Hge.
  { rewrite Vy, <- one_val. apply srnd_ge; [exact (proj1 one_fin)|reflexivity|]. rewrite one_val. lia. }
  split; [|by split]. apply (number_finite 24 128); [exact Ny|]. split.
  - apply Z.lt_le_trans with 0; [reflexivity|]. apply Z.le_trans with (2 ^ 149); [discriminate|exact Hge].
  - rewrite Vy. apply Z.le_lt_trans with (srnd 24 128 (2 ^ 149 + (2 ^ 24 - 1) * 2 ^ 253) 1); [|vm_compute; reflexivity].
    apply srnd_mono; [reflexivity..|]. rewrite !Z.mul_1_r. apply Z.add_le_mono_l, fin_max, Fa.
Qed.

Lemma div_one y : fin y → 2 ^ 149 ≤ val y →
  let q := f32_div (lit 1 0) y in fin q ∧ 0 ≤ val q ∧ val q = srnd 24 128 (2 ^ 298) (val y).
Proof.
  intros Fy Hge q. assert (0 < val y) as Hpos by (apply Z.lt_le_trans with (2 ^ 149); [reflexivity|exact Hge]).
  pose proof (finite_lt 24 128 eq_refl eq_refl y Fy) as [_ Hlt].
  assert (num q ∧ val q = srnd 24 128 (2 ^ 298) (val y)) as [Nq Vq].
  { destruct y as [s|s| |[] m e]; [done|by destruct Fy|done| |].
    - rewrite val_finite in Hpos. cbn [cond_Zopp] in Hpos. pose proof (pow2_pos (e + 149)) as Hp.
      destruct Fy as [[Hb _] _]. cbn [valid_binary] in Hb. apply f32_bounded in Hb. specialize (Hp ltac:(lia)). nia.
    - unfold q, f32_div. rewrite one_eq. apply (SFdiv_value 24 128 eq_refl eq_refl); [rewrite <- one_eq; exact one_fin|exact Fy|].
      apply Z.lt_le_incl, Z.lt_le_trans with limit; [exact Hlt|]. discriminate. }
  assert (0 ≤ val q) as H0.
  { rewrite Vq. apply (srnd_ge (S754_zero false)); [exact (zero_num _)|exact Hpos|discriminate]. }
  split; [|by split]. apply (number_finite 24 128); [exact Nq|].
  split; [apply Z.lt_le_trans with 0; [reflexivity|exact H0]|].
  apply Z.le_lt_trans with (2 ^ 149); [|reflexivity]. rewrite Vq, <- one_val.
  apply srnd_le; [exact (proj1 one_fin)|exact Hpos|]. rewrite one_val. change (2 ^ 298) with (2 ^ 149 * 2 ^ 149).
  apply Z.mul_le_mono_nonneg_l; [discriminate|exact Hge].
Qed.

(** Denominators whose exponentials are out of order by a unit differ by about three units. *)
Lemma denominator_ratio a b :
  fin a → fin b → 0 ≤ val a → 0 ≤ val b → val b ≤ val (next_up a) →
  val (f32_add (lit 1 0) b) * ((2 ^ 23 - 1) * 2 ^ 23) ≤ val (f32_add (lit 1 0) a) * (2 ^ 23 + 1) ^ 2.
Proof.
  intros Fa Fb Ha Hb Hle. destruct (add_one a Fa Ha) as (Fx & Gx & Vx), (add_one b Fb Hb) as (Fy & Gy & Vy).
  revert Fx Gx Vx Fy Gy Vy. generalize (f32_add (lit 1 0) a) (f32_add (lit 1 0) b). intros x y Fx Gx Vx Fy Gy Vy.
  assert (∀ v, 2 ^ 149 ≤ v → 2 ^ 24 ≤ v) as Hbig by (intros v; apply Z.le_trans; discriminate).
  pose proof (next_up_gap a Fa Ha) as [_ Ga].
  pose proof (next_up_gap x Fx ltac:(pose proof (Hbig _ Gx); lia)) as [_ Gux].
  pose proof (next_down_gap y Fy (Hbig _ Gy)) as [_ Gdy].
  pose proof (rounded_below x _ 1 Fx ltac:(pose proof (Hbig _ Gx); lia) eq_refl Vx) as Rx.
  pose proof (rounded_above y _ 1 Fy eq_refl Vy) as Ry.
  apply Hbig in Gx, Gy. assert (2 ^ 46 ≤ 2 ^ 149) as Ho by discriminate.
  clear Vx Vy Fx Fy Fa Fb Hbig. revert Ho Rx Ry. generalize (2 ^ 149). intros o Ho Rx Ry. lia.
Qed.

(** [p * y ≤ n] when [p] is a part [d / c] of a [v] with [v * x ≤ n], and [y] exceeds [x] by
    no more than the part makes up for. *)
Lemma slack c d e f p v x y n :
  0 < c → 0 ≤ d → 0 < e → 0 ≤ f → d * f ≤ c * e → 0 ≤ p → 0 ≤ v → 0 ≤ x → 0 ≤ y →
  c * p ≤ d * v → y * e ≤ x * f → v * x ≤ n → p * y ≤ n.
Proof.
  intros Hc Hd He Hf Hk Hp Hv Hx Hy Hpv Hyx Hn. apply (Z.mul_le_mono_pos_r _ _ (c * e)); [by apply Z.mul_pos_pos|].
  apply Z.le_trans with (n * (d * f)).
  - replace (p * y * (c * e)) with (c * p * (y * e)) by ring.
    apply Z.le_trans with (d * v * (x * f)).
    + apply Z.mul_le_mono_nonneg; [by apply Z.mul_nonneg_nonneg; lia|done|by apply Z.mul_nonneg_nonneg; lia|done].
    + replace (d * v * (x * f)) with (v * x * (d * f)) by ring.
      apply Z.mul_le_mono_nonneg_r; [by apply Z.mul_nonneg_nonneg|done].
  - apply Z.mul_le_mono_nonneg_l; [|done]. apply Z.le_trans with (v * x); [by apply Z.mul_nonneg_nonneg|done].
Qed.

Lemma part_nonneg c d p v : 0 < c → 0 ≤ d → 0 ≤ p → c * p ≤ d * v → 0 < p → 0 ≤ v.
Proof. intros. nia. Qed.

(** Seven further steps on a quotient outweigh the difference of the denominators. *)
Lemma slack_down p v x y n :
  0 < x → 0 < y → 0 ≤ n → (2 ^ 24) ^ Z.of_nat 7 * p ≤ (2 ^ 24 - 1) ^ Z.of_nat 7 * v → v * x < n →
  y * ((2 ^ 23 - 1) * 2 ^ 23) ≤ x * (2 ^ 23 + 1) ^ 2 → p * y ≤ n.
Proof.
  intros Hx%Z.lt_le_incl Hy%Z.lt_le_incl Hn Hp Hv%Z.lt_le_incl Hr. destruct (Z.le_gt_cases p 0) as [|Hp0].
  { apply Z.le_trans with 0; [by apply Z.mul_nonpos_nonneg|done]. }
  pose proof (Z.lt_le_incl _ _ Hp0) as Hp1.
  assert (0 ≤ v) as Hv0 by (refine (part_nonneg _ _ _ _ _ _ Hp1 Hp Hp0); vm_compute; (reflexivity || discriminate)).
  refine (slack _ _ _ _ p v x y n _ _ _ _ _ Hp1 Hv0 Hx Hy Hp Hr Hv); vm_compute; (reflexivity || discriminate).
Qed.

Lemma slack_up p v x y n :
  0 < x → 0 < y → 0 ≤ v → 0 ≤ p → (2 ^ 24 + 1) ^ Z.of_nat 7 * v ≤ (2 ^ 24) ^ Z.of_nat 7 * p → n < v * y →
  y * ((2 ^ 23 - 1) * 2 ^ 23) ≤ x * (2 ^ 23 + 1) ^ 2 → n ≤ p * x.
Proof.
  intros Hx%Z.lt_le_incl Hy%Z.lt_le_incl Hv0 Hp0 Hp Hv%Z.lt_le_incl Hr. apply Z.le_trans with (v * y); [exact Hv|].
  refine (slack _ _ _ _ v p x y (p * x) _ _ _ _ _ Hv0 Hp0 Hx Hy Hp Hr (Z.le_refl _)); vm_compute; (reflexivity || discriminate).
Qed.

Lemma opp_num x : num x → num (SFopp x) ∧ val (SFopp x) = - val x.
Proof.
  intros [Hb Hn]. destruct x as [s|s| |s m e]; [by repeat split|..].
  - split; [exact (infinity_num _)|]. cbn [SFopp fv]. destruct s; cbn [negb cond_Zopp]; lia.
  - by destruct Hn.
  - split; [split; [exact Hb|discriminate]|]. cbn [SFopp]. rewrite !val_finite. destruct s; cbn [negb cond_Zopp]; lia.
Qed.

Section certificate.
Context {LM : Libm} {EL : ExpLaws}.

(** The sigmoid of a number whose exponential does not overflow. *)
Lemma sigmoid_num x : num x →
  num (sigmoid_f32 x) ∧ 0 ≤ val (sigmoid_f32 x) ∧
  (f32_exp (SFopp x) = S754_infinity false ∧ val (sigmoid_f32 x) = 0 ∨
   fin (f32_exp (SFopp x)) ∧
   let y := f32_add (lit 1 0) (f32_exp (SFopp x)) in
   0 < val y ∧ fin (sigmoid_f32 x) ∧ val (sigmoid_f32 x) = srnd 24 128 (2 ^ 298) (val y)).
Proof.
  intros [Ho _]%opp_num. destruct (exp_number _ Ho) as [Ne H0]. unfold sigmoid_f32. revert Ne H0.
  generalize (f32_exp (SFopp x)). intros a Ne H0. destruct (num_finite a Ne) as [[s ->]|Fa].
  - destruct s; [exfalso; apply H0; reflexivity|]. assert (f32_div (lit 1 0) (f32_add (lit 1 0) (S754_infinity false)) = S754_zero false)
      as -> by (vm_compute; reflexivity).
    split; [exact (zero_num _)|]. split; [discriminate|]. left. by split.
  - destruct (add_one a Fa H0) as (Fy & Gy & _). destruct (div_one _ Fy Gy) as (Fq & H0q & Vq).
    split; [exact (proj1 Fq)|]. split; [exact H0q|]. right. split; [exact Fa|]. cbn zeta. split; [|by split].
    apply Z.lt_le_trans with (2 ^ 149); [reflexivity|exact Gy].
Qed.

Lemma sigmoid_slack x y : num x → num y → val x ≤ val y →
  val (sigmoid_down x) ≤ val (sigmoid_f32 y) ∧ val (sigmoid_f32 x) ≤ val (sigmoid_up y).
Proof.
  intros Hx Hy Hle. destruct (opp_num x Hx) as [Nx Vx], (opp_num y Hy) as [Ny Vy].
  destruct (sigmoid_num x Hx) as (Nq & Q0 & Oq), (sigmoid_num y Hy) as (Nr & R0 & Or).
  destruct (exp_number _ Nx) as [Na A0], (exp_number _ Ny) as [Nb B0].
  pose proof (exp_step _ _ Ny Nx ltac:(rewrite Vx, Vy; by apply Z.opp_le_mono in Hle)) as Hstep.
  unfold sigmoid_down, sigmoid_up, SIGMOID_ULP_SLACK.
  destruct (iter_next false 8 _ Nq) as [Np Id], (iter_next true 8 _ Nr) as [Nu Iu].
  change (next false) with next_down in *. change (next true) with next_up in *. cbn [cond_Zopp] in *.
  apply Z.opp_le_mono in Iu.
  destruct Oq as [[_ Eq]|(Fa & Px & Fq & Vq)]; [split; [|rewrite Eq]; lia|].
  assert (fin (f32_exp (SFopp y)) ∧ val (f32_exp (SFopp y)) ≤ val (next_up (f32_exp (SFopp x)))) as [Fb Hb].
  { destruct (next_up_gap _ Fa A0) as [Hup _]. destruct Hstep as [Hs|Hs]; [|exact Hs]. split; [|lia].
    destruct (num_finite _ Nb) as [[s E]|]; [|done]. pose proof (finite_lt 24 128 eq_refl eq_refl _ Fa) as [_ Hlt].
    rewrite E in *. destruct s; [by destruct B0|]. by apply Z.le_ngt in Hs. }
  destruct Or as [[E _]|(_ & Py & Fr & Vr)]; [rewrite E in Fb; by destruct Fb|].
  pose proof (denominator_ratio _ _ Fa Fb A0 B0 Hb) as Hr.
  destruct (next_spec false _ Nq) as [Nd _], (next_spec true _ Nr) as [Nn _]. cbn [next] in Nd, Nn. split.
  - rewrite Vr. apply srnd_ge; [exact Np|exact Py|]. rewrite (Nat.iter_succ_r 7).
    refine (slack_down _ _ _ _ _ Px Py _ (iter_down_rel 7 _ Nd) _ Hr); [discriminate|].
    by apply rounded_above.
  - rewrite Vq. apply srnd_le; [exact Nu|exact Px|]. rewrite (Nat.iter_succ_r 7) in Iu |- *.
    destruct (next_up_gap _ Fr R0) as [Hup _].
    assert (0 ≤ val (next_up (sigmoid_f32 y))) as Hn0 by lia.
    destruct (iter_up_rel 7 _ Nn Hn0) as [->|Hrel].
    { apply Z.le_trans with (limit * 2 ^ 149); [discriminate|]. apply Z.mul_le_mono_nonneg_l; [discriminate|].
      by destruct (add_one _ Fa A0) as (_ & ? & _). }
    refine (slack_up _ _ _ _ _ Px Py Hn0 _ Hrel _ Hr); [exact (Z.le_trans _ _ _ R0 Iu)|].
    by apply rounded_below.
Qed.

(** ** Verdicts *)

Lemma sigmoid_bounds_num x : num x → num (sigmoid_down x) ∧ num (sigmoid_up x).
Proof.
  intros Hx. destruct (sigmoid_num x Hx) as [Nq _].
  split; [exact (proj1 (iter_next false 8 _ Nq))|exact (proj1 (iter_next true 8 _ Nq))].
Qed.

(** At an infinite bound nothing is certified against a threshold between zero and one. *)
Lemma sigmoid_down_far t : num t → 0 ≤ val t → SFltb t (sigmoid_down (S754_infinity true)) = false.
Proof.
  intros Ht H0. unfold sigmoid_down, sigmoid_f32. cbn [SFopp negb]. rewrite exp_infinity.
  assert (Nat.iter SIGMOID_ULP_SLACK next_down (f32_div (lit 1 0) (f32_add (lit 1 0) (S754_infinity false))) =
          S754_finite true 8 (-149)) as -> by (vm_compute; reflexivity).
  rewrite (SFltb_fv 24 128 eq_refl eq_refl); [|exact Ht|split; [reflexivity|discriminate]].
  apply Z.ltb_ge. apply Z.le_trans with 0; [discriminate|exact H0].
Qed.

Lemma sigmoid_up_far t : num t → val t ≤ 2 ^ 149 → SFltb (sigmoid_up (S754_infinity false)) t = false.
Proof.
  intros Ht H1. unfold sigmoid_up, sigmoid_f32. cbn [SFopp negb]. rewrite exp_minus_infinity.
  assert (Nat.iter SIGMOID_ULP_SLACK next_up (f32_div (lit 1 0) (f32_add (lit 1 0) (S754_zero false))) =
          S754_finite false 8388616 (-23)) as -> by (vm_compute; reflexivity).
  rewrite (SFltb_fv 24 128 eq_refl eq_refl); [|split; [reflexivity|discriminate]|exact Ht].
  apply Z.ltb_ge. apply Z.le_trans with (2 ^ 149); [exact H1|discriminate].
Qed.

Lemma above_stable t lo z :
  num t → 0 ≤ val t → bound false lo z → SFltb t (sigmoid_down lo) = true → SFltb t (sigmoid_f32 z) = true.
Proof.
  intros Ht H0 (Hlo & _ & Hor) Hs. cbn [cond_Zopp] in Hor. destruct Hor as [E|[Hz Hle]].
  { apply (number_infinite 24 128 eq_refl eq_refl lo true Hlo) in E. subst lo. by rewrite sigmoid_down_far in Hs. }
  destruct (sigmoid_slack lo z Hlo Hz Hle) as [Hd _], (sigmoid_bounds_num lo Hlo) as [Nd _], (sigmoid_num z Hz) as [Nz _].
  rewrite (SFltb_fv 24 128 eq_refl eq_refl) in Hs |- * by assumption. apply Z.ltb_lt in Hs. apply Z.ltb_lt.
  exact (Z.lt_le_trans _ _ _ Hs Hd).
Qed.

Lemma below_stable t hi z :
  num t → val t ≤ 2 ^ 149 → bound true hi z → SFltb (sigmoid_up hi) t = true → SFltb t (sigmoid_f32 z) = false.
Proof.
  intros Ht H1 (Hhi & _ & Hor) Hs. cbn [cond_Zopp] in Hor. destruct Hor as [E|[Hz Hle]].
  { apply Z.opp_inj in E. apply (number_infinite 24 128 eq_refl eq_refl hi false Hhi) in E. subst hi.
    by rewrite sigmoid_up_far in Hs. }
  apply Z.opp_le_mono in Hle.
  destruct (sigmoid_slack z hi Hz Hhi Hle) as [_ Hu], (sigmoid_bounds_num hi Hhi) as [_ Nu], (sigmoid_num z Hz) as [Nz _].
  rewrite (SFltb_fv 24 128 eq_refl eq_refl) in Hs |- * by assumption. apply Z.ltb_lt in Hs. apply Z.ltb_ge.
  exact (Z.le_trans _ _ _ Hu (Z.lt_le_incl _ _ Hs)).
Qed.

Lemma verdict_stable_sound w1 b1 w2 b2 input eps threshold above xs' :
  network_ok w1 b1 w2 b2 = true → Forall fin input → num eps → 0 ≤ val eps →
  num threshold → 0 ≤ val threshold ≤ 2 ^ 149 →
  verdict_stable w1 b1 w2 b2 input eps threshold above = true → Forall2 (within eps) input xs' →
  SFltb threshold (mlp_predict_32 w1 b1 w2 b2 xs') = above.
Proof.
  intros Hok Hin He H0 Ht [Ht0 Ht1] Hs Hw. pose proof (input_box_sound eps input xs' He H0 Hin Hw) as Hbox.
  unfold verdict_stable in Hs. destruct (input_box input eps) as [lo hi]. cbn [fst snd] in Hbox.
  destruct (ibp_mlp_sound w1 b1 w2 b2 lo hi xs' Hok Hbox) as (_ & Hlo & Hhi).
  change (mlp_predict_32 w1 b1 w2 b2 xs') with (sigmoid_f32 (pre_sigmoid w1 b1 w2 b2 xs')). destruct above.
  - exact (above_stable _ _ _ Ht Ht0 Hlo Hs).
  - exact (below_stable _ _ _ Ht Ht1 Hhi Hs).
Qed.
End certificate.

(** ** The search *)

Definition midpoint (lo hi : f32) : f32 := f32_mul (f32_add lo hi) f32_half.

Lemma half_fin : fin f32_half.
Proof. repeat split. discriminate. Qed.

Lemma midpoint_nonneg lo hi : num lo → num hi → 0 ≤ val lo → 0 ≤ val hi → num (midpoint lo hi) ∧ 0 ≤ val (midpoint lo hi).
Proof.
  intros Nlo Nhi Hlo Hhi. unfold midpoint.
  assert (num (f32_add lo hi) ∧ 0 ≤ val (f32_add lo hi)) as [Ns Hs].
  { destruct (num_finite lo Nlo) as [[[] ->]|Flo]; [by destruct Hlo| |].
    { destruct (num_finite hi Nhi) as [[[] ->]|[_ Fhi]]; [by destruct Hhi|..]; [|destruct hi; try done];
        (split; [exact (infinity_num _)|discriminate]). }
    destruct (num_finite hi Nhi) as [[[] ->]|Fhi]; [by destruct Hhi| |].
    { destruct Flo as [_ Flo]. destruct lo; try done; (split; [exact (infinity_num _)|discriminate]). }
    destruct (SFadd_value 24 128 eq_refl eq_refl lo hi Flo Fhi) as [Ns Vs]. split; [exact Ns|].
    unfold f32_add. rewrite Vs. apply (srnd_ge (S754_zero false)); [exact (zero_num _)|reflexivity|].
    change (val (S754_zero false)) with 0. lia. }
  revert Ns Hs. generalize (f32_add lo hi). intros s Ns Hs. destruct (num_finite s Ns) as [[[] ->]|Fs].
  - by destruct Hs.
  - split; [exact (infinity_num _)|discriminate].
  - destruct (SFmul_value 24 128 eq_refl eq_refl s f32_half Fs half_fin) as [Nm Vm]. split; [exact Nm|].
    unfold f32_mul. rewrite Vm. apply (srnd_ge (S754_zero false)); [exact (zero_num _)|reflexivity|].
    change (val (S754_zero false)) with 0. apply Z.mul_nonneg_nonneg; [exact Hs|discriminate].
Qed.

(** What the search returns was found stable, and a radius within the tolerance of it was not,
    unless that is the largest. *)
Lemma radius_search_spec stable tol top : ∀ fuel lo hi r,
  num lo → num hi → 0 ≤ val lo → 0 ≤ val hi → stable lo = true → hi = top ∨ stable hi = false →
  radius_search fuel stable tol lo hi = Some r →
  num r ∧ 0 ≤ val r ∧ stable r = true ∧
  ∃ hi', SFltb tol (f32_sub hi' r) = false ∧ (hi' = top ∨ stable hi' = false).
Proof.
  induction fuel as [|fuel IH]; intros lo hi r Nlo Nhi Hlo Hhi Hs Htop; cbn [radius_search]; [discriminate|].
  destruct (SFltb tol (f32_sub hi lo)) eqn:Hw.
  - change (f32_mul (f32_add lo hi) f32_half) with (midpoint lo hi). cbn zeta.
    destruct (midpoint_nonneg lo hi Nlo Nhi Hlo Hhi) as [Nm Hm].
    destruct (stable (midpoint lo hi)) eqn:Hsm; intros Hr; (eapply IH; [..|exact Hr]); auto.
  - intros [= <-]. split_and!; [assumption..|]. by exists hi.
Qed.

(** *** How many rounds *)

Lemma next_down_gap0 x : fin x → 0 ≤ val x → 2 ^ 23 * (val x - val (next_down x)) ≤ Z.max (val x) (2 ^ 23).
Proof.
  intros [[Hb Hn] Hf] H0. destruct x as [s|s| |[] m e]; try done; cbn [valid_binary next_down] in *.
  - destruct (bounded_value 24 128 eq_refl m e Hb) as [_ [Hv _]]. rewrite val_finite in H0.
    change (- emin 24 128) with 149 in Hv. revert H0 Hv. generalize (Z.pos m * 2 ^ (e + 149)). cbn [cond_Zopp]. lia.
  - pose proof (toward_val false m e Hb) as (g & Hg & Hor). apply f32_bounded in Hb as (Hm & He & Hor').
    rewrite val_finite in *. pose proof (pow2_pos (e + 149) ltac:(lia)) as Hp. cbn [cond_Zopp] in *. rewrite Hg.
    destruct Hor' as [->|Hor']; [change (2 ^ (-149 + 149)) with 1 in *; lia|].
    revert Hp Hor. generalize (2 ^ (e + 149)). intros p ??. destruct Hor as [->|[-> ?]]; nia.
Qed.

(** A rounded quotient is off by at most a part in [2 ^ 23], or a unit. *)
Lemma rounding_error q n d : fin q → 0 ≤ val q → 0 < d → val q = srnd 24 128 n d →
  2 ^ 23 * (val q * d - n) ≤ d * Z.max (val q) (2 ^ 23) ∧ 2 ^ 23 * (n - val q * d) ≤ d * Z.max (val q) (2 ^ 23).
Proof.
  intros Fq H0 Hd Hv. pose proof (rounded_below q n d Fq H0 Hd Hv) as Hb. pose proof (rounded_above q n d Fq Hd Hv) as Ha.
  pose proof (next_down_gap0 q Fq H0) as Gd. pose proof (next_up_gap q Fq H0) as [_ Gu].
  apply (Z.mul_le_mono_nonneg_l _ _ d) in Gd, Gu; lia.
Qed.

Lemma srnd_scale c n d : 0 < c → 0 < d → srnd 24 128 (n * c) (d * c) = srnd 24 128 n d.
Proof.
  intros. assert (0 < d * c) by (by apply Z.mul_pos_pos).
  apply Z.le_antisymm; apply srnd_mono; try reflexivity; try done; apply Z.eq_le_incl; ring.
Qed.

Lemma max_float : num (S754_finite false (2 ^ 23) 104) ∧ val (S754_finite false (2 ^ 23) 104) = 2 ^ 276.
Proof. repeat split. discriminate. Qed.

(** A sum or product that rounds to no more than half the largest power of two. *)
Lemma rounded_finite x n d : num x → val x = srnd 24 128 n d → 0 ≤ n → 0 < d → n ≤ 2 ^ 276 * d → fin x ∧ 0 ≤ val x.
Proof.
  intros Nx Vx Hn Hd Hle.
  assert (0 ≤ val x) as H0 by (rewrite Vx; by apply (srnd_ge (S754_zero false)); [exact (zero_num _)|..]).
  split; [|done]. apply (number_finite 24 128); [done|]. split; [apply Z.lt_le_trans with 0; [reflexivity|done]|].
  apply Z.le_lt_trans with (2 ^ 276); [|reflexivity]. destruct max_float as [Nf Vf]. rewrite Vx, <- Vf.
  apply srnd_le; [done..|]. by rewrite Vf.
Qed.

Lemma midpoint_value lo hi :
  fin lo → fin hi → 0 ≤ val lo → 0 ≤ val hi → val lo ≤ 2 ^ 275 → val hi ≤ 2 ^ 275 →
  ∃ s, fin (midpoint lo hi) ∧ 0 ≤ val (midpoint lo hi) ∧ 0 ≤ s ∧
    2 ^ 23 * Z.abs (s - (val lo + val hi)) ≤ Z.max s (2 ^ 23) ∧
    2 ^ 23 * Z.abs (2 * val (midpoint lo hi) - s) ≤ 2 * Z.max (val (midpoint lo hi)) (2 ^ 23).
Proof.
  intros Flo Fhi Hlo Hhi Blo Bhi. destruct (SFadd_value 24 128 eq_refl eq_refl lo hi Flo Fhi) as [Ns Vs].
  destruct (rounded_finite _ _ _ Ns Vs) as [Fs Hs]; [lia|reflexivity|rewrite Z.mul_1_r; change (2 ^ 276) with (2 ^ 275 + 2 ^ 275); lia|].
  assert (val (SFadd 24 128 lo hi) ≤ 2 ^ 276) as Bs.
  { destruct max_float as [Nf Vf]. rewrite Vs, <- Vf. apply srnd_le; [done|reflexivity|]. rewrite Vf, Z.mul_1_r.
    change (2 ^ 276) with (2 ^ 275 + 2 ^ 275). lia. }
  pose proof (rounding_error _ _ 1 Fs Hs eq_refl Vs) as Es. exists (val (SFadd 24 128 lo hi)).
  unfold midpoint, f32_add. revert Fs Hs Bs Es. generalize (SFadd 24 128 lo hi). intros x Fs Hs Bs Es.
  destruct (SFmul_value 24 128 eq_refl eq_refl x f32_half Fs half_fin) as [Nm Vm].
  change (SFmul 24 128 x f32_half) with (f32_mul x f32_half) in *.
  change (val f32_half) with (2 ^ 148) in Vm. change (2 ^ (- emin 24 128)) with (2 * 2 ^ 148) in Vm.
  rewrite srnd_scale in Vm by reflexivity.
  destruct (rounded_finite _ _ _ Nm Vm Hs) as [Fm Hm]; [reflexivity|lia|].
  pose proof (rounding_error _ _ 2 Fm Hm eq_refl Vm) as Em. split_and!; [done..| |]; lia.
Qed.

(** A round that does not end the search shrinks the interval to four fifths. *)
Lemma search_shrinks tol lo hi :
  fin lo → fin hi → fin tol → 0 ≤ val lo ≤ val hi → val hi ≤ 2 ^ 275 → 2 ^ 26 ≤ val tol → val hi ≤ 2 ^ 20 * val tol →
  SFltb tol (f32_sub hi lo) = true →
  fin (midpoint lo hi) ∧ val lo ≤ val (midpoint lo hi) ≤ val hi ∧
  5 * (val (midpoint lo hi) - val lo) ≤ 4 * (val hi - val lo) ∧ 5 * (val hi - val (midpoint lo hi)) ≤ 4 * (val hi - val lo).
Proof.
  intros Flo Fhi Ft [Hlo Hle] Hb Ht Hr Hw. destruct (SFsub_value 24 128 eq_refl eq_refl hi lo Fhi Flo) as [Nd Vd].
  unfold f32_sub in Hw. rewrite (SFltb_fv 24 128 eq_refl eq_refl) in Hw; [|exact (proj1 Ft)|exact Nd].
  apply Z.ltb_lt in Hw. rewrite Vd in Hw.
  assert (val tol < val hi - val lo) as Hwide.
  { apply Z.nle_gt. intros Hc. pose proof (srnd_le tol (val hi - val lo) 1 (proj1 Ft) eq_refl ltac:(lia)). lia. }
  destruct (midpoint_value lo hi Flo Fhi) as (s & Fm & Hm & Hs & Es & Em); [lia..|].
  split; [done|]. clear - Hlo Hle Ht Hr Hwide Hm Hs Es Em. revert Es Em Hm Hlo Hle Ht Hr Hwide.
  generalize (val (midpoint lo hi)) (val lo) (val hi) (val tol). intros. split_and!; lia.
Qed.

Lemma radius_search_ends stable tol : ∀ n lo hi,
  fin lo → fin hi → fin tol → 0 ≤ val lo ≤ val hi → val hi ≤ 2 ^ 275 → 2 ^ 26 ≤ val tol → val hi ≤ 2 ^ 20 * val tol →
  (val hi - val lo) * 4 ^ Z.of_nat n ≤ val tol * 5 ^ Z.of_nat n → is_Some (radius_search (S n) stable tol lo hi).
Proof.
  induction n as [|n IH]; intros lo hi Flo Fhi Ft Hle Hb Ht Hr Hn.
  - cbn [radius_search]. change (4 ^ Z.of_nat 0) with 1 in Hn. change (5 ^ Z.of_nat 0) with 1 in Hn.
    destruct (SFsub_value 24 128 eq_refl eq_refl hi lo Fhi Flo) as [Nd Vd].
    unfold f32_sub. rewrite (SFltb_fv 24 128 eq_refl eq_refl); [|exact (proj1 Ft)|exact Nd].
    destruct (Z.ltb_spec (val tol) (val (SFsub 24 128 hi lo))) as [Hc|]; [|done].
    pose proof (srnd_le tol (val hi - val lo) 1 (proj1 Ft) eq_refl ltac:(lia)). lia.
  - rewrite Nat2Z.inj_succ, !Z.pow_succ_r in Hn by lia.
    assert (0 < 4 ^ Z.of_nat n) by (apply Z.pow_pos_nonneg; lia).
    assert (∀ w, 5 * w ≤ 4 * (val hi - val lo) → w * 4 ^ Z.of_nat n ≤ val tol * 5 ^ Z.of_nat n) as Hstep.
    { intros w Hw. apply (Z.mul_le_mono_nonneg_r _ _ (4 ^ Z.of_nat n)) in Hw; [|lia]. lia. }
    remember (S n) as k. cbn [radius_search].
    destruct (SFltb tol (f32_sub hi lo)) eqn:Hw; [|done].
    change (f32_mul (f32_add lo hi) f32_half) with (midpoint lo hi). cbn zeta. subst k.
    destruct (search_shrinks tol lo hi Flo Fhi Ft Hle Hb Ht Hr Hw) as (Fm & Hm & Sl & Sh).
    destruct (stable (midpoint lo hi)); apply IH; try done; try lia; by apply Hstep.
Qed.

(** A round that leaves the interval as it is repeats forever. *)
(** The result is below the end of the last interval. *)
Lemma radius_search_bracket stable tol top : ∀ fuel lo hi r,
  fin lo → fin hi → fin tol → 0 ≤ val lo ≤ val hi → val hi ≤ 2 ^ 275 → 2 ^ 26 ≤ val tol → val hi ≤ 2 ^ 20 * val tol →
  hi = top ∨ stable hi = false → radius_search fuel stable tol lo hi = Some r →
  ∃ hi', val r ≤ val hi' ∧ SFltb tol (f32_sub hi' r) = false ∧ (hi' = top ∨ stable hi' = false).
Proof.
  induction fuel as [|fuel IH]; intros lo hi r Flo Fhi Ft Hle Hb Ht Hr Htop; cbn [radius_search]; [discriminate|].
  destruct (SFltb tol (f32_sub hi lo)) eqn:Hw.
  - change (f32_mul (f32_add lo hi) f32_half) with (midpoint lo hi). cbn zeta.
    destruct (search_shrinks tol lo hi Flo Fhi Ft Hle Hb Ht Hr Hw) as (Fm & Hm & _ & _).
    destruct (stable (midpoint lo hi)) eqn:Hsm; apply IH; try done; try lia. by right.
  - intros [= <-]. exists hi. split; [lia|]. by split.
Qed.

Lemma radius_search_stuck stable tol lo hi :
  SFltb tol (f32_sub hi lo) = true →
  midpoint lo hi = lo ∧ stable lo = true ∨ midpoint lo hi = hi ∧ stable hi = false →
  ∀ fuel, radius_search fuel stable tol lo hi = None.
Proof.
  intros Hw Hm. induction fuel as [|fuel IH]; [done|]. cbn [radius_search]. rewrite Hw.
  change (f32_mul (f32_add lo hi) f32_half) with (midpoint lo hi). cbn zeta.
  destruct Hm as [[-> ->]|[-> ->]]; exact IH.
Qed.

Lemma radius_search_more stable tol k : ∀ fuel lo hi r,
  radius_search fuel stable tol lo hi = Some r → radius_search (k + fuel) stable tol lo hi = Some r.
Proof.
  induction fuel as [|fuel IH]; intros lo hi r; [discriminate|]. rewrite Nat.add_succ_r. cbn [radius_search].
  destruct (SFltb _ _); [|done]. cbn zeta. destruct (stable _); apply IH.
Qed.

(** ** Theorems *)

Section theorems.
Context {LM : Libm} {EL : ExpLaws}.

(** C10. A certified radius is sound. Every input whose coordinates are within the returned
    radius of the given ones gets the verdict of the given input from the network, in the
    binary32 arithmetic of the program, overflow included; the slack of eight units on the
    sigmoid suffices for an exponential that is increasing up to one unit. *)
Theorem certified_radius_sound fuel w1 b1 w2 b2 input threshold max_eps tol r xs' :
  network_ok w1 b1 w2 b2 = true → Forall fin input →
  num threshold → 0 ≤ val threshold ≤ val (lit 1 0) → num max_eps → 0 ≤ val max_eps →
  certified_radius fuel w1 b1 w2 b2 input threshold max_eps tol = Some (Some r) →
  Forall2 (within r) input xs' →
  SFltb threshold (mlp_predict_32 w1 b1 w2 b2 xs') = SFltb threshold (mlp_predict_32 w1 b1 w2 b2 input).
Proof.
  rewrite one_val. intros Hok Hin Ht Ht01 Nmax Hmax Hr Hw. unfold certified_radius in Hr. cbn zeta in Hr.
  destruct (verdict_stable _ _ _ _ _ (lit 0 0) _ _) eqn:Hz; cbn [negb] in Hr; [|discriminate].
  apply fmap_Some in Hr as (r' & Hr & [= <-]).
  apply (radius_search_spec _ _ max_eps) in Hr as (Nr & H0 & Hs & _); [|exact (zero_num _)|done|done|done|done|by left].
  by apply (verdict_stable_sound _ _ _ _ input r).
Qed.
End theorems.

(** C38. The search for the radius ends, within 64 rounds, when the tolerance is not below a
    millionth of the largest radius (and neither is at the end of the range). The result is
    stable, and some radius that is not below it, and at most the tolerance above it in
    binary32 arithmetic, is not stable or is the largest. *)
Theorem certified_radius_ends `{!Libm} w1 b1 w2 b2 input threshold max_eps tol :
  fin max_eps → fin tol → 0 ≤ val max_eps ≤ 2 ^ 275 → 2 ^ 26 ≤ val tol → val max_eps ≤ 2 ^ 20 * val tol →
  let above := SFltb threshold (mlp_predict_32 w1 b1 w2 b2 input) in
  let stable eps := verdict_stable w1 b1 w2 b2 input eps threshold above in
  match certified_radius 64 w1 b1 w2 b2 input threshold max_eps tol with
  | None => False
  | Some None => stable (lit 0 0) = false
  | Some (Some r) =>
      stable r = true ∧ ∃ hi, val r ≤ val hi ∧ SFltb tol (f32_sub hi r) = false ∧ (hi = max_eps ∨ stable hi = false)
  end.
Proof.
  intros Fm Ft [H0 Hb] Ht Hr above stable.
  assert (is_Some (radius_search 64 stable tol (lit 0 0) max_eps)) as Hs.
  { apply (radius_search_ends stable tol 63); [by repeat split|assumption..| |assumption|assumption|assumption|].
    - change (val (lit 0 0)) with 0. split; [discriminate|assumption].
    - change (val (lit 0 0)) with 0. rewrite Z.sub_0_r. apply Z.le_trans with (2 ^ 20 * val tol * 4 ^ Z.of_nat 63).
      + apply Z.mul_le_mono_nonneg_r; [discriminate|assumption].
      + rewrite (Z.mul_comm (2 ^ 20)), <- Z.mul_assoc. apply Z.mul_le_mono_nonneg_l;
          [apply Z.le_trans with (2 ^ 26); [discriminate|assumption]|vm_compute; discriminate]. }
  revert Hs. generalize 64%nat. intros fuel [r Hs]. unfold certified_radius. cbn zeta. fold above.
  change (λ eps, verdict_stable w1 b1 w2 b2 input eps threshold above) with stable.
  change (verdict_stable w1 b1 w2 b2 input (lit 0 0) threshold above) with (stable (lit 0 0)).
  destruct (stable (lit 0 0)) eqn:Hz; cbn [negb]; [|reflexivity].
  rewrite Hs. cbn [fmap option_fmap option_map].
  pose proof Hs as Hex. apply (radius_search_spec _ _ max_eps) in Hs as (_ & _ & Hst & _);
    [|exact (zero_num _)|exact (proj1 Fm)|discriminate|assumption|assumption|by left].
  apply (radius_search_bracket _ _ max_eps) in Hex;
    [by split|by repeat split|assumption|assumption|change (val (lit 0 0)) with 0; split; [discriminate|assumption]
    |assumption|assumption|assumption|by left].
Qed.

(** ** Examples *)

Module CertifyExamples.

(** An exponential in steps: a quarter below minus one, four above one, one between. *)
Definition step_exp (x : f32) : f32 :=
  match x with
  | S754_nan | S754_infinity false => x
  | S754_infinity true => S754_zero false
  | _ => if SFltb x (SFopp (lit 1 0)) then lit 25 2 else if SFltb (lit 1 0) x then lit 4 0 else lit 1 0
  end.

#[local] Instance step_libm : Libm := {| f32_exp := step_exp; f64_ln := id |}.

Lemma step_exp_val x : num x →
  (x = S754_infinity true ∧ step_exp x = S754_zero false) ∨ (x = S754_infinity false ∧ step_exp x = x) ∨
  fin x ∧ step_exp x = if val x <? - 2 ^ 149 then lit 25 2 else if 2 ^ 149 <? val x then lit 4 0 else lit 1 0.
Proof.
  intros Hx. destruct (num_finite x Hx) as [[[] ->]|Fx]; [left; by split|right; left; by split|]. right; right.
  split; [done|]. destruct (opp_num _ (proj1 one_fin)) as [No Vo]. rewrite one_val in Vo.
  rewrite <- Vo, <- one_val, <- !(SFltb_fv 24 128 eq_refl eq_refl) by (assumption || exact (proj1 one_fin)).
  destruct Hx as [_ Hn], Fx as [_ Hf]. by destruct x.
Qed.

Lemma step_exp_number x : num x → num (step_exp x) ∧ 0 ≤ val (step_exp x).
Proof.
  intros Hx. destruct (step_exp_val x Hx) as [[_ ->]|[[-> _]|[_ ->]]].
  - split; [exact (zero_num _)|discriminate].
  - split; [exact (infinity_num _)|discriminate].
  - destruct (_ <? _); [|destruct (_ <? _)]; (split; [split; [reflexivity|discriminate]|vm_compute; discriminate]).
Qed.

Lemma step_exp_mono x y : num x → num y → val x ≤ val y → val (step_exp x) ≤ val (step_exp y).
Proof.
  intros Hx Hy Hle. destruct (step_exp_number x Hx) as [Nx _], (step_exp_number y Hy) as [Ny H0].
  pose proof (number_le 24 128 eq_refl eq_refl x Hx) as [Hmin _]. pose proof (number_le 24 128 eq_refl eq_refl y Hy) as [_ Hmax].
  destruct (step_exp_val x Hx) as [[_ ->]|[[-> _]|[Fx Ex]]]; [exact H0| |].
  { pose proof (number_infinite 24 128 eq_refl eq_refl y false Hy (Z.le_antisymm _ _ Hmax Hle)) as ->. reflexivity. }
  destruct (step_exp_val y Hy) as [[-> _]|[[-> _]|[Fy Ey]]].
  { apply (finite_lt 24 128 eq_refl eq_refl) in Fx as [Hlt _]. by apply Z.le_ngt in Hle. }
  { exact (proj2 (number_le 24 128 eq_refl eq_refl _ Nx)). }
  rewrite Ex, Ey. assert (val (lit 25 2) ≤ val (lit 1 0) ≤ val (lit 4 0)) as [L1 L2] by (split; vm_compute; discriminate).
  revert L1 L2. generalize (lit 25 2) (lit 1 0) (lit 4 0). intros p q r L1 L2. clear - Hle L1 L2.
  revert Hle. generalize (2 ^ 149) (val x) (val y). intros.
  repeat case_match; simp_bool; lia.
Qed.

#[local] Instance step_exp_laws : ExpLaws.
Proof. split; [exact step_exp_number|left; by apply step_exp_mono|reflexivity..]. Qed.

Definition centre : list f32 := replicate 14 (lit 5 1).

(** A shift of the first coordinate by a hundredth. *)
Definition shifted : list f32 := <[0%nat := lit 51 2]> centre.

(** The theorem, on the shipped network of the DDoS detector. *)
Lemma certified_radius_sound_witness :
  SFltb ddos_THRESHOLD (mlp_predict_32 ddos_W1 ddos_B1 ddos_W2 ddos_B2 shifted) =
  SFltb ddos_THRESHOLD (mlp_predict_32 ddos_W1 ddos_B1 ddos_W2 ddos_B2 centre).
Proof.
  apply (certified_radius_sound 64 ddos_W1 ddos_B1 ddos_W2 ddos_B2 centre ddos_THRESHOLD (lit 1 0) (lit 1 4)
           (S754_finite false 9510912 (-27))).
  - vm_compute. reflexivity.
  - repeat constructor; discriminate.
  - split; [reflexivity|discriminate].
  - split; vm_compute; discriminate.
  - exact (proj1 one_fin).
  - vm_compute. discriminate.
  - vm_compute. reflexivity.
  - repeat (constructor; [split; [repeat split; discriminate|vm_compute; discriminate]|]). constructor.
Defined.

(** The theorem, on the same network. *)
Lemma certified_radius_ends_witness :
  match ddos_certified_radius 64 centre (lit 1 0) (lit 1 4) with None => False | Some _ => True end.
Proof.
  pose proof (certified_radius_ends ddos_W1 ddos_B1 ddos_W2 ddos_B2 centre ddos_THRESHOLD (lit 1 0) (lit 1 4) one_fin
    ltac:(repeat split; discriminate) ltac:(split; vm_compute; discriminate) ltac:(vm_compute; discriminate)
    ltac:(vm_compute; discriminate)) as H.
  cbn zeta in H. unfold ddos_certified_radius. destruct (certified_radius _ _ _ _ _ _ _ _ _); [exact I|exact H].
Defined.

(** The interval after a number of rounds. *)
Fixpoint search_rounds (n : nat) (stable : f32 → bool) (tol lo hi : f32) : option (f32 * f32) :=
  match n with
  | O => Some (lo, hi)
  | S n =>
      if SFltb tol (f32_sub hi lo) then
        if stable (midpoint lo hi) then search_rounds n stable tol (midpoint lo hi) hi
        else search_rounds n stable tol lo (midpoint lo hi)
      else None
  end.

Lemma radius_search_rounds stable tol fuel : ∀ n lo hi lo' hi',
  search_rounds n stable tol lo hi = Some (lo', hi') →
  radius_search (n + fuel) stable tol lo hi = radius_search fuel stable tol lo' hi'.
Proof.
  induction n as [|n IH]; intros lo hi lo' hi'; cbn [search_rounds radius_search Nat.add]; [by intros [= <- <-]|].
  change (f32_mul (f32_add lo hi) f32_half) with (midpoint lo hi).
  destruct (SFltb _ _); [|discriminate]. cbn zeta. destruct (stable _); apply IH.
Qed.

(** With a tolerance of zero the search does not end: it comes to two neighbours whose
    midpoint is the upper one. *)
Lemma zero_tolerance_never_ends fuel : ddos_certified_radius fuel centre (lit 1 0) (lit 0 0) = None.
Proof.
  unfold ddos_certified_radius, certified_radius. cbn zeta.
  set (stable := λ eps, verdict_stable _ _ _ _ _ eps _ _).
  change (verdict_stable _ _ _ _ _ _ _ _) with (stable (lit 0 0)).
  assert (stable (lit 0 0) = true) as -> by (vm_compute; reflexivity). cbn [negb].
  destruct (radius_search fuel stable (lit 0 0) (lit 0 0) (lit 1 0)) as [r|] eqn:Hr; [|reflexivity].
  apply (radius_search_more _ _ 28) in Hr.
  rewrite (radius_search_rounds _ _ _ 28 _ _ (S754_finite false 9519099 (-27)) (S754_finite false 9519100 (-27))) in Hr
    by (vm_compute; reflexivity).
  rewrite radius_search_stuck in Hr; [discriminate|vm_compute; reflexivity|].
  right. split; vm_compute; reflexivity.
Qed.
End CertifyExamples.
