(* ===== verification/TreeTrain.v ===== *)
(** * Training of the decision trees ([src/training/tree.rs], [train_scanner.rs], [train_ddos.rs]).

    The CART trainer in the binary32 arithmetic of the program: impurity, choice of the split,
    recursion, and the packed nodes that the detectors walk ([Ensemble]); the preparation of
    the samples. An index out of range, a panic of the source, is [None]. *)

From S2P Require Import Prelude Float64 FloatRound Ensemble Crown Certify.

(** ** Samples ([dataset/sample.rs]) *)

Inductive DataSource := ProductionLogs | Csic2010 | OwaspModSec | SyntheticCicTiming | SyntheticWordlist.

Record TrainingSample := {
  ts_features : list f32;
  ts_label : f32;
  ts_source : DataSource;
  ts_weight : f32;
}.

Record TreeConfig := {
  tc_max_depth : nat;
  tc_min_samples_leaf : nat;
  tc_min_purity : f32;
  tc_num_features : nat;
}.

Inductive BuildNode :=
| Leaf (decision : TreeDecision)
| Split (feature : nat) (threshold : f32) (ltree rtree : BuildNode).

(** [f32::EPSILON]. *)
Definition EPSILON : f32 := S754_finite false (2 ^ 23) (-46).

(** ** Impurity *)

Definition gini (class_a class_b : f32) : f32 :=
  let total := f32_add class_a class_b in
  if SFltb total EPSILON then lit 0 0
  else
    let p_a := f32_div class_a total in
    let p_b := f32_div class_b total in
    f32_sub (f32_sub (lit 1 0) (f32_mul p_a p_a)) (f32_mul p_b p_b).

Definition make_leaf (attack_w normal_w min_purity : f32) : BuildNode :=
  let total := f32_add attack_w normal_w in
  Leaf (if SFltb total EPSILON then TreeDefer
        else if SFleb min_purity (f32_div attack_w total) then TreeBlock
        else if SFleb min_purity (f32_div normal_w total) then TreeAllow
        else TreeDefer).

(** ** Construction *)

Section build.
Context (samples : list TrainingSample) (config : TreeConfig).

(** The weight of a sample, added to the attacks or to the others. *)
Definition add_sample (w : f32 * f32) (s : TrainingSample) : f32 * f32 :=
  if SFleb (lit 5 1) (ts_label s) then (f32_add w.1 (ts_weight s), w.2) else (w.1, f32_add w.2 (ts_weight s)).

Definition weighted_counts (indices : list nat) : option (f32 * f32) :=
  foldl (λ acc i, w ← acc; s ← samples !! i; Some (add_sample w s)) (Some (lit 0 0, lit 0 0)) indices.

Record Best := {
  best_gain : f32;
  best_feature : nat;
  best_threshold : f32;
  best_left : list nat;
  best_right : list nat;
}.

Definition no_split : Best :=
  {| best_gain := lit 0 0; best_feature := 0; best_threshold := lit 0 0; best_left := []; best_right := [] |}.

(** The values of a feature, paired with the samples they come from, in ascending order. *)
Definition value_le (a b : f32 * nat) : bool := negb (SFltb b.1 a.1).

Definition feature_values (feat : nat) (indices : list nat) : option (list (f32 * nat)) :=
  vals ← mapM (λ i, s ← samples !! i; x ← ts_features s !! feat; Some (x, i)) indices;
  Some (sort_by value_le vals).

(** Two values that no threshold separates. *)
Definition too_close (a b : f32) : bool := SFltb (SFabs (f32_sub a b)) EPSILON.

Definition split_threshold (a b : f32) : f32 := f32_div (f32_add a b) (lit 2 0).

Definition split_gain (attack_w normal_w : f32) (lw : f32 * f32) : f32 :=
  let total_w := f32_add attack_w normal_w in
  let right_attack_w := f32_sub attack_w lw.1 in
  let right_normal_w := f32_sub normal_w lw.2 in
  let left_total := f32_add lw.1 lw.2 in
  let right_total := f32_add right_attack_w right_normal_w in
  let left_gini := gini lw.1 lw.2 in
  let right_gini := gini right_attack_w right_normal_w in
  let weighted_gini := f32_add (f32_mul (f32_div left_total total_w) left_gini) (f32_mul (f32_div right_total total_w) right_gini) in
  f32_sub (gini attack_w normal_w) weighted_gini.

(** One position of the scan: [before], which ends with [v], against [after], which starts
    with [w]. *)
Definition consider (counts : f32 * f32) (feat : nat) (before : list (f32 * nat)) (v w : f32 * nat) (after : list (f32 * nat))
    (lw : f32 * f32) (best : Best) : Best :=
  if too_close v.1 w.1 then best
  else if (length before <? tc_min_samples_leaf config)%nat || (length after <? tc_min_samples_leaf config)%nat then best
  else
    let gain := split_gain counts.1 counts.2 lw in
    if SFltb (best_gain best) gain then
      {| best_gain := gain; best_feature := feat; best_threshold := split_threshold v.1 w.1;
         best_left := before.*2; best_right := after.*2 |}
    else best.

Fixpoint scan (counts : f32 * f32) (feat : nat) (before vals : list (f32 * nat)) (lw : f32 * f32) (best : Best) : option Best :=
  match vals with
  | v :: ((w :: _) as after) =>
      s ← samples !! v.2;
      let lw := add_sample lw s in
      let before := before ++ [v] in
      scan counts feat before after lw (consider counts feat before v w after lw best)
  | _ => Some best
  end.

(** The subtraction [vals.len() - 1] underflows on no values. *)
Definition scan_feature (counts : f32 * f32) (indices : list nat) (best : Best) (feat : nat) : option Best :=
  vals ← feature_values feat indices;
  match vals with
  | [] => None
  | _ => scan counts feat [] vals (lit 0 0, lit 0 0) best
  end.

Definition find_split (counts : f32 * f32) (indices : list nat) : option Best :=
  foldl (λ acc feat, best ← acc; scan_feature counts indices best feat) (Some no_split) (seq 0 (tc_num_features config)).

(** [rounds] is the depth that is left below [max_depth]. *)
Fixpoint build_node (rounds : nat) (indices : list nat) : option BuildNode :=
  counts ← weighted_counts indices;
  let '(attack_w, normal_w) := counts in
  let total_w := f32_add attack_w normal_w in
  let leaf := make_leaf attack_w normal_w (tc_min_purity config) in
  match rounds with
  | O => Some leaf
  | S rounds =>
      if (length indices <? 2 * tc_min_samples_leaf config)%nat || SFltb total_w EPSILON then Some leaf
      else if SFleb (tc_min_purity config) (f32_div attack_w total_w) || SFleb (tc_min_purity config) (f32_div normal_w total_w)
      then Some leaf
      else
        best ← find_split counts indices;
        if SFleb (best_gain best) (lit 0 0) || bool_decide (best_left best = []) || bool_decide (best_right best = [])
        then Some leaf
        else
          ltree ← build_node rounds (best_left best);
          rtree ← build_node rounds (best_right best);
          Some (Split (best_feature best) (best_threshold best) ltree rtree)
  end.
End build.

(** ** Packing *)

Definition leaf_threshold (d : TreeDecision) : f32 :=
  match d with TreeAllow => lit 0 0 | TreeDefer => lit 5 1 | TreeBlock => lit 1 0 end.

Definition as_u16 (n : nat) : nat := Z.to_nat (wrap 16 (Z.of_nat n)).

(** A node takes its place before its children and is filled in after them. *)
Fixpoint flatten (node : BuildNode) (out : list PackedNode) : list PackedNode :=
  match node with
  | Leaf d => out ++ [(255, leaf_threshold d, 0%nat, 0%nat)]
  | Split feature threshold ltree rtree =>
      let self_idx := length out in
      let out := out ++ [(0, lit 0 0, 0%nat, 0%nat)] in
      let left_idx := length out in
      let out := flatten ltree out in
      let right_idx := length out in
      let out := flatten rtree out in
      <[self_idx := (wrap 8 (Z.of_nat feature), threshold, as_u16 left_idx, as_u16 right_idx)]> out
  end.

Definition train_tree (samples : list TrainingSample) (config : TreeConfig) : option (list PackedNode) :=
  root ← build_node samples config (tc_max_depth config) (seq 0 (length samples));
  Some (flatten root []).

(** ** Preparation of the samples ([train_scanner.rs]; [train_ddos.rs] has the same functions) *)

Definition COOKIE_FEATURE_IDX : nat := 3.
Definition NUM_FEATURES : nat := 12.

Definition f32_of_Z (n : Z) : f32 := binary_normalize 24 128 n 0 false.

(** [features[cookie_idx] = 0.5]. *)
Definition mask_sample (cookie_idx : nat) (s : TrainingSample) : option TrainingSample :=
  _ ← ts_features s !! cookie_idx;
  Some {| ts_features := <[cookie_idx := lit 5 1]> (ts_features s); ts_label := ts_label s; ts_source := ts_source s;
          ts_weight := ts_weight s |}.

(** The fixed number in the unit interval of the [i]-th sample. *)
Definition mask_roll (i : nat) : f32 :=
  let hash := wrap 64 (wrap 64 (Z.of_nat i * 6364136223846793005) + 42) in
  f32_div (f32_of_Z (Z.shiftr hash 33)) (f32_of_Z (Z.shiftr (2 ^ 32 - 1) 1)).

Definition mask_cookie_feature (cookie_idx : nat) (cookie_weight : f32) (samples : list TrainingSample) :
    option (list TrainingSample) :=
  if SFleb (f32_sub (lit 1 0) EPSILON) cookie_weight then Some samples
  else mapM id (imap (λ i s, if SFltb cookie_weight EPSILON then mask_sample cookie_idx s
                             else if SFltb cookie_weight (mask_roll i) then mask_sample cookie_idx s
                             else Some s) samples).

Definition f32_min (a b : f32) : f32 :=
  match SFcompare a b with
  | None => if is_nan a then b else a
  | Some Gt => b
  | _ => a
  end.

(** [f32::MAX] and [f32::MIN]. *)
Definition f32_MAX : f32 := S754_finite false (2 ^ 24 - 1) 104.
Definition f32_MIN : f32 := S754_finite true (2 ^ 24 - 1) 104.

(** One round of the loops: the feature of the sample folded into the bound at each position. *)
Definition fold_features (f : f32 → f32 → f32) (dim : nat) (acc : option (list f32)) (s : TrainingSample) : option (list f32) :=
  bounds ← acc;
  if (length (ts_features s) <? dim)%nat then None else Some (zip_with f bounds (ts_features s)).

Definition compute_norm_params (samples : list TrainingSample) : option (list f32 * list f32) :=
  s0 ← head samples;
  let dim := length (ts_features s0) in
  mins ← foldl (fold_features f32_min dim) (Some (replicate dim f32_MAX)) samples;
  maxs ← foldl (fold_features f32_max dim) (Some (replicate dim f32_MIN)) samples;
  Some (mins, maxs).

(** [items.swap(i, j)]. *)
Definition swap {A} (i j : nat) (items : list A) : list A :=
  match items !! i, items !! j with
  | Some x, Some y => <[j := x]> (<[i := y]> items)
  | _, _ => items
  end.

Definition next_rng (rng : Z) : Z := wrap 64 (wrap 64 (rng * 6364136223846793005) + 1442695040888963407).

(** The loop over the positions from [i] down to 1. *)
Fixpoint shuffle_from {A} (i : nat) (rng : Z) (items : list A) : list A :=
  match i with
  | O => items
  | S i' =>
      let rng := next_rng rng in
      shuffle_from i' rng (swap i (Z.to_nat (Z.shiftr rng 33 mod (Z.of_nat i + 1))) items)
  end.

Definition deterministic_shuffle {A} (items : list A) : list A := shuffle_from (length items - 1) 42 items.

Definition split_count (n : nat) (train_ratio : f64) : nat := Z.to_nat (f64_to_u64 (fmul (f64_of_Z (Z.of_nat n)) train_ratio)).

Definition is_attack (s : TrainingSample) : bool := SFleb (lit 5 1) (ts_label s).
Definition is_normal (s : TrainingSample) : bool := SFltb (ts_label s) (lit 5 1).

Definition stratified_split (samples : list TrainingSample) (train_ratio : f64) : list TrainingSample * list TrainingSample :=
  let attacks := deterministic_shuffle (filter (λ s, is_attack s = true) samples) in
  let normals := deterministic_shuffle (filter (λ s, is_normal s = true) samples) in
  let attack_split := split_count (length attacks) train_ratio in
  let normal_split := split_count (length normals) train_ratio in
  (take attack_split attacks ++ take normal_split normals, drop attack_split attacks ++ drop normal_split normals).

Definition normalize_features (features mins maxs : list f32) : option (list f32) :=
  mapM id (imap (λ i v, lo ← mins !! i; hi ← maxs !! i;
                        let range := f32_sub hi lo in
                        Some (if SFltb EPSILON range then clamp01 (f32_div (f32_sub v lo) range) else lit 0 0)) features).

(** ** The run up to the tree and the norms that are exported with it *)

Record TrainArgs := {
  ta_tree_max_depth : nat;
  ta_tree_min_purity : f32;
  ta_min_samples_leaf : nat;
  ta_cookie_weight : f32;
}.

Record ExportedTree := {
  et_tree_nodes : list PackedNode;
  et_norm_mins : list f32;
  et_norm_maxs : list f32;
}.

(** The range of the cookie feature, widened for the network. *)
Definition mlp_norm_maxs (cookie_weight : f32) (mins maxs : list f32) : option (list f32) :=
  if SFltb cookie_weight (f32_sub (lit 1 0) EPSILON) then
    hi ← maxs !! COOKIE_FEATURE_IDX;
    lo ← mins !! COOKIE_FEATURE_IDX;
    let range := f32_sub hi lo in
    Some (if SFltb EPSILON range && SFltb EPSILON cookie_weight
          then <[COOKIE_FEATURE_IDX := f32_add (f32_div range cookie_weight) lo]> maxs else maxs)
  else Some maxs.

Definition train_ratio : f64 := fdiv (f64_of_Z 8) (f64_of_Z 10).

(** [Err] for a data set that is refused, [Ok None] for a panic. *)
Definition run_tree (args : TrainArgs) (samples : list TrainingSample) : result (option ExportedTree) string :=
  if bool_decide (samples = []) then Err "no scanner samples in dataset"
  else if existsb (λ s, negb (length (ts_features s) =? NUM_FEATURES)%nat) samples then Err "unexpected number of features"
  else Ok (
    '(mins, maxs) ← compute_norm_params samples;
    exported_maxs ← mlp_norm_maxs (ta_cookie_weight args) mins maxs;
    let '(train_set, _) := stratified_split samples train_ratio in
    tree_train_set ← mask_cookie_feature COOKIE_FEATURE_IDX (ta_cookie_weight args) train_set;
    nodes ← train_tree tree_train_set
      {| tc_max_depth := ta_tree_max_depth args; tc_min_samples_leaf := ta_min_samples_leaf args;
         tc_min_purity := ta_tree_min_purity args; tc_num_features := NUM_FEATURES |};
    Some {| et_tree_nodes := nodes; et_norm_mins := mins; et_norm_maxs := exported_maxs |}).

(** [eval_tree]: how many samples the tree decides, decides rightly, and defers. *)
Definition eval_step (nodes : list PackedNode) (mins maxs : list f32) (acc : option (nat * nat * nat)) (s : TrainingSample) :
    option (nat * nat * nat) :=
  '(decided, correct, deferred) ← acc;
  normed ← normalize_features (ts_features s) mins maxs;
  d ← tree_predict nodes normed ≫= id;
  Some (match d with
        | TreeDefer => (decided, correct, S deferred)
        | TreeBlock => (S decided, if is_attack s then S correct else correct, deferred)
        | TreeAllow => (S decided, if is_normal s then S correct else correct, deferred)
        end).

Definition f64_of_nat (n : nat) : f64 := f64_of_Z (Z.of_nat n).

Definition eval_tree (nodes : list PackedNode) (val_set : list TrainingSample) (mins maxs : list f32) : option (f64 * f64) :=
  '(decided, correct, deferred) ← foldl (eval_step nodes mins maxs) (Some (0, 0, 0)%nat) val_set;
  Some (if (0 <? decided)%nat then fdiv (f64_of_nat correct) (f64_of_nat decided) else f64_of_Z 0,
        fdiv (f64_of_nat deferred) (f64_of_nat (length val_set))).

(** ** Packed trees *)

(** The decision of the tree before it is packed. *)
Fixpoint decide_node (node : BuildNode) (input : list f32) : option TreeDecision :=
  match node with
  | Leaf d => Some d
  | Split feature threshold ltree rtree =>
      x ← input !! feature;
      if SFleb x threshold then decide_node ltree input else decide_node rtree input
  end.

Fixpoint node_size (node : BuildNode) : nat :=
  match node with
  | Leaf _ => 1
  | Split _ _ ltree rtree => S (node_size ltree + node_size rtree)
  end.

Fixpoint features_below (n : nat) (node : BuildNode) : Prop :=
  match node with
  | Leaf _ => True
  | Split feature _ ltree rtree => (feature < n)%nat ∧ features_below n ltree ∧ features_below n rtree
  end.

(** The nodes of a tree whose root is at [off]. *)
Fixpoint layout (off : nat) (node : BuildNode) : list PackedNode :=
  match node with
  | Leaf d => [(255, leaf_threshold d, 0%nat, 0%nat)]
  | Split feature threshold ltree rtree =>
      (wrap 8 (Z.of_nat feature), threshold, as_u16 (S off), as_u16 (S (off + node_size ltree))) ::
      layout (S off) ltree ++ layout (S (off + node_size ltree)) rtree
  end.

Lemma node_size_pos node : (0 < node_size node)%nat.
Proof. destruct node; simpl; lia. Qed.

Lemma layout_length node : ∀ off, length (layout off node) = node_size node.
Proof. induction node as [d|f t l IHl r IHr]; intros off; simpl; [done|]. by rewrite length_app, IHl, IHr. Qed.

Lemma flatten_layout node : ∀ out, flatten node out = out ++ layout (length out) node.
Proof.
  induction node as [d|f t l IHl r IHr]; intros out; cbn [flatten layout]; [done|].
  rewrite IHl, IHr, !length_app, layout_length. cbn [length]. rewrite <- !app_assoc.
  replace (length out) with (length out + 0)%nat at 1 by lia. rewrite insert_app_r. cbn [app]. f_equal.
  replace (length out + 1)%nat with (S (length out)) by lia.
  by replace (length out + (1 + node_size l))%nat with (S (length out + node_size l)) by lia.
Qed.

Lemma leaf_threshold_decision d : leaf_decision (leaf_threshold d) = d.
Proof. by destruct d. Qed.

Lemma as_u16_small n : Z.of_nat n < 65536 → as_u16 n = n.
Proof. intros. unfold as_u16. rewrite wrap_small; [lia|]. change (2 ^ 16) with 65536. lia. Qed.

(** The walk over the packed nodes is the descent in the tree. *)
Lemma walk_layout node : ∀ fuel pre post input,
  features_below 255 node → Z.of_nat (length pre + node_size node) ≤ 65536 → (node_size node ≤ fuel)%nat →
  tree_walk fuel (pre ++ layout (length pre) node ++ post) input (length pre) = Some (decide_node node input).
Proof.
  induction node as [d|f t l IHl r IHr]; intros fuel pre post input Hf Hlen Hfuel; (destruct fuel as [|fuel]; [simpl in Hfuel; lia|]).
  - cbn [tree_walk layout app]. unfold tree_step. rewrite list_lookup_middle by done.
    by rewrite Z.eqb_refl, leaf_threshold_decision.
  - cbn [features_below node_size] in *. destruct Hf as (Hf & Hfl & Hfr). cbn [tree_walk layout decide_node]. unfold tree_step.
    rewrite <- app_comm_cons, list_lookup_middle by done. rewrite wrap_small by (change (2 ^ 8) with 256; lia).
    destruct (Z.eqb_spec (Z.of_nat f) 255); [lia|]. rewrite Nat2Z.id. destruct (input !! f) as [x|]; [|done]. cbn [mbind option_bind].
    pose proof (node_size_pos r). rewrite !as_u16_small by lia. set (nd := (_, _, _, _) : PackedNode).
    destruct (SFleb x t).
    + specialize (IHl fuel (pre ++ [nd]) (layout (S (length pre + node_size l)) r ++ post) input Hfl).
      rewrite length_app, Nat.add_1_r in IHl. rewrite <- IHl by lia. f_equal. by rewrite <- !app_assoc.
    + specialize (IHr fuel (pre ++ nd :: layout (S (length pre)) l) post input Hfr).
      rewrite length_app in IHr. cbn [length] in IHr. rewrite layout_length, <- plus_n_Sm in IHr.
      rewrite <- IHr by lia. f_equal. rewrite <- !app_assoc. done.
Qed.

Lemma flatten_predict node input :
  features_below 255 node → Z.of_nat (node_size node) ≤ 65536 → tree_predict (flatten node []) input = Some (decide_node node input).
Proof.
  intros Hf Hn. unfold tree_predict. rewrite flatten_layout. cbn [length app]. rewrite layout_length.
  pose proof (walk_layout node (S (node_size node)) [] [] input Hf) as Hw. cbn [length app] in Hw.
  rewrite app_nil_r in Hw. apply Hw; lia.
Qed.

(** ** Values and thresholds *)

Lemma sort_by_ext {A} (le le' : A → A → bool) l :
  (∀ x y, x ∈ l → y ∈ l → le x y = le' x y) → sort_by le l = sort_by le' l.
Proof.
  induction l as [|x l IH]; intros Hext; simpl; [done|].
  rewrite IH by (intros; apply Hext; by right). assert (∀ y, y ∈ sort_by le' l → le x y = le' x y) as Hx.
  { intros y Hy. rewrite elem_of_sort_by in Hy. apply Hext; [by left|by right]. }
  clear IH Hext. revert Hx. generalize (sort_by le' l). intros k Hx. induction k as [|y k IH]; simpl; [done|].
  rewrite (Hx y) by left. case_match; [done|]. f_equal. apply IH. intros z Hz. apply Hx. by right.
Qed.

Lemma StronglySorted_mono {A} (R R' : relation A) l : (∀ x y, R x y → R' x y) → StronglySorted R l → StronglySorted R' l.
Proof. intros HR. induction 1 as [|x l _ IH Hx]; constructor; [done|]. eapply Forall_impl; [exact Hx|]. auto. Qed.

Lemma EPSILON_fin : fin EPSILON.
Proof. split; [split|]; [reflexivity|discriminate|exact I]. Qed.

Lemma abs_val x : num x → num (SFabs x) ∧ val (SFabs x) = Z.abs (val x).
Proof.
  intros [Hb Hn]. destruct x as [s|s| |s m e]; [| |by destruct Hn|].
  - split; [split; [reflexivity|discriminate]|reflexivity].
  - split; [split; [reflexivity|discriminate]|by destruct s].
  - split; [by split|]. cbn [SFabs]. rewrite !val_finite. destruct s; cbn [cond_Zopp]; lia.
Qed.

(** Values that are not too close differ. *)
Lemma too_close_eq a b : fin a → fin b → val a = val b → too_close a b = true.
Proof.
  intros Ha Hb Heq. destruct (SFsub_value 24 128 eq_refl eq_refl a b Ha Hb) as [Ns Vs].
  destruct (abs_val _ Ns) as [Na Va]. unfold too_close, f32_sub.
  rewrite (SFltb_fv 24 128 eq_refl eq_refl _ _ Na (proj1 EPSILON_fin)), Va, Vs. apply Z.ltb_lt.
  rewrite (proj2 (Z.sub_move_0_r _ _) Heq). reflexivity.
Qed.

(** A threshold that has one value on its left and the other on its right. *)
Definition separated (a b : f32) : Prop :=
  let t := split_threshold a b in num t ∧ val a ≤ val t < val b.

Definition separable (n : nat) (samples : list TrainingSample) : Prop :=
  ∀ s s' feat a b, s ∈ samples → s' ∈ samples → (feat < n)%nat → ts_features s !! feat = Some a → ts_features s' !! feat = Some b →
    val a < val b → too_close a b = false → separated a b.

Definition usable (n : nat) (s : TrainingSample) : Prop := (n ≤ length (ts_features s))%nat ∧ Forall fin (ts_features s).

(** Rounding below two: the error is at most a quarter of [EPSILON]. *)
Lemma rounding_below_two n : 0 < n < 2 ^ 150 → Z.abs (srnd 24 128 n 1 - n) ≤ 2 ^ 125.
Proof.
  intros Hn. unfold srnd. rewrite (Z.sgn_pos n), (Z.abs_eq n), Z.mul_1_l by lia. unfold rnd. set (k := kexp 24 n 1).
  assert (0 ≤ k ≤ 126) as Hk.
  { unfold k, kexp. rewrite Z.div_1_r. pose proof (Z.log2_lt_pow2 n 150 ltac:(lia)) as [Hl _]. specialize (Hl (proj2 Hn)). lia. }
  pose proof (Z.pow_pos_nonneg 2 k ltac:(lia) ltac:(lia)) as Hpos. pose proof (Z.pow_le_mono_r 2 k 126 ltac:(lia) ltac:(lia)) as Hle.
  pose proof (rne_error n (2 ^ k) Hpos) as He. rewrite Z.mul_1_l. change (2 ^ 126) with (2 * 2 ^ 125) in Hle.
  assert (rne n (2 ^ k) * 2 ^ k < over 24 128) as Hover.
  { change (over 24 128) with (2 ^ 277). assert (2 ^ 150 + 2 ^ 125 < 2 ^ 277) by reflexivity. lia. }
  rewrite Z.min_l; lia.
Qed.

Lemma two_fin : fin (lit 2 0).
Proof. split; [split|]; [reflexivity|discriminate|exact I]. Qed.

(** Halving is exact up to one unit of the least place. *)
Lemma half_value x : fin x → 2 ≤ val x → num (f32_div x (lit 2 0)) ∧ Z.abs (2 * val (f32_div x (lit 2 0)) - val x) ≤ 1.
Proof.
  intros Fx Hx. pose proof Fx as [[Hb _] Hinf]. destruct x as [s|s| |s m e]; [by destruct Hx|by destruct Hinf|by destruct Hx|].
  rewrite val_finite in Hx. destruct s; [cbn [cond_Zopp] in Hx; pose proof (Z.pow_nonneg 2 (e + 149)); lia|]. cbn [cond_Zopp] in Hx.
  destruct (SFdiv_value 24 128 eq_refl eq_refl m e (2 ^ 23) (-22) Fx two_fin) as [Nt Vt].
  { change (fv 24 128 (S754_finite false (2 ^ 23) (-22))) with (2 * 2 ^ 149). change (2 ^ - emin 24 128) with (2 ^ 149).
    rewrite val_finite. cbn [cond_Zopp]. apply Z.mul_le_mono_nonneg_r; [discriminate|exact Hx]. }
  change (SFdiv 24 128 (S754_finite false m e) (S754_finite false (2 ^ 23) (-22))) with (f32_div (S754_finite false m e) (lit 2 0)) in *.
  split; [exact Nt|]. rewrite Vt. change (fv 24 128 (S754_finite false (2 ^ 23) (-22))) with (2 * 2 ^ 149).
  change (2 ^ - emin 24 128) with (2 ^ 149). rewrite srnd_scale by reflexivity. rewrite val_finite. cbn [cond_Zopp].
  cbn [valid_binary] in Hb. pose proof Hb as (Hm & He & Hc)%f32_bounded. destruct (decide (e = -149)) as [->|Hne].
  - change (2 ^ (-149 + 149)) with 1 in *. rewrite Z.mul_1_r in *.
    unfold srnd. rewrite (Z.sgn_pos (Z.pos m)), (Z.abs_eq (Z.pos m)), Z.mul_1_l by lia. unfold rnd.
    assert (kexp 24 (Z.pos m) 2 = 0) as ->.
    { unfold kexp. assert (Z.log2 (Z.pos m / 2) < 24); [|lia]. destruct (decide (Z.pos m / 2 = 0)) as [->|]; [reflexivity|].
      apply Z.log2_lt_pow2; [pose proof (Z.div_pos (Z.pos m) 2); lia|]. pose proof (Z.div_le_upper_bound (Z.pos m) 2 (Z.pos m)). lia. }
    change (2 ^ 0) with 1. rewrite !Z.mul_1_r. pose proof (rne_error (Z.pos m) 2 eq_refl) as Herr.
    assert (rne (Z.pos m) 2 < over 24 128); [|lia]. change (over 24 128) with (2 ^ 277). assert (2 ^ 24 < 2 ^ 277) by reflexivity. lia.
  - assert (fin (S754_finite false m (e - 1))) as Fh.
    { split; [split; [|discriminate]|exact I]. cbn [valid_binary]. apply f32_bounded. lia. }
    pose proof (srnd_float 24 128 eq_refl eq_refl _ Fh) as Hf. rewrite val_finite in Hf. cbn [cond_Zopp] in Hf.
    replace (e + 149) with (e - 1 + 149 + 1) by lia. rewrite Z.pow_add_r, Z.pow_1_r, Z.mul_assoc by lia.
    pose proof (srnd_scale 2 (Z.pos m * 2 ^ (e - 1 + 149)) 1 eq_refl eq_refl) as Hs. rewrite Hf in Hs.
    change (1 * 2) with 2 in Hs. rewrite Hs. lia.
Qed.

(** On values of the unit interval every threshold separates. *)
Lemma unit_separated a b : fin a → fin b → 0 ≤ val a → val a < val b → val b ≤ val (lit 1 0) → too_close a b = false → separated a b.
Proof.
  intros Fa Fb Ha Hab Hb Hclose. change (val (lit 1 0)) with (2 ^ 149) in Hb.
  assert (2 ^ 126 - 2 ^ 102 < val b - val a) as Hgap.
  { destruct (SFsub_value 24 128 eq_refl eq_refl a b Fa Fb) as [Ns Vs]. destruct (abs_val _ Ns) as [Na Va].
    unfold too_close, f32_sub in Hclose. rewrite (SFltb_fv 24 128 eq_refl eq_refl _ _ Na (proj1 EPSILON_fin)), Va, Vs in Hclose.
    apply Z.ltb_ge in Hclose. change (val EPSILON) with (2 ^ 126) in Hclose.
    replace (val a - val b) with (- (val b - val a)) in Hclose by lia. rewrite srnd_opp, Z.abs_opp in Hclose.
    apply Z.nle_gt. intros Hle. assert (num (S754_finite false (2 ^ 24 - 1) (-47))) as Np by (split; [reflexivity|discriminate]).
    pose proof (srnd_le _ (val b - val a) 1 Np eq_refl) as Hu. change (val (S754_finite false (2 ^ 24 - 1) (-47))) with (2 ^ 126 - 2 ^ 102) in Hu.
    pose proof (srnd_nonneg 24 128 eq_refl eq_refl (val b - val a) 1 ltac:(lia) eq_refl). assert (0 < 2 ^ 102) by reflexivity. lia. }
  destruct (SFadd_value 24 128 eq_refl eq_refl a b Fa Fb) as [Ns Vs].
  assert (2 ^ 149 + 2 ^ 149 = 2 ^ 150) as H2 by reflexivity. assert (2 ^ 125 + 2 ^ 125 = 2 ^ 126) as H3 by reflexivity.
  assert (2 ^ 102 + 4 < 2 ^ 125) as H4 by reflexivity. assert (2 ^ 150 + 2 ^ 125 < 2 ^ 277) as H5 by reflexivity.
  pose proof (rounding_below_two (val a + val b) ltac:(lia)) as Herr. rewrite <- Vs in Herr.
  unfold separated, split_threshold, f32_add. revert Ns Herr. generalize (SFadd 24 128 a b). intros x Nx Herr.
  assert (fin x) as Fx by (apply (number_finite 24 128); [exact Nx|change (over 24 128) with (2 ^ 277); lia]).
  destruct (half_value x Fx ltac:(lia)) as [Nt Ht]. split; [exact Nt|]. lia.
Qed.

(** ** What a split does *)

Section trained.
Context (samples : list TrainingSample) (config : TreeConfig).
Context (Husable : Forall (usable (tc_num_features config)) samples).
Context (Hsep : separable (tc_num_features config) samples).

Definition in_range (indices : list nat) : Prop := Forall (λ i, (i < length samples)%nat) indices.

(** A pair of the list of values. *)
Definition value_of (feat : nat) (p : f32 * nat) : Prop :=
  ∃ s, samples !! p.2 = Some s ∧ ts_features s !! feat = Some p.1 ∧ fin p.1.

(** A split of the samples: both sides are large enough, and the threshold sends each sample
    to its side. *)
Definition good_split (indices : list nat) (b : Best) : Prop :=
  (best_feature b < tc_num_features config)%nat ∧
  best_left b ++ best_right b ≡ₚ indices ∧
  (tc_min_samples_leaf config ≤ length (best_left b))%nat ∧ (tc_min_samples_leaf config ≤ length (best_right b))%nat ∧
  (∀ i s, i ∈ best_left b → samples !! i = Some s →
     ∃ x, ts_features s !! best_feature b = Some x ∧ SFleb x (best_threshold b) = true) ∧
  (∀ i s, i ∈ best_right b → samples !! i = Some s →
     ∃ x, ts_features s !! best_feature b = Some x ∧ SFleb x (best_threshold b) = false).

Lemma sample_in_range indices i : in_range indices → i ∈ indices → ∃ s, samples !! i = Some s ∧ s ∈ samples ∧ usable (tc_num_features config) s.
Proof.
  intros Hr Hi. unfold in_range in Hr. rewrite Forall_forall in Hr. destruct (lookup_lt_is_Some_2 samples i (Hr i Hi)) as [s Hs].
  exists s. split; [done|]. pose proof (list_elem_of_lookup_2 _ _ _ Hs) as Hin. split; [done|]. by eapply Forall_forall in Husable.
Qed.

Lemma counts_some indices : in_range indices → ∃ w, weighted_counts samples indices = Some w.
Proof.
  unfold weighted_counts. generalize (lit 0 0, lit 0 0). induction indices as [|i l IH]; intros w Hr; simpl; [by eexists|].
  destruct (sample_in_range (i :: l) i Hr) as (s & -> & _); [by left|]. cbn [mbind option_bind]. apply IH.
  by apply Forall_cons_1 in Hr as [_ ?].
Qed.

Lemma feature_values_spec feat indices : in_range indices → (feat < tc_num_features config)%nat →
  ∃ vals, feature_values samples feat indices = Some vals ∧ vals.*2 ≡ₚ indices ∧ Forall (value_of feat) vals ∧
    StronglySorted (λ p q : f32 * nat, val p.1 ≤ val q.1) vals.
Proof.
  intros Hr Hf. unfold feature_values.
  assert (∃ vals, mapM (λ i, s ← samples !! i; x ← ts_features s !! feat; Some (x, i)) indices = Some vals ∧
            vals.*2 = indices ∧ Forall (value_of feat) vals) as (vals & -> & Hi & Hv).
  { induction indices as [|i l IH]; [by exists []|]. destruct (sample_in_range (i :: l) i Hr) as (s & Hs & _ & Hlen & Hfin); [by left|].
    apply Forall_cons_1 in Hr as [_ Hr]. destruct (IH Hr) as (vals & Hm & <- & Hv). cbn [mapM]. rewrite Hs. cbn [mbind option_bind].
    destruct (lookup_lt_is_Some_2 (ts_features s) feat) as [x Hx]; [lia|]. rewrite Hx, Hm. cbn [mbind option_bind].
    exists ((x, i) :: vals). split_and!; [done|done|]. constructor; [|done]. exists s. split_and!; [done..|].
    by eapply Forall_lookup_1 in Hx. }
  cbn [mbind option_bind]. eexists. split; [done|]. split; [by rewrite sort_by_perm, Hi|].
  split; [by rewrite sort_by_perm|].
  rewrite (sort_by_ext value_le (λ p q : f32 * nat, val p.1 <=? val q.1)).
  - refine (StronglySorted_mono _ _ _ _ (sort_by_sorted _ _ _ _)); intros p q; [by rewrite Z.leb_le|rewrite !Z.leb_le; lia|].
    intros r. rewrite !Z.leb_le. lia.
  - intros p q (_ & _ & _ & Hp & _)%(Forall_forall (value_of feat) vals) (_ & _ & _ & Hq & _)%(Forall_forall (value_of feat) vals); [|done..].
    unfold value_le. rewrite (SFltb_fv 24 128 eq_refl eq_refl _ _ Hq Hp). by rewrite Z.leb_antisym.
Qed.

Lemma consider_good counts feat indices before v w after lw b :
  (feat < tc_num_features config)%nat → Forall (value_of feat) ((before ++ [v]) ++ w :: after) →
  ((before ++ [v]) ++ w :: after).*2 ≡ₚ indices →
  StronglySorted (λ p q : f32 * nat, val p.1 ≤ val q.1) ((before ++ [v]) ++ w :: after) →
  b = no_split ∨ good_split indices b →
  let b' := consider config counts feat (before ++ [v]) v w (w :: after) lw b in b' = no_split ∨ good_split indices b'.
Proof.
  intros Hf Hv Hp Hs Hb. cbn zeta. unfold consider. destruct (too_close v.1 w.1) eqn:Hclose; [exact Hb|].
  destruct (length (before ++ [v]) <? tc_min_samples_leaf config)%nat eqn:Hl1; [exact Hb|]. destruct (length (w :: after) <? tc_min_samples_leaf config)%nat eqn:Hl2; [exact Hb|]. cbn [orb].
  destruct (SFltb _ _); [|exact Hb]. right. apply Nat.ltb_ge in Hl1, Hl2.
  rewrite Forall_app in Hv. destruct Hv as [Hvl Hvr]. rewrite !Forall_forall in Hvl. rewrite !Forall_forall in Hvr.
  apply StronglySorted_app in Hs as (Hlr & Hsl & Hsr).
  apply StronglySorted_app in Hsl as (Hsl & _ & _). apply StronglySorted_cons in Hsr as [Hsr _].
  destruct (Hvl v) as (sv & Hsv & Hxv & Fv); [set_solver|]. destruct (Hvr w) as (sw & Hsw & Hxw & Fw); [set_solver|].
  assert (val v.1 < val w.1) as Hlt.
  { pose proof (Hlr v w ltac:(set_solver) ltac:(set_solver)). destruct (Z.eq_dec (val v.1) (val w.1)) as [He|]; [|lia].
    by rewrite (too_close_eq _ _ Fv Fw He) in Hclose. }
  destruct (Hsep sv sw feat v.1 w.1) as (Nt & Hle & Htw); [by eapply list_elem_of_lookup_2..|done|done|done|done|done|].
  split_and!; cbn [best_feature best_left best_right best_threshold]; [done|by rewrite <- fmap_app|by rewrite length_fmap..| |].
  - intros i s (p & -> & Hin)%list_elem_of_fmap Hsi. destruct (Hvl p Hin) as (s' & Hs' & Hx & Fx). simplify_eq. exists p.1. split; [done|].
    rewrite (SFleb_fv 24 128 eq_refl eq_refl _ _ (proj1 Fx) Nt). apply Z.leb_le. assert (val p.1 ≤ val v.1); [|lia].
    apply elem_of_app in Hin as [Hin|Hin]; [apply Hsl; set_solver|]. apply list_elem_of_singleton in Hin as ->. lia.
  - intros i s (p & -> & Hin)%list_elem_of_fmap Hsi. destruct (Hvr p Hin) as (s' & Hs' & Hx & Fx). simplify_eq. exists p.1. split; [done|].
    rewrite (SFleb_fv 24 128 eq_refl eq_refl _ _ (proj1 Fx) Nt). apply Z.leb_gt. assert (val w.1 ≤ val p.1); [|lia].
    apply elem_of_cons in Hin as [->|Hin]; [lia|]. rewrite Forall_forall in Hsr. by apply Hsr.
Qed.

Lemma scan_good counts feat indices : (feat < tc_num_features config)%nat → ∀ vals before lw b,
  Forall (value_of feat) (before ++ vals) → (before ++ vals).*2 ≡ₚ indices →
  StronglySorted (λ p q : f32 * nat, val p.1 ≤ val q.1) (before ++ vals) →
  b = no_split ∨ good_split indices b →
  ∃ b', scan samples config counts feat before vals lw b = Some b' ∧ (b' = no_split ∨ good_split indices b').
Proof.
  intros Hf vals. induction vals as [|v [|w after] IH]; intros before lw b Hv Hp Hs Hb; [by exists b..|].
  cbn [scan]. assert (value_of feat v) as (s & Hsv & _ & _) by (rewrite Forall_app, Forall_cons in Hv; tauto).
  rewrite Hsv. cbn [mbind option_bind]. rewrite cons_middle, app_assoc in Hv, Hp, Hs.
  apply IH; [done..|]. by apply consider_good.
Qed.

Lemma find_split_good counts indices : in_range indices → indices ≠ [] →
  ∃ b, find_split samples config counts indices = Some b ∧ (b = no_split ∨ good_split indices b).
Proof.
  intros Hr Hne. unfold find_split.
  assert (∀ feats b, Forall (λ f, (f < tc_num_features config)%nat) feats → b = no_split ∨ good_split indices b →
    ∃ b', foldl (λ acc feat, best ← acc; scan_feature samples config counts indices best feat) (Some b) feats = Some b' ∧
      (b' = no_split ∨ good_split indices b')) as Hall; [|apply Hall; [apply Forall_forall; intros f Hf%elem_of_seq; lia|by left]].
  induction feats as [|f feats IH]; intros b Hall Hb; cbn [foldl]; [by exists b|].
  apply Forall_cons_1 in Hall as [Hf Hall]. cbn [mbind option_bind].
  destruct (feature_values_spec f indices Hr Hf) as (vals & Hvals & Hp & Hv & Hs).
  destruct (scan_good counts f indices Hf vals [] (lit 0 0, lit 0 0) b Hv Hp Hs Hb) as (b' & Hb' & Hgood).
  assert (scan_feature samples config counts indices b f = Some b') as ->; [|by apply IH].
  unfold scan_feature. rewrite Hvals. cbn [mbind option_bind]. destruct vals as [|v vals]; [|done].
  by apply Permutation_nil in Hp.
Qed.

(** A leaf with the samples it was made from. *)
Definition leaf_group (g : list nat) (d : TreeDecision) : Prop :=
  ∃ w, weighted_counts samples g = Some w ∧ make_leaf w.1 w.2 (tc_min_purity config) = Leaf d.

(** What a node does with the samples it was built from: they fall into the groups of its
    leaves, and each is decided by the leaf of its group. *)
Record node_fits (rounds : nat) (indices : list nat) (node : BuildNode) (groups : list (list nat * TreeDecision)) : Prop := {
  nf_groups : groups ≫= fst ≡ₚ indices;
  nf_leaf : ∀ g d, (g, d) ∈ groups → leaf_group g d;
  nf_large : ∀ g d, (g, d) ∈ groups → g = indices ∨ (tc_min_samples_leaf config ≤ length g)%nat;
  nf_decide : ∀ g d i s, (g, d) ∈ groups → i ∈ g → samples !! i = Some s → decide_node node (ts_features s) = Some d;
  nf_features : features_below (tc_num_features config) node;
  nf_size : (node_size node < 2 ^ S rounds)%nat;
}.

Lemma leaf_fits rounds indices w d :
  weighted_counts samples indices = Some w → make_leaf w.1 w.2 (tc_min_purity config) = Leaf d →
  node_fits rounds indices (Leaf d) [(indices, d)].
Proof.
  intros Hw Hd. assert (∀ g d', (g, d') ∈ [(indices, d)] → g = indices ∧ d' = d) as Hin.
  { intros g d' H. apply list_elem_of_singleton in H. by injection H as -> ->. }
  split.
  - cbn. by rewrite app_nil_r.
  - intros g d' [-> ->]%Hin. by exists w.
  - intros g d' [-> ->]%Hin. by left.
  - intros g d' i s [-> ->]%Hin. done.
  - done.
  - cbn [node_size]. pose proof (Nat.pow_nonzero 2 rounds). rewrite Nat.pow_succ_r'. lia.
Qed.

Lemma split_fits rounds indices b ltree rtree gl gr :
  good_split indices b → node_fits rounds (best_left b) ltree gl → node_fits rounds (best_right b) rtree gr →
  node_fits (S rounds) indices (Split (best_feature b) (best_threshold b) ltree rtree) (gl ++ gr).
Proof.
  intros (Hf & Hp & Hml & Hmr & Hl & Hr) Fl Fr.
  assert (∀ g d i, (g, d) ∈ gl → i ∈ g → i ∈ best_left b) as Hil.
  { intros g d i Hg Hi. rewrite <- (nf_groups _ _ _ _ Fl). apply list_elem_of_bind. by exists (g, d). }
  assert (∀ g d i, (g, d) ∈ gr → i ∈ g → i ∈ best_right b) as Hir.
  { intros g d i Hg Hi. rewrite <- (nf_groups _ _ _ _ Fr). apply list_elem_of_bind. by exists (g, d). }
  split.
  - by rewrite bind_app, (nf_groups _ _ _ _ Fl), (nf_groups _ _ _ _ Fr).
  - intros g d [Hg|Hg]%elem_of_app; [exact (nf_leaf _ _ _ _ Fl _ _ Hg)|exact (nf_leaf _ _ _ _ Fr _ _ Hg)].
  - intros g d [Hg|Hg]%elem_of_app; right;
      [destruct (nf_large _ _ _ _ Fl _ _ Hg) as [->|]|destruct (nf_large _ _ _ _ Fr _ _ Hg) as [->|]]; assumption.
  - intros g d i s [Hg|Hg]%elem_of_app Hi Hs; cbn [decide_node].
    + destruct (Hl i s) as (x & -> & Hx); [by eapply Hil|done|]. cbn [mbind option_bind]. rewrite Hx. exact (nf_decide _ _ _ _ Fl _ _ _ _ Hg Hi Hs).
    + destruct (Hr i s) as (x & -> & Hx); [by eapply Hir|done|]. cbn [mbind option_bind]. rewrite Hx. exact (nf_decide _ _ _ _ Fr _ _ _ _ Hg Hi Hs).
  - cbn [features_below]. split_and!; [done|exact (nf_features _ _ _ _ Fl)|exact (nf_features _ _ _ _ Fr)].
  - cbn [node_size]. pose proof (nf_size _ _ _ _ Fl). pose proof (nf_size _ _ _ _ Fr). rewrite (Nat.pow_succ_r' 2 (S rounds)). lia.
Qed.

Lemma make_leaf_is a n p : ∃ d, make_leaf a n p = Leaf d.
Proof. by eexists. Qed.

Lemma good_split_range indices b : in_range indices → good_split indices b → in_range (best_left b) ∧ in_range (best_right b).
Proof. unfold in_range. intros Hr (_ & Hp & _). rewrite <- Hp in Hr. by apply Forall_app. Qed.

Lemma build_node_fits rounds : ∀ indices, in_range indices →
  ∃ node groups, build_node samples config rounds indices = Some node ∧ node_fits rounds indices node groups.
Proof.
  induction rounds as [|rounds IH]; intros indices Hr; cbn [build_node];
    (destruct (counts_some indices Hr) as [[a n] Hw]; rewrite Hw; cbn [mbind option_bind]);
    (destruct (make_leaf_is a n (tc_min_purity config)) as [d Hd]; rewrite Hd);
    (assert (∀ r, node_fits r indices (Leaf d) [(indices, d)]) as Hleaf by (intros; by eapply leaf_fits)).
  - by eexists _, _.
  - destruct (_ || SFltb _ _) eqn:Hstop; [by eexists _, _|]. destruct (_ || SFleb _ (f32_div n _)); [by eexists _, _|].
    apply orb_false_iff in Hstop as [Hlen Htot].
    assert (indices ≠ []) as Hne.
    { intros ->. injection Hw as <- <-. vm_compute in Htot. discriminate Htot. }
    destruct (find_split_good (a, n) indices Hr Hne) as (b & -> & Hb). cbn [mbind option_bind].
    destruct (_ || bool_decide (best_right b = [])) eqn:Hnone; [by eexists _, _|].
    destruct Hb as [->|Hb]; [vm_compute in Hnone; discriminate Hnone|].
    destruct (good_split_range _ _ Hr Hb) as [Hrl Hrr].
    destruct (IH _ Hrl) as (l & gl & -> & Fl), (IH _ Hrr) as (r & gr & -> & Fr). cbn [mbind option_bind].
    eexists _, _. split; [done|]. by apply split_fits.
Qed.
End trained.

(** ** Theorems *)

Lemma unit_separable n samples :
  Forall (λ s, Forall (λ x, fin x ∧ 0 ≤ val x ≤ val (lit 1 0)) (ts_features s)) samples → separable n samples.
Proof.
  intros Hu s s' feat a b Hs Hs' _ Ha Hb Hlt Hclose. rewrite Forall_forall in Hu.
  pose proof (Forall_lookup_1 _ _ _ _ (Hu s Hs) Ha) as (Fa & H0 & _).
  pose proof (Forall_lookup_1 _ _ _ _ (Hu s' Hs') Hb) as (Fb & _ & H1). by apply unit_separated.
Qed.

(** When a leaf decides: the share of the weight that has the label. *)
Definition pure_leaf (purity : f32) (w : f32 * f32) (d : TreeDecision) : Prop :=
  let total := f32_add w.1 w.2 in
  match d with
  | TreeBlock => SFleb purity (f32_div w.1 total) = true
  | TreeAllow => SFleb purity (f32_div w.2 total) = true
  | TreeDefer => SFltb total EPSILON = true ∨ SFleb purity (f32_div w.1 total) = false ∧ SFleb purity (f32_div w.2 total) = false
  end.

Lemma make_leaf_pure w purity d : make_leaf w.1 w.2 purity = Leaf d → pure_leaf purity w d.
Proof.
  unfold make_leaf, pure_leaf. cbn zeta. destruct (SFltb _ EPSILON) eqn:Ht; [intros [= <-]; by left|].
  destruct (SFleb purity (f32_div w.1 _)) eqn:Ha; [by intros [= <-]|].
  destruct (SFleb purity (f32_div w.2 _)) eqn:Hn; intros [= <-]; [reflexivity|by right].
Qed.

(** C11. What a trained tree decides. On samples with enough finite features whose thresholds
    separate, as they do on the unit interval, with at most 255 features and a depth of at
    most 15, the widths of the packed form, training succeeds, and the packed tree has
    fewer than [2 ^ (max_depth + 1)] nodes. The samples fall into groups, none smaller than
    [min_samples_leaf] unless it is the whole set, and the walk of the detectors sends each
    sample to the leaf of its group: that leaf blocks or allows only if the share of attacks
    or of other samples in the weight of the group reaches [min_purity]. *)
Theorem trained_tree_sound samples config :
  Forall (usable (tc_num_features config)) samples → separable (tc_num_features config) samples →
  (tc_num_features config ≤ 255)%nat → (tc_max_depth config ≤ 15)%nat →
  ∃ nodes groups, train_tree samples config = Some nodes ∧
    Z.of_nat (length nodes) < 2 ^ (Z.of_nat (tc_max_depth config) + 1) ∧
    groups ≫= fst ≡ₚ seq 0 (length samples) ∧
    ∀ g d, (g, d) ∈ groups →
      (g = seq 0 (length samples) ∨ (tc_min_samples_leaf config ≤ length g)%nat) ∧
      (∃ w, weighted_counts samples g = Some w ∧ pure_leaf (tc_min_purity config) w d) ∧
      ∀ i s, i ∈ g → samples !! i = Some s → tree_predict nodes (ts_features s) = Some (Some d).
Proof.
  intros Hu Hsep Hn Hd. destruct (build_node_fits samples config Hu Hsep (tc_max_depth config) (seq 0 (length samples)))
    as (node & groups & Hb & F). { apply Forall_forall. intros i Hi%elem_of_seq. lia. }
  assert (Z.of_nat (node_size node) < 2 ^ (Z.of_nat (tc_max_depth config) + 1)) as Hsize.
  { pose proof (nf_size _ _ _ _ _ _ F) as Hs%Nat2Z.inj_lt. rewrite Nat2Z.inj_pow in Hs. change (Z.of_nat 2) with 2 in Hs.
    by rewrite Nat2Z.inj_succ in Hs. }
  assert (2 ^ (Z.of_nat (tc_max_depth config) + 1) ≤ 65536) as Hmax.
  { change 65536 with (2 ^ 16). apply Z.pow_le_mono_r; lia. }
  exists (flatten node []), groups. unfold train_tree. rewrite Hb. cbn [mbind option_bind].
  split; [done|]. split; [by rewrite flatten_layout; cbn [app]; rewrite layout_length|]. split; [exact (nf_groups _ _ _ _ _ _ F)|].
  intros g d Hg. split; [exact (nf_large _ _ _ _ _ _ F g d Hg)|]. split.
  - destruct (nf_leaf _ _ _ _ _ _ F g d Hg) as (w & Hw & Hl). exists w. split; [exact Hw|by apply make_leaf_pure].
  - intros i s Hi Hs. rewrite flatten_predict; [f_equal; exact (nf_decide _ _ _ _ _ _ F g d i s Hg Hi Hs)| |lia].
    pose proof (nf_features _ _ _ _ _ _ F) as Hf. clear -Hf Hn. induction node as [|f t l IHl r IHr]; [done|].
    cbn [features_below] in *. destruct Hf as (? & ? & ?). split_and!; [lia|auto..].
Qed.

(** *** Preparation *)

Lemma swap_perm {A} i j (l : list A) : swap i j l ≡ₚ l.
Proof.
  unfold swap. destruct (l !! i) as [x|] eqn:Hi; [|done]. destruct (l !! j) as [y|] eqn:Hj; [|done].
  destruct (decide (i = j)) as [->|Hne].
  { simplify_eq. by rewrite list_insert_insert_eq, list_insert_id. }
  apply Permutation_inj. split; [by rewrite !length_insert|].
  exists (λ k, if decide (k = i) then j else if decide (k = j) then i else k). split.
  - intros k k'. repeat case_decide; congruence.
  - intros k. repeat case_decide; subst.
    + rewrite list_lookup_insert_ne by done. rewrite list_lookup_insert_eq; [done|]. by eapply lookup_lt_Some.
    + rewrite list_lookup_insert_eq; [done|]. rewrite length_insert. by eapply lookup_lt_Some.
    + by rewrite !list_lookup_insert_ne by congruence.
Qed.

Lemma shuffle_perm {A} (l : list A) : deterministic_shuffle l ≡ₚ l.
Proof.
  unfold deterministic_shuffle. generalize (length l - 1)%nat 42. intros i. revert l.
  induction i as [|i IH]; intros l rng; [done|]. cbn [shuffle_from]. by rewrite IH, swap_perm.
Qed.

(** The split loses and duplicates nothing but the samples whose label is not a number. *)
Theorem stratified_split_partition samples ratio :
  let '(train, validation) := stratified_split samples ratio in
  train ++ validation ≡ₚ filter (λ s, is_attack s = true) samples ++ filter (λ s, is_normal s = true) samples.
Proof.
  unfold stratified_split. set (a := split_count _ _). set (n := split_count _ _).
  set (la := deterministic_shuffle (filter (λ s, is_attack s = true) samples)) in *.
  set (ln := deterministic_shuffle (filter (λ s, is_normal s = true) samples)) in *.
  transitivity (la ++ ln); [|by apply Permutation_app; apply shuffle_perm].
  rewrite <- (take_drop a la) at 3. rewrite <- (take_drop n ln) at 3. rewrite <- !app_assoc. apply Permutation_app_head.
  rewrite !app_assoc. by rewrite (Permutation_app_comm (take n ln) (drop a la)).
Qed.

Module TreeTrainExamples.
Definition sample (depth label : Z) : TrainingSample :=
  {| ts_features := [lit 0 0; lit depth 0] ++ replicate 10 (lit 0 0); ts_label := lit label 0; ts_source := ProductionLogs;
     ts_weight := lit 1 0 |}.

Definition config : TreeConfig :=
  {| tc_max_depth := 8; tc_min_samples_leaf := 2; tc_min_purity := lit 98 2; tc_num_features := 12 |}.

Definition unit_data : list TrainingSample := [sample 1 1; sample 1 1; sample 0 0; sample 0 0].

Lemma unit_features : Forall (λ s, Forall (λ x, fin x ∧ 0 ≤ val x ≤ val (lit 1 0)) (ts_features s)) unit_data.
Proof. repeat constructor; try exact eq_refl; try discriminate. Qed.

(** The theorem, on four samples that one feature tells apart. *)
Lemma trained_tree_sound_witness :
  ∃ nodes (g : list nat), train_tree unit_data config = Some nodes ∧ 0%nat ∈ g ∧ (2 ≤ length g)%nat ∧
    tree_predict nodes (ts_features (sample 1 1)) = Some (Some TreeBlock).
Proof.
  destruct (trained_tree_sound unit_data config) as (nodes & groups & Ht & _ & Hp & Hg).
  - repeat constructor; try exact eq_refl; try discriminate; vm_compute; lia.
  - exact (unit_separable 12 unit_data unit_features).
  - cbn. lia.
  - cbn. lia.
  - assert (0%nat ∈ groups ≫= fst) as ([g d] & Hi & Hin)%list_elem_of_bind by (rewrite Hp; left).
    destruct (Hg g d Hin) as (Hlen & _ & Hd). specialize (Hd 0%nat (sample 1 1) Hi eq_refl).
    exists nodes, g. split; [exact Ht|]. split; [exact Hi|]. split; [destruct Hlen as [->|Hlen]; [cbn; lia|exact Hlen]|]. rewrite Hd.
    assert (train_tree unit_data config ≫= (λ nodes, tree_predict nodes (ts_features (sample 1 1))) = Some (Some TreeBlock)) as Hc
      by (vm_compute; reflexivity).
    rewrite Ht in Hc. cbn [mbind option_bind] in Hc. rewrite Hd in Hc. exact Hc.
Defined.

(** Two neighbours above one: the midpoint is rounded to the upper one, so the samples with
    the upper value are decided by the leaf of the others. *)
Example midpoint_rounds_up :
  let a := S754_finite false (2 ^ 23 + 1) (-23) in let b := S754_finite false (2 ^ 23 + 2) (-23) in
  SFltb a b = true ∧ too_close a b = false ∧ split_threshold a b = b.
Proof. vm_compute. done. Qed.

(** The tree is trained on the raw features and walked on the normalised ones: a deep path of
    an attack, blocked by the tree that was trained on it, is allowed by the detector. *)
Definition data : list TrainingSample := replicate 5 (sample 9 1) ++ replicate 5 (sample 1 0).
Definition args : TrainArgs :=
  {| ta_tree_max_depth := 8; ta_tree_min_purity := lit 98 2; ta_min_samples_leaf := 2; ta_cookie_weight := lit 1 0 |}.

Example raw_thresholds_on_normalised_features :
  match run_tree args data with
  | Ok (Some m) =>
      tree_predict (et_tree_nodes m) (ts_features (sample 9 1)) = Some (Some TreeBlock) ∧
      tree_predict (et_tree_nodes m) (normalize (et_norm_mins m) (et_norm_maxs m) (ts_features (sample 9 1))) = Some (Some TreeAllow) ∧
      eval_tree (et_tree_nodes m) data (et_norm_mins m) (et_norm_maxs m) = Some (fdiv (f64_of_Z 1) (f64_of_Z 2), f64_of_Z 0)
  | _ => False
  end.
Proof. vm_compute. done. Qed.
End TreeTrainExamples.
