(* ===== verification/Limiter.v ===== *)
(** * Token buckets ([src/rate_limit/limiter.rs]).

    The limiter keeps one bucket per key in 256 shards. Token counts are [f64]; instants and
    durations are in nanoseconds. The specification at the end is the same bucket on
    integers; on whole seconds and whole rates the code computes exactly that. *)

From S2P Require Import Prelude Net RateLimit Float64.

#[export] Instance RateLimitKey_countable : Countable RateLimitKey.
Proof.
  refine (inj_countable' (λ k, match k with Identity h => inl h | Ip a => inr a end)
            (λ x, match x with inl h => Identity h | inr a => Ip a end) _); by intros [].
Defined.

Definition NUM_SHARDS : nat := 256.

Inductive RateLimitResult :=
| Allow
| Reject (retry_after : Z).

Record BucketConfig := {
  burst : Z;
  rate : f64;
}.

Record RateLimitConfig := {
  rlc_enabled : bool;
  rlc_bypass_cidrs : list string;
  rlc_eviction_interval_secs : Z;
  rlc_stale_after_secs : Z;
  rlc_authenticated : BucketConfig;
  rlc_unauthenticated : BucketConfig;
}.

Record Bucket := {
  tokens : f64;
  last_refill : Z;
  bk_authenticated : bool;
}.

Record RateLimiter := {
  shards : list (gmap RateLimitKey Bucket);
  bypass_cidrs : list CidrBlock;
  cfg_authenticated : BucketConfig;
  cfg_unauthenticated : BucketConfig;
  stale_after_secs : Z;
}.

(** [FxHasher] on a key, a [u64]. *)
Class KeyHash := key_hash : RateLimitKey → Z.

Definition with_shards (l : RateLimiter) (s : list (gmap RateLimitKey Bucket)) : RateLimiter :=
  {| shards := s; bypass_cidrs := bypass_cidrs l; cfg_authenticated := cfg_authenticated l;
     cfg_unauthenticated := cfg_unauthenticated l; stale_after_secs := stale_after_secs l |}.

(** [RateLimiter::new]. *)
Definition RateLimiter_new (config : RateLimitConfig) : RateLimiter :=
  {| shards := replicate NUM_SHARDS ∅; bypass_cidrs := parse_cidrs (rlc_bypass_cidrs config);
     cfg_authenticated := rlc_authenticated config; cfg_unauthenticated := rlc_unauthenticated config;
     stale_after_secs := rlc_stale_after_secs config |}.

(** [Instant::duration_since], which saturates at zero. *)
Definition duration_since (now earlier : Z) : Z := Z.max 0 (now - earlier).

Definition tier (l : RateLimiter) (authenticated : bool) : BucketConfig :=
  if authenticated then cfg_authenticated l else cfg_unauthenticated l.

(** The bucket of a key at [now], refilled: [entry(key).or_insert_with(..)] and the update. *)
Definition refill (l : RateLimiter) (now : Z) (key : RateLimitKey) (b : option Bucket) : Bucket :=
  let b := default {| tokens := f64_of_Z (burst (tier l (is_authenticated key))); last_refill := now;
                      bk_authenticated := is_authenticated key |} b in
  let elapsed := as_secs_f64 (duration_since now (last_refill b)) in
  let t := tier l (bk_authenticated b) in
  {| tokens := fmin (fadd (tokens b) (fmul elapsed (rate t))) (f64_of_Z (burst t));
     last_refill := now; bk_authenticated := bk_authenticated b |}.

(** The decision on a refilled bucket. *)
Definition take_token (l : RateLimiter) (b : Bucket) : RateLimitResult * Bucket :=
  if SFleb (f64_of_Z 1) (tokens b) then
    (Allow, {| tokens := fsub (tokens b) (f64_of_Z 1); last_refill := last_refill b;
               bk_authenticated := bk_authenticated b |})
  else
    let retry_after :=
      f64_to_u64 (fceil (fdiv (fsub (f64_of_Z 1) (tokens b)) (rate (tier l (bk_authenticated b))))) in
    (Reject (Z.max retry_after 1), b).

Section limiter.
Context `{!KeyHash}.

Definition shard_index (key : RateLimitKey) : nat :=
  Z.to_nat (wrap 64 (key_hash key) mod Z.of_nat NUM_SHARDS).

(** [RateLimiter::check]. *)
Definition check (l : RateLimiter) (now : Z) (ip : IpAddr) (key : RateLimitKey) :
    RateLimitResult * RateLimiter :=
  if is_bypassed ip (bypass_cidrs l) then (Allow, l)
  else
    let idx := shard_index key in
    let shard := default ∅ (shards l !! idx) in
    let '(res, b) := take_token l (refill l now key (shard !! key)) in
    (res, with_shards l (<[idx := <[key := b]> shard]> (shards l))).

(** [RateLimiter::evict_stale]. *)
Definition evict_stale (l : RateLimiter) (now : Z) : RateLimiter :=
  with_shards l (filter (λ kb, duration_since now (last_refill kb.2) < stale_after_secs l * 1000000000)
                   <$> shards l).

(** ** Lemmas: the shards together are one map *)

Definition bucket_of (l : RateLimiter) (key : RateLimitKey) : option Bucket :=
  shards l !! shard_index key ≫= λ shard, shard !! key.

Definition limiter_wf (l : RateLimiter) : Prop := length (shards l) = NUM_SHARDS.

Lemma shard_index_bound key : (shard_index key < NUM_SHARDS)%nat.
Proof.
  unfold shard_index. pose proof (Z.mod_pos_bound (wrap 64 (key_hash key)) (Z.of_nat NUM_SHARDS)).
  apply Nat2Z.inj_lt. unfold NUM_SHARDS in *. rewrite Z2Nat.id by lia. lia.
Qed.

Lemma check_wf l now ip key : limiter_wf l → limiter_wf (check l now ip key).2.
Proof.
  unfold check, limiter_wf. case_match; [done|]. destruct (take_token _ _) as [r b]. simpl.
  by rewrite length_insert.
Qed.

Lemma shard_lookup l key : limiter_wf l → default ∅ (shards l !! shard_index key) !! key = bucket_of l key.
Proof.
  intros Hwf. unfold bucket_of. pose proof (shard_index_bound key) as Hb. rewrite <-Hwf in Hb.
  apply lookup_lt_is_Some in Hb as [s ->]. done.
Qed.

(** A check is a step on the bucket of its key and leaves every other bucket alone. *)
Lemma check_bucket l now ip key :
  limiter_wf l → is_bypassed ip (bypass_cidrs l) = false →
  let '(res, b) := take_token l (refill l now key (bucket_of l key)) in
  (check l now ip key).1 = res ∧
  ∀ key', bucket_of (check l now ip key).2 key' = if decide (key' = key) then Some b else bucket_of l key'.
Proof.
  intros Hwf Hb. unfold check. rewrite Hb, shard_lookup by done.
  destruct (take_token l (refill l now key (bucket_of l key))) as [res b]. split; [done|].
  intros key'. cbn [snd]. unfold bucket_of. cbn [shards with_shards].
  pose proof (shard_index_bound key) as Hk. rewrite <-Hwf in Hk.
  apply lookup_lt_is_Some in Hk as [s Hs]. rewrite Hs. cbn [default from_option id].
  destruct (decide (shard_index key' = shard_index key)) as [Hi|Hi].
  - rewrite Hi, list_lookup_insert_eq by (eapply lookup_lt_Some; done). rewrite Hs. simpl.
    case_decide as Hkk; [subst; apply lookup_insert_eq|by rewrite lookup_insert_ne].
  - rewrite list_lookup_insert_ne by done. rewrite decide_False by congruence. done.
Qed.
End limiter.

(** ** The token bucket on integers *)

(** A bucket of [b] tokens that gains [r] a second, with what it held at its last refill. *)
Definition spec_tokens (b r t : Z) (st : option (Z * Z)) : Z :=
  match st with
  | None => b
  | Some (k, last) => Z.min (k + (t - last) * r) b
  end.

Definition spec_check (b r t : Z) (st : option (Z * Z)) : bool * (Z * Z) :=
  let k := spec_tokens b r t st in
  if 1 <=? k then (true, (k - 1, t)) else (false, (k, t)).

(** The bucket of a key represents a state of the specification. *)
Definition represents (key : RateLimitKey) (bucket : option Bucket) (st : option (Z * Z)) : Prop :=
  match bucket, st with
  | None, None => True
  | Some bk, Some (k, last) =>
      tokens bk = fz k ∧ last_refill bk = last * 1000000000 ∧ bk_authenticated bk = is_authenticated key
  | _, _ => False
  end.

(** What a state holds at [t] can be computed exactly. *)
Definition spec_fits (b r t : Z) (st : option (Z * Z)) : Prop :=
  match st with
  | None => True
  | Some (k, last) => 0 ≤ k ≤ b ∧ last ≤ t < last + 2 ^ 53 ∧ (t - last) * r + b < 2 ^ 53
  end.

(** The configuration of the tier of a key: a [u32] burst and a whole rate. *)
Definition whole_tier (l : RateLimiter) (key : RateLimitKey) (b r : Z) : Prop :=
  burst (tier l (is_authenticated key)) = b ∧ rate (tier l (is_authenticated key)) = fz r ∧
  0 ≤ b ≤ u32_max ∧ 0 ≤ r < 2 ^ 53.

Lemma u32_small b : 0 ≤ b ≤ u32_max → 0 ≤ b < 2 ^ 53.
Proof. unfold u32_max. lia. Qed.

Lemma refill_exact l key bucket st b r t :
  whole_tier l key b r → represents key bucket st → spec_fits b r t st →
  let bk := refill l (t * 1000000000) key bucket in
  tokens bk = fz (spec_tokens b r t st) ∧ last_refill bk = t * 1000000000 ∧
  bk_authenticated bk = is_authenticated key ∧ (st = None ∨ 0 ≤ spec_tokens b r t st ≤ b).
Proof.
  intros (Hb & Hr & Hbb & Hrr) Hrep Hfit. pose proof (u32_small b Hbb). unfold refill.
  destruct bucket as [bk|], st as [[k last]|]; try done; cbn [default from_option id tokens last_refill bk_authenticated].
  - destruct Hrep as (Hk & Hl & Ha), Hfit as (Hkb & Hlast & Hfit). rewrite Ha, Hb, Hr, Hk, Hl.
    assert (duration_since (t * 1000000000) (last * 1000000000) = (t - last) * 1000000000) as ->
      by (unfold duration_since; lia).
    assert (0 ≤ (t - last) * r) by (apply Z.mul_nonneg_nonneg; lia).
    rewrite as_secs_whole, fmul_exact, fadd_exact, f64_of_Z_fz, fmin_exact by lia.
    split_and!; [done..|]. right. simpl. lia.
  - rewrite Hb, Hr. unfold duration_since. rewrite Z.sub_diag. change (Z.max 0 0) with (0 * 1000000000).
    rewrite as_secs_whole, fmul_exact, f64_of_Z_fz, fadd_exact, fmin_exact by lia.
    split_and!; [|done..|by left]. simpl. f_equal. lia.
Qed.

(** One check does what the specification says. *)
Lemma take_exact l key bucket st b r t :
  whole_tier l key b r → represents key bucket st → spec_fits b r t st →
  let '(res, bk) := take_token l (refill l (t * 1000000000) key bucket) in
  let '(ok, st') := spec_check b r t st in
  (if ok then res = Allow else ∃ n, res = Reject n ∧ 1 ≤ n) ∧ represents key (Some bk) (Some st').
Proof.
  intros Ht Hrep Hfit. pose proof Ht as (_ & _ & Hb & _). pose proof (u32_small b Hb).
  destruct (refill_exact l key bucket st b r t Ht Hrep Hfit) as (Hk & Hl & Ha & Hs).
  assert (0 ≤ spec_tokens b r t st ≤ b) as Hs'.
  { destruct Hs as [->|Hs]; [simpl; lia|done]. }
  unfold take_token, spec_check. rewrite Hk. change (f64_of_Z 1) with (fz 1).
  rewrite fle_exact by lia. destruct (Z.leb_spec 1 (spec_tokens b r t st)).
  - split; [done|]. cbn [represents tokens last_refill bk_authenticated].
    rewrite fsub_exact by lia. done.
  - split; [eexists; split; [done|lia]|]. done.
Qed.

(** ** Runs *)

Section runs.
Context `{!KeyHash}.

(** Requests at whole seconds, each with an address and a key; the number of those of
    [key] that are allowed. *)
Fixpoint allowed (l : RateLimiter) (key : RateLimitKey) (evs : list (Z * IpAddr * RateLimitKey)) : Z :=
  match evs with
  | [] => 0
  | (t, ip, k) :: evs =>
      let '(res, l') := check l (t * 1000000000) ip k in
      (if decide (k = key) then match res with Allow => 1 | Reject _ => 0 end else 0) + allowed l' key evs
  end.

(** The times of a run lie between [t0] and [t1] and do not decrease. *)
Fixpoint times_in (t0 t1 : Z) (evs : list (Z * IpAddr * RateLimitKey)) : Prop :=
  match evs with
  | [] => True
  | (t, _, _) :: evs => t0 ≤ t ≤ t1 ∧ times_in t t1 evs
  end.

(** What the specification still has to give until [t1]. *)
Definition supply (b r t0 t1 : Z) (st : option (Z * Z)) : Z :=
  match st with
  | None => b + (t1 - t0) * r
  | Some (k, last) => k + (t1 - last) * r
  end.

Lemma check_tier l now ip key a : tier (check l now ip key).2 a = tier l a.
Proof. unfold check. case_match; [done|]. by destruct (take_token _ _). Qed.

Lemma check_bypass l now ip key : bypass_cidrs (check l now ip key).2 = bypass_cidrs l.
Proof. unfold check. case_match; [done|]. by destruct (take_token _ _). Qed.

Lemma check_other l now ip k key :
  limiter_wf l → k ≠ key → bucket_of (check l now ip k).2 key = bucket_of l key.
Proof.
  intros Hwf Hk. destruct (is_bypassed ip (bypass_cidrs l)) eqn:Hb; [unfold check; by rewrite Hb|].
  pose proof (check_bucket l now ip k Hwf Hb) as Hc. destruct (take_token _ _) as [res b].
  destruct Hc as [_ ->]. by rewrite decide_False.
Qed.

(** The room the times of a run leave for exact arithmetic. *)
Definition exact_room (b r t0 t1 : Z) : Prop := t1 - t0 < 2 ^ 53 ∧ (t1 - t0) * r + b < 2 ^ 53.

Lemma spec_step_supply b r t0 t t1 st ok st' :
  0 ≤ b → 0 ≤ r → t0 ≤ t ≤ t1 → spec_fits b r t st → (st = None ∨ ∃ k last, st = Some (k, last) ∧ last ≤ t0) →
  spec_check b r t st = (ok, st') →
  (if ok then 1 else 0) + supply b r t t1 (Some st') ≤ supply b r t0 t1 st ∧
  0 ≤ st'.1 ≤ b ∧ st'.2 = t.
Proof.
  intros Hb Hr Ht Hf Hst. unfold spec_check.
  assert (0 ≤ (t1 - t) * r ∧ 0 ≤ (t - t0) * r) as [Hn1 Hn2] by (split; apply Z.mul_nonneg_nonneg; lia).
  destruct st as [[k last]|]; cbn [spec_tokens spec_fits supply] in *.
  - assert (0 ≤ (t - last) * r) by (apply Z.mul_nonneg_nonneg; lia).
    replace ((t1 - last) * r) with ((t1 - t) * r + (t - last) * r) by lia.
    destruct (Z.leb_spec 1 (Z.min (k + (t - last) * r) b)); intros [= <- <-]; cbn [supply fst snd]; lia.
  - replace ((t1 - t0) * r) with ((t1 - t) * r + (t - t0) * r) by lia.
    destruct (Z.leb_spec 1 b); intros [= <- <-]; cbn [supply fst snd]; lia.
Qed.

Lemma exact_room_later b r t0 t t1 : 0 ≤ r → t0 ≤ t ≤ t1 → exact_room b r t0 t1 → exact_room b r t t1.
Proof.
  intros Hr Ht [H1 H2]. split; [lia|]. assert ((t1 - t) * r ≤ (t1 - t0) * r); [|lia].
  apply Z.mul_le_mono_nonneg_r; lia.
Qed.

(** The states a run goes through. *)
Definition state_ok (b r t0 t1 : Z) (st : option (Z * Z)) : Prop :=
  match st with
  | None => True
  | Some (k, last) => 0 ≤ k ≤ b ∧ last ≤ t0 ∧ exact_room b r last t1
  end.

Lemma state_ok_fits b r t0 t t1 st :
  0 ≤ r → t0 ≤ t ≤ t1 → state_ok b r t0 t1 st → spec_fits b r t st.
Proof.
  destruct st as [[k last]|]; [|done]. intros Hr Ht (Hk & Hl & H1 & H2). cbn [spec_fits].
  assert ((t - last) * r ≤ (t1 - last) * r) by (apply Z.mul_le_mono_nonneg_r; lia). lia.
Qed.

(** From a state that represents [st], a key is allowed at most its supply. *)
Lemma allowed_supply l key evs b r t0 t1 st :
  limiter_wf l → whole_tier l key b r → represents key (bucket_of l key) st → exact_room b r t0 t1 →
  state_ok b r t0 t1 st →
  (∀ t ip, (t, ip, key) ∈ evs → is_bypassed ip (bypass_cidrs l) = false) →
  t0 ≤ t1 → times_in t0 t1 evs → allowed l key evs ≤ supply b r t0 t1 st.
Proof.
  revert l t0 st. induction evs as [|[[t ip] k] evs IH]; intros l t0 st Hwf Htier Hrep Hroom Hst Hby Ht01 Htimes.
  { cbn [allowed]. pose proof Htier as (_ & _ & Hb & Hr). unfold supply. destruct st as [[k last]|].
    - destruct Hst as (Hk & Hl & _). assert (0 ≤ (t1 - last) * r) by (apply Z.mul_nonneg_nonneg; lia). lia.
    - assert (0 ≤ (t1 - t0) * r) by (apply Z.mul_nonneg_nonneg; lia). lia. }
  destruct Htimes as [Ht Htimes]. pose proof Htier as (_ & _ & Hb & Hr). cbn [allowed].
  assert (∀ t' ip', (t', ip', key) ∈ evs → is_bypassed ip' (bypass_cidrs l) = false) as Hby'.
  { intros t' ip' Hin. apply (Hby t' ip'). by right. }
  pose proof (check_wf l (t * 1000000000) ip k Hwf) as Hwf'.
  assert (whole_tier (check l (t * 1000000000) ip k).2 key b r) as Htier'.
  { unfold whole_tier. by rewrite check_tier. }
  pose proof (check_bypass l (t * 1000000000) ip k) as Hbc.
  pose proof (exact_room_later b r t0 t t1 ltac:(lia) Ht Hroom) as Hroom'.
  destruct (decide (k = key)) as [->|Hk].
  - pose proof (check_bucket l (t * 1000000000) ip key Hwf (Hby t ip ltac:(left))) as Hcb.
    pose proof (take_exact l key _ st b r t Htier Hrep (state_ok_fits b r t0 t t1 st ltac:(lia) Ht Hst)) as Hte.
    destruct (take_token _ _) as [res bk]. destruct (spec_check b r t st) as [ok st'] eqn:Hsc.
    destruct (spec_step_supply b r t0 t t1 st ok st') as (Hsup & Hst1 & Hst2);
      [lia..|by eapply state_ok_fits; [lia| |done]|destruct st as [[? ?]|]; [right; eexists _, _; split; [done|]; apply Hst|by left]|done|].
    destruct (check l (t * 1000000000) ip key) as [res' l'] eqn:Hcheck. cbn [fst snd] in *.
    destruct Hcb as [-> Hcb]. destruct Hte as [Hres Hrep'].
    assert (allowed l' key evs ≤ supply b r t t1 (Some st')) as Hrest.
    { apply IH; try done.
      - rewrite (Hcb key), decide_True by done. done.
      - destruct st' as [k' last']. simpl in *. subst last'. split_and!; lia || done.
      - by rewrite Hbc.
      - lia. }
    destruct ok; [subst res; lia|]. destruct Hres as (n & -> & _). lia.
  - pose proof (check_other l (t * 1000000000) ip k key Hwf Hk) as Hco.
    destruct (check l (t * 1000000000) ip k) as [res' l'] eqn:Hcheck. cbn [fst snd] in *.
    assert (allowed l' key evs ≤ supply b r t t1 st) as Hrest.
    { apply IH; try done.
      - by rewrite Hco.
      - destruct st as [[k' last']|]; [|done]. destruct Hst as (? & ? & ?). split_and!; lia || done.
      - by rewrite Hbc.
      - lia. }
    assert (supply b r t t1 st ≤ supply b r t0 t1 st); [|lia].
    destruct st as [[? ?]|]; cbn [supply]; [lia|].
    assert ((t1 - t) * r ≤ (t1 - t0) * r) by (apply Z.mul_le_mono_nonneg_r; lia). lia.
Qed.
End runs.

Section limiter_properties.
Context `{!KeyHash}.

(** A rejection leaves an empty bucket and advertises one second. *)
Lemma reject_exact l ip key b r t n k last l' :
  limiter_wf l → whole_tier l key b r → 1 ≤ r →
  represents key (bucket_of l key) (Some (k, last)) → spec_fits b r t (Some (k, last)) →
  is_bypassed ip (bypass_cidrs l) = false → check l (t * 1000000000) ip key = (Reject n, l') →
  n = 1 ∧ represents key (bucket_of l' key) (Some (0, t)).
Proof.
  intros Hwf Htier Hr Hrep Hfit Hby Hc.
  pose proof (check_bucket l (t * 1000000000) ip key Hwf Hby) as Hcb.
  pose proof (take_exact l key _ _ b r t Htier Hrep Hfit) as Hte.
  pose proof (refill_exact l key _ _ b r t Htier Hrep Hfit) as (Hk & _ & Ha & [?|Hs]); [done|].
  destruct (take_token _ _) as [res bk] eqn:Htt. rewrite Hc in Hcb. destruct Hcb as [<- Hcb].
  unfold spec_check in Hte. cbn [fst snd] in *.
  destruct (Z.leb_spec 1 (spec_tokens b r t (Some (k, last)))); [by destruct Hte|].
  destruct Hte as [_ Hte]. rewrite Hcb, decide_True by done.
  assert (spec_tokens b r t (Some (k, last)) = 0) as Hz by lia. rewrite Hz in *. split; [|done].
  pose proof Htier as (_ & Hrate & _ & Hrr). unfold take_token in Htt. rewrite Hk, Ha, Hrate in Htt.
  change (f64_of_Z 1) with (fz 1) in Htt. rewrite fle_exact in Htt by lia.
  change (1 <=? 0) with false in Htt. cbv iota in Htt.
  rewrite fsub_exact, Z.sub_0_r, ceil_one_over in Htt by lia. injection Htt as Hn _. cbn in Hn. lia.
Qed.

(** The answers to a run of requests. *)
Fixpoint answers (l : RateLimiter) (evs : list (Z * IpAddr * RateLimitKey)) : list RateLimitResult :=
  match evs with
  | [] => []
  | (now, ip, k) :: evs => (check l now ip k).1 :: answers (check l now ip k).2 evs
  end.

(** A key without a bucket is allowed, whatever the (finite) rate. *)
Lemma fresh_key_allowed l now ip key b :
  limiter_wf l → bucket_of l key = None → burst (tier l (is_authenticated key)) = b → 1 ≤ b ≤ u32_max →
  is_finite (rate (tier l (is_authenticated key))) = true → (check l now ip key).1 = Allow.
Proof.
  intros Hwf Hnone Hb Hb1 Hfin.
  destruct (is_bypassed ip (bypass_cidrs l)) eqn:Hby; [unfold check; by rewrite Hby|].
  pose proof (check_bucket l now ip key Hwf Hby) as Hc. rewrite Hnone in Hc.
  assert (tokens (refill l now key None) = fz b) as Ht.
  { unfold refill. cbn [default from_option id tokens last_refill bk_authenticated]. rewrite Hb.
    unfold duration_since. rewrite Z.sub_diag. change (Z.max 0 0) with (0 * 1000000000).
    rewrite as_secs_whole, f64_of_Z_fz by (unfold u32_max in *; lia).
    assert (∃ s, fmul (fz 0) (rate (tier l (is_authenticated key))) = S754_zero s) as [s ->].
    { destruct (rate _); try done; eexists; reflexivity. }
    assert (fadd (fz b) (S754_zero s) = fz b) as -> by (destruct b; try lia; done).
    rewrite fmin_exact by (unfold u32_max in *; lia). f_equal. lia. }
  unfold take_token in Hc. rewrite Ht in Hc. change (f64_of_Z 1) with (fz 1) in Hc.
  rewrite fle_exact in Hc by (unfold u32_max in *; lia). destruct (Z.leb_spec 1 b); [|lia]. by destruct Hc.
Qed.

(** ** Properties *)

(** C6. The limiter implements the token bucket: on whole seconds and a whole rate, the
    answer to a request of a key is the one of the integer bucket, [Allow] exactly when it
    holds a token, with at least one second to wait otherwise; the bucket afterwards
    represents the state afterwards, and the buckets of all other keys, wherever they are
    in the shards, are untouched. *)
Theorem limiter_refines_bucket (l : RateLimiter) (ip : IpAddr) (key : RateLimitKey) (b r t : Z)
    (st : option (Z * Z)) :
  limiter_wf l → is_bypassed ip (bypass_cidrs l) = false → whole_tier l key b r →
  represents key (bucket_of l key) st → spec_fits b r t st →
  let '(res, l') := check l (t * 1000000000) ip key in
  let '(ok, st') := spec_check b r t st in
  (if ok then res = Allow else ∃ n, res = Reject n ∧ 1 ≤ n) ∧
  limiter_wf l' ∧ represents key (bucket_of l' key) (Some st') ∧
  ∀ key', key' ≠ key → bucket_of l' key' = bucket_of l key'.
Proof.
  intros Hwf Hby Ht Hrep Hfit.
  pose proof (check_bucket l (t * 1000000000) ip key Hwf Hby) as Hcb.
  pose proof (check_wf l (t * 1000000000) ip key Hwf) as Hwf'.
  pose proof (take_exact l key _ st b r t Ht Hrep Hfit) as Hte.
  destruct (take_token _ _) as [res bk], (check _ _ _ _) as [res' l'], (spec_check b r t st) as [ok st'].
  cbn [fst snd] in *. destruct Hcb as [-> Hcb], Hte as [Hres Hrep']. split_and!; [done..| |].
  - by rewrite Hcb, decide_True.
  - intros key' Hk. by rewrite Hcb, decide_False.
Qed.

(** C24. No key gets more than its share: in any run of requests at whole seconds between
    [t0] and [t1], of whatever keys and addresses and in whatever interleaving, a key
    without a bucket at the start has at most burst plus rate times the time that passes
    of its requests allowed (its requests not being from bypassed networks). The burst and the rate of the tier are
    whole numbers small enough for binary64 to be exact. The run is of requests only: it is
    not interleaved with the eviction of stale buckets. *)
Theorem token_bucket_bound (l : RateLimiter) (key : RateLimitKey)
    (evs : list (Z * IpAddr * RateLimitKey)) (b r t0 t1 : Z) :
  limiter_wf l → whole_tier l key b r → bucket_of l key = None → exact_room b r t0 t1 →
  (∀ t ip, (t, ip, key) ∈ evs → is_bypassed ip (bypass_cidrs l) = false) →
  t0 ≤ t1 → times_in t0 t1 evs →
  allowed l key evs ≤ b + (t1 - t0) * r.
Proof.
  intros Hwf Ht Hnone Hroom Hby Ht01 Htimes.
  exact (allowed_supply l key evs b r t0 t1 None Hwf Ht ltac:(by rewrite Hnone) Hroom I Hby Ht01 Htimes).
Qed.


(** The limit holds per presented token, not per client: the key is the hash of a bearer
    token nobody has checked, so a client that sends a new token with every request is
    never limited, however many requests it makes and whatever happened to its address
    before. *)
Theorem rotating_tokens_never_limited `{!FxHash} (l : RateLimiter) (ip : IpAddr) (b : Z)
    (reqs : list (Z * string)) :
  limiter_wf l → burst (cfg_authenticated l) = b → 1 ≤ b ≤ u32_max →
  is_finite (rate (cfg_authenticated l)) = true →
  NoDup ((λ q, fx_hash q.2) <$> reqs) →
  (∀ q, q ∈ reqs → q.2 ≠ "" ∧ str_trim q.2 = q.2 ∧ bucket_of l (Identity (fx_hash q.2)) = None) →
  answers l ((λ q, (q.1, ip, extract_key None (Some ("Bearer " +:+ q.2)) ip)) <$> reqs)
    = replicate (length reqs) Allow.
Proof.
  intros Hwf Hb Hb1 Hfin. revert l Hwf Hb Hfin. induction reqs as [|[now tok] reqs IH]; intros l Hwf Hb Hfin Hnd Hin.
  { done. }
  cbn [fmap list_fmap length replicate answers fst snd] in *. apply NoDup_cons in Hnd as [Hnew Hnd].
  destruct (Hin (now, tok) ltac:(left)) as (Hne & Htrim & Hnone). cbn [snd] in *.
  assert (extract_key None (Some ("Bearer " +:+ tok)) ip = Identity (fx_hash tok)) as ->.
  { unfold extract_key. cbn [mbind option_bind].
    assert (strip_prefix "Bearer " ("Bearer " +:+ tok) = Some tok) as -> by (by apply strip_prefix_Some).
    rewrite Htrim. unfold str_is_empty. by rewrite bool_decide_eq_false_2. }
  f_equal; [by eapply fresh_key_allowed|]. apply IH; try done.
  - by apply check_wf.
  - change (burst (tier (check l now ip (Identity (fx_hash tok))).2 true) = b). by rewrite check_tier.
  - change (is_finite (rate (tier (check l now ip (Identity (fx_hash tok))).2 true)) = true). by rewrite check_tier.
  - intros q Hq. destruct (Hin q ltac:(by right)) as (? & ? & Hn). split_and!; [done..|].
    rewrite check_other; [done..|]. intros [= Hh]. apply Hnew. rewrite Hh. apply list_elem_of_fmap. eauto.
Qed.
End limiter_properties.

(** ** Witnesses *)

Module LimiterExamples.
#[export] Instance parity_hash : KeyHash := λ k, match k with Identity h => h | Ip _ => 7 end.
#[export] Instance length_hash : FxHash := λ s, str_len s.

(** A burst of two and one a second; five and two for clients with a token. *)
Definition config : RateLimitConfig :=
  {| rlc_enabled := true; rlc_bypass_cidrs := ["10.0.0.0/8"]; rlc_eviction_interval_secs := 60;
     rlc_stale_after_secs := 300;
     rlc_authenticated := {| burst := 5; rate := f64_of_Z 2 |};
     rlc_unauthenticated := {| burst := 2; rate := f64_of_Z 1 |} |}.

Definition limiter : RateLimiter := RateLimiter_new config.
Definition client : IpAddr := V4 3405803785.

(** After the burst of the client. *)
Definition drained : RateLimiter :=
  (check (check limiter (100 * 1000000000) client (Ip client)).2 (100 * 1000000000) client (Ip client)).2.
End LimiterExamples.
Import LimiterExamples.

Lemma limiter_example_wf : limiter_wf limiter.
Proof. reflexivity. Qed.

Lemma drained_wf : limiter_wf drained.
Proof. by do 2 apply check_wf. Qed.

Lemma limiter_whole : whole_tier limiter (Ip client) 2 1.
Proof. unfold whole_tier. split_and!; vm_compute; congruence. Qed.

Lemma drained_whole : whole_tier drained (Ip client) 2 1.
Proof. unfold whole_tier, drained. rewrite !check_tier. apply limiter_whole. Qed.

Lemma drained_bucket : represents (Ip client) (bucket_of drained (Ip client)) (Some (0, 100)).
Proof. vm_compute. done. Qed.

Lemma limiter_refines_bucket_witness : (check drained (100 * 1000000000) client (Ip client)).1 ≠ Allow.
Proof.
  pose proof (limiter_refines_bucket drained client (Ip client) 2 1 100 (Some (0, 100)) drained_wf
    ltac:(vm_compute; reflexivity) drained_whole drained_bucket ltac:(cbn; lia)) as Hr.
  destruct (check _ _ _ _) as [res l']. cbn in Hr. destruct Hr as [(n & -> & _) _]. done.
Defined.

Lemma token_bucket_bound_witness :
  allowed limiter (Ip client) (replicate 50 (0, client, Ip client) ++ replicate 50 (3, client, Ip client)) ≤ 5.
Proof.
  refine (token_bucket_bound limiter (Ip client)
    (replicate 50 (0, client, Ip client) ++ replicate 50 (3, client, Ip client)) 2 1 0 3
    limiter_example_wf limiter_whole _ _ _ _ _).
  - vm_compute. reflexivity.
  - vm_compute. split; reflexivity.
  - intros t ip [[[=] _]%elem_of_replicate|[[=] _]%elem_of_replicate]%elem_of_app; subst; vm_compute; reflexivity.
  - lia.
  - cbn. lia.
Defined.


Lemma rotating_tokens_never_limited_witness :
  answers drained ((λ q, (q.1, client, extract_key None (Some ("Bearer " +:+ q.2)) client)) <$>
    [(100 * 1000000000, "a"); (100 * 1000000000, "bb"); (100 * 1000000000, "ccc")]) = [Allow; Allow; Allow].
Proof.
  refine (rotating_tokens_never_limited drained client 5
    [(100 * 1000000000, "a"); (100 * 1000000000, "bb"); (100 * 1000000000, "ccc")] drained_wf _ _ _ _ _).
  - reflexivity.
  - unfold u32_max. lia.
  - reflexivity.
  - apply (bool_decide_unpack _). vm_compute. done.
  - intros q Hq. repeat (apply elem_of_cons in Hq as [->|Hq]; [split_and!; vm_compute; done|]).
    by apply elem_of_nil in Hq.
Defined.
