(* ===== verification/Ddos.v ===== *)
(** * The DDoS detector ([src/ddos/detector.rs], [src/ddos/features.rs]).

    One ring buffer of request events per client address, a feature vector over the events
    of the window, and the verdict of the ensemble on it. [None] stands for a panic. *)

From S2P Require Import Prelude Net Float64 RateLimit Limiter Ensemble.

(** ** Events *)

Record RequestEvent := {
  re_timestamp : Z;
  re_method : Z;
  re_path_hash : Z;
  re_host_hash : Z;
  re_user_agent_hash : Z;
  re_status : Z;
  re_duration_ms : Z;
  re_content_length : Z;
  re_has_cookies : bool;
  re_has_referer : bool;
  re_has_accept_language : bool;
  re_suspicious_path : bool;
}.

Definition SUSPICIOUS_FRAGMENTS : list string :=
  [".env"; ".git/"; ".git\"; ".bak"; ".sql"; ".tar"; ".zip"; "wp-admin"; "wp-login"; "wp-includes";
   "wp-content"; "xmlrpc"; "phpinfo"; "phpmyadmin"; "php-info"; ".php"; "cgi-bin"; "shell"; "eval-stdin";
   "/vendor/"; "/telescope/"; "/actuator/"; "/.htaccess"; "/.htpasswd"; "/debug/"; "/config."; "/admin/";
   "yarn.lock"; "yarn-debug"; "package.json"; "composer.json"].

Definition is_suspicious_path (path : string) : bool :=
  existsb (str_contains (str_lower path)) SUSPICIOUS_FRAGMENTS.

Definition method_to_u8 (method : string) : Z :=
  if decide (method = "GET") then 0
  else if decide (method = "POST") then 1
  else if decide (method = "PUT") then 2
  else if decide (method = "DELETE") then 3
  else if decide (method = "HEAD") then 4
  else if decide (method = "PATCH") then 5
  else if decide (method = "OPTIONS") then 6
  else 7.

(** ** [IpState] *)

Record IpState := {
  ip_events : list RequestEvent;
  ip_cursor : nat;
  ip_count : Z;
  ip_capacity : nat;
}.

Definition IpState_new (capacity : nat) : IpState :=
  {| ip_events := []; ip_cursor := 0; ip_count := 0; ip_capacity := capacity |}.

(** [IpState::push]; with a capacity of zero the indexing panics. *)
Definition push (st : IpState) (e : RequestEvent) : option IpState :=
  events ← (if decide (length (ip_events st) < ip_capacity st)%nat then Some (ip_events st ++ [e])
            else if decide (ip_cursor st < length (ip_events st))%nat then Some (<[ip_cursor st := e]> (ip_events st))
            else None);
  if decide (ip_capacity st = 0%nat) then None
  else Some {| ip_events := events; ip_cursor := (S (ip_cursor st) mod ip_capacity st)%nat;
               ip_count := ip_count st + 1; ip_capacity := ip_capacity st |}.

Definition active_events (st : IpState) (now window_secs : Z) : list RequestEvent :=
  filter (λ e, duration_since now (re_timestamp e) ≤ window_secs * 1000000000) (ip_events st).

(** [set.len() as f64] of the hashes of the events. *)
Definition unique (f : RequestEvent → Z) (es : list RequestEvent) : f64 :=
  f64_of_Z (Z.of_nat (size (list_to_set (f <$> es) : gset Z))).

Definition count_events (p : RequestEvent → bool) (es : list RequestEvent) : f64 :=
  f64_of_Z (Z.of_nat (length (filter (λ e, p e = true) es))).

Definition sum_events (f : RequestEvent → Z) (es : list RequestEvent) : f64 :=
  foldl (λ acc e, fadd acc (f64_of_Z (f e))) (f64_of_Z 0) es.

(** How often the most frequent path occurs. *)
Definition max_repetition (es : list RequestEvent) : Z :=
  foldr Z.max 0 ((λ e, Z.of_nat (length (filter (λ e', re_path_hash e' = re_path_hash e) es))) <$> es).

Definition burst_score (es : list RequestEvent) (n : f64) : f64 :=
  match re_timestamp <$> es with
  | t :: ((_ :: _) as ts) =>
      let span := as_secs_f64 (duration_since (foldr Z.max t ts) (foldr Z.min t ts)) in
      if SFltb (f64_of_Z 0) span then fdiv (f64_of_Z (Z.of_nat (length es - 1))) span else n
  | _ => f64_of_Z 0
  end.

Section features.
Context `{!Libm}.

Definition method_entropy (es : list RequestEvent) (n : f64) : f64 :=
  foldl (λ entropy m,
    let c := Z.of_nat (length (filter (λ e, re_method e mod 8 = Z.of_nat m) es)) in
    if 0 <? c then let p := fdiv (f64_of_Z c) n in fsub entropy (fmul p (f64_ln p)) else entropy)
    (f64_of_Z 0) (seq 0 8).

(** [IpState::extract_features]. *)
Definition extract_ddos_features (st : IpState) (now window_secs : Z) : list f64 :=
  let es := active_events st now window_secs in
  let n := f64_of_Z (Z.of_nat (length es)) in
  if SFltb n (f64_of_Z 1) then replicate 14 (f64_of_Z 0)
  else
    [fdiv n (f64_of_Z window_secs);
     unique re_path_hash es;
     unique re_host_hash es;
     fdiv (count_events (λ e, 400 <=? re_status e) es) n;
     fdiv (sum_events re_duration_ms es) n;
     method_entropy es n;
     burst_score es n;
     fdiv (f64_of_Z (max_repetition es)) n;
     fdiv (sum_events re_content_length es) n;
     unique re_user_agent_hash es;
     fdiv (count_events re_has_cookies es) n;
     fdiv (count_events re_has_referer es) n;
     fdiv (count_events re_has_accept_language es) n;
     fdiv (count_events re_suspicious_path es) n].
End features.

(** ** [DDoSDetector] *)

Record DDoSConfig := {
  dc_threshold : f64;
  dc_window_secs : Z;
  dc_window_capacity : nat;
  dc_min_events : nat;
  dc_enabled : bool;
  dc_observe_only : bool;
}.

Record DDoSDetector := {
  dd_shards : list (gmap IpAddr IpState);
  dd_window_secs : Z;
  dd_window_capacity : nat;
  dd_min_events : nat;
}.

Definition DDoSDetector_new (config : DDoSConfig) : DDoSDetector :=
  {| dd_shards := replicate NUM_SHARDS ∅; dd_window_secs := dc_window_secs config;
     dd_window_capacity := dc_window_capacity config; dd_min_events := dc_min_events config |}.

(** [FxHasher] on an address. *)
Class IpHash := ip_hash : IpAddr → Z.

(** The arguments of [DDoSDetector::check] but the address. *)
Record DdosRequest := {
  dr_method : string;
  dr_path : string;
  dr_host : string;
  dr_user_agent : string;
  dr_content_length : Z;
  dr_has_cookies : bool;
  dr_has_referer : bool;
  dr_has_accept_language : bool;
}.

Section detector.
Context `{!Libm, !FxHash, !IpHash}.

Definition ddos_shard_index (ip : IpAddr) : nat :=
  Z.to_nat (wrap 64 (ip_hash ip) mod Z.of_nat NUM_SHARDS).

Definition request_event (now : Z) (r : DdosRequest) : RequestEvent :=
  {| re_timestamp := now; re_method := method_to_u8 (dr_method r); re_path_hash := fx_hash (dr_path r);
     re_host_hash := fx_hash (dr_host r); re_user_agent_hash := fx_hash (dr_user_agent r);
     re_status := 0; re_duration_ms := 0; re_content_length := Z.min (dr_content_length r) u32_max;
     re_has_cookies := dr_has_cookies r; re_has_referer := dr_has_referer r;
     re_has_accept_language := dr_has_accept_language r;
     re_suspicious_path := is_suspicious_path (dr_path r) |}.

(** The classification of a pushed state. *)
Definition classify (d : DDoSDetector) (now : Z) (st : IpState) : option DDoSAction :=
  if decide (length (ip_events st) < dd_min_events d)%nat then Some DDoSAllow
  else
    let features := extract_ddos_features st now (dd_window_secs d) in
    ev_action <$> ddos_ensemble_predict (f64_as_f32 <$> features).

(** [DDoSDetector::check]. *)
Definition ddos_check (d : DDoSDetector) (now : Z) (ip : IpAddr) (r : DdosRequest) :
    option (DDoSAction * DDoSDetector) :=
  let idx := ddos_shard_index ip in
  let shard := default ∅ (dd_shards d !! idx) in
  st ← push (default (IpState_new (dd_window_capacity d)) (shard !! ip)) (request_event now r);
  action ← classify d now st;
  Some (action, {| dd_shards := <[idx := <[ip := st]> shard]> (dd_shards d);
                   dd_window_secs := dd_window_secs d; dd_window_capacity := dd_window_capacity d;
                   dd_min_events := dd_min_events d |}).
End detector.

(** ** Lemmas: the ring buffer *)

Fixpoint push_all (st : IpState) (es : list RequestEvent) : option IpState :=
  match es with
  | [] => Some st
  | e :: es => st ← push st e; push_all st es
  end.

(** The buffer read from its cursor holds the last [capacity] of the events [es]. *)
Record ring (es : list RequestEvent) (st : IpState) : Prop := {
  ring_len : length (ip_events st) = (length es `min` ip_capacity st)%nat;
  ring_cursor : ip_cursor st = (length es mod ip_capacity st)%nat;
  ring_events : drop (ip_cursor st) (ip_events st) ++ take (ip_cursor st) (ip_events st) =
                drop (length es - ip_capacity st) es;
}.

Lemma ring_new c : (0 < c)%nat → ring [] (IpState_new c).
Proof. intros Hc. constructor; simpl; [done|by rewrite Nat.Div0.mod_0_l|done]. Qed.

Lemma mod_succ_full n c : (0 < c)%nat → (S (n mod c) mod c = S n mod c)%nat.
Proof. intros Hc. rewrite <-(Nat.add_1_r (n mod c)), <-(Nat.add_1_r n). by rewrite Nat.Div0.add_mod_idemp_l. Qed.

Lemma push_ring es st e :
  (0 < ip_capacity st)%nat → ring es st →
  ∃ st', push st e = Some st' ∧ ip_capacity st' = ip_capacity st ∧ ring (es ++ [e]) st'.
Proof.
  intros Hc [Hl Hcur Hev]. unfold push. set (c := ip_capacity st) in *.
  pose proof (Nat.mod_upper_bound (length es) c ltac:(lia)) as Hb.
  destruct (decide (length (ip_events st) < c)%nat) as [Hlt|Hge].
  - simpl. rewrite decide_False by lia. assert (length es < c)%nat as Hes by lia. assert (ip_cursor st = length es) as Hcur' by (rewrite Hcur; by apply Nat.mod_small).
    eexists. split; [reflexivity|]. split; [done|].
    assert (ip_events st = es) as Hes'.
    { rewrite Hcur' in Hev. rewrite drop_ge, take_ge in Hev by lia. simpl in Hev. rewrite Hev.
      replace (length es - c)%nat with 0%nat by lia. done. }
    rewrite Hes', Hcur'. constructor; simpl; fold c; rewrite ?length_app; simpl.
    + lia.
    + by rewrite Nat.add_1_r.
    + replace (length es + 1 - c)%nat with 0%nat by lia.
      destruct (decide (S (length es) = c)) as [<-|Hne].
      * rewrite Nat.Div0.mod_same. by rewrite drop_0, take_0, app_nil_r.
      * rewrite Nat.mod_small by lia. rewrite drop_ge, take_ge by (rewrite length_app; simpl; lia). done.
  - assert (c ≤ length es)%nat as Hes by lia. assert (length (ip_events st) = c) as Hlen by lia.
    rewrite decide_True by lia. simpl. rewrite decide_False by lia. eexists. split; [reflexivity|]. split; [done|].
    assert (ip_cursor st < c)%nat as Hcc by lia.
    destruct (lookup_lt_is_Some_2 (ip_events st) (ip_cursor st)) as [x Hx]; [lia|].
    pose proof (take_drop_middle _ _ _ Hx) as Hmid. set (k := ip_cursor st) in *.
    set (pre := take k (ip_events st)) in *. set (post := drop (S k) (ip_events st)) in *.
    assert (length pre = k) as Hpre by (apply length_take_le; lia).
    rewrite <-Hmid in Hev. rewrite (drop_app_length' pre) in Hev by done.
    constructor; simpl; fold c k; rewrite ?length_insert, ?length_app; simpl.
    + lia.
    + rewrite Hcur, mod_succ_full by lia. by rewrite Nat.add_1_r.
    + rewrite <-Hmid, insert_app_r_alt by lia. rewrite Hpre, Nat.sub_diag. simpl.
      assert (drop (length es + 1 - c) (es ++ [e]) = post ++ pre ++ [e]) as ->.
      { replace (length es + 1 - c)%nat with (1 + (length es - c))%nat by lia.
        rewrite drop_app_le by lia. rewrite Nat.add_comm, <-drop_drop, <-Hev. simpl. by rewrite drop_0, app_assoc. }
      destruct (decide (S k = c)) as [Hk|Hk].
      * rewrite Hk, Nat.Div0.mod_same, drop_0, take_0, app_nil_r.
        assert (post = []) as -> by (apply drop_ge; lia). done.
      * rewrite Nat.mod_small by lia.
        rewrite (cons_middle e pre post), (app_assoc pre [e] post).
        rewrite (drop_app_length' (pre ++ [e])), (take_app_length' (pre ++ [e]))
          by (rewrite length_app; simpl; lia). done.
Qed.

Lemma ring_perm es st : ring es st → ip_events st ≡ₚ drop (length es - ip_capacity st) es.
Proof. intros [_ _ <-]. by rewrite Permutation_app_comm, take_drop. Qed.

(** ** Lemmas: the verdict *)

Section verdict.
Context `{!Libm, !FxHash, !IpHash}.

Lemma features_cookie st now w :
  ∃ x, extract_ddos_features st now w !! 10%nat = Some x ∧
    let es := active_events st now w in
    (0 < length es)%nat → Z.of_nat (length es) < 2 ^ 53 →
    x = fdiv (count_events re_has_cookies es) (fz (Z.of_nat (length es))).
Proof.
  unfold extract_ddos_features. set (es := active_events st now w). cbv zeta.
  destruct (SFltb _ _) eqn:Hlt; (eexists; split; [reflexivity|]); intros Hpos Hsmall.
  - exfalso. unfold SFltb in Hlt. rewrite !f64_of_Z_fz, fz_compare in Hlt by lia.
    destruct (Z.compare_spec (Z.of_nat (length es)) 1); [done|lia|done].
  - by rewrite f64_of_Z_fz by lia.
Qed.

Lemma classify_total d now st : is_Some (classify d now st).
Proof.
  unfold classify. case_decide; [eauto|]. destruct (features_cookie st now (dd_window_secs d)) as (x & Hx & _).
  destruct (ddos_predict_spec (f64_as_f32 <$> extract_ddos_features st now (dd_window_secs d)) (f64_as_f32 x))
    as (v & -> & _); [by rewrite list_lookup_fmap, Hx|eauto].
Qed.

Lemma filter_uniform {A} (f : A → bool) (b : bool) l :
  Forall (λ x, f x = b) l → filter (λ x, f x = true) l = if b then l else [].
Proof.
  induction 1 as [|x l Hx Hl IH]; [by destruct b|]. rewrite filter_cons, IH, Hx. by destruct b.
Qed.

(** When all requests of the buffer agree on cookies, cookies decide. *)
Lemma classify_uniform d now st b e :
  (dd_min_events d ≤ length (ip_events st))%nat → Z.of_nat (length (ip_events st)) < 2 ^ 53 →
  0 ≤ dd_window_secs d → e ∈ ip_events st → re_timestamp e = now →
  Forall (λ e, re_has_cookies e = b) (ip_events st) →
  classify d now st = Some (if b then DDoSAllow else DDoSBlock).
Proof.
  intros Hmin Hsmall Hw He Hnow Hall. unfold classify. rewrite decide_False by lia.
  destruct (features_cookie st now (dd_window_secs d)) as (x & Hx & Hxe).
  set (es := active_events st now (dd_window_secs d)) in *.
  assert (0 < length es)%nat as Hpos.
  { destruct es as [|? ?] eqn:Hes; [exfalso|simpl; lia]. apply (elem_of_nil e). rewrite <-Hes. unfold es.
    apply list_elem_of_filter. split; [|done]. unfold duration_since. lia. }
  assert (length es ≤ length (ip_events st))%nat as Hle by apply length_filter.
  cbv zeta in Hxe. rewrite Hxe in Hx by lia. clear Hxe.
  destruct (ddos_predict_spec _ _ (eq_trans (list_lookup_fmap f64_as_f32 _ 10) (f_equal (fmap f64_as_f32) Hx)))
    as (v & -> & _ & Hv). cbn [fmap option_fmap option_map]. rewrite Hv. f_equal.
  unfold count_events. rewrite (filter_uniform _ b).
  2:{ apply Forall_forall. intros e' [_ He']%list_elem_of_filter. by apply (proj1 (Forall_forall _ _) Hall). }
  destruct b; cbn [length Z.of_nat]; [rewrite f64_of_Z_fz, fdiv_self by lia|rewrite f64_of_Z_fz, fdiv_zero by lia];
    done.
Qed.

(** *** Runs *)

Definition ddos_state (d : DDoSDetector) (ip : IpAddr) : IpState :=
  default (IpState_new (dd_window_capacity d)) (dd_shards d !! ddos_shard_index ip ≫= (.!! ip)).

Definition ddos_run (d : DDoSDetector) (evs : list (Z * IpAddr * DdosRequest)) : option DDoSDetector :=
  foldl (λ d ev, d ≫= λ d, snd <$> ddos_check d ev.1.1 ev.1.2 ev.2) (Some d) evs.

(** Whether the requests of an address carried cookies. *)
Definition cookie_history (ip : IpAddr) (evs : list (Z * IpAddr * DdosRequest)) : list bool :=
  (λ ev, dr_has_cookies ev.2) <$> filter (λ ev, ev.1.2 = ip) evs.

Record ddos_inv (cfg : DDoSConfig) (evs : list (Z * IpAddr * DdosRequest)) (d : DDoSDetector) : Prop := {
  di_shards : length (dd_shards d) = NUM_SHARDS;
  di_window : dd_window_secs d = dc_window_secs cfg;
  di_capacity : dd_window_capacity d = dc_window_capacity cfg;
  di_min : dd_min_events d = dc_min_events cfg;
  di_state ip : ∃ es, ring es (ddos_state d ip) ∧ ip_capacity (ddos_state d ip) = dc_window_capacity cfg ∧
                  re_has_cookies <$> es = cookie_history ip evs;
}.

Lemma ddos_inv_new cfg : (0 < dc_window_capacity cfg)%nat → ddos_inv cfg [] (DDoSDetector_new cfg).
Proof.
  intros Hc. split; try done. intros ip. exists [].
  assert (ddos_state (DDoSDetector_new cfg) ip = IpState_new (dc_window_capacity cfg)) as ->.
  { unfold ddos_state. destruct (dd_shards (DDoSDetector_new cfg) !! ddos_shard_index ip) as [sh|] eqn:Hs; [|done].
    cbn [DDoSDetector_new dd_shards] in Hs. apply lookup_replicate in Hs as [-> _]. simpl. by rewrite lookup_empty. }
  split; [by apply ring_new|done].
Qed.

Lemma ddos_shard_bound ip : (ddos_shard_index ip < NUM_SHARDS)%nat.
Proof.
  unfold ddos_shard_index. pose proof (Z.mod_pos_bound (wrap 64 (ip_hash ip)) (Z.of_nat NUM_SHARDS)).
  apply Nat2Z.inj_lt. unfold NUM_SHARDS in *. rewrite Z2Nat.id by lia. lia.
Qed.

(** One request: the buffer of its address gets the event, the others stay. *)
Lemma ddos_check_spec cfg evs d now ip r :
  (0 < dc_window_capacity cfg)%nat → ddos_inv cfg evs d →
  ∃ a d', ddos_check d now ip r = Some (a, d') ∧ ddos_inv cfg (evs ++ [(now, ip, r)]) d' ∧
    classify d now (ddos_state d' ip) = Some a ∧ request_event now r ∈ ip_events (ddos_state d' ip).
Proof.
  intros Hc [Hlen Hw Hcap Hmin Hst]. destruct (Hst ip) as (es & Hr & Hcp & Hh). unfold ddos_check.
  destruct (lookup_lt_is_Some_2 (dd_shards d) (ddos_shard_index ip)) as [shard Hs];
    [rewrite Hlen; apply ddos_shard_bound|].
  assert (default (IpState_new (dd_window_capacity d)) (shard !! ip) = ddos_state d ip) as Hd.
  { unfold ddos_state. by rewrite Hs. }
  rewrite Hs. cbn [from_option id]. rewrite Hd.
  destruct (push_ring es (ddos_state d ip) (request_event now r)) as (st & -> & Hcap' & Hr'); [lia|done|].
  destruct (classify_total d now st) as [a Ha]. simpl. rewrite Ha. simpl. eexists _, _. split; [done|].
  set (d' := Build_DDoSDetector _ _ _ _).
  assert (∀ ip', ddos_state d' ip' = if decide (ip' = ip) then st else ddos_state d ip') as Hst'.
  { intros ip'. unfold ddos_state, d'. cbn [dd_shards dd_window_capacity].
    destruct (decide (ddos_shard_index ip' = ddos_shard_index ip)) as [Hi|Hi].
    - rewrite Hi, list_lookup_insert_eq by (rewrite Hlen; apply ddos_shard_bound). rewrite Hs. simpl.
      rewrite lookup_insert. destruct (decide (ip = ip')), (decide (ip' = ip)); first [done|congruence|naive_solver].
    - rewrite list_lookup_insert_ne by done. by destruct (decide (ip' = ip)) as [->|]. }
  rewrite Hst', decide_True by done. split_and!; [|done|].
  - split; try done; [by unfold d'; cbn; rewrite length_insert|]. intros ip'. rewrite Hst'.
    unfold cookie_history. rewrite filter_app, fmap_app, filter_cons, filter_nil. cbn [fst snd].
    destruct (decide (ip' = ip)) as [->|Hne].
    + exists (es ++ [request_event now r]). rewrite decide_True by done. split; [done|]. split; [congruence|].
      rewrite fmap_app, Hh. done.
    + destruct (Hst ip') as (es' & Hr1 & Hc1 & Hh1). exists es'. rewrite decide_False by congruence.
      split; [done|]. split; [done|]. by rewrite Hh1, app_nil_r.
  - apply ring_perm in Hr' as ->. rewrite length_app. simpl. rewrite drop_app_le by (rewrite Hcap'; lia).
    apply elem_of_app. right. left.
Qed.
End verdict.

(** ** Properties *)

(** The event buffer of a client is a faithful sliding window: with a positive capacity no
    push panics, and after any events the buffer read from its cursor is exactly the last
    [capacity] of them in order. *)
Theorem ring_buffer_last (capacity : nat) (es : list RequestEvent) :
  (0 < capacity)%nat →
  ∃ st, push_all (IpState_new capacity) es = Some st ∧
    drop (ip_cursor st) (ip_events st) ++ take (ip_cursor st) (ip_events st) = drop (length es - capacity) es.
Proof.
  intros Hc. assert (∀ es0 st, ip_capacity st = capacity → ring es0 st →
    ∃ st', push_all st es = Some st' ∧ ip_capacity st' = capacity ∧ ring (es0 ++ es) st') as Hg.
  { induction es as [|e es IH]; intros es0 st Hcap Hr; [exists st; by rewrite app_nil_r|]. simpl.
    destruct (push_ring es0 st e) as (st1 & -> & Hcap1 & Hr1); [lia|done|].
    destruct (IH _ _ (eq_trans Hcap1 Hcap) Hr1) as (st2 & ? & ? & Hr2). rewrite <-app_assoc in Hr2. eauto. }
  destruct (Hg [] (IpState_new capacity) eq_refl (ring_new _ Hc)) as (st & Hst & Hcap & Hr).
  exists st. split; [done|]. destruct Hr as [_ _ Hev]. by rewrite Hcap in Hev.
Qed.

Section ddos_properties.
Context `{!Libm, !FxHash, !IpHash}.

Lemma ddos_run_inv cfg evs :
  (0 < dc_window_capacity cfg)%nat → ∃ d, ddos_run (DDoSDetector_new cfg) evs = Some d ∧ ddos_inv cfg evs d.
Proof.
  intros Hc. induction evs as [|[[t ip] r] evs (d & Hd & Hinv)] using rev_ind.
  - eexists. split; [done|]. by apply ddos_inv_new.
  - destruct (ddos_check_spec cfg evs d t ip r Hc Hinv) as (a & d' & Hch & Hinv' & _).
    exists d'. unfold ddos_run in *. rewrite foldl_app, Hd. cbn. by rewrite Hch.
Qed.

(** The whole detector, from its start and for any interleaved traffic of any clients at
    any times: a client that always sends a cookie is never blocked, at any rate, and a
    client that never sends one is blocked from its [min_events]-th request on, however
    slow it is. *)
Theorem ddos_cookies_decide (cfg : DDoSConfig) (evs : list (Z * IpAddr * DdosRequest)) (now : Z)
    (ip : IpAddr) (r : DdosRequest) :
  (0 < dc_window_capacity cfg)%nat → Z.of_nat (dc_window_capacity cfg) < 2 ^ 53 →
  (dc_min_events cfg ≤ dc_window_capacity cfg)%nat → 0 ≤ dc_window_secs cfg →
  Forall (λ c, c = dr_has_cookies r) (cookie_history ip evs) →
  ∃ d d', ddos_run (DDoSDetector_new cfg) evs = Some d ∧
    ddos_check d now ip r =
      Some (if dr_has_cookies r || bool_decide (S (length (cookie_history ip evs)) < dc_min_events cfg)%nat
            then DDoSAllow else DDoSBlock, d').
Proof.
  intros Hc Hsmall Hmin Hw Hall. destruct (ddos_run_inv cfg evs Hc) as (d & Hrun & Hinv).
  destruct (ddos_check_spec cfg evs d now ip r Hc Hinv) as (a & d' & Hch & Hinv' & Ha & Hin).
  exists d, d'. split; [done|]. rewrite Hch. f_equal. f_equal. destruct Hinv as [_ Hdw Hdc Hdm _].
  destruct (di_state _ _ _ Hinv' ip) as (es & Hr & Hcap & Hh).
  unfold cookie_history in Hh. rewrite filter_app, fmap_app, filter_cons, filter_nil, decide_True in Hh by done.
  fold (cookie_history ip evs) in Hh.
  assert (length es = S (length (cookie_history ip evs))) as Hlen.
  { rewrite <-(length_fmap re_has_cookies), Hh, length_app. simpl. lia. }
  pose proof (ring_len _ _ Hr) as Hl.
  assert (Forall (λ e, re_has_cookies e = dr_has_cookies r) (ip_events (ddos_state d' ip))) as Hcook.
  { assert (Forall (λ c, c = dr_has_cookies r) (re_has_cookies <$> es)) as Hf%Forall_fmap.
    { rewrite Hh. apply Forall_app. split; [done|]. by repeat constructor. }
    rewrite (ring_perm _ _ Hr). by apply Forall_drop. }
  case_bool_decide as Hk.
  - rewrite orb_true_r. unfold classify in Ha. rewrite decide_True in Ha by lia. congruence.
  - rewrite orb_false_r. rewrite (classify_uniform _ _ _ (dr_has_cookies r) (request_event now r)) in Ha by (done || lia).
    congruence.
Qed.
End ddos_properties.

(** *** Examples *)

Module DdosExamples.
#[local] Instance libm : Libm := {| f32_exp := id; f64_ln := id |}.
#[local] Instance fx : FxHash := λ s, Z.of_nat (String.length s).
#[local] Instance iph : IpHash := λ ip, match ip with V4 a | V6 a => a end.
Definition cfg : DDoSConfig :=
  {| dc_threshold := f64_of_Z 1; dc_window_secs := 60; dc_window_capacity := 4; dc_min_events := 3;
     dc_enabled := true; dc_observe_only := false |}.
Definition get (cookies : bool) : DdosRequest :=
  {| dr_method := "GET"; dr_path := "/"; dr_host := "app"; dr_user_agent := "curl"; dr_content_length := 0;
     dr_has_cookies := cookies; dr_has_referer := false; dr_has_accept_language := false |}.
Definition client : IpAddr := V4 3405803785.
Definition event (n : Z) : RequestEvent := request_event n (get false).

Lemma ring_buffer_last_witness :
  ∃ st, push_all (IpState_new 2) [event 1; event 2; event 3] = Some st ∧
    re_timestamp <$> (drop (ip_cursor st) (ip_events st) ++ take (ip_cursor st) (ip_events st)) = [2; 3].
Proof.
  destruct (ring_buffer_last 2 [event 1; event 2; event 3]) as (st & Hst & Hev); [lia|].
  exists st. split; [exact Hst|]. rewrite Hev. reflexivity.
Defined.

(** One request without a cookie an hour: the third is blocked. *)
Lemma ddos_cookies_decide_witness :
  ∃ d d', ddos_run (DDoSDetector_new cfg) [(0, client, get false); (3600000000000, client, get false)] = Some d ∧
    ddos_check d 7200000000000 client (get false) = Some (DDoSBlock, d').
Proof.
  destruct (ddos_cookies_decide cfg [(0, client, get false); (3600000000000, client, get false)] 7200000000000
    client (get false)) as (d & d' & Hd & Hc); [cbn; lia..| |].
  - repeat constructor.
  - exists d, d'. split; [exact Hd|]. rewrite Hc. reflexivity.
Defined.
End DdosExamples.
