(* ===== verification/Scanner.v ===== *)
(** * The scanner detector and the bot allowlist ([src/scanner]).

    [features.rs], [detector.rs] and [allowlist.rs]. The hash of a byte string and the
    resolver belong to third-party crates and are classes. [None] stands for a panic. *)

From S2P Require Import Prelude Net Float64 RateLimit Limiter Ensemble Ddos.

(** [FxHasher] on a byte slice, and [dns_lookup::lookup_addr], [dns_lookup::lookup_host]: what
    the resolver answers at a time, since records change. *)
Class BytesHash := fx_hash_bytes : string → Z.

Class Dns := {
  lookup_addr : Z → IpAddr → option string;
  lookup_host_addrs : Z → string → option (list IpAddr);
}.

(** ** Features ([features.rs]) *)

Definition SUSPICIOUS_EXTENSIONS_LIST : list string :=
  [".php"; ".env"; ".sql"; ".bak"; ".asp"; ".jsp"; ".cgi"; ".tar"; ".zip"; ".git"].

Definition TRAVERSAL_PATTERNS : list string := [".."; "%00"; "%0a"; "%27"; "%3c"].

Definition one_if (b : bool) : f64 := f64_of_Z (if b then 1 else 0).

Fixpoint str_take (n : nat) (s : string) : string :=
  match n, s with
  | S n, String a s => String a (str_take n s)
  | _, _ => ""
  end.

Fixpoint str_drop (n : nat) (s : string) : string :=
  match n, s with
  | S n, String _ s => str_drop n s
  | _, _ => s
  end.

(** [str::is_char_boundary] and the slice [&s[i..]], which panics off a boundary. *)
Definition is_char_boundary (s : string) (i : nat) : bool :=
  match str_drop i s with
  | String a _ => let n := Z.of_N (Ascii.N_of_ascii a) in (n <? 128) || (192 <=? n)
  | "" => bool_decide (i = String.length s)
  end.

Definition str_from (s : string) (i : nat) : option string :=
  if is_char_boundary s i then Some (str_drop i s) else None.

Section features.
Context `{!BytesHash}.

Definition suspicious_path_score (path : string) (fragment_hashes : gset Z) : f64 :=
  let segments := filter (λ s, s ≠ "") (str_split "/" path) in
  let matches := filter (λ s, fx_hash_bytes (str_lower (str_take 256 s)) ∈ fragment_hashes) segments in
  match segments with
  | [] => f64_of_Z 0
  | _ => fdiv (f64_of_Z (Z.of_nat (length matches))) (f64_of_Z (Z.of_nat (length segments)))
  end.

Definition scanner_path_depth (path : string) : f64 := f64_of_Z (Z.of_nat (count_char "/" path `min` 20)).

(** The loop over the extensions of [has_suspicious_extension]. *)
Fixpoint extension_loop (clean : string) (extension_hashes : gset Z) (exts : list string) : option f64 :=
  match exts with
  | [] => Some (f64_of_Z 0)
  | ext :: exts =>
      if decide (String.length ext ≤ String.length clean)%nat then
        suffix ← str_from clean (String.length clean - String.length ext);
        if decide (fx_hash_bytes suffix ∈ extension_hashes) then Some (f64_of_Z 1)
        else extension_loop clean extension_hashes exts
      else extension_loop clean extension_hashes exts
  end.

Definition has_suspicious_extension (path : string) (extension_hashes : gset Z) : option f64 :=
  extension_loop (default path (head (str_split "?" path))) extension_hashes SUSPICIOUS_EXTENSIONS_LIST.

Definition accept_quality (accept : string) : f64 :=
  if bool_decide (accept ∈ [""; "-"; "*/*"]) then f64_of_Z 0
  else let lower := str_lower accept in
       one_if (str_contains lower "text/html" || str_contains lower "application/json").

Definition ua_is_browser (ua : string) : bool :=
  let lower := str_lower ua in
  str_contains lower "mozilla/" || str_contains lower "chrome/" || str_contains lower "safari/".

Definition ua_category (ua : string) : f64 :=
  if bool_decide (ua ∈ [""; "-"]) then f64_of_Z 0
  else let lower := str_lower ua in
       if existsb (starts_with lower) ["curl/"; "wget/"; "python"; "go-http"; "libwww"]
       then fdiv (f64_of_Z 1) (f64_of_Z 4)
       else if ua_is_browser ua then f64_of_Z 1
       else fdiv (f64_of_Z 1) (f64_of_Z 2).

Definition method_is_unusual (method : string) : f64 :=
  one_if (negb (bool_decide (method ∈ ["GET"; "HEAD"; "POST"; "OPTIONS"]))).

Definition host_is_configured (host_prefix : string) (configured_hosts : gset Z) : f64 :=
  if str_is_empty host_prefix then f64_of_Z 0
  else one_if (bool_decide (fx_hash_bytes host_prefix ∈ configured_hosts)).

Definition content_length_mismatch (method : string) (content_length : Z) : f64 :=
  if bool_decide (method ∈ ["GET"; "HEAD"]) && (0 <? content_length) then f64_of_Z 1
  else if bool_decide (method ∈ ["POST"; "PUT"; "PATCH"]) && (content_length =? 0) then f64_of_Z 1
  else f64_of_Z 0.

Definition path_has_traversal (path : string) : f64 :=
  one_if (existsb (str_contains (str_lower path)) TRAVERSAL_PATTERNS).

(** What the detector reads of a request. *)
Record ScannerRequest := {
  sr_method : string;
  sr_path : string;
  sr_host_prefix : string;
  sr_has_cookies : bool;
  sr_has_referer : bool;
  sr_has_accept_language : bool;
  sr_accept : string;
  sr_user_agent : string;
  sr_content_length : Z;
}.

Record ScannerDetector := {
  fragment_hashes : gset Z;
  extension_hashes : gset Z;
  configured_hosts : gset Z;
}.

(** [extract_features]. *)
Definition extract_scanner_features (d : ScannerDetector) (r : ScannerRequest) : option (list f64) :=
  ext ← has_suspicious_extension (sr_path r) (extension_hashes d);
  Some [suspicious_path_score (sr_path r) (fragment_hashes d);
        scanner_path_depth (sr_path r);
        ext;
        one_if (sr_has_cookies r);
        one_if (sr_has_referer r);
        one_if (sr_has_accept_language r);
        accept_quality (sr_accept r);
        ua_category (sr_user_agent r);
        method_is_unusual (sr_method r);
        host_is_configured (sr_host_prefix r) (configured_hosts d);
        content_length_mismatch (sr_method r) (sr_content_length r);
        path_has_traversal (sr_path r)].

(** [extract_features_f32]. *)
Definition extract_features_f32 (d : ScannerDetector) (r : ScannerRequest) : option (list f32) :=
  match extract_scanner_features d r with Some v => Some (f64_as_f32 <$> v) | None => None end.

(** ** The detector ([detector.rs]) *)

Definition DEFAULT_FRAGMENTS : list string :=
  [".env"; ".git"; ".bak"; ".sql"; ".tar"; ".zip"; "wp-admin"; "wp-login"; "wp-includes"; "wp-content";
   "xmlrpc"; "phpinfo"; "phpmyadmin"; "php-info"; "cgi-bin"; "shell"; "eval-stdin"; ".htaccess"; ".htpasswd";
   "config."; "admin"; "yarn.lock"; "package.json"; "composer.json"; "telescope"; "actuator"; "debug"].

(** [ScannerDetector::new] on the host prefixes of the configured routes. *)
Definition ScannerDetector_new (host_prefixes : list string) : ScannerDetector :=
  {| fragment_hashes := list_to_set ((λ f, fx_hash_bytes (str_lower f)) <$> DEFAULT_FRAGMENTS);
     extension_hashes := list_to_set (fx_hash_bytes <$> SUSPICIOUS_EXTENSIONS_LIST);
     configured_hosts := list_to_set (fx_hash_bytes <$> host_prefixes) |}.

Record ScannerVerdict := {
  sv_action : ScannerAction;
  sv_score : f64;
  sv_reason : string;
}.

Context `{!Libm}.

(** [ScannerDetector::check]. *)
Definition scanner_check (d : ScannerDetector) (r : ScannerRequest) : option ScannerVerdict :=
  let host_known := bool_decide (fx_hash_bytes (sr_host_prefix r) ∈ configured_hosts d) in
  if host_known && sr_has_cookies r then
    Some {| sv_action := ScannerAllow; sv_score := f64_of_Z (-1); sv_reason := "allowlist:host+cookies" |}
  else if host_known && sr_has_accept_language r && ua_is_browser (sr_user_agent r) then
    Some {| sv_action := ScannerAllow; sv_score := f64_of_Z (-1); sv_reason := "allowlist:host+browser" |}
  else
    raw ← extract_features_f32 d r;
    ev ← scanner_ensemble_predict raw;
    Some {| sv_action := ev_action ev; sv_score := ev_score ev; sv_reason := ev_reason ev |}.
End features.

(** ** The bot allowlist ([allowlist.rs]) *)

Record BotAllowlistRule := {
  bar_ua_prefix : string;
  bar_reason : string;
  bar_dns_suffixes : list string;
  bar_cidrs : list string;
}.

Record CompiledRule := {
  cr_ua_prefix_lower : string;
  cr_reason : string;
  cr_dns_suffixes : list string;
  cr_cidrs : list CidrBlock;
}.

Record CacheEntry := {
  ce_rule_idx : nat;
  ce_verified : bool;
  ce_created : Z;
}.

Record PendingVerification := {
  pv_ip : IpAddr;
  pv_rule_idx : nat;
  pv_dns_suffixes : list string;
}.

(** The allowlist with the queue of its worker. *)
Record BotAllowlist := {
  al_rules : list CompiledRule;
  al_verified_cache : gmap IpAddr CacheEntry;
  al_pending : list PendingVerification;
  al_cache_ttl : Z;
}.

Definition compile_bot_rule (r : BotAllowlistRule) : CompiledRule :=
  {| cr_ua_prefix_lower := str_lower (bar_ua_prefix r); cr_reason := bar_reason r;
     cr_dns_suffixes := str_lower <$> bar_dns_suffixes r; cr_cidrs := omap CidrBlock_parse (bar_cidrs r) |}.

(** [BotAllowlist::spawn]. *)
Definition BotAllowlist_spawn (rules : list BotAllowlistRule) (cache_ttl_secs : Z) : BotAllowlist :=
  {| al_rules := compile_bot_rule <$> rules; al_verified_cache := ∅; al_pending := [];
     al_cache_ttl := cache_ttl_secs * 1000000000 |}.

Definition al_fresh (al : BotAllowlist) (now : Z) (e : CacheEntry) : bool :=
  duration_since now (ce_created e) <? al_cache_ttl al.

(** The rule loop of [BotAllowlist::check]: the reason and what is queued. *)
Fixpoint bot_rule_loop (al : BotAllowlist) (now : Z) (ua_lower : string) (ip : IpAddr) (idx : nat)
    (rules : list CompiledRule) : option string * list PendingVerification :=
  match rules with
  | [] => (None, [])
  | rule :: rules =>
      if negb (starts_with ua_lower (cr_ua_prefix_lower rule)) then bot_rule_loop al now ua_lower ip (S idx) rules
      else
        let no_cidrs := bool_decide (cr_cidrs rule = []) in
        let no_dns := bool_decide (cr_dns_suffixes rule = []) in
        if no_cidrs && no_dns then (Some (cr_reason rule), [])
        else if negb no_cidrs && existsb (λ c, contains c ip) (cr_cidrs rule) then (Some (cr_reason rule), [])
        else if no_dns then (None, [])
        else
          match al_verified_cache al !! ip with
          | Some entry =>
              if al_fresh al now entry then
                if ce_verified entry && bool_decide (ce_rule_idx entry = idx) then (Some (cr_reason rule), [])
                else (None, [])
              else (None, [{| pv_ip := ip; pv_rule_idx := idx; pv_dns_suffixes := cr_dns_suffixes rule |}])
          | None => (None, [{| pv_ip := ip; pv_rule_idx := idx; pv_dns_suffixes := cr_dns_suffixes rule |}])
          end
  end.

Definition with_pending (al : BotAllowlist) (q : list PendingVerification) : BotAllowlist :=
  {| al_rules := al_rules al; al_verified_cache := al_verified_cache al; al_pending := q;
     al_cache_ttl := al_cache_ttl al |}.

(** [BotAllowlist::check]. *)
Definition bot_check (al : BotAllowlist) (now : Z) (user_agent : string) (ip : IpAddr) :
    option string * BotAllowlist :=
  let '(reason, queued) := bot_rule_loop al now (str_lower user_agent) ip 0 (al_rules al) in
  (reason, with_pending al (al_pending al ++ queued)).

(** [BotAllowlist::evict_stale]. *)
Definition bot_evict_stale (al : BotAllowlist) (now : Z) : BotAllowlist :=
  {| al_rules := al_rules al;
     al_verified_cache := filter (λ ke, al_fresh al now ke.2 = true) (al_verified_cache al);
     al_pending := al_pending al; al_cache_ttl := al_cache_ttl al |}.

Section allowlist.
Context `{!Dns}.

(** [verify_dns], with the reverse lookup answered at [reverse] and the forward one at
    [forward]. *)
Definition verify_dns (reverse forward : Z) (ip : IpAddr) (suffixes : list string) : bool :=
  match lookup_addr reverse ip with
  | None => false
  | Some name =>
      let hostname := str_lower name in
      if existsb (λ s, ends_with hostname s || ends_with hostname ("." +:+ s)) suffixes then
        match lookup_host_addrs forward hostname with
        | Some addrs => bool_decide (ip ∈ addrs)
        | None => false
        end
      else false
  end.

(** The times of one round of the worker: when it reads the cache, when the two lookups are
    answered, and when it makes the entry. *)
Record WorkerTimes := {
  wt_dequeued : Z;
  wt_reverse : Z;
  wt_forward : Z;
  wt_created : Z;
}.

(** One round of [dns_verification_worker]. *)
Definition worker_step (al : BotAllowlist) (t : WorkerTimes) : BotAllowlist :=
  match al_pending al with
  | [] => al
  | req :: rest =>
      if match al_verified_cache al !! pv_ip req with Some e => al_fresh al (wt_dequeued t) e | None => false end
      then with_pending al rest
      else {| al_rules := al_rules al;
              al_verified_cache := <[pv_ip req := {| ce_rule_idx := pv_rule_idx req;
                ce_verified := verify_dns (wt_reverse t) (wt_forward t) (pv_ip req) (pv_dns_suffixes req);
                ce_created := wt_created t |}]>
                (al_verified_cache al);
              al_pending := rest; al_cache_ttl := al_cache_ttl al |}
  end.
End allowlist.

(** ** Lemmas *)

Section scanner_lemmas.
Context `{!BytesHash, !Libm}.

(** All extensions of the list have four bytes, so they slice at one place. *)
Lemma suspicious_extension_None path hs :
  let clean := default path (head (str_split "?" path)) in
  has_suspicious_extension path hs = None ↔
    (4 ≤ String.length clean)%nat ∧ is_char_boundary clean (String.length clean - 4) = false.
Proof.
  cbv zeta. unfold has_suspicious_extension. set (clean := default path _).
  assert (∀ exts, Forall (λ e, String.length e = 4%nat) exts → exts ≠ [] →
    extension_loop clean hs exts = None ↔
      (4 ≤ String.length clean)%nat ∧ is_char_boundary clean (String.length clean - 4) = false) as Hg.
  { induction 1 as [|e exts He Hes IH]; [done|]. intros _. cbn [extension_loop]. rewrite He. unfold str_from.
    destruct (decide (4 ≤ String.length clean)%nat) as [Hl|Hl].
    - destruct (is_char_boundary _ _) eqn:Hb; simpl; [|done]. split; [|by intros []].
      case_decide; [done|]. destruct exts as [|e' exts']; [done|]. intros [_ Hn]%IH; [congruence|done].
    - destruct exts as [|e' exts']; [split; [done|lia]|by apply IH]. }
  apply Hg; [by repeat constructor|done].
Qed.

Lemma scanner_features_cookie d r raw :
  extract_features_f32 d r = Some raw → raw !! 3%nat = Some (f64_as_f32 (one_if (sr_has_cookies r))).
Proof.
  unfold extract_features_f32, extract_scanner_features.
  destruct (has_suspicious_extension _ _); simpl; [|done]. by intros [= <-].
Qed.

Lemma scanner_features_total d r :
  extract_features_f32 d r = None ↔ has_suspicious_extension (sr_path r) (extension_hashes d) = None.
Proof.
  unfold extract_features_f32, extract_scanner_features. by destruct (has_suspicious_extension _ _).
Qed.

(** The hard allowlist of [check]. *)
Definition scanner_trusted (d : ScannerDetector) (r : ScannerRequest) : bool :=
  bool_decide (fx_hash_bytes (sr_host_prefix r) ∈ configured_hosts d) &&
  (sr_has_cookies r || (sr_has_accept_language r && ua_is_browser (sr_user_agent r))).

Lemma scanner_check_trusted d r :
  scanner_trusted d r = true → ∃ v, scanner_check d r = Some v ∧ sv_action v = ScannerAllow.
Proof.
  unfold scanner_trusted, scanner_check. cbv zeta. intros [-> Ht]%andb_true_iff. simpl.
  destruct (sr_has_cookies r); simpl in *; [eauto|]. rewrite Ht. eauto.
Qed.

Lemma scanner_check_untrusted d r :
  scanner_trusted d r = false →
  scanner_check d r = (raw ← extract_features_f32 d r; ev ← scanner_ensemble_predict raw;
    Some {| sv_action := ev_action ev; sv_score := ev_score ev; sv_reason := ev_reason ev |}).
Proof.
  unfold scanner_trusted, scanner_check. cbv zeta. intros Ht.
  destruct (bool_decide _), (sr_has_cookies r), (sr_has_accept_language r), (ua_is_browser _); done.
Qed.
End scanner_lemmas.

(** ** Properties *)

(** The scanner's verdict with the shipped weights, exactly: a request that gets one is let
    through if and only if it carries a cookie, or its host is configured, it names a
    language and its user agent claims to be a browser. The path, the method and the nine
    other features do not matter. *)
Theorem scanner_verdict_exact `{!BytesHash, !Libm} (d : ScannerDetector) (r : ScannerRequest) (v : ScannerVerdict) :
  scanner_check d r = Some v →
  sv_action v = if sr_has_cookies r || scanner_trusted d r then ScannerAllow else ScannerBlock.
Proof.
  destruct (scanner_trusted d r) eqn:Ht.
  - destruct (scanner_check_trusted d r Ht) as (v' & -> & Hv). intros [= <-]. by rewrite orb_true_r.
  - rewrite scanner_check_untrusted, orb_false_r by done. destruct (extract_features_f32 d r) as [raw|] eqn:Hr; [|done].
    simpl. destruct (scanner_predict_spec raw _ (scanner_features_cookie _ _ _ Hr)) as (ev & -> & _ & Hev).
    simpl. intros [= <-]. simpl. rewrite Hev. by destruct (sr_has_cookies r).
Qed.

(** C39. When the scanner panics: a request off the hard allowlist brings the task down exactly
    when its path, up to a question mark, has at least four bytes and the fourth byte from
    the end lies inside a multi-byte character. Otherwise there is a verdict. *)
Theorem scanner_panics_iff `{!BytesHash, !Libm} (d : ScannerDetector) (r : ScannerRequest) :
  let clean := default (sr_path r) (head (str_split "?" (sr_path r))) in
  scanner_check d r = None ↔
    scanner_trusted d r = false ∧ (4 ≤ String.length clean)%nat ∧
    is_char_boundary clean (String.length clean - 4) = false.
Proof.
  cbv zeta. rewrite <-(suspicious_extension_None _ (extension_hashes d)), <-scanner_features_total.
  destruct (scanner_trusted d r) eqn:Ht.
  - destruct (scanner_check_trusted d r Ht) as (v & -> & _). naive_solver.
  - rewrite scanner_check_untrusted by done. destruct (extract_features_f32 d r) as [raw|] eqn:Hr; [|naive_solver].
    simpl. destruct (scanner_predict_spec raw _ (scanner_features_cookie _ _ _ Hr)) as (ev & -> & _). naive_solver.
Qed.

(** ** The allowlist *)

Section allowlist_properties.
Context `{!Dns}.

(** Requests, the worker and the eviction task share the allowlist; the clock is the time of
    the last step. A round of the worker is one step, at the time it makes its entry: only the
    worker adds entries. *)
Inductive al_step : Z * BotAllowlist → Z * BotAllowlist → Prop :=
| step_check clock al now ua ip : clock ≤ now → al_step (clock, al) (now, (bot_check al now ua ip).2)
| step_worker clock al t :
    clock ≤ wt_dequeued t → wt_dequeued t ≤ wt_reverse t → wt_reverse t ≤ wt_forward t → wt_forward t ≤ wt_created t →
    al_step (clock, al) (wt_created t, worker_step al t)
| step_evict clock al now : clock ≤ now → al_step (clock, al) (now, bot_evict_stale al now).

(** The resolver confirmed the address for one of the suffixes, the usual double lookup: its
    reverse name, in lower case, ends with the suffix, and that name then resolves to it. *)
Definition dns_confirmed (reverse forward : Z) (ip : IpAddr) (suffixes : list string) : Prop :=
  ∃ name label suffix addrs,
    lookup_addr reverse ip = Some name ∧ suffix ∈ suffixes ∧ str_lower name = label +:+ suffix ∧
    lookup_host_addrs forward (str_lower name) = Some addrs ∧ ip ∈ addrs.

Lemma verify_dns_confirmed reverse forward ip suffixes :
  verify_dns reverse forward ip suffixes = true → dns_confirmed reverse forward ip suffixes.
Proof.
  unfold verify_dns. destruct (lookup_addr reverse ip) as [name|] eqn:Hname; [|done].
  destruct (existsb _ suffixes) eqn:Hs; [|done]. destruct (lookup_host_addrs _ _) as [addrs|] eqn:Ha; [|done].
  intros Hin%bool_decide_eq_true. apply existsb_exists in Hs as (suffix & Hsuf%list_elem_of_In & Hend).
  assert (∃ label, str_lower name = label +:+ suffix) as [label Hl].
  { apply orb_true_iff in Hend as [[l ->]%ends_with_spec|[l ->]%ends_with_spec]; [by exists l|].
    exists (l +:+ "."). by rewrite str_app_assoc. }
  by exists name, label, suffix, addrs.
Qed.

Record al_inv (rules : list CompiledRule) (ttl : Z) (clock : Z) (al : BotAllowlist) : Prop := {
  ai_rules : al_rules al = rules;
  ai_ttl : al_cache_ttl al = ttl;
  ai_cache ip e : al_verified_cache al !! ip = Some e → ce_verified e = true →
    ∃ rule reverse forward, rules !! ce_rule_idx e = Some rule ∧ reverse ≤ forward ≤ ce_created e ∧
      ce_created e ≤ clock ∧ dns_confirmed reverse forward ip (cr_dns_suffixes rule);
  ai_pending p : p ∈ al_pending al →
    ∃ rule, rules !! pv_rule_idx p = Some rule ∧ pv_dns_suffixes p = cr_dns_suffixes rule;
}.

(** What the loop returns and queues, with the rule it stopped at. *)
Lemma bot_rule_loop_spec al now ua ip pre rules reason queued :
  bot_rule_loop al now ua ip (length pre) rules = (reason, queued) →
  (∀ rule, rule ∈ pre → starts_with ua (cr_ua_prefix_lower rule) = false) →
  (∀ p, p ∈ queued → ∃ rule, (pre ++ rules) !! pv_rule_idx p = Some rule ∧ pv_dns_suffixes p = cr_dns_suffixes rule) ∧
  (∀ r, reason = Some r → ∃ i rule, (pre ++ rules) !! i = Some rule ∧ cr_reason rule = r ∧
    starts_with ua (cr_ua_prefix_lower rule) = true ∧
    (∀ rule', rule' ∈ take i (pre ++ rules) → starts_with ua (cr_ua_prefix_lower rule') = false) ∧
    (cr_cidrs rule = [] ∧ cr_dns_suffixes rule = [] ∨
     existsb (λ c, contains c ip) (cr_cidrs rule) = true ∨
     ∃ e, al_verified_cache al !! ip = Some e ∧ al_fresh al now e = true ∧ ce_verified e = true ∧ ce_rule_idx e = i)).
Proof.
  revert pre. induction rules as [|rule rules IH]; intros pre; cbn [bot_rule_loop].
  { intros [= <- <-] _. split; [by intros p ?%elem_of_nil|done]. }
  assert ((pre ++ rule :: rules) !! length pre = Some rule) as Hl by apply list_lookup_middle, eq_refl.
  destruct (starts_with ua (cr_ua_prefix_lower rule)) eqn:Hua; simpl.
  2:{ intros Hr Hpre. rewrite <-(Nat.add_1_r (length pre)) in Hr. specialize (IH (pre ++ [rule])).
      rewrite length_app in IH. rewrite <-app_assoc in IH. apply IH; [done|].
      by intros r [?| ->%list_elem_of_singleton]%elem_of_app; [apply Hpre|]. }
  intros Hr Hpre. rewrite <-(take_app_length pre (rule :: rules)) in Hpre. revert Hr.
  repeat case_bool_decide; simpl; repeat case_match; simpl; intros; simplify_eq; simp_bool.
  all: split; [intros p Hp|intros r [= <-]]; try by apply elem_of_nil in Hp.
  all: try (apply list_elem_of_singleton in Hp as ->; exists rule; done).
  all: exists (length pre), rule; do 4 (split; [done|]).
  all: first [by left|right; left; assumption|right; right; eexists; by split_and!].
Qed.

Lemma al_inv_step rules ttl s s' : al_step s s' → al_inv rules ttl s.1 s.2 → al_inv rules ttl s'.1 s'.2.
Proof.
  intros Hs [Hr Ht Hc Hp]. destruct Hs as [clock al now ua ip Hle|clock al t H1 H2 H3 H4|clock al now Hle]; cbn [fst snd] in *.
  - unfold bot_check. destruct (bot_rule_loop _ _ _ _ _ _) as [reason queued] eqn:Hl.
    apply (bot_rule_loop_spec _ _ _ _ []) in Hl as [Hq _]; [|by intros r ?%elem_of_nil].
    split; [done..| |].
    + intros ip' e He Hv. destruct (Hc _ _ He Hv) as (rule & r & f & ? & ? & ? & ?). exists rule, r, f. split_and!; done || lia.
    + intros p [?|?]%elem_of_app; [by apply Hp|]. rewrite <-Hr. by apply Hq.
  - unfold worker_step. destruct (al_pending al) as [|req rest] eqn:Hpe.
    { split; rewrite ?Hpe; [done..| |done]. intros ip' e He Hv.
      destruct (Hc _ _ He Hv) as (rule & r & f & ? & ? & ? & ?). exists rule, r, f. split_and!; done || lia. }
    assert (∀ p, p ∈ rest → ∃ rule, rules !! pv_rule_idx p = Some rule ∧ pv_dns_suffixes p = cr_dns_suffixes rule)
      as Hp' by (intros; apply Hp; by right).
    destruct (Hp req) as (rule & Hru & Hsu); [left|]. case_match; split; try done; cbn.
    + intros ip' e He Hv. destruct (Hc _ _ He Hv) as (rule' & r & f & ? & ? & ? & ?).
      exists rule', r, f. split_and!; done || lia.
    + intros ip e. rewrite lookup_insert_Some. intros [[<- <-]|[_ He]] Hv.
      * cbn in *. rewrite Hsu in Hv. apply verify_dns_confirmed in Hv.
        exists rule, (wt_reverse t), (wt_forward t). split_and!; done || lia.
      * destruct (Hc _ _ He Hv) as (rule' & r & f & ? & ? & ? & ?). exists rule', r, f. split_and!; done || lia.
  - split; [done..| |done]. intros ip e [He _]%map_lookup_filter_Some Hv.
    destruct (Hc _ _ He Hv) as (rule & r & f & ? & ? & ? & ?). exists rule, r, f. split_and!; done || lia.
Qed.

Lemma al_inv_reachable rules ttl start clock al :
  rtc al_step (start, BotAllowlist_spawn rules ttl) (clock, al) →
  al_inv (compile_bot_rule <$> rules) (ttl * 1000000000) clock al.
Proof.
  intros Hr. change clock with (clock, al).1. change al with (clock, al).2 at 2.
  assert (al_inv (compile_bot_rule <$> rules) (ttl * 1000000000) (start, BotAllowlist_spawn rules ttl).1
    (start, BotAllowlist_spawn rules ttl).2) as Hinv.
  { split; [done..|intros ip e; simpl; by rewrite lookup_empty|intros p; simpl; by intros ?%elem_of_nil]. }
  revert Hinv. induction Hr; eauto using al_inv_step.
Qed.

(** C31. Who passes the scanner as a bot. Under every interleaving of requests, rounds
    of the DNS worker and runs of the eviction task, with a resolver whose answers change over
    time, an allowed request is allowed by the first configured rule whose prefix its user
    agent has, without regard to case, and one of three things holds of that rule. It has no
    DNS suffix and no block that parses, so that the user agent alone is enough. Or one of its
    blocks contains the address. Or the double lookup confirmed the address for a suffix of
    this rule: the reverse name ended with the suffix, that name then resolved to the address,
    and the entry that recorded it is younger than the cache's lifetime. *)
Theorem bot_allowed_sound (rules : list BotAllowlistRule) (ttl start clock : Z) (al al' : BotAllowlist) (now : Z)
    (ua : string) (ip : IpAddr) (reason : string) :
  rtc al_step (start, BotAllowlist_spawn rules ttl) (clock, al) → clock ≤ now →
  bot_check al now ua ip = (Some reason, al') →
  ∃ i rule, rules !! i = Some rule ∧ bar_reason rule = reason ∧
    (∃ rest, str_lower ua = str_lower (bar_ua_prefix rule) +:+ rest) ∧
    (∀ rule', rule' ∈ take i rules → ¬ ∃ rest, str_lower ua = str_lower (bar_ua_prefix rule') +:+ rest) ∧
    (bar_dns_suffixes rule = [] ∧ (∀ s, s ∈ bar_cidrs rule → CidrBlock_parse s = None) ∨
     (∃ s c, s ∈ bar_cidrs rule ∧ CidrBlock_parse s = Some c ∧ contains c ip = true) ∨
     (∃ reverse forward recorded,
        reverse ≤ forward ≤ recorded ∧ recorded ≤ now < recorded + ttl * 1000000000 ∧
        dns_confirmed reverse forward ip (str_lower <$> bar_dns_suffixes rule))).
Proof.
  intros Hr Hnow Hc. apply al_inv_reachable in Hr as [Hru Httl Hca _]. unfold bot_check in Hc.
  destruct (bot_rule_loop _ _ _ _ _ _) as [reason' queued] eqn:Hl.
  apply (bot_rule_loop_spec _ _ _ _ []) in Hl as [_ Hs]; [|by intros r ?%elem_of_nil]. simplify_eq/=.
  destruct (Hs reason eq_refl) as (i & crule & Hi & Hre & Hua & Hfirst & Hcase). rewrite Hru in Hi, Hfirst.
  apply list_lookup_fmap_Some in Hi as (rule & -> & Hi). exists i, rule.
  split_and!; [done..|by apply starts_with_spec| |].
  - intros rule' Hin Hex%starts_with_spec.
    assert (compile_bot_rule rule' ∈ take i (compile_bot_rule <$> rules)) as Hc
      by (rewrite <-fmap_take; by apply list_elem_of_fmap_2).
    apply Hfirst in Hc. cbn in Hc. congruence.
  - destruct Hcase as [[Hcidr Hdns]|[Hblock|(e & He & Hfresh & Hv & <-)]]; [left|right; left|right; right].
    + split; [cbn in Hdns; by destruct (bar_dns_suffixes rule)|]. intros s Hin. cbn in Hcidr.
      destruct (CidrBlock_parse s) as [c|] eqn:Hparse; [|done].
      assert (c ∈ omap CidrBlock_parse (bar_cidrs rule)) as Hel by (apply list_elem_of_omap; eauto).
      rewrite Hcidr in Hel. by apply elem_of_nil in Hel.
    + apply existsb_exists in Hblock as (c & (s & ? & ?)%list_elem_of_In%list_elem_of_omap & ?). by exists s, c.
    + destruct (Hca _ _ He Hv) as (crule' & r & f & Hi' & ? & ? & Hd). exists r, f, (ce_created e).
      unfold al_fresh, duration_since in Hfresh. rewrite Httl in Hfresh. apply Z.ltb_lt in Hfresh.
      rewrite list_lookup_fmap, Hi in Hi'. injection Hi' as <-. split_and!; done || lia.
Qed.

(** Reverse DNS is compared without regard to label boundaries: any host name that merely
    ends with the characters of a configured suffix, such as [evilgooglebot.com] for
    [googlebot.com], verifies as soon as its owner's forward record names the address. *)
Theorem dns_suffix_without_boundary (reverse forward : Z) (ip : IpAddr) (label suffix : string) (suffixes : list string)
    (addrs : list IpAddr) :
  suffix ∈ suffixes → lookup_addr reverse ip = Some (label +:+ suffix) →
  str_lower (label +:+ suffix) = label +:+ suffix →
  lookup_host_addrs forward (label +:+ suffix) = Some addrs → ip ∈ addrs →
  verify_dns reverse forward ip suffixes = true.
Proof.
  intros Hs Ha Hlow Hh Hin. unfold verify_dns. rewrite Ha, Hlow, Hh.
  assert (existsb (λ s, ends_with (label +:+ suffix) s || ends_with (label +:+ suffix) ("." +:+ s)) suffixes = true) as ->;
    [|by rewrite bool_decide_true].
  apply existsb_exists. exists suffix. split; [by apply list_elem_of_In|]. rewrite (proj2 (ends_with_spec _ _)); [done|eauto].
Qed.
End allowlist_properties.

(** A typing error in a block list turns verification off: when none of a rule's blocks
    parse and it has no DNS suffixes, every address passes with the user agent alone. *)
Theorem invalid_cidrs_allow_everyone (rule : BotAllowlistRule) (ttl now : Z) (ua : string) (ip : IpAddr) :
  Forall (λ s, CidrBlock_parse s = None) (bar_cidrs rule) → bar_dns_suffixes rule = [] →
  starts_with (str_lower ua) (str_lower (bar_ua_prefix rule)) = true →
  (bot_check (BotAllowlist_spawn [rule] ttl) now ua ip).1 = Some (bar_reason rule).
Proof.
  intros Hc Hd Hua. unfold bot_check. cbn [BotAllowlist_spawn al_rules fmap list_fmap bot_rule_loop].
  cbn [compile_bot_rule cr_ua_prefix_lower cr_cidrs cr_dns_suffixes cr_reason]. rewrite Hua, Hd.
  assert (omap CidrBlock_parse (bar_cidrs rule) = []) as ->; [|done].
  induction Hc as [|s l Hs Hl IH]; [done|]. simpl. by rewrite Hs.
Qed.

(** *** Examples *)

Module ScannerExamples.
#[local] Instance hash : BytesHash := λ s, Z.of_nat (String.length s).
#[local] Instance libm : Libm := {| f32_exp := id; f64_ln := id |}.
Definition attacker : IpAddr := V4 3405803785.
#[local] Instance dns : Dns :=
  {| lookup_addr := λ _ ip, if decide (ip = attacker) then Some "evilgooglebot.com" else None;
     lookup_host_addrs := λ _ h, if decide (h = "evilgooglebot.com") then Some [attacker] else None |}.
Definition detector : ScannerDetector := ScannerDetector_new ["app"].
Definition probe (cookies : bool) : ScannerRequest :=
  {| sr_method := "GET"; sr_path := "/.git/../wp-admin.php"; sr_host_prefix := "unknown"; sr_has_cookies := cookies;
     sr_has_referer := false; sr_has_accept_language := false; sr_accept := "*/*"; sr_user_agent := "curl/8";
     sr_content_length := 0 |}.
Definition googlebot : BotAllowlistRule :=
  {| bar_ua_prefix := "Googlebot"; bar_reason := "google"; bar_dns_suffixes := ["googlebot.com"]; bar_cidrs := [] |}.
Definition typo : BotAllowlistRule :=
  {| bar_ua_prefix := "Googlebot"; bar_reason := "google"; bar_dns_suffixes := []; bar_cidrs := ["66.249.64.0/33"] |}.

(** A traversal probe for an unknown host with any cookie passes. *)
Lemma scanner_verdict_exact_witness :
  sv_action <$> scanner_check detector (probe true) = Some ScannerAllow ∧
  sv_action <$> scanner_check detector (probe false) = Some ScannerBlock.
Proof.
  destruct (scanner_check detector (probe true)) as [v1|] eqn:H1; [|vm_compute in H1; discriminate].
  destruct (scanner_check detector (probe false)) as [v2|] eqn:H2; [|vm_compute in H2; discriminate].
  cbn [fmap option_fmap option_map].
  rewrite (scanner_verdict_exact detector (probe true) v1 H1), (scanner_verdict_exact detector (probe false) v2 H2).
  split; reflexivity.
Defined.

(** The first request queues the address, the worker verifies it, the second one passes. *)
Definition verified : BotAllowlist :=
  worker_step (bot_check (BotAllowlist_spawn [googlebot] 86400) 0 "Googlebot/2.1" attacker).2
    {| wt_dequeued := 1; wt_reverse := 2; wt_forward := 3; wt_created := 4 |}.

Lemma bot_allowed_sound_witness :
  (bot_check verified 5 "Googlebot/2.1" attacker).1 = Some "google" ∧
  ∃ reverse forward, dns_confirmed reverse forward attacker ["googlebot.com"].
Proof.
  assert (rtc al_step (0, BotAllowlist_spawn [googlebot] 86400) (4, verified)) as Hr.
  { eapply rtc_l; [apply (step_check 0 _ 0 "Googlebot/2.1" attacker); lia|].
    eapply rtc_l; [apply (step_worker 0 _ {| wt_dequeued := 1; wt_reverse := 2; wt_forward := 3; wt_created := 4 |});
      cbn; lia|apply rtc_refl]. }
  split; [vm_compute; reflexivity|].
  destruct (bot_allowed_sound [googlebot] 86400 0 4 verified (bot_check verified 5 "Googlebot/2.1" attacker).2 5
    "Googlebot/2.1" attacker "google" Hr ltac:(lia) ltac:(vm_compute; reflexivity)) as ([|i] & rule & Hi & _ & _ & _ & Hcase);
    [|discriminate Hi]. cbn in Hi. injection Hi as <-.
  destruct Hcase as [[Hcase _]|[(s & c & Hcase & _)|(r & f & c & _ & _ & Hcase)]];
    [discriminate Hcase|by apply elem_of_nil in Hcase|by exists r, f].
Defined.

Lemma dns_suffix_without_boundary_witness : verify_dns 0 1 attacker ["googlebot.com"] = true.
Proof.
  apply (dns_suffix_without_boundary 0 1 attacker "evil" "googlebot.com" ["googlebot.com"] [attacker]);
    [left|reflexivity..|left].
Defined.

Lemma invalid_cidrs_allow_everyone_witness :
  (bot_check (BotAllowlist_spawn [typo] 86400) 0 "googlebot" attacker).1 = Some "google".
Proof.
  apply (invalid_cidrs_allow_everyone typo); [|reflexivity|reflexivity].
  constructor; [vm_compute; reflexivity|constructor].
Defined.
End ScannerExamples.
