(* ===== verification/Bandwidth.v ===== *)
(** * Bandwidth accounting of the cluster ([src/cluster/bandwidth.rs]).

    The atomic counters of a node, the totals over its peers, the sliding window of samples
    and the limiter on its rate. Atomic operations are single steps, so that a run is any
    interleaving of them. Instants and durations are in nanoseconds; an [Instant] may be
    moved back past the start of the clock, as it may on Linux. *)

From S2P Require Import Prelude Float64.

Definition fetch_add (c n : Z) : Z := wrap 64 (c + n).

(** ** [BandwidthTracker] *)

Record BandwidthTracker := {
  bt_bytes_in : Z;
  bt_bytes_out : Z;
  bt_request_count : Z;
  bt_cumulative_in : Z;
  bt_cumulative_out : Z;
}.

Definition BandwidthTracker_new : BandwidthTracker :=
  {| bt_bytes_in := 0; bt_bytes_out := 0; bt_request_count := 0; bt_cumulative_in := 0;
     bt_cumulative_out := 0 |}.

Inductive Counter := BytesIn | BytesOut | RequestCount | CumulativeIn | CumulativeOut.

#[export] Instance Counter_eq_dec : EqDecision Counter.
Proof. solve_decision. Defined.

Definition get_counter (t : BandwidthTracker) (c : Counter) : Z :=
  match c with
  | BytesIn => bt_bytes_in t
  | BytesOut => bt_bytes_out t
  | RequestCount => bt_request_count t
  | CumulativeIn => bt_cumulative_in t
  | CumulativeOut => bt_cumulative_out t
  end.

Definition set_counter (t : BandwidthTracker) (c : Counter) (n : Z) : BandwidthTracker :=
  {| bt_bytes_in := if decide (c = BytesIn) then n else bt_bytes_in t;
     bt_bytes_out := if decide (c = BytesOut) then n else bt_bytes_out t;
     bt_request_count := if decide (c = RequestCount) then n else bt_request_count t;
     bt_cumulative_in := if decide (c = CumulativeIn) then n else bt_cumulative_in t;
     bt_cumulative_out := if decide (c = CumulativeOut) then n else bt_cumulative_out t |}.

(** The atomic operations, with the value each returns. *)
Inductive AtomicOp :=
| FetchAdd (c : Counter) (n : Z)
| SwapZero (c : Counter)
| LoadCounter (c : Counter).

Definition atomic_step (t : BandwidthTracker) (op : AtomicOp) : Z * BandwidthTracker :=
  match op with
  | FetchAdd c n => (get_counter t c, set_counter t c (fetch_add (get_counter t c) n))
  | SwapZero c => (get_counter t c, set_counter t c 0)
  | LoadCounter c => (get_counter t c, t)
  end.

(** [record] and [snapshot_and_reset], as the operations they perform. *)
Definition record_ops (bytes_in bytes_out : Z) : list AtomicOp :=
  [FetchAdd BytesIn bytes_in; FetchAdd BytesOut bytes_out; FetchAdd RequestCount 1;
   FetchAdd CumulativeIn bytes_in; FetchAdd CumulativeOut bytes_out].

Definition snapshot_ops : list AtomicOp :=
  [SwapZero BytesIn; SwapZero BytesOut; SwapZero RequestCount; LoadCounter CumulativeIn;
   LoadCounter CumulativeOut].

Fixpoint run_ops (t : BandwidthTracker) (ops : list AtomicOp) : list Z * BandwidthTracker :=
  match ops with
  | [] => ([], t)
  | op :: ops =>
      let '(v, t) := atomic_step t op in
      let '(vs, t) := run_ops t ops in
      (v :: vs, t)
  end.

Record BandwidthSnapshot := {
  bs_bytes_in : Z;
  bs_bytes_out : Z;
  bs_request_count : Z;
  bs_cumulative_in : Z;
  bs_cumulative_out : Z;
}.

Definition record (t : BandwidthTracker) (bytes_in bytes_out : Z) : BandwidthTracker :=
  (run_ops t (record_ops bytes_in bytes_out)).2.

Definition snapshot_and_reset (t : BandwidthTracker) : BandwidthSnapshot * BandwidthTracker :=
  match run_ops t snapshot_ops with
  | ([i; o; n; ci; co], t) =>
      ({| bs_bytes_in := i; bs_bytes_out := o; bs_request_count := n; bs_cumulative_in := ci;
          bs_cumulative_out := co |}, t)
  | (_, t) => ({| bs_bytes_in := 0; bs_bytes_out := 0; bs_request_count := 0; bs_cumulative_in := 0;
                  bs_cumulative_out := 0 |}, t)
  end.

(** ** [ClusterBandwidthState] *)

Record PeerEntry := {
  pe_cumulative_in : Z;
  pe_cumulative_out : Z;
  pe_last_seen : Z;
}.

(** A peer id, 32 bytes, is a string. *)
Record ClusterBandwidthState := {
  cb_peers : gmap string PeerEntry;
  cb_total_bytes_in : Z;
  cb_total_bytes_out : Z;
  cb_peer_count : Z;
  cb_stale_timeout_secs : Z;
}.

Definition ClusterBandwidthState_new (stale_timeout_secs : Z) : ClusterBandwidthState :=
  {| cb_peers := ∅; cb_total_bytes_in := 0; cb_total_bytes_out := 0; cb_peer_count := 0;
     cb_stale_timeout_secs := stale_timeout_secs |}.

Definition saturating_sum (l : list Z) : Z := foldl saturating_add_u64 0 l.

Section cluster_state.
Context `{!HashOrder}.

Definition recalculate (timeout : Z) (peers : gmap string PeerEntry) : ClusterBandwidthState :=
  let entries := snd <$> hash_iter peers in
  {| cb_peers := peers; cb_total_bytes_in := saturating_sum (pe_cumulative_in <$> entries);
     cb_total_bytes_out := saturating_sum (pe_cumulative_out <$> entries);
     cb_peer_count := Z.of_nat (size peers); cb_stale_timeout_secs := timeout |}.

Definition update_peer (st : ClusterBandwidthState) (now : Z) (peer_id : string)
    (cumulative_in cumulative_out : Z) : ClusterBandwidthState :=
  recalculate (cb_stale_timeout_secs st)
    (<[peer_id := {| pe_cumulative_in := cumulative_in; pe_cumulative_out := cumulative_out;
                     pe_last_seen := now |}]> (cb_peers st)).

Definition evict_stale_peers (st : ClusterBandwidthState) (now : Z) : ClusterBandwidthState :=
  let cutoff := now - cb_stale_timeout_secs st * 1000000000 in
  recalculate (cb_stale_timeout_secs st) (filter (λ ke, cutoff < pe_last_seen ke.2) (cb_peers st)).
End cluster_state.

(** ** [BandwidthMeter] *)

Record Sample := {
  sm_time : Z;
  sm_bytes_in : Z;
  sm_bytes_out : Z;
}.

Record BandwidthMeter := {
  bm_samples : list Sample;
  bm_window : Z;
}.

Definition BandwidthMeter_new (window_secs : Z) : BandwidthMeter :=
  {| bm_samples := []; bm_window := window_secs * 1000000000 |}.

(** The loop that pops old samples from the front. *)
Fixpoint evict_front (cutoff : Z) (samples : list Sample) : list Sample :=
  match samples with
  | s :: rest => if sm_time s <? cutoff then evict_front cutoff rest else samples
  | [] => []
  end.

Definition record_sample (m : BandwidthMeter) (now bytes_in bytes_out : Z) : BandwidthMeter :=
  let samples := bm_samples m ++ [{| sm_time := now; sm_bytes_in := bytes_in; sm_bytes_out := bytes_out |}] in
  {| bm_samples := evict_front (now - bm_window m) samples; bm_window := bm_window m |}.

Record AggregateRate := {
  bytes_in_per_sec : f64;
  bytes_out_per_sec : f64;
  total_per_sec : f64;
  sample_count : Z;
}.

(** The samples of the window. *)
Definition window_samples (m : BandwidthMeter) (now : Z) : list Sample :=
  filter (λ s, now - bm_window m ≤ sm_time s) (bm_samples m).

Definition aggregate_rate (m : BandwidthMeter) (now : Z) : AggregateRate :=
  let samples := window_samples m now in
  let window_secs := as_secs_f64 (bm_window m) in
  let i := fdiv (f64_of_Z (saturating_sum (sm_bytes_in <$> samples))) window_secs in
  let o := fdiv (f64_of_Z (saturating_sum (sm_bytes_out <$> samples))) window_secs in
  {| bytes_in_per_sec := i; bytes_out_per_sec := o; total_per_sec := fadd i o;
     sample_count := Z.of_nat (length samples) |}.

(** ** [BandwidthLimiter] *)

Record BandwidthLimiter := {
  limit_bytes_per_sec : Z;
  bl_meter : BandwidthMeter;
}.

Inductive BandwidthLimitResult := BwAllow | BwReject.

Definition bandwidth_check (l : BandwidthLimiter) (now : Z) : BandwidthLimitResult :=
  if limit_bytes_per_sec l =? 0 then BwAllow
  else if SFltb (f64_of_Z (limit_bytes_per_sec l)) (total_per_sec (aggregate_rate (bl_meter l) now))
       then BwReject else BwAllow.

Definition set_limit (l : BandwidthLimiter) (bytes_per_sec : Z) : BandwidthLimiter :=
  {| limit_bytes_per_sec := bytes_per_sec; bl_meter := bl_meter l |}.

Definition gbps_to_bytes_per_sec (gbps : f64) : Z := f64_to_u64 (fmul gbps (f64_of_Z 125000000)).

(** ** Lemmas *)

Definition sumZ (l : list Z) : Z := foldr Z.add 0 l.

Lemma sumZ_app l k : sumZ (l ++ k) = sumZ l + sumZ k.
Proof. induction l as [|x l IH]; simpl; [done|]. unfold sumZ in *. simpl. lia. Qed.

Lemma sumZ_nonneg l : Forall (Z.le 0) l → 0 ≤ sumZ l.
Proof. unfold sumZ. induction 1; simpl; lia. Qed.

#[export] Instance sumZ_perm : Proper (Permutation ==> eq) sumZ.
Proof. intros l k. unfold sumZ. induction 1; simpl; lia. Qed.

(** A saturating sum is the sum, cut off once. *)
Lemma saturating_sum_spec l : Forall (Z.le 0) l → saturating_sum l = Z.min (sumZ l) u64_max.
Proof.
  unfold saturating_sum. assert (∀ acc, 0 ≤ acc ≤ u64_max → Forall (Z.le 0) l →
    foldl saturating_add_u64 acc l = Z.min (acc + sumZ l) u64_max) as Hg.
  { induction l as [|x l IH]; intros acc Ha Hl; unfold sumZ in *; simpl; [lia|].
    apply Forall_cons in Hl as [Hx Hl]. pose proof (sumZ_nonneg l Hl). unfold sumZ in *.
    rewrite IH; [|unfold saturating_add_u64; lia|done]. unfold saturating_add_u64. lia. }
  intros Hl. rewrite Hg; [done|unfold u64_max; lia|done].
Qed.

Lemma get_set_counter t c c' n :
  get_counter (set_counter t c n) c' = if decide (c = c') then n else get_counter t c'.
Proof. by destruct c, c'. Qed.

(** What operations add to a counter, and what they take out of it. *)
Definition added (c : Counter) (ops : list AtomicOp) : Z :=
  sumZ (omap (λ op, match op with FetchAdd c' n => if decide (c' = c) then Some n else None | _ => None end) ops).

Fixpoint swapped (c : Counter) (ops : list AtomicOp) (vs : list Z) : Z :=
  match ops, vs with
  | op :: ops, v :: vs =>
      match op with SwapZero c' => if decide (c' = c) then v else 0 | _ => 0 end + swapped c ops vs
  | _, _ => 0
  end.

Lemma added_cons c op ops :
  added c (op :: ops) =
    match op with FetchAdd c' n => if decide (c' = c) then n else 0 | _ => 0 end + added c ops.
Proof. unfold added. simpl. destruct op; [case_decide|..]; done. Qed.

Lemma run_ops_conserved c ops t :
  wrap 64 (swapped c ops (run_ops t ops).1 + get_counter (run_ops t ops).2 c) =
  wrap 64 (get_counter t c + added c ops).
Proof.
  revert t. induction ops as [|op ops IH]; intros t; [f_equal; unfold added, sumZ; simpl; lia|].
  cbn [run_ops]. destruct (atomic_step t op) as [v t'] eqn:Hs. specialize (IH t').
  destruct (run_ops t' ops) as [vs t'']. cbn [fst snd swapped] in *. rewrite added_cons.
  unfold wrap in *. destruct op as [c' n|c'|c']; simplify_eq/=.
  - rewrite get_set_counter in IH. case_decide; [subst|rewrite Z.add_0_l, IH; f_equal; lia].
    rewrite Z.add_0_l, IH. unfold fetch_add, wrap. rewrite Z.add_mod_idemp_l by done. f_equal; lia.
  - rewrite get_set_counter in IH. case_decide; [subst|rewrite Z.add_0_l, IH; f_equal; lia].
    rewrite <-Z.add_assoc, <-Z.add_mod_idemp_r, IH, Z.add_mod_idemp_r by done. f_equal; lia.
  - by rewrite Z.add_0_l, IH.
Qed.

Lemma added_perm c : Proper (Permutation ==> eq) (added c).
Proof. intros ops ops' Hp. unfold added. by rewrite Hp. Qed.

Lemma swapped_none c ops vs : (∀ op, op ∈ ops → op ≠ SwapZero c) → swapped c ops vs = 0.
Proof.
  revert vs. induction ops as [|op ops IH]; intros [|v vs] Hn; try done. cbn [swapped].
  rewrite IH by (intros; apply Hn; by right). pose proof (Hn op ltac:(left)) as Hop.
  destruct op; [done| |done]. case_decide; [congruence|done].
Qed.

(** The operations of a set of requests and of [n] snapshots, in some order. *)
Definition tracker_ops (recs : list (Z * Z)) (n : nat) : list AtomicOp :=
  (recs ≫= λ r, record_ops r.1 r.2) ++ (replicate n tt ≫= λ _, snapshot_ops).

Lemma added_app c l k : added c (l ++ k) = added c l + added c k.
Proof. unfold added. by rewrite omap_app, sumZ_app. Qed.

Lemma added_snapshots c n : added c (replicate n tt ≫= λ _, snapshot_ops) = 0.
Proof. induction n as [|n IH]; [done|]. cbn [replicate mbind list_bind]. by rewrite added_app, IH. Qed.

(** What each counter receives for a request. *)
Definition share (c : Counter) (r : Z * Z) : Z :=
  match c with
  | BytesIn | CumulativeIn => r.1
  | BytesOut | CumulativeOut => r.2
  | RequestCount => 1
  end.

Lemma added_tracker c recs n : added c (tracker_ops recs n) = sumZ (share c <$> recs).
Proof.
  unfold tracker_ops. rewrite added_app, added_snapshots, Z.add_0_r.
  induction recs as [|[i o] recs IH]; [done|]. cbn [mbind list_bind]. rewrite added_app, IH.
  cbn [fmap list_fmap]. unfold sumZ at 2. cbn [foldr]. fold (sumZ (share c <$> recs)).
  destruct c; unfold added, sumZ; simpl; lia.
Qed.

Lemma tracker_ops_swap c recs n :
  c = CumulativeIn ∨ c = CumulativeOut → ∀ op, op ∈ tracker_ops recs n → op ≠ SwapZero c.
Proof.
  intros Hc op [Hop|Hop]%elem_of_app ->.
  - apply list_elem_of_bind in Hop as (r & Hop & _). repeat (apply elem_of_cons in Hop as [?|Hop]; [done|]).
    by apply elem_of_nil in Hop.
  - apply list_elem_of_bind in Hop as (u & Hop & _).
    repeat (apply elem_of_cons in Hop as [?|Hop]; [destruct Hc; congruence|]). by apply elem_of_nil in Hop.
Qed.

(** *** The window *)

Definition record_all (m : BandwidthMeter) (ss : list Sample) : BandwidthMeter :=
  foldl (λ m s, record_sample m (sm_time s) (sm_bytes_in s) (sm_bytes_out s)) m ss.

Lemma record_all_window m ss : bm_window (record_all m ss) = bm_window m.
Proof. revert m. induction ss as [|s ss IH]; intros m; [done|]. cbn [record_all foldl]. fold (record_all). by rewrite IH. Qed.

Lemma sample_eta s : {| sm_time := sm_time s; sm_bytes_in := sm_bytes_in s; sm_bytes_out := sm_bytes_out s |} = s.
Proof. by destruct s. Qed.

(** Evicting before an earlier cutoff does not show in the window. *)
Lemma evict_front_filter c c' l :
  c ≤ c' → filter (λ s, c' ≤ sm_time s) (evict_front c l) = filter (λ s, c' ≤ sm_time s) l.
Proof.
  intros Hc. induction l as [|s l IH]; [done|]. cbn [evict_front].
  destruct (Z.ltb_spec (sm_time s) c); [|done]. rewrite IH, filter_cons, decide_False by lia. done.
Qed.

Lemma window_record_all m ss now :
  (∀ s, s ∈ ss → sm_time s ≤ now) →
  window_samples (record_all m ss) now = filter (λ s, now - bm_window m ≤ sm_time s) (bm_samples m ++ ss).
Proof.
  revert m. induction ss as [|s ss IH]; intros m Hs.
  - by rewrite app_nil_r.
  - cbn [record_all foldl]. fold (record_all (record_sample m (sm_time s) (sm_bytes_in s) (sm_bytes_out s)) ss).
    rewrite IH by (intros; apply Hs; by right). cbn [bm_window bm_samples record_sample].
    rewrite sample_eta, filter_app, evict_front_filter by (pose proof (Hs s ltac:(left)); lia).
    rewrite <-filter_app, <-app_assoc. done.
Qed.

(** ** Properties *)

(** C26. No traffic is lost or counted twice: for requests and snapshots that run
    concurrently, in any interleaving of their atomic operations, what the snapshots
    report of a counter and what is left in it add up to what the requests put in, and
    the cumulative counters hold the whole (all modulo 2^64, the width of a counter). *)
Theorem bandwidth_conserved (recs : list (Z * Z)) (n : nat) (ops : list AtomicOp) :
  ops ≡ₚ tracker_ops recs n →
  let '(vs, t) := run_ops BandwidthTracker_new ops in
  wrap 64 (swapped BytesIn ops vs + bt_bytes_in t) = wrap 64 (sumZ recs.*1) ∧
  wrap 64 (swapped BytesOut ops vs + bt_bytes_out t) = wrap 64 (sumZ recs.*2) ∧
  wrap 64 (swapped RequestCount ops vs + bt_request_count t) = wrap 64 (Z.of_nat (length recs)) ∧
  wrap 64 (bt_cumulative_in t) = wrap 64 (sumZ recs.*1) ∧
  wrap 64 (bt_cumulative_out t) = wrap 64 (sumZ recs.*2).
Proof.
  intros Hp. assert (∀ c, wrap 64 (swapped c ops (run_ops BandwidthTracker_new ops).1 +
    get_counter (run_ops BandwidthTracker_new ops).2 c) = wrap 64 (sumZ (share c <$> recs))) as Hc.
  { intros c. rewrite run_ops_conserved, (added_perm c _ _ Hp), added_tracker. by destruct c. }
  assert (∀ c, c = CumulativeIn ∨ c = CumulativeOut → ∀ vs, swapped c ops vs = 0) as Hz.
  { intros c Hcc vs. apply swapped_none. intros op Hop. rewrite Hp in Hop. by eapply tracker_ops_swap. }
  assert (sumZ (share RequestCount <$> recs) = Z.of_nat (length recs)) as Hlen.
  { clear. induction recs as [|r recs IH]; [done|]. rewrite fmap_cons, length_cons.
    unfold sumZ in *. cbn [foldr share]. lia. }
  pose proof (Hc BytesIn) as H1. pose proof (Hc BytesOut) as H2. pose proof (Hc RequestCount) as H3.
  pose proof (Hc CumulativeIn) as H4. pose proof (Hc CumulativeOut) as H5. rewrite Hlen in H3.
  rewrite Hz in H4, H5 by auto. destruct (run_ops BandwidthTracker_new ops) as [vs t]. done.
Qed.

(** The totals of the cluster are exact: after any report or eviction they are the sums
    over the known peers, cut off at the largest [u64], and the count is their number, in
    whatever order the map is iterated. *)
Theorem cluster_totals_exact `{!HashOrder} (st : ClusterBandwidthState) (now : Z) (id : string) (i o : Z) :
  map_Forall (λ _ e, 0 ≤ pe_cumulative_in e ∧ 0 ≤ pe_cumulative_out e) (cb_peers st) → 0 ≤ i → 0 ≤ o →
  ∀ st', st' = update_peer st now id i o ∨ st' = evict_stale_peers st now →
  let entries := (map_to_list (cb_peers st')).*2 in
  cb_total_bytes_in st' = Z.min (sumZ (pe_cumulative_in <$> entries)) u64_max ∧
  cb_total_bytes_out st' = Z.min (sumZ (pe_cumulative_out <$> entries)) u64_max ∧
  cb_peer_count st' = Z.of_nat (length entries).
Proof.
  intros Hst Hi Ho st' Hst'.
  assert (∃ peers, st' = recalculate (cb_stale_timeout_secs st) peers ∧
    map_Forall (λ _ e, 0 ≤ pe_cumulative_in e ∧ 0 ≤ pe_cumulative_out e) peers) as (peers & -> & Hp).
  { destruct Hst' as [->| ->]; eexists; (split; [reflexivity|]).
    - by apply map_Forall_insert_2.
    - intros k e [? _]%map_lookup_filter_Some. by eapply Hst. }
  cbn [recalculate cb_peers cb_total_bytes_in cb_total_bytes_out cb_peer_count].
  assert (∀ f : PeerEntry → Z, (∀ e, 0 ≤ pe_cumulative_in e ∧ 0 ≤ pe_cumulative_out e → 0 ≤ f e) →
    saturating_sum (f <$> (hash_iter peers).*2) = Z.min (sumZ (f <$> (map_to_list peers).*2)) u64_max) as Hf.
  { intros f Hf. rewrite saturating_sum_spec; [by rewrite hash_iter_perm|].
    apply Forall_fmap, Forall_fmap, Forall_forall. intros [k e] He%elem_of_hash_iter. by apply Hf, (Hp k e). }
  split_and!; [apply Hf; by intros ? []|apply Hf; by intros ? []|by rewrite length_fmap, length_map_to_list].
Qed.

(** The rate is computed over exactly the window: after any samples, recorded in any
    order of their times, the meter read at a time not before any of them counts each
    sample of the last window once and nothing else. Dropping old samples never loses one
    that still counts. *)
Theorem meter_window_exact (window_secs : Z) (ss : list Sample) (now : Z) :
  (∀ s, s ∈ ss → sm_time s ≤ now) →
  let m := record_all (BandwidthMeter_new window_secs) ss in
  let recent := filter (λ s, now - window_secs * 1000000000 ≤ sm_time s) ss in
  let w := as_secs_f64 (window_secs * 1000000000) in
  let i := fdiv (f64_of_Z (saturating_sum (sm_bytes_in <$> recent))) w in
  let o := fdiv (f64_of_Z (saturating_sum (sm_bytes_out <$> recent))) w in
  aggregate_rate m now =
    {| bytes_in_per_sec := i; bytes_out_per_sec := o; total_per_sec := fadd i o;
       sample_count := Z.of_nat (length recent) |}.
Proof.
  intros Hs. cbv zeta. unfold aggregate_rate. rewrite window_record_all, record_all_window by done. done.
Qed.

(** The cap does not outlast the traffic: whatever was recorded and whatever the limit,
    once no sample is younger than the window every request is let through. *)
Theorem bandwidth_limit_clears (l : BandwidthLimiter) (window_secs now : Z) :
  bm_window (bl_meter l) = window_secs * 1000000000 → 0 < window_secs < 2 ^ 53 →
  0 ≤ limit_bytes_per_sec l < 2 ^ 53 →
  (∀ s, s ∈ bm_samples (bl_meter l) → sm_time s < now - window_secs * 1000000000) →
  bandwidth_check l now = BwAllow.
Proof.
  intros Hw Hpos Hlim Hold. unfold bandwidth_check, aggregate_rate, window_samples. rewrite Hw.
  assert (filter (λ s, now - window_secs * 1000000000 ≤ sm_time s) (bm_samples (bl_meter l)) = []) as ->.
  { induction (bm_samples (bl_meter l)) as [|s ss IH]; [done|].
    pose proof (Hold s ltac:(left)). rewrite filter_cons, decide_False by lia.
    apply IH. intros; apply Hold; by right. }
  case_match; [done|]. cbn [fmap list_fmap total_per_sec].
  rewrite as_secs_whole by lia. change (f64_of_Z (saturating_sum [])) with (S754_zero false).
  assert (fdiv (S754_zero false) (fz window_secs) = S754_zero false) as -> by (rewrite fz_pos by lia; done).
  change (fadd (S754_zero false) (S754_zero false)) with (fz 0).
  rewrite f64_of_Z_fz by done. unfold SFltb. rewrite fz_compare by lia.
  destruct (Z.compare_spec (limit_bytes_per_sec l) 0); [done|lia|done].
Qed.

Lemma bandwidth_conserved_witness :
  let ops := [FetchAdd BytesIn 5; SwapZero BytesIn; FetchAdd BytesOut 7; SwapZero BytesOut;
    SwapZero RequestCount; FetchAdd RequestCount 1; LoadCounter CumulativeIn; FetchAdd CumulativeIn 5;
    FetchAdd CumulativeOut 7; LoadCounter CumulativeOut] in
  ops ≡ₚ tracker_ops [(5, 7)] 1 ∧
  let '(vs, t) := run_ops BandwidthTracker_new ops in
  wrap 64 (swapped BytesIn ops vs + bt_bytes_in t) = wrap 64 (sumZ [5]).
Proof.
  set (ops := [FetchAdd BytesIn 5; SwapZero BytesIn; FetchAdd BytesOut 7; SwapZero BytesOut;
    SwapZero RequestCount; FetchAdd RequestCount 1; LoadCounter CumulativeIn; FetchAdd CumulativeIn 5;
    FetchAdd CumulativeOut 7; LoadCounter CumulativeOut]). cbv zeta.
  assert (ops ≡ₚ tracker_ops [(5, 7)] 1) as Hp by (unfold ops, tracker_ops; cbn; solve_Permutation).
  split; [exact Hp|]. pose proof (bandwidth_conserved [(5, 7)] 1 ops Hp) as Ht.
  destruct (run_ops BandwidthTracker_new ops) as [vs t]. exact (proj1 Ht).
Defined.

Lemma cluster_totals_exact_witness :
  let st := update_peer (ClusterBandwidthState_new 30) 0 "a" 1 2 in
  cb_peer_count (update_peer st 5 "b" 3 4) = 2.
Proof.
  cbv zeta. refine (eq_trans (proj2 (proj2 (cluster_totals_exact
    (update_peer (ClusterBandwidthState_new 30) 0 "a" 1 2) 5 "b" 3 4 _ _ _ _ (or_introl eq_refl)))) _).
  - cbn. apply map_Forall_insert_2; [cbn; lia|apply map_Forall_empty].
  - lia.
  - lia.
  - vm_compute. reflexivity.
Defined.

Lemma meter_window_exact_witness :
  sample_count (aggregate_rate (record_all (BandwidthMeter_new 1)
    [{| sm_time := 0; sm_bytes_in := 1; sm_bytes_out := 1 |};
     {| sm_time := 2000000000; sm_bytes_in := 1; sm_bytes_out := 1 |}]) 2500000000) = 1.
Proof.
  refine (eq_trans (f_equal sample_count (meter_window_exact 1
    [{| sm_time := 0; sm_bytes_in := 1; sm_bytes_out := 1 |};
     {| sm_time := 2000000000; sm_bytes_in := 1; sm_bytes_out := 1 |}] 2500000000 _)) _).
  - intros s Hs. repeat (apply elem_of_cons in Hs as [->|Hs]; [cbn; lia|]). by apply elem_of_nil in Hs.
  - vm_compute. reflexivity.
Defined.

Lemma bandwidth_limit_clears_witness :
  let l := {| limit_bytes_per_sec := 10; bl_meter := record_sample (BandwidthMeter_new 1) 0 50 50 |} in
  bandwidth_check l 0 = BwReject ∧ bandwidth_check l 1000000001 = BwAllow.
Proof.
  cbv zeta. split; [vm_compute; reflexivity|]. apply (bandwidth_limit_clears _ 1); [reflexivity|lia|cbn; lia|].
  intros s Hs. cbn in Hs. apply elem_of_cons in Hs as [->|Hs]; [cbn; lia|]. by apply elem_of_nil in Hs.
Defined.
