(* ===== verification/Session.v ===== *)
(** * Sessions and the proxy's state ([src/proxy/mod.rs], [src/proxy/ctx.rs]).

    What the proxy reads of a downstream session, the context it carries through the phases
    of a request, its shared state, and the helpers that find host, port, scheme and client
    address. *)

From S2P Require Import Prelude Net Ir Hostname Compile Lookup L4 L4Manager RouteManager RateLimit Filters Pipeline StaticFiles Float64 Limiter Bandwidth Ensemble Ddos Scanner.

(** ** Sessions *)

(** [pingora_proxy::Session]: the request header, and the digest of the connection as far as
    the proxy looks at it. *)
Record Session (H : Type) := {
  s_method : string;
  s_uri_host : option string;
  s_path : string;
  s_query : option string;
  s_headers : H;
  s_client_addr : option SocketAddr;
  s_local_addr : option SocketAddr;
  s_ssl_digest : bool;
}.
#[global] Arguments s_method {H} _.
#[global] Arguments s_uri_host {H} _.
#[global] Arguments s_path {H} _.
#[global] Arguments s_query {H} _.
#[global] Arguments s_headers {H} _.
#[global] Arguments s_client_addr {H} _.
#[global] Arguments s_local_addr {H} _.
#[global] Arguments s_ssl_digest {H} _.

(** [RequestCtx]; the tracing span and the start time are left out. *)
Record RequestCtx := {
  ctx_plan : option CompiledPlan;
  ctx_request_id : string;
  ctx_acme_backend : option string;
  ctx_downstream_scheme : string;
  ctx_downstream_port : Z;
  ctx_served_static : bool;
  ctx_auth_headers : list (string * string);
  ctx_backend_index : option nat;
  ctx_body_buffer : option (list Z);
}.

(** [new_ctx]. *)
Definition new_ctx (request_id : string) : RequestCtx :=
  {| ctx_plan := None; ctx_request_id := request_id; ctx_acme_backend := None;
     ctx_downstream_scheme := "https"; ctx_downstream_port := 0; ctx_served_static := false;
     ctx_auth_headers := []; ctx_backend_index := None; ctx_body_buffer := None |}.

Definition ctx_with_downstream (c : RequestCtx) (scheme : string) (port : Z) : RequestCtx :=
  {| ctx_plan := ctx_plan c; ctx_request_id := ctx_request_id c; ctx_acme_backend := ctx_acme_backend c;
     ctx_downstream_scheme := scheme; ctx_downstream_port := port; ctx_served_static := ctx_served_static c;
     ctx_auth_headers := ctx_auth_headers c; ctx_backend_index := ctx_backend_index c;
     ctx_body_buffer := ctx_body_buffer c |}.

Definition ctx_with_plan (c : RequestCtx) (p : option CompiledPlan) : RequestCtx :=
  {| ctx_plan := p; ctx_request_id := ctx_request_id c; ctx_acme_backend := ctx_acme_backend c;
     ctx_downstream_scheme := ctx_downstream_scheme c; ctx_downstream_port := ctx_downstream_port c;
     ctx_served_static := ctx_served_static c; ctx_auth_headers := ctx_auth_headers c;
     ctx_backend_index := ctx_backend_index c; ctx_body_buffer := ctx_body_buffer c |}.

Definition ctx_with_acme (c : RequestCtx) (b : string) : RequestCtx :=
  {| ctx_plan := ctx_plan c; ctx_request_id := ctx_request_id c; ctx_acme_backend := Some b;
     ctx_downstream_scheme := ctx_downstream_scheme c; ctx_downstream_port := ctx_downstream_port c;
     ctx_served_static := ctx_served_static c; ctx_auth_headers := ctx_auth_headers c;
     ctx_backend_index := ctx_backend_index c; ctx_body_buffer := ctx_body_buffer c |}.

Definition ctx_with_auth (c : RequestCtx) (hs : list (string * string)) : RequestCtx :=
  {| ctx_plan := ctx_plan c; ctx_request_id := ctx_request_id c; ctx_acme_backend := ctx_acme_backend c;
     ctx_downstream_scheme := ctx_downstream_scheme c; ctx_downstream_port := ctx_downstream_port c;
     ctx_served_static := ctx_served_static c; ctx_auth_headers := hs;
     ctx_backend_index := ctx_backend_index c; ctx_body_buffer := ctx_body_buffer c |}.

Definition ctx_with_static (c : RequestCtx) : RequestCtx :=
  {| ctx_plan := ctx_plan c; ctx_request_id := ctx_request_id c; ctx_acme_backend := ctx_acme_backend c;
     ctx_downstream_scheme := ctx_downstream_scheme c; ctx_downstream_port := ctx_downstream_port c;
     ctx_served_static := true; ctx_auth_headers := ctx_auth_headers c;
     ctx_backend_index := ctx_backend_index c; ctx_body_buffer := ctx_body_buffer c |}.

Definition ctx_with_backend (c : RequestCtx) (i : nat) : RequestCtx :=
  {| ctx_plan := ctx_plan c; ctx_request_id := ctx_request_id c; ctx_acme_backend := ctx_acme_backend c;
     ctx_downstream_scheme := ctx_downstream_scheme c; ctx_downstream_port := ctx_downstream_port c;
     ctx_served_static := ctx_served_static c; ctx_auth_headers := ctx_auth_headers c;
     ctx_backend_index := Some i; ctx_body_buffer := ctx_body_buffer c |}.

(** ** The proxy *)

(** [SunbeamProxy], with the contents of its shared cells. *)
Record SunbeamProxy := {
  px_routes : CompiledRouteTable;
  px_l4_config : CompiledL4Config;
  px_acme_routes : gmap string string;
  px_ddos_detector : option DDoSDetector;
  px_scanner_detector : option ScannerDetector;
  px_bot_allowlist : option BotAllowlist;
  px_rate_limiter : option RateLimiter;
  px_compiled_rewrites : CompiledRewrites;
  px_pipeline_bypass_cidrs : list CidrBlock;
  px_trusted_proxy_cidrs : list CidrBlock;
  px_x_forwarded_for : bool;
  px_cluster : option BandwidthLimiter;
  px_ddos_observe_only : bool;
  px_scanner_observe_only : bool;
  px_sni_context : gmap SocketAddr string;
  px_http_context : gmap SocketAddr HttpRelayContext;
}.

(** The parts a request changes: the detectors, the limiter and the SNI map. *)
Definition px_update (px : SunbeamProxy) (ddos : option DDoSDetector) (bots : option BotAllowlist)
    (limiter : option RateLimiter) (sni : gmap SocketAddr string) : SunbeamProxy :=
  {| px_routes := px_routes px; px_l4_config := px_l4_config px; px_acme_routes := px_acme_routes px;
     px_ddos_detector := ddos; px_scanner_detector := px_scanner_detector px; px_bot_allowlist := bots;
     px_rate_limiter := limiter; px_compiled_rewrites := px_compiled_rewrites px;
     px_pipeline_bypass_cidrs := px_pipeline_bypass_cidrs px;
     px_trusted_proxy_cidrs := px_trusted_proxy_cidrs px; px_x_forwarded_for := px_x_forwarded_for px;
     px_cluster := px_cluster px; px_ddos_observe_only := px_ddos_observe_only px;
     px_scanner_observe_only := px_scanner_observe_only px; px_sni_context := sni;
     px_http_context := px_http_context px |}.

(** ** Helpers *)

(** The text after the first, and before the last, occurrence of a character. *)
Fixpoint before_last (c : ascii) (s : string) : option string :=
  match s with
  | "" => None
  | String a s' =>
      match before_last c s' with
      | Some r => Some (String a r)
      | None => if Ascii.eqb a c then Some "" else None
      end
  end.

(** [audit::strip_port]. *)
Definition strip_port (addr : string) : string :=
  match strip_prefix "[" addr with
  | Some rest => match split_once "]" rest with Some (inner, _) => inner | None => addr end
  | None => default addr (before_last ":" addr)
  end.

(** [str::trim_start_matches] of a string; [fuel] bounds the number of matches. *)
Fixpoint trim_matches (fuel : nat) (p s : string) : string :=
  match fuel with
  | O => s
  | S fuel => match strip_prefix p s with Some s' => trim_matches fuel p s' | None => s end
  end.

(** [backend_addr]. *)
Definition backend_addr (backend : string) : string :=
  let s := trim_matches (String.length backend) "https://" backend in
  trim_matches (String.length s) "http://" s.

Section helpers.
Context {H : Type} `{!HeaderOps H}.

Definition extract_host (s : Session H) : string :=
  match h_str (s_headers s) "host" with
  | Some v => if str_is_empty (strip_port v) then default "" (s_uri_host s) else strip_port v
  | None => default "" (s_uri_host s)
  end.

Definition is_plain_http (s : Session H) : bool := negb (s_ssl_digest s).

Definition downstream_port (s : Session H) : Z := default 0 (socket_port <$> s_local_addr s).

(** [http_relay_context]: read, not removed. *)
Definition http_relay_context (px : SunbeamProxy) (s : Session H) : option HttpRelayContext :=
  s_client_addr s ≫= λ peer, px_http_context px !! peer.

(** [sni_for_session]: read and removed. *)
Definition sni_for_session (px : SunbeamProxy) (s : Session H) : option string * SunbeamProxy :=
  match s_client_addr s with
  | Some peer =>
      (px_sni_context px !! peer,
       px_update px (px_ddos_detector px) (px_bot_allowlist px) (px_rate_limiter px)
         (delete peer (px_sni_context px)))
  | None => (None, px)
  end.

(** The public port of the listener a route belongs to. *)
Definition route_listener_port (cfg : CompiledL4Config) (r : CompiledL4Route) (target : string)
    (local : SocketAddr) (ok : Protocol → bool) : option (option Z) :=
  if decide (parse_socket_addr target = Some local) then
    match find_listener cfg (cr_listener_id r) with
    | Some l =>
        if ok (cl_protocol l)
        then Some (listener_port l)
        else None
    | None => None
    end
  else None.

Definition https_terminate_port (cfg : CompiledL4Config) (local : SocketAddr) : option Z :=
  default None (find_map (λ r, match cr_action r with
    | TerminateAndHttp target =>
        route_listener_port cfg r target local (λ p, match p with Https | Tls => true | _ => false end)
    | _ => None
    end) (https_routes cfg)).

Definition http_relay_port (cfg : CompiledL4Config) (local : SocketAddr) : option Z :=
  default None (find_map (λ r, match cr_action r with
    | HttpRelay target =>
        route_listener_port cfg r target local (λ p, match p with Http => true | _ => false end)
    | _ => None
    end) (http_routes cfg)).

(** The header loop of [extract_client_ip]. *)
Definition header_ip (h : H) (n : string) : option IpAddr := h_str h n ≫= λ v, parse_ip (str_trim v).

Definition forwarded_ip (h : H) : option IpAddr :=
  h_str h "x-forwarded-for" ≫= λ v, head (str_split "," v) ≫= λ first, parse_ip (str_trim first).

(** [extract_client_ip]. *)
Definition extract_client_ip (px : SunbeamProxy) (s : Session H) : option IpAddr :=
  let socket :=
    match http_relay_context px s with
    | Some relay => Some (socket_ip (hrc_client_addr relay))
    | None => socket_ip <$> s_client_addr s
    end in
  match socket with
  | None => None
  | Some ip =>
      if negb (is_bypassed ip (px_trusted_proxy_cidrs px)) then Some ip
      else match header_ip (s_headers s) "cf-connecting-ip" with
           | Some ip => Some ip
           | None =>
               match header_ip (s_headers s) "x-real-ip" with
               | Some ip => Some ip
               | None =>
                   match forwarded_ip (s_headers s) with
                   | Some ip => Some ip
                   | None => Some ip
                   end
               end
           end
  end.

(** [find_rewrites]. *)
Definition find_rewrites (px : SunbeamProxy) (prefix : string) : option (list CompiledRewrite) :=
  snd <$> List.find (λ pr, bool_decide (pr.1 = prefix)) (px_compiled_rewrites px).

(** [lookup_plan]. *)
Definition lookup_plan `{!RegexEngine} (px : SunbeamProxy) (s : Session H) (host : string) (port : Z) :
    option CompiledPlan :=
  plan <$> lookup_route (px_routes px)
    {| req_host := host; req_port := port; req_path := s_path s; req_method := s_method s;
       req_header := h_str (s_headers s); req_query := s_query s |}.
End helpers.

(** ** [fail_to_proxy] *)

(** [pingora_core::ErrorSource] and the [ErrorType]s the function distinguishes. *)
Inductive ErrorSource := SourceUpstream | SourceDownstream | SourceInternal | SourceUnset.
Inductive ErrorType :=
| EtHTTPStatus (code : Z) | EtReadTimedout | EtWriteTimedout | EtWriteError | EtReadError
| EtConnectionClosed | EtOther.

(** The status sent downstream, zero for none. *)
Definition fail_to_proxy (etype : ErrorType) (esource : ErrorSource) : Z :=
  match etype with
  | EtHTTPStatus code => code
  | _ =>
      match esource, etype with
      | SourceUpstream, (EtReadTimedout | EtWriteTimedout) => 504
      | SourceUpstream, _ => 502
      | SourceDownstream, (EtWriteError | EtReadError | EtConnectionClosed) => 0
      | SourceDownstream, _ => 400
      | (SourceInternal | SourceUnset), _ => 500
      end
  end.
