(* ===== verification/Cache.v ===== *)
(** * The response cache ([src/cache.rs], [src/proxy/cache_hooks.rs]).

    When a request uses the cache, under which key, and how long a response stays. The storage
    itself is [pingora_cache]. Parsing of a date is [chrono] and a class. Instants are in
    nanoseconds since the epoch. *)

From S2P Require Import Prelude Net Ir Hostname Compile Lookup L4 L4Manager RouteManager RateLimit Filters Pipeline StaticFiles Float64 Limiter Bandwidth Ensemble Ddos Scanner Session.

(** [NaiveDateTime::parse_from_str(s, "%a, %d %b %Y %H:%M:%S")], in seconds. *)
Class DateParser := parse_naive : string → option Z.

(** ** [cache.rs] *)

Definition cache_control_has_directive (cc directive : string) : bool :=
  existsb (λ part, bool_decide (str_trim part = directive)) (str_split "," cc).

(** The loop of [parse_cache_ttl]: [max_age] and [s_maxage]; a later directive overwrites. *)
Definition ttl_step (acc : option Z * option Z) (part : string) : option Z * option Z :=
  let part := str_trim part in
  match strip_prefix "s-maxage=" part with
  | Some v => (acc.1, parse_uint u64_max (str_trim v))
  | None =>
      match strip_prefix "max-age=" part with
      | Some v => (parse_uint u64_max (str_trim v), acc.2)
      | None => acc
      end
  end.

Definition parse_cache_ttl (cc : string) : option Z :=
  let '(max_age, s_maxage) := foldl ttl_step (None, None) (str_split "," cc) in
  match s_maxage with Some t => Some t | None => max_age end.

Definition parse_age (age : string) : option Z := parse_uint u64_max (str_trim age).

Definition parse_expires_ttl `{!DateParser} (now : Z) (expires : string) : option Z :=
  match strip_suffix " GMT" (str_trim expires) with
  | None => None
  | Some without_tz =>
      match parse_naive without_tz with
      | None => None
      | Some secs =>
          let remaining := Z.quot (secs * 1000000000 - now) 1000000000 in
          Some (if remaining <=? 0 then 0 else remaining)
      end
  end.

(** ** [cache_hooks.rs] *)

Section hooks.
Context {H : Type} `{!HeaderOps H}.

(** [request_cache_filter_inner]: whether the cache is enabled, and the largest body it takes
    (zero for no limit). *)
Definition request_cache_filter (s : Session H) (ctx : RequestCtx) : option Z :=
  if negb (bool_decide (s_method s ∈ ["GET"; "HEAD"])) then None
  else
    match ctx_plan ctx ≫= plan_cache with
    | Some c =>
        if negb (cp_enabled c) then None
        else if match ctx_plan ctx with
                | Some p => negb (bool_decide (body_rewrites p = []))
                | None => false
                end then None
        else if negb (bool_decide (ctx_auth_headers ctx = [])) then None
        else Some (cp_max_file_size c)
    | None => None
    end.

Definition has_header (h : H) (n : string) : bool := bool_decide (h_get_all h n ≠ []).

(** What [cache_key_callback_inner] appends for a request. *)
Definition key_variance (h : H) : string :=
  (if has_header h "authorization" || has_header h "cookie" then "|auth" else "") +:+
  str_join "" ((λ v, "|" +:+ v) <$> omap (h_str h) ["accept-encoding"; "accept-language"; "accept"]).

(** [cache_key_callback_inner]: the primary key. *)
Definition cache_key (s : Session H) : string :=
  extract_host s +:+ s_path s +:+ query_part (s_query s) +:+ key_variance (s_headers s).

Inductive NoCacheReason := OriginNotCache | NeverEnabled.

Record CacheMeta := {
  cm_fresh_until : Z;
  cm_created : Z;
  cm_stale_while_revalidate : Z;
  cm_stale_if_error : Z;
}.

Inductive RespCacheable :=
| Uncacheable (reason : NoCacheReason)
| Cacheable (meta : CacheMeta).

Definition i64_max : Z := 2 ^ 63 - 1.

(** [SystemTime + Duration], which panics past the range of the seconds. *)
Definition system_time_add (now secs : Z) : option Z :=
  if now / 1000000000 + secs <=? i64_max then Some (now + secs * 1000000000) else None.

Context `{!DateParser}.

(** The lifetime the headers ask for: [inl] when the response must not be stored. *)
Definition expires_ttl (now : Z) (h : H) (ttl : Z) : () + Z :=
  match h_str h "expires" with
  | Some expires =>
      match parse_expires_ttl now expires with
      | None => inl ()
      | Some t => if t =? 0 then inl () else inr t
      end
  | None => inr ttl
  end.

(** The [Cache-Control] block: lifetime and stale-while-revalidate. *)
Definition header_ttl (now : Z) (h : H) (ttl swr : Z) : () + Z * Z :=
  match h_str h "cache-control" with
  | Some cc =>
      let cc_lower := str_lower cc in
      if existsb (cache_control_has_directive cc_lower) ["no-store"; "private"; "no-cache"] then inl ()
      else
        let swr := if existsb (cache_control_has_directive cc_lower) ["must-revalidate"; "proxy-revalidate"]
                   then 0 else swr in
        match parse_cache_ttl cc_lower with
        | Some t => if t =? 0 then inl () else inr (t, swr)
        | None => match expires_ttl now h ttl with inl u => inl u | inr t => inr (t, swr) end
        end
  | None => match expires_ttl now h ttl with inl u => inl u | inr t => inr (t, swr) end
  end.

(** [response_cache_filter_inner]; [None] stands for a panic. *)
Definition response_cache_filter (now : Z) (status : Z) (h : H) (ctx : RequestCtx) : option RespCacheable :=
  if negb ((200 <=? status) && (status <? 300)) then Some (Uncacheable OriginNotCache)
  else
    match ctx_plan ctx ≫= plan_cache with
    | None => Some (Uncacheable NeverEnabled)
    | Some cfg =>
        let ttl_swr :=
          if cp_respect_cache_headers cfg then
            match header_ttl now h (cp_default_ttl_secs cfg) (cp_stale_while_revalidate_secs cfg) with
            | inl u => inl u
            | inr (ttl, swr) =>
                let age := default 0 (h_str h "age" ≫= parse_age) in
                inr (Z.max 0 (ttl - age), swr)
            end
          else inr (cp_default_ttl_secs cfg, cp_stale_while_revalidate_secs cfg) in
        match ttl_swr with
        | inl _ => Some (Uncacheable OriginNotCache)
        | inr (ttl, swr) =>
            if ttl =? 0 then Some (Uncacheable OriginNotCache)
            else match system_time_add now ttl with
                 | None => None
                 | Some fresh_until =>
                     Some (Cacheable {| cm_fresh_until := fresh_until; cm_created := now;
                                        cm_stale_while_revalidate := swr; cm_stale_if_error := 0 |})
                 end
        end
    end.
End hooks.

(** ** The response directives of RFC 9111, section 5.2.2 *)

Inductive CacheDirective :=
| NoStore | Private | NoCache | MustRevalidate | ProxyRevalidate
| MaxAge (secs : Z) | SMaxAge (secs : Z)
| Extension (text : string).

Definition directive_text (d : CacheDirective) : string :=
  match d with
  | NoStore => "no-store" | Private => "private" | NoCache => "no-cache"
  | MustRevalidate => "must-revalidate" | ProxyRevalidate => "proxy-revalidate"
  | MaxAge n => "max-age=" +:+ pretty n | SMaxAge n => "s-maxage=" +:+ pretty n
  | Extension t => t
  end.

(** The numbers are of 64 bits; an extension is none of the others. *)
Definition directive_ok (d : CacheDirective) : Prop :=
  match d with
  | MaxAge n | SMaxAge n => 0 ≤ n ≤ u64_max
  | Extension t =>
      (t ∉ ["no-store"; "private"; "no-cache"; "must-revalidate"; "proxy-revalidate"]) ∧
      (¬ ∃ v, t = "s-maxage=" +:+ v) ∧ (¬ ∃ v, t = "max-age=" +:+ v)
  | _ => True
  end.

(** [cc] is a way to write the directives [ds]: between commas, in any case and with any
    spaces around them. *)
Definition written (cc : string) (ds : list CacheDirective) : Prop :=
  ∃ parts, parts ≠ [] ∧ cc = str_join "," parts ∧
    Forall2 (λ part d, (¬ str_elem "," part) ∧ str_trim (str_lower part) = directive_text d ∧ directive_ok d) parts ds.

(** The lifetime a shared cache is given: [s-maxage] before [max-age], with one value. *)
Definition explicit_age (ds : list CacheDirective) (n : Z) : Prop :=
  (SMaxAge n ∈ ds ∧ ∀ n', SMaxAge n' ∈ ds → n' = n) ∨
  (∀ n', SMaxAge n' ∉ ds) ∧ MaxAge n ∈ ds ∧ (∀ n', MaxAge n' ∈ ds → n' = n).

Definition no_age (ds : list CacheDirective) : Prop := ∀ n, (SMaxAge n ∉ ds) ∧ MaxAge n ∉ ds.

(** The only value of a header, in visible characters. *)
Definition sole_line {H} `{!HeaderOps H} (h : H) (n v : string) : Prop := h_get_all h n = [v] ∧ h_to_str v = Some v.

(** The [Age] a response arrives with; no header is no age. *)
Definition arrived_age {H} `{!HeaderOps H} (h : H) (a : Z) : Prop :=
  h_get_all h "age" = [] ∧ a = 0 ∨ ∃ v, sole_line h "age" v ∧ str_trim v = pretty a ∧ 0 ≤ a ≤ u64_max.

(** ** Lemmas *)

Lemma str_lower_app s t : str_lower (s +:+ t) = str_lower s +:+ str_lower t.
Proof. induction s as [|a s IH]; [done|]. rewrite str_app_cons. cbn. by rewrite IH. Qed.

Lemma str_lower_join l : str_lower (str_join "," l) = str_join "," (str_lower <$> l).
Proof.
  induction l as [|w l IH]; [done|]. destruct l as [|w' l]; [done|].
  change (str_join "," (w :: w' :: l)) with (w +:+ "," +:+ str_join "," (w' :: l)). rewrite !str_lower_app, IH. done.
Qed.

Lemma str_elem_lower_comma s : str_elem "," (str_lower s) ↔ str_elem "," s.
Proof.
  induction s as [|a s IH]; [done|]. cbn. rewrite IH. f_equiv. clear. by destruct a as [[] [] [] [] [] [] [] []].
Qed.

Lemma strip_prefix_None p s : strip_prefix p s = None ↔ ¬ ∃ r, s = p +:+ r.
Proof.
  split; [intros Hn [r Hr%strip_prefix_Some]; congruence|]. intros Hno. destruct (strip_prefix p s) eqn:He; [|done].
  apply strip_prefix_Some in He. naive_solver.
Qed.

Section cache_lemmas.
Context {H : Type} `{!HeaderOps H, !DateParser}.

Lemma key_variance_sep (P : ascii → Prop) (h : H) : P "|"%char → starts_sep P (key_variance h).
Proof.
  intros HP. unfold key_variance. destruct (_ || _); [done|]. rewrite str_app_nil_l.
  destruct (omap _ _) as [|v [|w vs]]; done.
Qed.

(** What the directives of a single [Cache-Control] line say to the code. *)
Lemma written_parts cc ds : written cc ds → Forall2 (λ part d, str_trim part = directive_text d ∧ directive_ok d)
  (str_split "," (str_lower cc)) ds.
Proof.
  intros (parts & Hne & -> & Hall). rewrite str_lower_join, str_split_join.
  - apply Forall2_fmap_l. eapply Forall2_impl; [exact Hall|]. by intros part d (_ & ? & ?).
  - by destruct parts.
  - rewrite Forall_fmap. apply (Forall2_Forall_l _ _ _ _ Hall). apply Forall_true. intros d part (Hc & _).
    cbn. by rewrite str_elem_lower_comma.
Qed.

Lemma has_directive_written cc ds w : written cc ds →
  cache_control_has_directive (str_lower cc) w = true ↔ ∃ d, d ∈ ds ∧ directive_text d = w.
Proof.
  intros Hw%written_parts. unfold cache_control_has_directive. induction Hw as [|part d parts ds [Ht _] _ IH]; cbn.
  - split; [done|]. by intros (d & Hd%elem_of_nil & _).
  - rewrite orb_true_iff, bool_decide_eq_true, IH, Ht. setoid_rewrite elem_of_cons. split.
    + intros [<-|(d' & Hd & <-)]; [exists d|exists d']; auto.
    + intros (d' & [->|Hd] & <-); [by left|right; by exists d'].
Qed.

Lemma directive_text_word d w : directive_ok d → w ∈ [NoStore; Private; NoCache; MustRevalidate; ProxyRevalidate] →
  directive_text d = directive_text w → d = w.
Proof.
  intros Hok Hw Heq. destruct d as [| | | | | | |t]; cbn [directive_ok] in Hok.
  1-7: repeat (apply elem_of_cons in Hw as [->|Hw]; [by try discriminate Heq|]); by apply elem_of_nil in Hw.
  destruct Hok as [Hok _]. exfalso. apply Hok. cbn [directive_text] in Heq. subst t.
  repeat (apply elem_of_cons in Hw as [->|Hw]; [cbn; set_solver|]). by apply elem_of_nil in Hw.
Qed.

Lemma has_word_written cc ds w : written cc ds → w ∈ [NoStore; Private; NoCache; MustRevalidate; ProxyRevalidate] →
  cache_control_has_directive (str_lower cc) (directive_text w) = true ↔ w ∈ ds.
Proof.
  intros Hcc Hw. rewrite (has_directive_written _ ds) by done. split; [|naive_solver].
  intros (d & Hd & Heq). apply written_parts in Hcc. destruct (list_elem_of_lookup_1 _ _ Hd) as [i Hi].
  destruct (Forall2_lookup_r _ _ _ _ _ Hcc Hi) as (part & _ & _ & Hok). by rewrite <-(directive_text_word d w).
Qed.

(** The loop of [parse_cache_ttl], on directives. *)
Definition age_step (acc : option Z * option Z) (d : CacheDirective) : option Z * option Z :=
  match d with MaxAge n => (Some n, acc.2) | SMaxAge n => (acc.1, Some n) | _ => acc end.

Lemma ttl_step_written acc part d : str_trim part = directive_text d → directive_ok d → ttl_step acc part = age_step acc d.
Proof.
  intros Ht Hok. unfold ttl_step. rewrite Ht. destruct d; try done; cbn [directive_text directive_ok age_step] in *.
  - rewrite (proj2 (strip_prefix_None _ _)) by (by intros [r [=]]). rewrite (proj2 (strip_prefix_Some _ _ _) eq_refl).
    by rewrite str_trim_pretty, parse_uint_pretty by lia.
  - rewrite (proj2 (strip_prefix_Some _ _ _) eq_refl). by rewrite str_trim_pretty, parse_uint_pretty by lia.
  - destruct Hok as (_ & Hs & Hm). by rewrite (proj2 (strip_prefix_None _ _) Hs), (proj2 (strip_prefix_None _ _) Hm).
Qed.

Lemma age_fold ds : ∀ acc,
  ((∃ n, SMaxAge n ∈ ds ∧ (foldl age_step acc ds).2 = Some n) ∨
   (∀ n, SMaxAge n ∉ ds) ∧ (foldl age_step acc ds).2 = acc.2) ∧
  ((∃ n, MaxAge n ∈ ds ∧ (foldl age_step acc ds).1 = Some n) ∨
   (∀ n, MaxAge n ∉ ds) ∧ (foldl age_step acc ds).1 = acc.1).
Proof.
  induction ds as [|d ds IH]; intros acc; cbn [foldl].
  - split; right; (split; [intros n; apply not_elem_of_nil|done]).
  - destruct (IH (age_step acc d)) as [Hs Hm]. split.
    + destruct Hs as [(n & Hn & ->)|[Hno ->]]; [left; exists n; split; [by right|done]|].
      destruct d; try (right; split; [intros n [?|Hin]%elem_of_cons; [done|by apply (Hno n)]|done]).
      left. eexists. split; [by left|done].
    + destruct Hm as [(n & Hn & ->)|[Hno ->]]; [left; exists n; split; [by right|done]|].
      destruct d; try (right; split; [intros n [?|Hin]%elem_of_cons; [done|by apply (Hno n)]|done]).
      left. eexists. split; [by left|done].
Qed.

Lemma parse_cache_ttl_fold cc ds : written cc ds →
  parse_cache_ttl (str_lower cc) = let r := foldl age_step (None, None) ds in match r.2 with Some t => Some t | None => r.1 end.
Proof.
  intros Hw%written_parts. unfold parse_cache_ttl. generalize (@None Z, @None Z) as acc.
  induction Hw as [|part d parts ds [Ht Hok] _ IH]; intros acc; cbn [foldl]; [by destruct acc|].
  by rewrite (ttl_step_written _ _ d).
Qed.

Lemma parse_cache_ttl_explicit cc ds n : written cc ds → explicit_age ds n → parse_cache_ttl (str_lower cc) = Some n.
Proof.
  intros Hw He. rewrite (parse_cache_ttl_fold _ ds) by done. cbn zeta. destruct (age_fold ds (None, None)) as [Hs Hm].
  destruct He as [[Hn Hall]|(Hno & Hn & Hall)].
  - destruct Hs as [(n' & Hn' & ->)|[Hs _]]; [by rewrite (Hall n')|by destruct (Hs n)].
  - destruct Hs as [(n' & Hn' & _)|[_ ->]]; [by destruct (Hno n')|]. cbn.
    destruct Hm as [(n' & Hn' & ->)|[Hm _]]; [by rewrite (Hall n')|by destruct (Hm n)].
Qed.

Lemma parse_cache_ttl_none cc ds : written cc ds → no_age ds → parse_cache_ttl (str_lower cc) = None.
Proof.
  intros Hw Hno. rewrite (parse_cache_ttl_fold _ ds) by done. cbn zeta. destruct (age_fold ds (None, None)) as [Hs Hm].
  destruct Hs as [(n' & Hn' & _)|[_ ->]]; [by destruct (Hno n')|].
  destruct Hm as [(n' & Hn' & _)|[_ ->]]; [by destruct (Hno n')|done].
Qed.

Lemma sole_line_str (h : H) n v : sole_line h n v → h_str h n = Some v.
Proof. intros [Hg Hs]. unfold h_str, h_get. by rewrite Hg. Qed.

Lemma arrived_age_parsed (h : H) a : arrived_age h a → default 0 (h_str h "age" ≫= parse_age) = a ∧ 0 ≤ a.
Proof.
  intros [[Hg ->]|(v & Hv & Ht & Ha)]; [unfold h_str, h_get; by rewrite Hg|].
  rewrite (sole_line_str _ _ _ Hv). cbn. unfold parse_age. rewrite Ht, parse_uint_pretty by done. split; [done|lia].
Qed.

(** The block of the code on [Cache-Control] and [Expires], when it lets a response pass. *)
Lemma header_ttl_spec now (h : H) ttl swr t s cc ds :
  header_ttl now h ttl swr = inr (t, s) → sole_line h "cache-control" cc → written cc ds →
  (NoStore ∉ ds) ∧ (Private ∉ ds) ∧ (NoCache ∉ ds) ∧
  (MustRevalidate ∈ ds ∨ ProxyRevalidate ∈ ds → s = 0) ∧
  (∀ n, explicit_age ds n → t = n) ∧
  (no_age ds → expires_ttl now h ttl = inr t).
Proof.
  intros Hh Hcc Hw. unfold header_ttl in Hh. rewrite (sole_line_str _ _ _ Hcc) in Hh.
  pose proof (λ w, has_word_written cc ds w Hw) as Hword. cbn [existsb] in Hh.
  destruct (cache_control_has_directive _ "no-store" || _) eqn:Hforbid; [done|]. simp_bool.
  assert (∀ w, w ∈ [NoStore; Private; NoCache; MustRevalidate; ProxyRevalidate] →
    cache_control_has_directive (str_lower cc) (directive_text w) = false → w ∉ ds) as Hnot
    by (intros w Hin Hf Hd; apply Hword in Hd; [congruence|done]).
  split_and!; [apply Hnot; [by repeat first [by left|right]|done]..| | |].
  - intros Hrev. assert (cache_control_has_directive (str_lower cc) "must-revalidate" ||
      (cache_control_has_directive (str_lower cc) "proxy-revalidate" || false) = true) as Hr.
    { rewrite !orb_true_iff. destruct Hrev as [Hd|Hd]; apply Hword in Hd; [by left|by repeat first [by left|right]|by right; left|by repeat first [by left|right]]. }
    rewrite Hr in Hh. destruct (parse_cache_ttl _) as [t'|]; [by destruct (t' =? 0); simplify_eq|].
    by destruct (expires_ttl _ _ _); simplify_eq.
  - intros n He. rewrite (parse_cache_ttl_explicit _ _ _ Hw He) in Hh. by destruct (n =? 0); simplify_eq.
  - intros Hno. rewrite (parse_cache_ttl_none _ _ Hw Hno) in Hh. by destruct (expires_ttl _ _ _); simplify_eq.
Qed.

Lemma expires_ttl_bound now (h : H) ttl t line text date :
  expires_ttl now h ttl = inr t → sole_line h "expires" line → str_trim line = text +:+ " GMT" →
  parse_naive text = Some date → now + t * 1000000000 ≤ date * 1000000000.
Proof.
  unfold expires_ttl, parse_expires_ttl. intros He Hl Ht Hd. revert He. rewrite (sole_line_str _ _ _ Hl), Ht.
  rewrite (proj2 (strip_suffix_Some _ _ _) eq_refl), Hd. set (d := date * 1000000000 - now).
  destruct (Z.leb_spec (d ÷ 1000000000) 0) as [|Hpos]; [done|]. destruct (Z.eqb_spec (d ÷ 1000000000) 0); [done|].
  intros [= <-]. assert (0 ≤ d).
  { destruct (Z.le_gt_cases d 0) as [Hle|]; [|lia]. pose proof (Z.quot_le_mono d 0 1000000000 ltac:(lia) Hle) as Hq.
    rewrite Z.quot_0_l in Hq; lia. }
  rewrite Z.quot_div_nonneg in * by lia. pose proof (Z.mul_div_le d 1000000000). lia.
Qed.
End cache_lemmas.

(** ** Properties *)

Section cache_properties.
Context {H : Type} `{!HeaderOps H, !DateParser}.


(** Different URLs have different cache entries: for hosts without a slash, paths that
    begin with one, and no bar in path or query, equal keys mean equal host, path and
    query. *)
Theorem cache_key_separates_urls (s s' : Session H) :
  ¬ str_elem "/" (extract_host s) → ¬ str_elem "/" (extract_host s') →
  starts_with (s_path s) "/" = true → starts_with (s_path s') "/" = true →
  ¬ str_elem "|" (s_path s) → ¬ str_elem "|" (s_path s') →
  ¬ str_elem "?" (s_path s) → ¬ str_elem "?" (s_path s') →
  (∀ q, s_query s = Some q → ¬ str_elem "|" q) → (∀ q, s_query s' = Some q → ¬ str_elem "|" q) →
  cache_key s = cache_key s' →
  extract_host s = extract_host s' ∧ s_path s = s_path s' ∧ s_query s = s_query s'.
Proof.
  intros Hh Hh' Hp Hp' Hb Hb' Hq Hq' Hqb Hqb' Heq. unfold cache_key in Heq.
  assert (∀ p r, starts_with p "/" = true → starts_sep (eq "/"%char) (p +:+ r)) as Hsep.
  { intros p r [x ->]%starts_with_spec. done. }
  apply (app_first_sep (eq "/"%char)) in Heq as [-> Heq]; [|by intros ? <-|by intros ? <-|by apply Hsep|by apply Hsep].
  assert (∀ (q : option string) (v : H), starts_sep (λ c, c = "?"%char ∨ c = "|"%char) (query_part q +:+ key_variance v)) as Hsq.
  { intros [q|] v; [by left|]. apply key_variance_sep. by right. }
  apply (app_first_sep (λ c, c = "?"%char ∨ c = "|"%char)) in Heq as [-> Heq];
    [|by intros ? [-> | ->]|by intros ? [-> | ->]|apply Hsq|apply Hsq].
  split_and!; [done..|].
  pose proof (key_variance_sep (eq "|"%char) (s_headers s) eq_refl) as Hv.
  pose proof (key_variance_sep (eq "|"%char) (s_headers s') eq_refl) as Hv'.
  destruct (s_query s) as [q|], (s_query s') as [q'|]; cbn [query_part] in Heq;
    rewrite ?str_app_cons, ?str_app_nil_l in Heq.
  - injection Heq as Heq. apply (app_first_sep (eq "|"%char)) in Heq as [-> _]; [done|..|done|done].
    + intros ? <-. by apply Hqb.
    + intros ? <-. by apply Hqb'.
  - rewrite <-Heq in Hv'. done.
  - rewrite Heq in Hv. done.
  - done.
Qed.

(** Signed-in users share cache entries: the key records only that a request carries a
    [Cookie] or [Authorization] header, not which, so two users who ask for one URL with
    the same [Accept] headers get the same entry. *)
Theorem cache_key_ignores_identity (s s' : Session H) :
  extract_host s = extract_host s' → s_path s = s_path s' → s_query s = s_query s' →
  (∀ n, n ∈ ["accept-encoding"; "accept-language"; "accept"] → h_str (s_headers s) n = h_str (s_headers s') n) →
  has_header (s_headers s) "cookie" = true → has_header (s_headers s') "cookie" = true →
  cache_key s = cache_key s'.
Proof.
  intros Hh Hp Hq Ha Hc Hc'. unfold cache_key, key_variance. rewrite Hh, Hp, Hq, Hc, Hc', !orb_true_r.
  do 4 f_equal. cbn [omap list_omap]. by rewrite !Ha by set_solver.
Qed.

(** A path can name another request's variant: a client that sends no [Cookie],
    [Authorization] or [Accept] headers and appends to the path what the key appends for a
    signed-in user reads, or fills, that user's entry. *)
Theorem cache_key_confusion (s s' : Session H) :
  extract_host s = extract_host s' → s_query s = None → s_query s' = None →
  key_variance (s_headers s') = "" → s_path s' = s_path s +:+ key_variance (s_headers s) →
  cache_key s' = cache_key s.
Proof.
  intros Hh Hq Hq' Hv Hp. unfold cache_key. rewrite Hh, Hq, Hq', Hv, Hp. cbn [query_part].
  by rewrite !str_app_nil_l, str_app_nil_r.
Qed.

(** An upstream can crash the response phase: a lifetime that reaches past the range of
    [SystemTime] is added without a check and panics. *)
Theorem huge_max_age_panics (now status t : Z) (h : H) (ctx : RequestCtx) (cfg : CachePolicy) (cc : string) :
  200 ≤ status < 300 → (ctx_plan ctx ≫= plan_cache) = Some cfg → cp_respect_cache_headers cfg = true →
  h_str h "cache-control" = Some cc →
  existsb (cache_control_has_directive (str_lower cc)) ["no-store"; "private"; "no-cache"] = false →
  parse_cache_ttl (str_lower cc) = Some t → h_str h "age" = None →
  0 ≤ now → i64_max < now / 1000000000 + t → 0 < t →
  response_cache_filter now status h ctx = None.
Proof.
  intros Hst Hc Hr Hcc Hd Ht Ha Hnow Hbig Hpos. unfold response_cache_filter. rewrite Hc, Hr.
  unfold header_ttl. rewrite Hcc, Hd, Ht, Ha.
  destruct (Z.eqb_spec t 0); [lia|]. simpl. rewrite Z.sub_0_r, Z.max_r by lia.
  destruct (Z.leb_spec 200 status), (Z.ltb_spec status 300); try lia. simpl.
  destruct (Z.eqb_spec t 0); [lia|]. unfold system_time_add. destruct (Z.leb_spec (now / 1000000000 + t) i64_max); [lia|done].
Qed.
End cache_properties.

(** *** Examples *)

Module CacheExamples.
#[local] Instance dates : DateParser := λ _, None.

Definition policy : CachePolicy :=
  {| cp_enabled := true; cp_default_ttl_secs := 60; cp_respect_cache_headers := true;
     cp_stale_while_revalidate_secs := 0; cp_max_file_size := 0 |}.
Definition cached_plan : CompiledPlan :=
  {| precedence := 0; plan_rule_order := 0; plan_gateway_api := false; plan_disable_secure_redirection := true;
     plan_listener_hostname := None;
     plan_match := {| rm_path := None; rm_method := None; rm_headers := []; rm_query_params := [] |};
     request_stages := []; upstream := None; upstream_request_mutations := []; response_mutations := [];
     body_rewrites := []; plan_cache := Some policy; websocket := false; plan_client_cert_id := None |}.
Definition ctx : RequestCtx := ctx_with_plan (new_ctx "id") (Some cached_plan).
Definition get (path : string) (headers : list (string * string)) : Session (list (string * string)) :=
  {| s_method := "GET"; s_uri_host := None; s_path := path; s_query := None;
     s_headers := ("Host", "shop.example.com") :: headers; s_client_addr := None; s_local_addr := None;
     s_ssl_digest := false |}.
Definition alice := get "/account" [("Cookie", "session=alice")].
Definition bob := get "/account" [("Cookie", "session=bob")].
Definition eve := get "/account|auth" [].
Definition noon : Z := 1700000000 * 1000000000.

(** The shared lifetime wins, and the age it arrived with counts. *)
Definition fresh_response : list (string * string) :=
  [("Cache-Control", "Public, max-age=3600 , S-Maxage=300"); ("Age", "100")].

Lemma fresh_written : written "Public, max-age=3600 , S-Maxage=300" [Extension "public"; MaxAge 3600; SMaxAge 300].
Proof.
  exists ["Public"; " max-age=3600 "; " S-Maxage=300"]. split_and!; [done|reflexivity|].
  repeat constructor; cbn; try done; try (intros Hin; by destruct_or! Hin); try lia.
  - apply (bool_decide_unpack _). vm_compute. exact I.
  - by intros [v [=]].
  - by intros [v [=]].
Qed.


Lemma cache_key_separates_urls_witness :
  extract_host alice = extract_host bob ∧ s_path alice = s_path bob ∧ s_query alice = s_query bob.
Proof.
  apply cache_key_separates_urls; [vm_compute; intuition discriminate..|done|done|vm_compute; reflexivity].
Defined.

Lemma cache_key_ignores_identity_witness : cache_key alice = cache_key bob.
Proof.
  apply (cache_key_ignores_identity alice bob); [reflexivity..| |reflexivity|reflexivity].
  intros n Hn. repeat (apply elem_of_cons in Hn as [->|Hn]; [vm_compute; reflexivity|]). by apply elem_of_nil in Hn.
Defined.

Lemma cache_key_confusion_witness : cache_key eve = cache_key alice.
Proof. apply (cache_key_confusion alice eve); vm_compute; reflexivity. Defined.

Lemma huge_max_age_panics_witness :
  response_cache_filter noon 200 [("Cache-Control", "max-age=9223372036854775807")] ctx = None.
Proof.
  apply (huge_max_age_panics noon 200 9223372036854775807 _ ctx policy "max-age=9223372036854775807");
    [lia|vm_compute; reflexivity..|vm_compute; intuition discriminate|vm_compute; reflexivity|lia].
Defined.

(** Only the first [Cache-Control] line counts: a response marked private in its second line
    is stored. *)
Lemma second_cache_control_ignored :
  ∃ m, response_cache_filter noon 200 [("Cache-Control", "max-age=60"); ("Cache-Control", "private")] ctx =
    Some (Cacheable m).
Proof. eexists. vm_compute. reflexivity. Qed.
End CacheExamples.
