(* ===== verification/Request.v ===== *)
(** * The request filter ([src/proxy/request_filter.rs]).

    The whole of [request_filter_inner] over sessions, the proxy's shared state and the
    request context: where the request came in, the misdirected-request test, the plain HTTP
    branch, the detection pipeline, the route lookup and the stages of the plan. Writing to
    the client is taken to succeed; what is written is the reply. *)

From S2P Require Import Prelude Net Ir Hostname Compile Lookup L4 L4Manager RouteManager RateLimit Filters Pipeline StaticFiles Float64 Limiter Bandwidth Ensemble Ddos Scanner Session.

(** The subrequest of an auth stage, and [reqwest]: status and headers, or an error. *)
Record AuthRequest := {
  ar_url : string;
  ar_headers : list (string * string);
}.

Class AuthClient (H : Type) := auth_send : AuthRequest → option (Z * H).

(** What the filter ends with: the request goes on to the upstream (after an interim
    [100 Continue] or not), or has been answered. *)
Inductive Reply (H : Type) :=
| Forward (wrote_continue : bool)
| Respond (r : Response H).
#[global] Arguments Forward {H} _.
#[global] Arguments Respond {H} _.

Section request_filter.
Context {H : Type} `{!HeaderOps H, !RegexEngine, FS : !FileSystem, !AuthClient H}.
Context `{!KeyHash, !FxHash, !IpHash, !BytesHash, !Libm}.

Abbreviation step A := (result A ProxyError).

(** The empty response with a status that the filter writes in most places. *)
Definition status_only (code : Z) : step (Response H) := respond code [("Content-Length", "0")].

(** ** Where the request came in *)

Definition downstream_context (px : SunbeamProxy) (s : Session H) : string * Z :=
  let direct := (if is_plain_http s then "http" else "https", downstream_port s) in
  match s_local_addr s with
  | Some local =>
      match http_relay_context px s with
      | Some c => (if hrc_secure c then "https" else "http", hrc_listener_port c)
      | None =>
          match https_terminate_port (px_l4_config px) local with
          | Some port => ("https", port)
          | None =>
              match http_relay_port (px_l4_config px) local with
              | Some port => ("http", port)
              | None => direct
              end
          end
      end
  | None => direct
  end.

(** The 421 test; the SNI of the connection is consumed. *)
Definition misdirected (px : SunbeamProxy) (scheme : string) (port : Z) (s : Session H) :
    bool * SunbeamProxy :=
  if bool_decide (scheme = "https") then
    let '(sni, px') := sni_for_session px s in
    match sni with
    | Some sni =>
        let sni_listener := listener_hostname_for (px_l4_config px) sni port in
        let host_listener := listener_hostname_for (px_l4_config px) (extract_host s) port in
        (match sni_listener, host_listener with
         | Some a, Some b => negb (bool_decide (a = b))
         | Some _, None => true
         | None, _ => false
         end, px')
    | None => (false, px')
    end
  else (false, px).

(** ** Terminal stages *)

Definition execute_terminal_stage (s : Session H) (t : TerminalAction) (host scheme : string) (port : Z) :
    step (Response H) :=
  match t with
  | TermRedirect rd =>
      let location := build_redirect_location_ir rd (s_uri_host s) (s_path s) host scheme port in
      respond (rd_status_code rd) [("Location", location); ("Content-Length", "0")]
  | TermFixedResponse status headers body =>
      (let? r := respond status headers in
       let? r := (if existsb (λ h, eq_ignore_ascii_case h.1 "content-type") headers then Ok r
                  else resp_insert r "Content-Type" "text/plain; charset=utf-8") in
       match body with
       | Some b =>
           let? r := resp_insert r "Content-Length" (pretty (Z.of_nat (String.length b))) in Ok (with_body r (Some b))
       | None => resp_insert r "Content-Length" "0"
       end)%result
  | TermNotFound => status_only 404
  end.

Definition terminal_of (st : RequestStage) : option TerminalAction :=
  match st with StageTerminal t => Some t | _ => None end.

(** ** The plain HTTP branch *)

Definition ACME_PREFIX : string := "/.well-known/acme-challenge/".

Definition plan_cors (m : ResponseMutation) : option CorsConfig :=
  match m with RmCors c => Some c | _ => None end.

Definition plain_preflight (s : Session H) (p : CompiledPlan) : option CorsConfig :=
  if bool_decide (s_method s = "OPTIONS") then
    match find_map plan_cors (response_mutations p) with
    | Some c =>
        if bool_decide (is_Some (h_get (s_headers s) "origin")) &&
           bool_decide (is_Some (h_get (s_headers s) "access-control-request-method"))
        then Some c else None
    | None => None
    end
  else None.

Definition plain_filter (px : SunbeamProxy) (ctx : RequestCtx) (s : Session H) : step (Reply H * RequestCtx) :=
  let host := extract_host s in
  let port := ctx_downstream_port ctx in
  if starts_with (s_path s) ACME_PREFIX then
    match px_acme_routes px !! s_path s with
    | Some backend => Ok (Forward false, ctx_with_acme ctx backend)
    | None => (let? r := status_only 404 in Ok (Respond r, ctx))%result
    end
  else
    match lookup_plan px s host port with
    | Some p =>
        if plan_gateway_api p || plan_disable_secure_redirection p then
          let ctx := ctx_with_plan ctx (Some p) in
          match plain_preflight s p with
          | Some c =>
              (let? r := build_response 204 in
               Ok (Respond (Build_Response 204 (apply_response_mutation (s_headers s) (resp_headers r) (RmCors c)) None),
                   ctx))%result
          | None =>
              match find_map terminal_of (request_stages p) with
              | Some t =>
                  (let? r := execute_terminal_stage s t host (ctx_downstream_scheme ctx) port in
                   Ok (Respond r, ctx))%result
              | None => Ok (Forward false, ctx)
              end
          end
        else
          (let? r := respond 301 [("Location", "https://" +:+ host +:+ s_path s +:+ query_part (s_query s));
                                  ("Content-Length", "0")] in
           Ok (Respond r, ctx))%result
    | None =>
        if has_gateway_api_routes (px_routes px) then
          (let? r := status_only 404 in Ok (Respond r, ctx))%result
        else
          (let? r := respond 301 [("Location", "https://" +:+ host +:+ s_path s +:+ query_part (s_query s));
                                  ("Content-Length", "0")] in
           Ok (Respond r, ctx))%result
    end.

(** ** The detection pipeline *)

Definition hdr_or (s : Session H) (n d : string) : string := default d (h_str (s_headers s) n).
Definition has_hdr (s : Session H) (n : string) : bool := bool_decide (is_Some (h_get (s_headers s) n)).

Definition content_length (s : Session H) : Z :=
  default 0 (h_str (s_headers s) "content-length" ≫= parse_uint u64_max).

(** Each layer ends with the response it blocks with, if any, and the new state; the outer
    [None] is a panic of the detector. *)
Definition layer : Type := option (option (step (Response H)) * SunbeamProxy).

Definition ddos_layer (px : SunbeamProxy) (now : Z) (s : Session H) : layer :=
  match px_ddos_detector px, extract_client_ip px s with
  | Some d, Some ip =>
      match ddos_check d now ip
              {| dr_method := s_method s; dr_path := s_path s; dr_host := extract_host s;
                 dr_user_agent := hdr_or s "user-agent" "-"; dr_content_length := content_length s;
                 dr_has_cookies := has_hdr s "cookie"; dr_has_referer := has_hdr s "referer";
                 dr_has_accept_language := has_hdr s "accept-language" |} with
      | None => None
      | Some (action, d') =>
          let px' := px_update px (Some d') (px_bot_allowlist px) (px_rate_limiter px) (px_sni_context px) in
          match action with
          | DDoSBlock =>
              if px_ddos_observe_only px then Some (None, px')
              else Some (Some (respond 429 [("Retry-After", "60"); ("Content-Length", "0")]), px')
          | DDoSAllow => Some (None, px')
          end
      end
  | _, _ => Some (None, px)
  end.

Definition scanner_layer (px : SunbeamProxy) (now : Z) (s : Session H) : layer :=
  match px_scanner_detector px with
  | None => Some (None, px)
  | Some d =>
      let bot :=
        match px_bot_allowlist px, extract_client_ip px s with
        | Some al, Some ip =>
            let '(reason, al') := bot_check al now (hdr_or s "user-agent" "-") ip in (reason, Some al')
        | al, _ => (None, al)
        end in
      let px' := px_update px (px_ddos_detector px) bot.2 (px_rate_limiter px) (px_sni_context px) in
      match bot.1 with
      | Some _ => Some (None, px')
      | None =>
          match scanner_check d
                  {| sr_method := s_method s; sr_path := s_path s;
                     sr_host_prefix := default "" (head (str_split "." (extract_host s)));
                     sr_has_cookies := has_hdr s "cookie"; sr_has_referer := has_hdr s "referer";
                     sr_has_accept_language := has_hdr s "accept-language"; sr_accept := hdr_or s "accept" "";
                     sr_user_agent := hdr_or s "user-agent" "-"; sr_content_length := content_length s |} with
          | None => None
          | Some v =>
              match sv_action v with
              | ScannerBlock =>
                  if px_scanner_observe_only px then Some (None, px') else Some (Some (status_only 403), px')
              | ScannerAllow => Some (None, px')
              end
          end
      end
  end.

Definition rate_limit_layer (px : SunbeamProxy) (now : Z) (s : Session H) : layer :=
  match px_rate_limiter px, extract_client_ip px s with
  | Some l, Some ip =>
      let key := extract_key (h_str (s_headers s) "cookie") (h_str (s_headers s) "authorization") ip in
      let '(res, l') := check l now ip key in
      let px' := px_update px (px_ddos_detector px) (px_bot_allowlist px) (Some l') (px_sni_context px) in
      match res with
      | Reject retry_after =>
          Some (Some (respond 429 [("Retry-After", pretty retry_after); ("Content-Length", "0")]), px')
      | Allow => Some (None, px')
      end
  | _, _ => Some (None, px)
  end.

(** The body of the bandwidth response; [dq] is the double quote. *)
Definition dq : string := String (Ascii.ascii_of_nat 34) "".
Definition bandwidth_body : string :=
  "{" +:+ dq +:+ "error" +:+ dq +:+ ":" +:+ dq +:+ "bandwidth_limit_exceeded" +:+ dq +:+ "," +:+
  dq +:+ "message" +:+ dq +:+ ":" +:+ dq +:+
  "Request rate-limited: aggregate bandwidth capacity exceeded. Please try again shortly." +:+ dq +:+ "}".

Definition bandwidth_layer (px : SunbeamProxy) (now : Z) : layer :=
  match px_cluster px with
  | Some l =>
      match bandwidth_check l now with
      | BwReject =>
          Some (Some (let? r := respond 429
                        [("Retry-After", "5"); ("Content-Type", "application/json");
                         ("Content-Length", pretty (Z.of_nat (String.length bandwidth_body)))] in
                      Ok (with_body r (Some bandwidth_body)))%result, px)
      | BwAllow => Some (None, px)
      end
  | None => Some (None, px)
  end.

(** One layer after the other, until one blocks. *)
Definition then_layer (l : layer) (k : SunbeamProxy → layer) : layer :=
  match l with
  | None => None
  | Some (Some r, px) => Some (Some r, px)
  | Some (None, px) => k px
  end.

Definition detection (px : SunbeamProxy) (now : Z) (s : Session H) : layer :=
  if match extract_client_ip px s with
     | Some ip => is_bypassed ip (px_pipeline_bypass_cidrs px)
     | None => false
     end
  then Some (None, px)
  else then_layer (ddos_layer px now s) (λ px,
       then_layer (scanner_layer px now s) (λ px,
       then_layer (rate_limit_layer px now s) (λ px, bandwidth_layer px now))).

(** ** The stages of a plan *)

Definition is_success (status : Z) : bool := (200 <=? status) && (status <? 300).

(** A stage ends with its response, if it short-circuits, and the new context. *)
Definition auth_request (s : Session H) (auth : AuthConfig) : AuthRequest :=
  let forward n := match h_get (s_headers s) n with Some v => [(n, default "" (h_to_str v))] | None => [] end in
  {| ar_url := auth_url auth;
     ar_headers := forward "cookie" ++ forward "authorization" ++ [("x-original-uri", s_path s)] |}.

Definition execute_auth_stage (s : Session H) (ctx : RequestCtx) (auth : AuthConfig) :
    step (option (Response H) * RequestCtx) :=
  match auth_send (auth_request s auth) with
  | Some (status, hs) =>
      if is_success status then
        let captured := omap (λ n, (λ v, (n, v)) <$> h_str hs n) (auth_capture_headers auth) in
        Ok (None, ctx_with_auth ctx (ctx_auth_headers ctx ++ captured))
      else (let? r := status_only 403 in Ok (Some r, ctx))%result
  | None => (let? r := status_only 502 in Ok (Some r, ctx))%result
  end.

Definition insert_if (b : bool) (r : Response H) (n v : string) : step (Response H) :=
  if b then resp_insert r n v else Ok r.

Definition execute_cors_preflight_stage (s : Session H) (cors : CorsConfig) : step (option (Response H)) :=
  let h := s_headers s in
  match h_str h "access-control-request-method" with
  | Some requested =>
      if eq_ignore_ascii_case (s_method s) "OPTIONS" then
        (let? r := build_response 204 in
         let? r := match h_str h "origin" with
                   | Some origin =>
                       if cors_allow_origin origin (allow_origins cors) (allow_credentials cors) then
                         let? r := resp_insert r "Access-Control-Allow-Origin" origin in
                         let? r := resp_insert r "Vary" "Origin" in
                         insert_if (allow_credentials cors) r "Access-Control-Allow-Credentials" "true"
                       else Ok r
                   | None => Ok r
                   end in
         let? r := insert_if (negb (bool_decide (allow_methods cors = []))) r "Access-Control-Allow-Methods"
                     (allow_list (allow_methods cors) (allow_credentials cors) (Some requested)) in
         let? r := insert_if (negb (bool_decide (allow_headers cors = []))) r "Access-Control-Allow-Headers"
                     (allow_list (allow_headers cors) (allow_credentials cors)
                        (h_str h "access-control-request-headers")) in
         let? r := match max_age cors with
                   | Some age => resp_insert r "Access-Control-Max-Age" (pretty age)
                   | None => Ok r
                   end in
         let? r := resp_insert r "Content-Length" "0" in
         Ok (Some r))%result
      else Ok None
  | None => Ok None
  end.

Definition execute_static_files_stage (px : SunbeamProxy) (s : Session H) (ctx : RequestCtx)
    (sfa : StaticFileAction) : step (option (Response H) * RequestCtx) :=
  let prefix := default "" (head (str_split "." (extract_host s))) in
  let serve_path :=
    match find_rewrites px prefix with
    | Some rewrites =>
        match List.find (λ rw, regex_is_match (cw_pattern rw) (s_path s)) rewrites with
        | Some rw => cw_target rw
        | None => s_path s
        end
    | None => s_path s
    end in
  (let? served := try_serve (sf_root sfa) (sf_fallback sfa) serve_path (sf_extra_headers sfa) in
   match served with
   | Some r => Ok (Some r, ctx_with_static ctx)
   | None => Ok (None, ctx)
   end)%result.

(** The stage loop. *)
Fixpoint run_stages (px : SunbeamProxy) (s : Session H) (ctx : RequestCtx) (stages : list RequestStage) :
    step (option (Response H) * RequestCtx) :=
  match stages with
  | [] => Ok (None, ctx)
  | st :: stages =>
      (let? out := match st with
                   | StageAuth auth => execute_auth_stage s ctx auth
                   | StageCorsPreflight cors =>
                       let? r := execute_cors_preflight_stage s cors in Ok (r, ctx)
                   | StageStaticFiles sfa => execute_static_files_stage px s ctx sfa
                   | StageTerminal t =>
                       let? r := execute_terminal_stage s t (extract_host s) (ctx_downstream_scheme ctx)
                                   (ctx_downstream_port ctx) in Ok (Some r, ctx)
                   end in
       match out with
       | (Some r, ctx) => Ok (Some r, ctx)
       | (None, ctx) => run_stages px s ctx stages
       end)%result
  end.

Definition expects_continue (s : Session H) : bool :=
  match h_str (s_headers s) "expect" with Some v => eq_ignore_ascii_case v "100-continue" | None => false end.

(** After the pipeline: the single route lookup and its plan. *)
Definition routed_filter (px : SunbeamProxy) (ctx : RequestCtx) (s : Session H) : step (Reply H * RequestCtx) :=
  let host := extract_host s in
  match lookup_plan px s host (ctx_downstream_port ctx) with
  | Some p =>
      (let? out := run_stages px s (ctx_with_plan ctx (Some p)) (request_stages p) in
       match out with
       | (Some r, ctx) => Ok (Respond r, ctx)
       | (None, ctx) => Ok (Forward (expects_continue s), ctx)
       end)%result
  | None =>
      if has_gateway_api_listener (px_routes px) host (ctx_downstream_port ctx)
      then Ok (Forward false, ctx_with_plan ctx None)
      else (let? r := status_only 404 in Ok (Respond r, ctx))%result
  end.

(** ** [request_filter_inner] *)

(** [None] is a panic of a detector. *)
Definition request_filter (px : SunbeamProxy) (now : Z) (ctx : RequestCtx) (s : Session H) :
    option (step (Reply H * RequestCtx) * SunbeamProxy) :=
  let '(scheme, port) := downstream_context px s in
  let ctx := ctx_with_downstream ctx scheme port in
  let '(bad, px) := misdirected px scheme port s in
  if bad then Some ((let? r := status_only 421 in Ok (Respond r, ctx))%result, px)
  else if is_plain_http s then Some (plain_filter px ctx s, px)
  else
    match detection px now s with
    | None => None
    | Some (Some blocked, px) => Some ((let? r := blocked in Ok (Respond r, ctx))%result, px)
    | Some (None, px) => Some (routed_filter px ctx s, px)
    end.
End request_filter.

(** ** Lemmas *)

Section lemmas.
Context {H : Type} `{!HeaderOps H, !RegexEngine, FS : !FileSystem, !AuthClient H}.
Context `{!KeyHash, !FxHash, !IpHash, !BytesHash, !Libm}.

(** *** Responses *)

Definition resp_wf (r : Response H) : Prop := 100 ≤ resp_status r ≤ 999.

Lemma build_response_wf code (r : Response H) : build_response code = Ok r → resp_wf r ∧ resp_status r = code.
Proof.
  unfold build_response, resp_wf. destruct (_ && _) eqn:Hc; [|done]. intros [= <-]. simpl. simp_bool. lia.
Qed.

Lemma resp_insert_wf (r r' : Response H) n v : resp_insert r n v = Ok r' → resp_wf r → resp_wf r'.
Proof. unfold resp_wf. intros Hi. by destruct (resp_insert_get r r' n v "" Hi) as (-> & _). Qed.

Lemma resp_insert_all_wf (r r' : Response H) hs : resp_insert_all r hs = Ok r' → resp_wf r → resp_wf r'.
Proof.
  revert r. induction hs as [|[n v] hs IH]; intros r; simpl; [by intros [= <-]|].
  intros (r1 & Hi & Hr)%result_bind_ok Hwf. eapply IH; [done|]. by eapply resp_insert_wf.
Qed.

Lemma respond_wf code hs (r : Response H) : respond code hs = Ok r → resp_wf r.
Proof.
  unfold respond. intros (r1 & Hb & Hr)%result_bind_ok. eapply resp_insert_all_wf; [done|].
  by apply build_response_wf in Hb as [? _].
Qed.

Lemma insert_if_wf b (r r' : Response H) n v : insert_if b r n v = Ok r' → resp_wf r → resp_wf r'.
Proof. destruct b; simpl; [apply resp_insert_wf|by intros [= <-]]. Qed.

Lemma terminal_wf s t host scheme port (r : Response H) :
  execute_terminal_stage s t host scheme port = Ok r → resp_wf r.
Proof.
  destruct t as [rd|status hs body|]; cbn [execute_terminal_stage]; [apply respond_wf| |apply respond_wf].
  intros (r1 & Hs1%respond_wf & (r2 & Hs2 & Hs3)%result_bind_ok)%result_bind_ok.
  assert (resp_wf r2) as Hwf.
  { destruct (existsb _ _); [by injection Hs2 as <-|by eapply resp_insert_wf]. }
  destruct body as [b|]; [|by eapply resp_insert_wf].
  apply result_bind_ok in Hs3 as (r3 & Hs3 & [= <-]). by apply (resp_insert_wf _ _ _ _ Hs3 Hwf).
Qed.

Lemma preflight_wf (s : Session H) cors r : execute_cors_preflight_stage s cors = Ok (Some r) → resp_wf r.
Proof.
  unfold execute_cors_preflight_stage. destruct (h_str _ _) as [requested|]; [|done].
  destruct (eq_ignore_ascii_case _ _); [|done].
  intros (r1 & [Hs1 _]%build_response_wf & (r2 & Hs2 & (r3 & Hs3 & (r4 & Hs4 & (r5 & Hs5 & (r6 & Hs6 & [= <-])%result_bind_ok)
    %result_bind_ok)%result_bind_ok)%result_bind_ok)%result_bind_ok)%result_bind_ok.
  assert (resp_wf r2) as Hr2.
  { destruct (h_str (s_headers s) "origin") as [o|]; [|by injection Hs2 as <-].
    destruct (cors_allow_origin _ _ _); [|by injection Hs2 as <-].
    apply result_bind_ok in Hs2 as (a & Ha & (b & Hb & Hc)%result_bind_ok).
    eapply insert_if_wf; [done|]. eapply resp_insert_wf; [done|]. by eapply resp_insert_wf. }
  assert (resp_wf r5) as Hr5.
  { assert (resp_wf r4) by (eapply insert_if_wf; [done|]; by eapply insert_if_wf).
    destruct (max_age cors); [by eapply resp_insert_wf|by injection Hs5 as <-]. }
  by eapply resp_insert_wf.
Qed.

(** *** Stages *)

Lemma auth_stage_inv (s : Session H) ctx auth out ctx' :
  execute_auth_stage s ctx auth = Ok (out, ctx') →
  match out with
  | None => ∃ status hs, auth_send (auth_request s auth) = Some (status, hs) ∧ is_success status = true
  | Some r => resp_wf r ∧ (resp_status r = 403 ∨ resp_status r = 502)
  end.
Proof.
  unfold execute_auth_stage. destruct (auth_send _) as [[status hs]|]; [destruct (is_success status) eqn:Hs|].
  - intros [= <- <-]. eauto.
  - intros (r & Hr & [= <- <-])%result_bind_ok. split; [by eapply respond_wf|].
    destruct (respond_get _ _ _ "" Hr) as (? & _). auto.
  - intros (r & Hr & [= <- <-])%result_bind_ok. split; [by eapply respond_wf|].
    destruct (respond_get _ _ _ "" Hr) as (? & _). auto.
Qed.

Lemma try_serve_wf root fb path extra (r : Response H) : try_serve root fb path extra = Ok (Some r) → resp_wf r.
Proof.
  unfold try_serve. destruct (find_file _ _ _); [|done]. intros (r1 & Hr & [= <-])%result_bind_ok.
  by apply respond_wf in Hr.
Qed.

Lemma run_stages_spec px (s : Session H) ctx stages out ctx' :
  run_stages px s ctx stages = Ok (out, ctx') →
  match out with
  | Some r => resp_wf r
  | None => ∀ auth, StageAuth auth ∈ stages →
      ∃ status hs, auth_send (auth_request s auth) = Some (status, hs) ∧ is_success status = true
  end.
Proof.
  revert ctx. induction stages as [|st stages IH]; intros ctx; cbn [run_stages].
  { intros [= <- <-] auth Hin. by apply elem_of_nil in Hin. }
  intros ([out1 ctx1] & Hst & Hrest)%result_bind_ok.
  destruct out1 as [r|].
  - injection Hrest as <- <-. destruct st as [auth|cors|sfa|t].
    + by apply auth_stage_inv in Hst as [? _].
    + apply result_bind_ok in Hst as (r1 & Hr & Heq). simplify_eq. by eapply preflight_wf.
    + unfold execute_static_files_stage in Hst. apply result_bind_ok in Hst as (served & Hs & Heq).
      destruct served; simplify_eq. by eapply try_serve_wf.
    + apply result_bind_ok in Hst as (r1 & Hr & Heq). simplify_eq. by eapply terminal_wf.
  - specialize (IH _ Hrest). destruct out as [r|]; [done|].
    intros auth [<-|Hin]%elem_of_cons; [|by apply IH]. by apply auth_stage_inv in Hst.
Qed.

(** The stages keep the plan. *)
Lemma run_stages_plan px (s : Session H) ctx stages out ctx' :
  run_stages px s ctx stages = Ok (out, ctx') → ctx_plan ctx' = ctx_plan ctx.
Proof.
  revert ctx. induction stages as [|st stages IH]; intros ctx; cbn [run_stages]; [by intros [= _ <-]|].
  intros ([out1 ctx1] & Hst & Hrest)%result_bind_ok.
  assert (ctx_plan ctx1 = ctx_plan ctx) as <-.
  { destruct st as [auth|cors|sfa|t].
    - unfold execute_auth_stage in Hst. destruct (auth_send _) as [[status hs]|]; [destruct (is_success status)|];
        [by simplify_eq|apply result_bind_ok in Hst as (? & _ & ?); by simplify_eq..].
    - apply result_bind_ok in Hst as (? & _ & ?). by simplify_eq.
    - unfold execute_static_files_stage in Hst. apply result_bind_ok in Hst as (served & _ & Heq).
      destruct served; by simplify_eq.
    - apply result_bind_ok in Hst as (? & _ & ?). by simplify_eq. }
  destruct out1; [by simplify_eq|by apply IH].
Qed.
End lemmas.

Section more_lemmas.
Context {H : Type} `{!HeaderOps H, !RegexEngine, FS : !FileSystem, !AuthClient H}.
Context `{!KeyHash, !FxHash, !IpHash, !BytesHash, !Libm}.

(** Consuming the SNI touches nothing else. *)
Lemma misdirected_px px scheme port (s : Session H) bad px' :
  misdirected px scheme port s = (bad, px') →
  ∃ sni, px' = px_update px (px_ddos_detector px) (px_bot_allowlist px) (px_rate_limiter px) sni.
Proof.
  assert (∃ sni, px = px_update px (px_ddos_detector px) (px_bot_allowlist px) (px_rate_limiter px) sni) as Hid.
  { exists (px_sni_context px). by destruct px. }
  unfold misdirected, sni_for_session. case_bool_decide; [|by intros [= _ <-]].
  destruct (s_client_addr s) as [a|]; [|by intros [= _ <-]].
  destruct (px_sni_context px !! a); intros [= _ <-]; eauto.
Qed.
End more_lemmas.

(** ** Properties *)

Section request_properties.
Context {H : Type} `{!HeaderOps H, !RegexEngine, FS : !FileSystem, A : !AuthClient H}.
Context `{!KeyHash, !FxHash, !IpHash, !BytesHash, !Libm}.

(** C5. No unauthenticated request passes on a TLS session: when a request of a plan with auth
    stages goes on to the upstream, each of these stages sent its subrequest and got a
    success. *)
Theorem auth_guards_upstream px now ctx (s : Session H) b ctx' px' p auth :
  s_ssl_digest s = true →
  request_filter px now ctx s = Some (Ok (Forward b, ctx'), px') →
  ctx_plan ctx' = Some p → StageAuth auth ∈ request_stages p →
  ∃ status hs, auth_send (auth_request s auth) = Some (status, hs) ∧ is_success status = true.
Proof.
  intros Hssl Hf Hp Hauth. revert Hf. unfold request_filter.
  destruct (downstream_context px s) as [scheme port].
  destruct (misdirected px scheme port s) as [[] px1].
  { intros [= Hr _]. by apply result_bind_ok in Hr as (r1 & _ & Heq). }
  unfold is_plain_http. rewrite Hssl. cbn [negb].
  destruct (detection px1 now s) as [[[bl|] px2]|]; [| |done].
  { intros [= Hr _]. by apply result_bind_ok in Hr as (r1 & _ & Heq). }
  intros [= Hr _]. revert Hr. unfold routed_filter. cbv zeta.
  destruct (lookup_plan _ _ _ _) as [p'|].
  - intros ([[r1|] c] & Hr & Heq)%result_bind_ok; simplify_eq.
    assert (p' = p) as -> by (apply run_stages_plan in Hr; simpl in Hr; congruence).
    by apply (run_stages_spec _ _ _ _ _ _ Hr).
  - destruct (has_gateway_api_listener _ _ _); [by intros [= _ <-]|].
    by intros (r1 & _ & Heq)%result_bind_ok.
Qed.

(** C8. From the public socket to the route lookup: under every interleaving of the relays, a
    request that arrives over a relay in flight is attributed to that relay's own listener
    port, scheme and client. Its headers cannot change the client address unless the client
    itself is a trusted proxy. *)
Theorem relayed_request_context (st : RelayState) c relay px (s : Session H) :
  rtc relay_step RelayState_init st → relays st !! c = Some relay → rl_phase relay = Relaying →
  px_http_context px = http_context st → s_client_addr s = Some (rl_local relay) → is_Some (s_local_addr s) →
  let ip := socket_ip (hrc_client_addr (rl_context relay)) in
  downstream_context px s =
    (if hrc_secure (rl_context relay) then "https" else "http", hrc_listener_port (rl_context relay)) ∧
  (is_bypassed ip (px_trusted_proxy_cidrs px) = false → extract_client_ip px s = Some ip).
Proof.
  intros Hreach Hr Hph Hpx Hcl [local Hl]. cbv zeta.
  destruct (ri_published _ (relay_inv_reachable _ _ Hreach relay_inv_init) _ _ Hr) as [Hh _].
  unfold published_http in Hh. rewrite Hph in Hh.
  assert (http_relay_context px s = Some (rl_context relay)) as Hc.
  { unfold http_relay_context. by rewrite Hcl, Hpx. }
  split; [unfold downstream_context; by rewrite Hl, Hc|].
  intros Hb. unfold extract_client_ip. by rewrite Hc, Hb.
Qed.

(** A request over the limit is answered 429 with the limiter's delay: on a TLS session
    from an address off the bypass list, when the DDoS and scanner layers let it pass and
    the token bucket refuses, the reply has status 429 and [Retry-After] as the bucket
    computed it, and the bucket's new state is kept. *)
Theorem rate_limited_gets_429 px now ctx (s : Session H) ip px1 px2 l l' n r ctx' px' :
  s_ssl_digest s = true → misdirected px (downstream_context px s).1 (downstream_context px s).2 s = (false, px1) →
  extract_client_ip px1 s = Some ip → is_bypassed ip (px_pipeline_bypass_cidrs px1) = false →
  then_layer (ddos_layer px1 now s) (λ px, scanner_layer px now s) = Some (None, px2) →
  px_rate_limiter px2 = Some l → extract_client_ip px2 s = Some ip →
  check l now ip (extract_key (h_str (s_headers s) "cookie") (h_str (s_headers s) "authorization") ip) =
    (Reject n, l') →
  request_filter px now ctx s = Some (Ok (Respond r, ctx'), px') →
  resp_status r = 429 ∧ h_get_all (resp_headers r) "retry-after" = [pretty n] ∧ px_rate_limiter px' = Some l'.
Proof.
  intros Hssl Hm Hip Hby Hl12 Hl Hip2 Hc. unfold request_filter.
  destruct (downstream_context px s) as [scheme port]. cbn [fst snd] in Hm. rewrite Hm.
  unfold is_plain_http. rewrite Hssl. cbn [negb].
  assert (detection px1 now s = Some (Some (respond 429 [("Retry-After", pretty n); ("Content-Length", "0")]),
    px_update px2 (px_ddos_detector px2) (px_bot_allowlist px2) (Some l') (px_sni_context px2))) as ->.
  { unfold detection. rewrite Hip, Hby.
    destruct (ddos_layer px1 now s) as [[[?|] q]|]; simpl in Hl12; [done| |done].
    cbn [then_layer]. rewrite Hl12. cbn [then_layer]. unfold rate_limit_layer. rewrite Hl, Hip2, Hc. done. }
  intros [= Hr <-]. apply result_bind_ok in Hr as (r1 & Hr & Heq). simplify_eq.
  destruct (respond_get _ _ _ "retry-after" Hr) as (Hst & _ & Hg). split_and!; [done| |done].
  rewrite Hg. vm_compute. done.
Qed.

(** A connection that names one listener in its handshake cannot reach another's hosts with
    its first request: over HTTPS, when the SNI and the host select different listeners the
    reply is 421. But the SNI is consumed by the test: no later request of the connection is
    tested, whatever host it names. *)
Theorem misdirected_refused_once px now ctx (s : Session H) peer sni a :
  s_client_addr s = Some peer → (downstream_context px s).1 = "https" →
  px_sni_context px !! peer = Some sni →
  listener_hostname_for (px_l4_config px) sni (downstream_context px s).2 = Some a →
  listener_hostname_for (px_l4_config px) (extract_host s) (downstream_context px s).2 ≠ Some a →
  (∀ r ctx' px', request_filter px now ctx s = Some (Ok (Respond r, ctx'), px') →
     resp_status r = 421 ∧
     ∀ (s' : Session H) scheme port, s_client_addr s' = Some peer → (misdirected px' scheme port s').1 = false) ∧
  (∀ ctx' b px', request_filter px now ctx s ≠ Some (Ok (Forward b, ctx'), px')).
Proof.
  intros Hp Hsch Hsni Ha Hh. unfold request_filter. destruct (downstream_context px s) as [scheme port].
  cbn [fst snd] in *. subst scheme.
  assert (misdirected px "https" port s = (true, px_update px (px_ddos_detector px) (px_bot_allowlist px)
    (px_rate_limiter px) (delete peer (px_sni_context px)))) as ->.
  { unfold misdirected, sni_for_session. rewrite bool_decide_true, Hp, Hsni, Ha by done.
    destruct (listener_hostname_for _ (extract_host s) port); [|done].
    rewrite bool_decide_false by congruence. done. }
  split.
  - intros r ctx' px' [= Hr <-]. apply result_bind_ok in Hr as (r1 & Hr & Heq). simplify_eq.
    destruct (respond_get _ _ _ "" Hr) as (Hst & _). split; [done|].
    intros s' scheme port' Hp'. unfold misdirected, sni_for_session. rewrite Hp'. cbn [px_sni_context px_update].
    rewrite lookup_delete_eq. by case_bool_decide.
  - intros ctx' b px' [= Hr _]. by apply result_bind_ok in Hr as (r1 & _ & Heq).
Qed.

(** Decrypted HTTPS of a host without Gateway API routes is redirected to itself: for any
    request relayed after TLS termination that matches no route, or a route that does not
    opt out of the redirect, the reply is 301 to the [https] form of the URL it came for. *)
Theorem https_redirected_to_itself px now ctx (s : Session H) relay r ctx' px' :
  s_ssl_digest s = false → is_Some (s_local_addr s) →
  http_relay_context px s = Some relay → hrc_secure relay = true → px_sni_context px = ∅ →
  starts_with (s_path s) ACME_PREFIX = false →
  match lookup_plan px s (extract_host s) (hrc_listener_port relay) with
  | Some p => plan_gateway_api p = false ∧ plan_disable_secure_redirection p = false
  | None => has_gateway_api_routes (px_routes px) = false
  end →
  request_filter px now ctx s = Some (Ok (Respond r, ctx'), px') →
  ctx_downstream_scheme ctx' = "https" ∧ resp_status r = 301 ∧
  h_get_all (resp_headers r) "location" = ["https://" +:+ extract_host s +:+ s_path s +:+ query_part (s_query s)].
Proof.
  intros Hssl [local Hl] Hrel Hsec Hsni Hacme Hplan. unfold request_filter.
  assert (downstream_context px s = ("https", hrc_listener_port relay)) as ->.
  { unfold downstream_context. by rewrite Hl, Hrel, Hsec. }
  destruct (misdirected px "https" (hrc_listener_port relay) s) as [bad px1] eqn:Hm.
  assert (bad = false) as ->.
  { unfold misdirected, sni_for_session in Hm. rewrite Hsni in Hm. rewrite bool_decide_true in Hm by done.
    destruct (s_client_addr s); [rewrite lookup_empty in Hm|]; by injection Hm as <-. }
  apply misdirected_px in Hm as [sni ->]. unfold is_plain_http. rewrite Hssl. cbn [negb].
  intros [= Hr _]. revert Hr. unfold plain_filter. cbv zeta. rewrite Hacme.
  cbn [ctx_downstream_port ctx_with_downstream ctx_downstream_scheme].
  change (lookup_plan (px_update _ _ _ _ _) s) with (lookup_plan px s).
  destruct (lookup_plan px s (extract_host s) (hrc_listener_port relay)) as [p|].
  - destruct Hplan as [-> ->]. cbn [orb]. intros (r1 & Hr & Heq)%result_bind_ok. simplify_eq.
    destruct (respond_get _ _ _ "location" Hr) as (Hst & _ & Hg). split_and!; [done..|]. by rewrite Hg.
  - cbn [px_routes px_update]. rewrite Hplan. intros (r1 & Hr & Heq)%result_bind_ok. simplify_eq.
    destruct (respond_get _ _ _ "location" Hr) as (Hst & _ & Hg). split_and!; [done..|]. by rewrite Hg.
Qed.
End request_properties.

(** *** Examples *)

Module RequestExamples.
Import StaticExamples.
Abbreviation hdrs := (list (string * string)).
#[export] Instance regexes : RegexEngine := λ pattern v, bool_decide (pattern = v).
#[export] Instance keys : KeyHash := λ _, 0.
#[export] Instance fx : FxHash := λ s, Z.of_nat (String.length s).
#[export] Instance ips : IpHash := λ _, 0.
#[export] Instance bytes_hash : BytesHash := λ s, Z.of_nat (String.length s).
#[export] Instance libm : Libm := {| f32_exp := id; f64_ln := id |}.

(** An auth service that knows one cookie. *)
#[export] Instance auth_service : AuthClient hdrs :=
  λ r, Some (if bool_decide (("cookie", "sid=1") ∈ ar_headers r) then 200 else 401, []).

Definition auth : AuthConfig := {| auth_url := "http://auth/verify"; auth_capture_headers := [] |}.
Definition guarded : Rule :=
  {| rule_matches := [RequestMatch_default];
     rule_action := ActRoute {| ra_backends := []; ra_timeout := None; ra_request_filters := [];
       ra_response_filters := []; ra_mirror_backends := []; ra_mirror_fractions := []; ra_cache := None;
       ra_body_rewrites := []; ra_auth := Some auth; ra_websocket := false; ra_disable_https_redirect := false;
       ra_client_cert_id := None |};
     rule_order := 0 |}.
Definition routes (gateway : bool) : CompiledRouteTable :=
  match compile {| rt_listeners := []; rt_hosts := [{| hr_hostname := HostExact "app.example.com";
      hr_listener_ids := []; hr_listener_hostname := None; hr_listener_port := None; hr_gateway_api := gateway;
      hr_disable_secure_redirection := false; hr_rules := [guarded] |}];
    rt_acme_routes := ∅; rt_l4_routes := []; rt_tls_certs := [] |} with
  | Ok t => t
  | Err _ => {| exact_hosts := ∅; wildcard_hosts := []; any_host := None; acme_routes := ∅ |}
  end.

Definition relay_addr : SocketAddr := SocketV4 2130706433 50000.
Definition l4 : CompiledL4Config :=
  {| listeners := [{| cl_id := "app"; cl_bind_addr := "0.0.0.0:443"; cl_protocol := Https; cl_tls := None;
                      cl_redirect_http_to_https := false; cl_frontend_validation := None |}];
     tcp_routes := []; udp_routes := []; tls_routes := [];
     https_routes := [{| cr_listener_id := "app"; cr_listener_hostname := HostExact "app.example.com";
                         cr_match := L4Any; cr_action := TerminateAndHttp "127.0.0.1:10443"; cr_priority := 0 |}];
     http_routes := [] |}.
Definition limiter : RateLimiter :=
  RateLimiter_new {| rlc_enabled := true; rlc_bypass_cidrs := []; rlc_eviction_interval_secs := 60;
    rlc_stale_after_secs := 60; rlc_authenticated := {| burst := 0; rate := f64_of_Z 1 |};
    rlc_unauthenticated := {| burst := 0; rate := f64_of_Z 1 |} |}.
Definition proxy (gateway : bool) (lim : option RateLimiter) (sni : gmap SocketAddr string) : SunbeamProxy :=
  {| px_routes := routes gateway; px_l4_config := l4; px_acme_routes := ∅; px_ddos_detector := None;
     px_scanner_detector := None; px_bot_allowlist := None; px_rate_limiter := lim; px_compiled_rewrites := [];
     px_pipeline_bypass_cidrs := []; px_trusted_proxy_cidrs := []; px_x_forwarded_for := true;
     px_cluster := None; px_ddos_observe_only := false; px_scanner_observe_only := false;
     px_sni_context := sni;
     px_http_context := {[relay_addr := {| hrc_listener_id := "app"; hrc_listener_port := 443; hrc_secure := true;
                                           hrc_client_addr := SocketV4 3405803785 40000 |}]} |}.
Definition get (tls : bool) (host cookie : string) : Session hdrs :=
  {| s_method := "GET"; s_uri_host := None; s_path := "/private"; s_query := None;
     s_headers := [("Host", host); ("Cookie", cookie)]; s_client_addr := Some relay_addr;
     s_local_addr := Some (SocketV4 2130706433 10443); s_ssl_digest := tls |}.

Lemma auth_guards_upstream_witness :
  ∃ status hs, auth_send (auth_request (get true "app.example.com" "sid=1") auth) = Some (status, hs) ∧
    is_success status = true.
Proof.
  destruct (request_filter (proxy true None ∅) 0 (new_ctx "id") (get true "app.example.com" "sid=1"))
    as [[[[[b|r] c]|e] q]|] eqn:Hf; try (vm_compute in Hf; discriminate Hf).
  destruct (ctx_plan c) as [p|] eqn:Hp; [|vm_compute in Hf; injection Hf as <- <- <-; discriminate Hp].
  apply (auth_guards_upstream (proxy true None ∅) 0 (new_ctx "id") (get true "app.example.com" "sid=1") b c q p auth eq_refl Hf Hp).
  vm_compute in Hf. injection Hf as <- <- <-. injection Hp as <-. left.
Defined.

(** A plan with an auth stage, reached over HTTPS through the relay: without any credential
    the request goes on to the upstream. *)
Example relayed_request_skips_auth :
  match request_filter (proxy true (Some limiter) ∅) 0 (new_ctx "id") (get false "app.example.com" "none") with
  | Some (Ok (Forward _, c), _) => ctx_downstream_scheme c = "https" ∧
      match ctx_plan c with Some p => StageAuth auth ∈ request_stages p | None => False end
  | _ => False
  end.
Proof. vm_compute. split; [reflexivity|left]. Qed.

Import RelayExamples.

Lemma relayed_request_context_witness :
  let st := relay_advance 0 plain_relay (connect 0 plain_relay RelayState_init) in
  let px := {| px_routes := routes true; px_l4_config := l4; px_acme_routes := ∅; px_ddos_detector := None;
     px_scanner_detector := None; px_bot_allowlist := None; px_rate_limiter := None; px_compiled_rewrites := [];
     px_pipeline_bypass_cidrs := []; px_trusted_proxy_cidrs := []; px_x_forwarded_for := true;
     px_cluster := None; px_ddos_observe_only := false; px_scanner_observe_only := false;
     px_sni_context := ∅; px_http_context := http_context st |} in
  downstream_context px (get false "app.example.com" "") = ("http", 443) ∧
  extract_client_ip px (get false "app.example.com" "") = Some (V4 3405803785).
Proof.
  intros st px.
  destruct (relayed_request_context st 0 (with_phase plain_relay Relaying) px (get false "app.example.com" ""))
    as [Hd Hip]; [|reflexivity|reflexivity|reflexivity|reflexivity|by eexists|].
  - eapply rtc_l; [apply (step_connect 0 plain_relay); [reflexivity| |left; repeat eexists]|].
    { intros ?? Hr. simpl in Hr. by rewrite lookup_empty in Hr. }
    eapply rtc_l; [by apply (step_advance 0 plain_relay)|apply rtc_refl].
  - split; [exact Hd|]. apply Hip. reflexivity.
Defined.

Lemma rate_limited_gets_429_witness :
  match request_filter (proxy true (Some limiter) ∅) 0 (new_ctx "id") (get true "app.example.com" "sid=1") with
  | Some (Ok (Respond r, _), _) => resp_status r = 429 ∧ h_get_all (resp_headers r) "retry-after" = ["1"]
  | _ => False
  end.
Proof.
  destruct (request_filter _ _ _ _) as [[[[[b|r] c]|e] q]|] eqn:Hf; try (vm_compute in Hf; discriminate Hf).
  set (s := get true "app.example.com" "sid=1") in *. set (px := proxy true (Some limiter) ∅) in *.
  destruct (check limiter 0 (V4 3405803785) (extract_key (h_str (s_headers s) "cookie")
    (h_str (s_headers s) "authorization") (V4 3405803785))) as [[|n] l'] eqn:Hc; [vm_compute in Hc; discriminate Hc|].
  destruct (rate_limited_gets_429 px 0 (new_ctx "id") s (V4 3405803785) (misdirected px "https" 443 s).2
    (misdirected px "https" 443 s).2 limiter l' n r c q) as (Hst & Hra & _);
    [reflexivity..|exact Hc|exact Hf|].
  split; [exact Hst|]. rewrite Hra. vm_compute in Hc. injection Hc as <- _. reflexivity.
Defined.

Lemma misdirected_refused_once_witness :
  let px := proxy true None {[relay_addr := "app.example.com"]} in
  match request_filter px 0 (new_ctx "id") (get false "other.example.com" "") with
  | Some (Ok (Respond r, _), px') => resp_status r = 421 ∧ (misdirected px' "https" 443 (get false "other.example.com" "")).1 = false
  | _ => False
  end.
Proof.
  cbv zeta. set (px := proxy true None _).
  destruct (misdirected_refused_once px 0 (new_ctx "id") (get false "other.example.com" "") relay_addr
    "app.example.com" (HostExact "app.example.com")) as [Hr Hn];
    [reflexivity|reflexivity|reflexivity|vm_compute; reflexivity|vm_compute; discriminate|].
  destruct (request_filter px _ _ _) as [[[[[b|r] c]|e] q]|] eqn:Hf; try (vm_compute in Hf; discriminate Hf).
  destruct (Hr r c q eq_refl) as [Hst Hsec]. split; [exact Hst|]. by apply Hsec.
Defined.

Lemma https_redirected_to_itself_witness :
  match request_filter (proxy false None ∅) 0 (new_ctx "id") (get false "app.example.com" "sid=1") with
  | Some (Ok (Respond r, c), _) =>
      ctx_downstream_scheme c = "https" ∧ h_get_all (resp_headers r) "location" = ["https://app.example.com/private"]
  | _ => False
  end.
Proof.
  destruct (request_filter _ _ _ _) as [[[[[b|r] c]|e] q]|] eqn:Hf; try (vm_compute in Hf; discriminate Hf).
  destruct (https_redirected_to_itself (proxy false None ∅) 0 (new_ctx "id") (get false "app.example.com" "sid=1")
    {| hrc_listener_id := "app"; hrc_listener_port := 443; hrc_secure := true;
       hrc_client_addr := SocketV4 3405803785 40000 |} r c q) as (Hs & _ & Hl);
    [reflexivity|by eexists|vm_compute; reflexivity|reflexivity|reflexivity|reflexivity
    |vm_compute; split; reflexivity|exact Hf|].
  split; [exact Hs|exact Hl].
Defined.
End RequestExamples.
