(* ===== verification/Peer.v ===== *)
(** * Upstream selection ([src/proxy/routing.rs], [make_peer] of [src/proxy/mod.rs], the
    connector settings of [src/proxy/upstream_tls.rs]).

    Name resolution is [tokio], the defaults of a peer are [pingora]'s, certificates are the
    registry's; they are a class or arguments. Timeouts are in nanoseconds. *)

From S2P Require Import Prelude Net Ir Hostname Compile Lookup L4 L4Manager RouteManager RateLimit Filters Pipeline StaticFiles Float64 Limiter Bandwidth Ensemble Ddos Scanner Session Request.

Inductive ALPN := AlpnH1 | AlpnH2 | AlpnH2H1.
Inductive PeerScheme := SchemeHttp | SchemeHttps.

#[export] Instance PeerScheme_eq_dec : EqDecision PeerScheme.
Proof. solve_decision. Defined.

(** [DynamicUpstreamL4]. *)
Record DynamicUpstreamL4 := {
  du_sni : string;
  du_verify_hostname : bool;
  du_verify_cert : bool;
  du_alternative_cn : option string;
  du_client_cert : option string;
  du_ca_bundle_pem : option string;
  du_subject_alt_names : list string;
  du_alpn : option ALPN;
}.

Definition DynamicUpstreamL4_new (tls : BackendTlsConfig) (client_cert : option string) (alpn : option ALPN) :
    DynamicUpstreamL4 :=
  {| du_sni := bt_sni tls; du_verify_hostname := bt_verify_hostname tls; du_verify_cert := true;
     du_alternative_cn := bt_alternative_cn tls; du_client_cert := client_cert;
     du_ca_bundle_pem := bt_ca_bundle_pem tls; du_subject_alt_names := bt_subject_alt_names tls;
     du_alpn := alpn |}.

Definition verify_domain (c : DynamicUpstreamL4) : option string :=
  match du_alternative_cn c with
  | Some cn => Some cn
  | None => if str_is_empty (du_sni c) then None else Some (du_sni c)
  end.

Definition alpn_for_protocol (p : BackendProtocol) : option ALPN :=
  match p with
  | BackendH2c => Some AlpnH2
  | BackendHttps => Some AlpnH1
  | BackendHttp | BackendWebSocket | BackendWebSocketSecure => Some AlpnH1
  end.

(** [HttpPeer] with the options the proxy sets. *)
Record HttpPeer := {
  hp_addr : SocketAddr;
  hp_scheme : PeerScheme;
  hp_sni : string;
  hp_connection_timeout : option Z;
  hp_read_timeout : option Z;
  hp_write_timeout : option Z;
  hp_verify_hostname : bool;
  hp_alternative_cn : option string;
  hp_client_cert_key : option string;
  hp_alpn : ALPN;
  hp_group_key : Z;
  hp_custom_l4 : option DynamicUpstreamL4;
}.

(** A value given to a hasher. *)
Inductive Hashed := HashOptStr (o : option string) | HashStrs (l : list string).

(** [tokio::net::lookup_host], [HttpPeer::new], and the [DefaultHasher] of the standard
    library, whose algorithm is not specified: a [u64] of the values it is given in turn. *)
Class PeerOps := {
  lookup_host : string → option (list SocketAddr);
  peer_new : SocketAddr → bool → string → HttpPeer;
  hasher_finish : list Hashed → Z;
  hasher_u64 values : 0 ≤ hasher_finish values < 2 ^ 64;
  peer_new_addr a tls sni : hp_addr (peer_new a tls sni) = a;
  peer_new_tls a sni : hp_scheme (peer_new a true sni) = SchemeHttps;
  peer_new_verify a tls sni : hp_verify_hostname (peer_new a tls sni) = true;
}.

(** The peer the connection is made to, or the response written instead. *)
Inductive PeerChoice (H : Type) :=
| UsePeer (p : HttpPeer)
| RefusePeer (r : result (Response H) ProxyError).
#[global] Arguments UsePeer {H} _.
#[global] Arguments RefusePeer {H} _.

Section peer.
Context `{PO : !PeerOps}.

(** [DynamicUpstreamL4::trust_hash]. *)
Definition trust_hash (c : DynamicUpstreamL4) : Z :=
  hasher_finish [HashOptStr (du_ca_bundle_pem c); HashStrs (du_subject_alt_names c)].

Definition is_tls_backend (p : BackendProtocol) : bool :=
  match p with BackendHttps | BackendWebSocketSecure => true | _ => false end.

(** The options of a peer after [make_peer]. *)
Definition configure_peer (peer : HttpPeer) (t : Z) (protocol : BackendProtocol) (tls : option BackendTlsConfig)
    (client_cert : option string) : HttpPeer :=
  let secure := is_tls_backend protocol in
  let custom := match tls with
                | Some c => if secure && bool_decide (is_Some (bt_ca_bundle_pem c)) then Some c else None
                | None => None
                end in
  let alpn := default (hp_alpn peer) (alpn_for_protocol protocol) in
  {| hp_addr := hp_addr peer;
     hp_scheme := match custom with Some _ => SchemeHttp | None => hp_scheme peer end;
     hp_sni := hp_sni peer;
     hp_connection_timeout := Some (10 * 1000000000); hp_read_timeout := Some t; hp_write_timeout := Some t;
     hp_verify_hostname := match tls with
                           | Some c => if secure then bt_verify_hostname c else hp_verify_hostname peer
                           | None => hp_verify_hostname peer
                           end;
     hp_alternative_cn := match tls with
                          | Some c => if secure then match bt_alternative_cn c with
                                                     | Some cn => Some cn
                                                     | None => hp_alternative_cn peer
                                                     end
                                      else hp_alternative_cn peer
                          | None => hp_alternative_cn peer
                          end;
     hp_client_cert_key := if secure then match client_cert with Some c => Some c | None => hp_client_cert_key peer end
                           else hp_client_cert_key peer;
     hp_alpn := alpn;
     hp_group_key := match custom with
                     | Some c => trust_hash (DynamicUpstreamL4_new c client_cert (Some alpn))
                     | None => hp_group_key peer
                     end;
     hp_custom_l4 := match custom with
                     | Some c => Some (DynamicUpstreamL4_new c client_cert (Some alpn))
                     | None => hp_custom_l4 peer
                     end |}.

(** [make_peer]. *)
Definition make_peer (addr : string) (timeout : option Z) (protocol : BackendProtocol)
    (tls : option BackendTlsConfig) (client_cert : option string) : option HttpPeer :=
  match lookup_host (backend_addr addr) with
  | Some (sa :: _) =>
      if is_tls_backend protocol && bool_decide (tls = None) then None
      else
        let sni := match tls with Some t => bt_sni t | None => "" end in
        Some (configure_peer (peer_new sa (is_tls_backend protocol) sni)
                (default (60 * 1000000000) timeout) protocol tls client_cert)
  | _ => None
  end.

(** ** [upstream_peer_inner] *)

(** Whether mirror [i] gets a copy; [roll] is [rand::random::<u32>()]. *)
Definition mirror_fires (fractions : list (option Fraction)) (i : nat) (roll : Z) : bool :=
  match fractions !! i with
  | Some (Some f) => if denominator f =? 0 then false else roll mod denominator f <? numerator f
  | _ => true
  end.

Context {H : Type} `{!HeaderOps H}.

(** The URLs mirrored copies go to; one random number per mirror. *)
Definition mirror_urls (s : Session H) (u : UpstreamAction) (rolls : list Z) : list string :=
  omap (λ im : nat * (string * Z),
    let '(i, (mirror, roll)) := im in
    if mirror_fires (ua_mirror_fractions u) i roll
    then Some ("http://" +:+ backend_addr mirror +:+ s_path s +:+ query_part (s_query s)) else None)
    (imap pair (zip (ua_mirror u) rolls)).

(** Selection of a backend: address, index and the new round-robin counter. *)
Definition select_backend (counter : Z) (backends : list WeightedBackend) : string * option nat * Z :=
  match backends with
  | [] => ("", None, counter)
  | [b] => (wb_backend b, Some 0%nat, counter)
  | _ =>
      let '(idx, counter) := pick_weighted_backend_ir_index counter backends in
      let idx := default 0%nat idx in
      (match backends !! idx with Some b => wb_backend b | None => "" end, Some idx, counter)
  end.

(** [upstream_peer_inner]: the choice, the mirrored URLs, the context and the counter. The
    client certificates are the registry's. *)
Definition upstream_peer (certs : option (gmap string string)) (counter : Z) (rolls : list Z) (ctx : RequestCtx)
    (s : Session H) : PeerChoice H * list string * RequestCtx * Z :=
  match ctx_acme_backend ctx with
  | Some backend =>
      (match make_peer backend None BackendHttp None None with
       | Some p => UsePeer p
       | None => RefusePeer (status_only 502)
       end, [], ctx, counter)
  | None =>
      match ctx_plan ctx with
      | None => (RefusePeer (status_only 404), [], ctx, counter)
      | Some plan =>
          match upstream plan with
          | Some u =>
              let '(backend, idx, counter) := select_backend counter (ua_backends u) in
              let ctx := match idx with Some i => ctx_with_backend ctx i | None => ctx end in
              let weighted := ctx_backend_index ctx ≫= λ i, ua_backends u !! i in
              let protocol := match weighted with Some b => wb_protocol b | None => BackendHttp end in
              let tls := weighted ≫= wb_tls in
              let client_cert_id := match tls ≫= bt_client_cert_id with
                                    | Some id => Some id
                                    | None => plan_client_cert_id plan
                                    end in
              let client_cert := client_cert_id ≫= λ id, certs ≫= λ m, m !! id in
              (if str_is_empty backend then RefusePeer (status_only 502)
               else match make_peer backend (ua_timeout u) protocol tls client_cert with
                    | Some p => UsePeer p
                    | None => RefusePeer (status_only 502)
                    end, mirror_urls s u rolls, ctx, counter)
          | None =>
              (RefusePeer (status_only (if plan_gateway_api plan then 500 else 404)), [], ctx, counter)
          end
      end
  end.
End peer.

(** ** Properties *)

Section peer_properties.
Context `{PO : !PeerOps} {H : Type} `{!HeaderOps H}.

(** A backend that asks for TLS gets TLS, verified as its policy says: no peer is built
    without a TLS configuration, and the one built either leaves the handshake to Pingora
    with that configuration's name and hostname check, or, when the policy brings its own
    trust roots, to the custom connector, which always verifies the certificate against
    them. *)
Theorem tls_backend_never_plaintext addr timeout protocol tls cert p :
  make_peer addr timeout protocol tls cert = Some p → is_tls_backend protocol = true →
  ∃ c, tls = Some c ∧
    match bt_ca_bundle_pem c with
    | None => hp_scheme p = SchemeHttps ∧ hp_verify_hostname p = bt_verify_hostname c
    | Some ca => ∃ d, hp_custom_l4 p = Some d ∧ du_verify_cert d = true ∧ du_sni d = bt_sni c ∧ du_ca_bundle_pem d = Some ca ∧
        du_verify_hostname d = bt_verify_hostname c ∧ du_alternative_cn d = bt_alternative_cn c ∧
        du_subject_alt_names d = bt_subject_alt_names c ∧ du_client_cert d = cert
    end.
Proof.
  intros Hm Ht. unfold make_peer in Hm. destruct (lookup_host _) as [[|sa addrs]|]; [done| |done].
  rewrite Ht in Hm. destruct tls as [c|]; [|done]. cbn in Hm. injection Hm as <-. exists c. split; [done|].
  unfold configure_peer. rewrite Ht. destruct (bt_ca_bundle_pem c) as [ca|] eqn:Hca; cbn.
  - eexists. split; [reflexivity|]. by rewrite <-Hca.
  - split; [apply peer_new_tls|done].
Qed.

(** A request reaches one of its route's backends, with that backend's own settings: the
    peer is built from the address, protocol and TLS configuration of a single entry of the
    list, and the index that selects the per-backend header mutations later is the index of
    the same entry. *)
Theorem peer_is_selected_backend certs counter rolls ctx (s : Session H) plan u p urls ctx' counter' :
  upstream_peer certs counter rolls ctx s = (UsePeer p, urls, ctx', counter') →
  ctx_acme_backend ctx = None → ctx_plan ctx = Some plan → upstream plan = Some u →
  ctx_backend_index ctx = None →
  ∃ i b cert, ua_backends u !! i = Some b ∧ ctx_backend_index ctx' = Some i ∧
    make_peer (wb_backend b) (ua_timeout u) (wb_protocol b) (wb_tls b) cert = Some p.
Proof.
  intros Hu Ha Hp Hup Hbi. unfold upstream_peer in Hu. rewrite Ha, Hp, Hup in Hu.
  destruct (select_backend counter (ua_backends u)) as [[backend idx] c1] eqn:Hs.
  assert (match idx with Some i => match ua_backends u !! i with Some b => backend = wb_backend b | None => backend = "" end
          | None => backend = "" end) as Hsel.
  { revert Hs. unfold select_backend. destruct (ua_backends u) as [|b [|b' bs]]; [by intros [= <- <- _]..|].
    destruct (pick_weighted_backend_ir_index _ _) as [i c2]. intros [= <- <- _].
    by destruct ((b :: b' :: bs) !! default 0%nat i). }
  destruct (str_is_empty backend) eqn:Hem; [done|].
  destruct idx as [i|]; [|by subst backend].
  destruct (ua_backends u !! i) as [b|] eqn:Hb; [|by subst backend]. cbn in Hu. rewrite Hb in Hu. cbn in Hu.
  destruct (make_peer _ _ _ _ _) as [p'|] eqn:Hmk; [|done]. injection Hu as <- <- <- <-. subst backend.
  eexists i, b, _. split_and!; [done|done|exact Hmk].
Qed.
End peer_properties.

(** *** Examples *)

Module PeerExamples.
Definition base_peer (a : SocketAddr) (tls : bool) (sni : string) : HttpPeer :=
  {| hp_addr := a; hp_scheme := if tls then SchemeHttps else SchemeHttp; hp_sni := sni;
     hp_connection_timeout := None; hp_read_timeout := None; hp_write_timeout := None;
     hp_verify_hostname := true; hp_alternative_cn := None; hp_client_cert_key := None; hp_alpn := AlpnH1;
     hp_group_key := 0; hp_custom_l4 := None |}.
#[export] Program Instance peers : PeerOps :=
  {| lookup_host h := option_map (λ a, [a]) (parse_socket_addr h); peer_new := base_peer; hasher_finish _ := 7 |}.
Next Obligation. done. Qed.
Next Obligation. done. Qed.
Next Obligation. done. Qed.
Next Obligation. done. Qed.

Definition tls_config (ca : option string) : BackendTlsConfig :=
  {| bt_sni := "db.internal"; bt_verify_hostname := true; bt_alternative_cn := None; bt_client_cert_id := None;
     bt_ca_bundle_pem := ca; bt_subject_alt_names := [] |}.

Lemma tls_backend_never_plaintext_witness :
  ∃ p d, make_peer "https://10.0.0.7:8443" None BackendHttps (Some (tls_config (Some "PEM"))) None = Some p ∧
    hp_custom_l4 p = Some d ∧ du_verify_cert d = true.
Proof.
  destruct (make_peer "https://10.0.0.7:8443" None BackendHttps (Some (tls_config (Some "PEM"))) None) as [p|] eqn:Hm;
    [|vm_compute in Hm; discriminate Hm].
  destruct (tls_backend_never_plaintext _ _ _ _ _ _ Hm eq_refl) as (c & Hc & Hd). injection Hc as <-.
  cbn in Hd. destruct Hd as (d & Hd & Hv & _). exists p, d. split; [reflexivity|]. split; [exact Hd|exact Hv].
Defined.

Definition backends : list WeightedBackend :=
  [{| wb_backend := "http://10.0.0.1:80"; wb_weight := 1; wb_request_filters := []; wb_protocol := BackendHttp; wb_tls := None |};
   {| wb_backend := "http://10.0.0.2:80"; wb_weight := 1; wb_request_filters := []; wb_protocol := BackendH2c; wb_tls := None |}].
Definition plan_to (bs : list WeightedBackend) : CompiledPlan :=
  {| precedence := 0; plan_rule_order := 0; plan_gateway_api := true; plan_disable_secure_redirection := false;
     plan_listener_hostname := None; plan_match := RequestMatch_default; request_stages := [];
     upstream := Some {| ua_backends := bs; ua_timeout := None; ua_mirror := []; ua_mirror_fractions := [];
                         ua_backend_request_mutations := [] |};
     upstream_request_mutations := []; response_mutations := []; body_rewrites := [];
     plan_cache := None; websocket := false; plan_client_cert_id := None |}.

Lemma peer_is_selected_backend_witness :
  match upstream_peer None 1 [] (ctx_with_plan (new_ctx "id") (Some (plan_to backends)))
          (RequestExamples.get false "app.example.com" "") with
  | (UsePeer p, _, ctx', _) => hp_alpn p = AlpnH2 ∧ ∃ i b cert, backends !! i = Some b ∧
      ctx_backend_index ctx' = Some i ∧ make_peer (wb_backend b) None (wb_protocol b) (wb_tls b) cert = Some p
  | _ => False
  end.
Proof.
  destruct (upstream_peer _ _ _ _ _) as [[[[p|r] urls] ctx'] c] eqn:Hu; [|vm_compute in Hu; discriminate Hu].
  split; [vm_compute in Hu; injection Hu as <- <- <- <-; reflexivity|].
  exact (peer_is_selected_backend _ _ _ _ _ (plan_to backends) _ _ _ _ _ Hu eq_refl eq_refl eq_refl eq_refl).
Defined.
End PeerExamples.
