(* ===== verification/Watchdog.v ===== *)
(** * Supervision and leader election ([src/gateway/watchdog.rs], [src/gateway/election.rs]).

    The watchdog restarts reconcile tasks that panic, with a backoff and a crash budget. The
    election decides which replica reconciles. Task factories are opaque, instants are in
    nanoseconds, and the Lease API of Kubernetes is a class. *)

From S2P Require Import Prelude.

(** ** [Watchdog] *)

Record ReconcileKey := {
  rk_namespace : string;
  rk_name : string;
  rk_generation : Z;
}.

#[export] Instance ReconcileKey_eq_dec : EqDecision ReconcileKey.
Proof. solve_decision. Defined.

#[export] Instance ReconcileKey_countable : Countable ReconcileKey.
Proof.
  refine (inj_countable' (λ k, (rk_namespace k, rk_name k, rk_generation k))
            (λ x, {| rk_namespace := x.1.1; rk_name := x.1.2; rk_generation := x.2 |}) _); by intros [].
Defined.

(** [F] is the type of task factories. [wd_panics] is what [panic_rx] holds, [wd_started] lists
    the tasks started. *)
Record Watchdog (F : Type) := {
  wd_tasks : gmap ReconcileKey F;
  wd_panics : list ReconcileKey;
  wd_budget : gmap ReconcileKey (list Z);
  wd_pending_restarts : list (ReconcileKey * F * Z);
  wd_started : list ReconcileKey;
}.
#[global] Arguments wd_tasks {F} _.
#[global] Arguments wd_panics {F} _.
#[global] Arguments wd_budget {F} _.
#[global] Arguments wd_pending_restarts {F} _.
#[global] Arguments wd_started {F} _.
#[global] Arguments Build_Watchdog {F} _ _ _ _ _.

Inductive WatchdogOutcome := Poisoned (key : ReconcileKey).

Definition BUDGET_WINDOW : Z := 60 * 1000000000.

Section watchdog.
Context {F : Type}.

Definition Watchdog_new : Watchdog F := Build_Watchdog ∅ [] ∅ [] [].

(** [spawn] and [spawn_inner]: the task is started and registered under its key. *)
Definition spawn (w : Watchdog F) (key : ReconcileKey) (factory : F) : Watchdog F :=
  Build_Watchdog (<[key := factory]> (wd_tasks w)) (wd_panics w) (wd_budget w) (wd_pending_restarts w)
    (wd_started w ++ [key]).

(** The wrapper task reports a panic. *)
Definition report_panic (w : Watchdog F) (key : ReconcileKey) : Watchdog F :=
  Build_Watchdog (wd_tasks w) (wd_panics w ++ [key]) (wd_budget w) (wd_pending_restarts w) (wd_started w).

(** The first loop of [tick]: restarts that are due, in order. *)
Fixpoint run_restarts (now : Z) (w : Watchdog F) (pending : list (ReconcileKey * F * Z)) :
    Watchdog F * list (ReconcileKey * F * Z) :=
  match pending with
  | [] => (w, [])
  | (key, factory, due) :: rest =>
      if due <=? now then run_restarts now (spawn w key factory) rest
      else let '(w, kept) := run_restarts now w rest in (w, (key, factory, due) :: kept)
  end.

(** [Duration::from_millis(50 * (1 << entries.len().saturating_sub(1)))]. *)
Definition backoff (entries : nat) : Z := 50 * Z.shiftl 1 (Z.of_nat (entries - 1)) * 1000000.

Definition recent (now : Z) (entries : list Z) : list Z :=
  filter (λ t, Z.max 0 (now - t) < BUDGET_WINDOW) entries.

(** One round of the second loop. *)
Definition drain_one (now : Z) (st : Watchdog F * list WatchdogOutcome) (key : ReconcileKey) :
    Watchdog F * list WatchdogOutcome :=
  let '(w, outcomes) := st in
  let entries := recent now (default [] (wd_budget w !! key)) ++ [now] in
  let budget := <[key := entries]> (wd_budget w) in
  if decide (3 ≤ length entries)%nat then
    (Build_Watchdog (delete key (wd_tasks w)) (wd_panics w) budget (wd_pending_restarts w) (wd_started w),
     outcomes ++ [Poisoned key])
  else
    match wd_tasks w !! key with
    | Some factory =>
        (Build_Watchdog (delete key (wd_tasks w)) (wd_panics w) budget
           (wd_pending_restarts w ++ [(key, factory, now + backoff (length entries))]) (wd_started w), outcomes)
    | None => (Build_Watchdog (wd_tasks w) (wd_panics w) budget (wd_pending_restarts w) (wd_started w), outcomes)
    end.

(** [tick]. *)
Definition tick (w : Watchdog F) (now : Z) : Watchdog F * list WatchdogOutcome :=
  let '(w1, kept) := run_restarts now w (wd_pending_restarts w) in
  let w2 := Build_Watchdog (wd_tasks w1) [] (wd_budget w1) kept (wd_started w1) in
  foldl (drain_one now) (w2, []) (wd_panics w).

(** [abort_all]. *)
Definition abort_all (w : Watchdog F) : Watchdog F :=
  Build_Watchdog ∅ (wd_panics w) (wd_budget w) [] (wd_started w).

(** ** Lemmas *)

(** What happens to a watchdog: a task is spawned, a task panics, the timer ticks. *)
Inductive WdEvent :=
| WdSpawn (key : ReconcileKey) (factory : F)
| WdPanic (key : ReconcileKey)
| WdTick (now : Z).

Definition wd_event (w : Watchdog F) (e : WdEvent) : Watchdog F :=
  match e with
  | WdSpawn key factory => spawn w key factory
  | WdPanic key => report_panic w key
  | WdTick now => (tick w now).1
  end.

(** The restart loop starts exactly what is due and keeps the rest. *)
Lemma run_restarts_spec now w pending w' kept :
  run_restarts now w pending = (w', kept) →
  kept = filter (λ p : ReconcileKey * F * Z, now < p.2) pending ∧
  wd_budget w' = wd_budget w ∧
  ∀ key, is_Some (wd_tasks w' !! key) ↔
    is_Some (wd_tasks w !! key) ∨ ∃ f due, (key, f, due) ∈ pending ∧ due ≤ now.
Proof.
  revert w kept. induction pending as [|[[k f] due] rest IH]; intros w kept; cbn [run_restarts].
  { intros [= <- <-]. split_and!; [done..|]. intros key. split; [auto|]. intros [?|(?&?&Hin&_)]; [done|].
    by apply elem_of_nil in Hin. }
  rewrite filter_cons. destruct (Z.leb_spec due now).
  - intros (-> & -> & Ht)%IH. rewrite decide_False by (simpl; lia). split_and!; [done..|].
    intros key. rewrite Ht. cbn [spawn wd_tasks]. rewrite lookup_insert. split.
    + intros [Hs|(f' & d & ? & ?)]; [|right; exists f', d; split; [by right|done]].
      case_decide; [subst; right; exists f, due; split; [left|done]|by left].
    + intros [Hs|(f' & d & [Heq|Hin]%elem_of_cons & Hd)].
      * left. case_decide; [eauto|done].
      * simplify_eq. left. rewrite decide_True by done. eauto.
      * right. eauto.
  - destruct (run_restarts now w rest) as [w1 kept1] eqn:Hr. intros [= <- <-]. apply IH in Hr as (-> & -> & Ht).
    rewrite decide_True by (simpl; lia). split_and!; [done..|]. intros key. rewrite Ht. split.
    + intros [?|(f' & d & ? & ?)]; [by left|]. right. exists f', d. split; [by right|done].
    + intros [?|(f' & d & [Heq|Hin]%elem_of_cons & Hd)]; [by left|simplify_eq; lia|right; eauto].
Qed.

Lemma backoff_bound n : (1 ≤ n < 3)%nat → 0 < backoff n ≤ 100 * 1000000.
Proof. intros Hn. assert (n = 1%nat ∨ n = 2%nat) as [-> | ->] by lia; done. Qed.

(** Draining only adds to the restarts and the outcomes. *)
Lemma drain_mono now keys w out w' out' :
  foldl (drain_one now) (w, out) keys = (w', out') →
  (∀ p, p ∈ wd_pending_restarts w → p ∈ wd_pending_restarts w') ∧ (∀ o, o ∈ out → o ∈ out') ∧
  (∀ key, key ∉ keys → wd_tasks w' !! key = wd_tasks w !! key).
Proof.
  revert w out. induction keys as [|k keys IH]; intros w out; cbn [foldl]; [by intros [= <- <-]|].
  destruct (drain_one now (w, out) k) as [w1 out1] eqn:Hd. intros (Hp & Ho & Ht)%IH.
  unfold drain_one in Hd. case_decide; [|destruct (wd_tasks w !! k)]; simplify_eq/=.
  all: split_and!; [set_solver..|].
  all: intros key [Hne Hk]%not_elem_of_cons; rewrite Ht by done; rewrite ?lookup_delete_ne by done; done.
Qed.

(** A reported panic of a registered task ends in a restart or in poison. *)
Lemma drain_handles now keys w out w' out' key :
  foldl (drain_one now) (w, out) keys = (w', out') → key ∈ keys → is_Some (wd_tasks w !! key) →
  wd_tasks w' !! key = None ∧
  (Poisoned key ∈ out' ∨
   ∃ f due, (key, f, due) ∈ wd_pending_restarts w' ∧ now < due ≤ now + 100 * 1000000).
Proof.
  revert w out. induction keys as [|k keys IH]; intros w out Hf Hin [f Hk]; [by apply elem_of_nil in Hin|].
  cbn [foldl] in Hf. destruct (drain_one now (w, out) k) as [w1 out1] eqn:Hd.
  destruct (drain_mono _ _ _ _ _ _ Hf) as (Hp & Ho & Ht).
  assert (∀ w out w' out', foldl (drain_one now) (w, out) keys = (w', out') → wd_tasks w !! key = None →
    wd_tasks w' !! key = None) as Hnone.
  { clear. induction keys as [|k keys IH]; intros w out w' out'; cbn [foldl]; [by intros [= <- <-]|].
    destruct (drain_one now (w, out) k) as [w1 out1] eqn:Hd. intros Hf Hn. apply (IH _ _ _ _ Hf).
    unfold drain_one in Hd. case_decide; [|destruct (wd_tasks w !! k)]; simplify_eq/=; try done.
    all: by apply lookup_delete_None; right. }
  unfold drain_one in Hd. destruct (decide (k = key)) as [->|Hne].
  - rewrite Hk in Hd. case_decide as Hlen; simplify_eq/=.
    + split; [apply (Hnone _ _ _ _ Hf); by apply lookup_delete_None; left|].
      left. apply Ho. apply elem_of_app. right. left.
    + split; [apply (Hnone _ _ _ _ Hf); by apply lookup_delete_None; left|].
      right. eexists f, _. split; [apply Hp, elem_of_app; right; left|].
      assert (1 ≤ length (recent now (default [] (wd_budget w !! key)) ++ [now]))%nat by (rewrite length_app; simpl; lia).
      pose proof (backoff_bound (length (recent now (default [] (wd_budget w !! key)) ++ [now]))). lia.
  - apply elem_of_cons in Hin as [->|Hin]; [done|]. apply (IH _ _ Hf Hin).
    case_decide; [|destruct (wd_tasks w !! k)]; simplify_eq/=; rewrite ?lookup_delete_ne by done; eauto.
Qed.

Lemma drain_panics now keys (w : Watchdog F) out : wd_panics (foldl (drain_one now) (w, out) keys).1 = wd_panics w.
Proof.
  revert w out. induction keys as [|k keys IH]; intros w out; cbn [foldl]; [done|].
  destruct (drain_one now (w, out) k) as [w1 out1] eqn:Hd. rewrite IH.
  unfold drain_one in Hd. case_decide; [|destruct (wd_tasks w !! k)]; by simplify_eq.
Qed.

Lemma drain_started now keys (w : Watchdog F) out : wd_started (foldl (drain_one now) (w, out) keys).1 = wd_started w.
Proof.
  revert w out. induction keys as [|k keys IH]; intros w out; cbn [foldl]; [done|].
  destruct (drain_one now (w, out) k) as [w1 out1] eqn:Hd. rewrite IH.
  unfold drain_one in Hd. case_decide; [|destruct (wd_tasks w !! k)]; by simplify_eq.
Qed.

Lemma run_restarts_started now w pending :
  ∃ ks, wd_started (run_restarts now w pending).1 = wd_started w ++ ks ∧
    ∀ key f due, (key, f, due) ∈ pending → due ≤ now → key ∈ ks.
Proof.
  revert w. induction pending as [|[[k f] due] rest IH]; intros w; cbn [run_restarts].
  { exists []. rewrite app_nil_r. split; [done|]. by intros ??? ?%elem_of_nil. }
  destruct (Z.leb_spec due now).
  - destruct (IH (spawn w k f)) as (ks & -> & Hks). exists (k :: ks). cbn. rewrite <-app_assoc. split; [done|].
    intros key f' d [?|Hin]%elem_of_cons Hd; [simplify_eq; left|right; by eapply Hks].
  - destruct (IH w) as (ks & Hs & Hks). exists ks. destruct (run_restarts now w rest) as [w1 kept]. split; [done|].
    intros key f' d [?|Hin]%elem_of_cons Hd; [simplify_eq; lia|by eapply Hks].
Qed.

(** *** Restarts *)

(** The key will be restarted by [due], or was started again since there were [n] starts. *)
Definition coming_back (key : ReconcileKey) (due : Z) (n : nat) (w : Watchdog F) : Prop :=
  (key ∉ wd_panics w) ∧ (n ≤ length (wd_started w))%nat ∧
  ((∃ f d, (key, f, d) ∈ wd_pending_restarts w ∧ d ≤ due) ∨
   is_Some (wd_tasks w !! key) ∧ key ∈ drop n (wd_started w)).

Lemma elem_of_drop_app {A} (x : A) n l k : (n ≤ length l)%nat → x ∈ drop n l ∨ x ∈ k → x ∈ drop n (l ++ k).
Proof. intros Hn Hx. by rewrite drop_app_le, elem_of_app. Qed.

(** A tick keeps a key coming back, and a tick that is late enough has it back. *)
Lemma tick_coming_back key due n w now :
  coming_back key due n w →
  coming_back key due n (tick w now).1 ∧
  (due ≤ now → is_Some (wd_tasks (tick w now).1 !! key) ∧ key ∈ drop n (wd_started (tick w now).1)).
Proof.
  intros (Hp & Hn & Hc). unfold tick. destruct (run_restarts_started now w (wd_pending_restarts w)) as (ks & Hs & Hks).
  destruct (run_restarts now w (wd_pending_restarts w)) as [w1 kept] eqn:Hr. cbn [fst] in Hs.
  apply run_restarts_spec in Hr as (-> & _ & Ht). set (w2 := Build_Watchdog _ _ _ _ _).
  pose proof (drain_panics now (wd_panics w) w2 []) as Hdp. pose proof (drain_started now (wd_panics w) w2 []) as Hds.
  destruct (foldl (drain_one now) (w2, []) (wd_panics w)) as [w3 out3] eqn:Hd.
  apply drain_mono in Hd as (Hpe & _ & Hk). cbn [fst] in *. cbn in Hdp, Hds. rewrite Hs in Hds.
  assert (∀ f d, (key, f, d) ∈ wd_pending_restarts w → d ≤ now →
    is_Some (wd_tasks w3 !! key) ∧ key ∈ drop n (wd_started w3)) as Hback.
  { intros f d Hin Hle. rewrite (Hk key Hp), Hds. split; [apply Ht; right; eauto|].
    apply elem_of_drop_app; [done|right; by eapply Hks]. }
  assert (is_Some (wd_tasks w !! key) ∧ key ∈ drop n (wd_started w) →
    is_Some (wd_tasks w3 !! key) ∧ key ∈ drop n (wd_started w3)) as Hstay.
  { intros [Hst Hin]. rewrite (Hk key Hp), Hds. split; [apply Ht; by left|apply elem_of_drop_app; [done|by left]]. }
  split.
  - split_and!; [rewrite Hdp; apply not_elem_of_nil|rewrite Hds, length_app; lia|].
    destruct Hc as [(f & d & Hin & Hle)|Hc]; [|right; by apply Hstay].
    destruct (Z.le_gt_cases d now); [right; by eapply Hback|]. left. exists f, d. split; [|done].
    apply Hpe. apply list_elem_of_filter. split; [cbn; lia|done].
  - intros Hle. destruct Hc as [(f & d & Hin & Hd)|Hc]; [eapply Hback; [done|lia]|by apply Hstay].
Qed.

Lemma events_coming_back key due n w evs :
  coming_back key due n w → WdPanic key ∉ evs → coming_back key due n (foldl wd_event w evs).
Proof.
  revert w. induction evs as [|e evs IH]; intros w Hc Hq; cbn [foldl]; [done|].
  apply not_elem_of_cons in Hq as [He Hno]. apply IH; [|done]. destruct e as [k f|k|now]; [| |by apply tick_coming_back].
  - destruct Hc as (Hp & Hn & Hc). split_and!; [done|cbn; rewrite length_app; lia|].
    destruct Hc as [Hc|[Ht Hin]]; [by left|right]. cbn. split; [|apply elem_of_drop_app; [done|by left]].
    rewrite lookup_insert. case_decide; [by eexists|done].
  - destruct Hc as (Hp & Hn & Hc). split_and!; [|done|done]. cbn. rewrite elem_of_app, list_elem_of_singleton.
    intros [?| ->]; done.
Qed.

(** *** The budget *)

Definition drain_all (st : Watchdog F * list WatchdogOutcome) (evs : list (Z * ReconcileKey)) :
    Watchdog F * list WatchdogOutcome :=
  foldl (λ st e, drain_one e.1 st e.2) st evs.

(** When the panics of a key were processed. *)
Definition panic_times (key : ReconcileKey) (evs : list (Z * ReconcileKey)) : list Z :=
  fst <$> filter (λ e, e.2 = key) evs.

Lemma recent_recent now now' l : now ≤ now' → recent now' (recent now l) = recent now' l.
Proof.
  intros Hle. unfold recent. rewrite list_filter_filter. apply list_filter_iff. intros t. lia.
Qed.

Lemma drain_one_budget now w out k :
  wd_budget (drain_one now (w, out) k).1 =
    <[k := recent now (default [] (wd_budget w !! k)) ++ [now]]> (wd_budget w).
Proof. unfold drain_one. case_decide; [done|]. by destruct (wd_tasks w !! k). Qed.

(** The entries of a key, cut off at a later time, are its panics since. *)
Lemma drain_all_budget w out evs now key :
  wd_budget w = ∅ → StronglySorted Z.le (evs.*1) → Forall (λ t, t ≤ now) (evs.*1) →
  recent now (default [] (wd_budget (drain_all (w, out) evs).1 !! key)) = recent now (panic_times key evs).
Proof.
  intros Hw. induction evs as [|[t k] evs IH] using rev_ind; [by cbn; rewrite Hw, lookup_empty|].
  rewrite fmap_app. cbn [fmap list_fmap fst]. intros Hs Hle. apply Forall_app in Hle as [Hle [Ht _]%Forall_cons].
  apply StronglySorted_app in Hs as (Hlt & Hs & _).
  unfold drain_all in *. rewrite foldl_app. cbn [foldl fst snd].
  destruct (foldl (λ st e, drain_one e.1 st e.2) (w, out) evs) as [w1 out1]. cbn [fst] in IH.
  rewrite drain_one_budget. unfold panic_times. rewrite filter_app, fmap_app, filter_cons, filter_nil. cbn [snd].
  fold (panic_times key evs). specialize (IH Hs Hle). rewrite lookup_insert. destruct (decide (k = key)) as [->|Hne].
  - cbn [from_option id]. unfold recent at 1. rewrite filter_app. fold (recent now (recent t (default [] (wd_budget w1 !! key)))).
    rewrite recent_recent, IH by done. unfold recent at 2. by rewrite filter_app.
  - by rewrite app_nil_r.
Qed.
End watchdog.

(** ** Properties *)

(** C34. A task that panicked is restarted or poisoned. When a registered task has panicked, the next tick
    takes it out of the register and either declares its key poisoned, or schedules it: then
    after any further spawns, panics of other tasks and ticks, at any times and in any number,
    a tick at least 100 ms after the first one has started the task again and has it
    registered. This is as long as the key does not panic again before that and [abort_all]
    is not called. *)
Theorem panicked_task_comes_back {F} (w w1 : Watchdog F) (out1 : list WatchdogOutcome) (now now' : Z)
    (key : ReconcileKey) (evs : list (WdEvent (F := F))) :
  is_Some (wd_tasks w !! key) → key ∈ wd_panics w → tick w now = (w1, out1) →
  WdPanic key ∉ evs → now + 100 * 1000000 ≤ now' →
  let w2 := (tick (foldl wd_event w1 evs) now').1 in
  wd_tasks w1 !! key = None ∧
  (Poisoned key ∈ out1 ∨
   is_Some (wd_tasks w2 !! key) ∧ key ∈ drop (length (wd_started w1)) (wd_started w2)).
Proof.
  intros Htask Hpanic Htick Hquiet Hnow w2. unfold tick in Htick.
  destruct (run_restarts now w (wd_pending_restarts w)) as [w0 kept] eqn:Hr.
  apply run_restarts_spec in Hr as (_ & _ & Ht0).
  pose proof (drain_panics now (wd_panics w) (Build_Watchdog (wd_tasks w0) [] (wd_budget w0) kept (wd_started w0)) []) as Hdp.
  rewrite Htick in Hdp. cbn in Hdp.
  destruct (drain_handles _ _ _ _ _ _ key Htick Hpanic) as [Hnone Hcase]; [cbn; apply Ht0; by left|].
  split; [done|]. destruct Hcase as [Hpo|(f & due & Hin & Hdue)]; [by left|right].
  assert (coming_back key (now + 100 * 1000000) (length (wd_started w1)) w1) as Hc.
  { split_and!; [rewrite Hdp; apply not_elem_of_nil|done|]. left. exists f, due. split; [done|lia]. }
  apply (events_coming_back _ _ _ _ evs) in Hc; [|done]. by apply (tick_coming_back _ _ _ _ now' Hc).
Qed.

(** The crash budget is exact: processing a panic poisons its key if and only if it is at
    least the third panic of that key within 60 seconds, whatever else was processed
    before. *)
Theorem crash_budget_exact {F} (w0 w w' : Watchdog F) (out out' : list WatchdogOutcome)
    (evs : list (Z * ReconcileKey)) (now : Z) (key : ReconcileKey) :
  wd_budget w0 = ∅ → StronglySorted Z.le (evs.*1) → Forall (λ t, t ≤ now) (evs.*1) →
  drain_all (w0, []) evs = (w, out) → drain_one now (w, out) key = (w', out') →
  out' = out ++ [Poisoned key] ↔ (2 ≤ length (filter (λ t, (now - t < BUDGET_WINDOW)%Z) (panic_times key evs)))%nat.
Proof.
  intros Hw0 Hs Hle Hd H1.
  pose proof (drain_all_budget w0 [] evs now key Hw0 Hs Hle) as Hb. rewrite Hd in Hb. cbn [fst] in Hb.
  assert (recent now (panic_times key evs) = filter (λ t, (now - t < BUDGET_WINDOW)%Z) (panic_times key evs)) as Hf.
  { unfold recent. apply list_filter_iff. intros t. unfold BUDGET_WINDOW. lia. }
  unfold drain_one in H1. rewrite Hb, Hf, length_app in H1. cbn [length] in H1.
  case_decide as Hlen; [injection H1 as <- <-; split; [lia|done]|].
  assert (out' = out) as -> by (destruct (wd_tasks w !! key); by injection H1).
  split; [|lia]. intros Heq. apply (f_equal length) in Heq. rewrite length_app in Heq. simpl in Heq. lia.
Qed.

(** ** [Election] *)

Inductive LeaderState := Leader | NotLeader.

#[export] Instance LeaderState_eq_dec : EqDecision LeaderState.
Proof. solve_decision. Defined.

(** The lease as the election writes it. *)
Record Lease := {
  lease_holder : string;
  lease_duration_secs : Z;
  lease_renew_time : Z;
}.

Definition build_lease (identity : string) (now : Z) : Lease :=
  {| lease_holder := identity; lease_duration_secs := 15; lease_renew_time := now |}.

(** A replica: the loop's [is_leader], the watch channel and the flag its tokens share. *)
Record Election := {
  el_identity : string;
  el_is_leader : bool;
  el_state : LeaderState;
  el_token_valid : bool;
}.

Definition Election_new (identity : string) : Election :=
  {| el_identity := identity; el_is_leader := false; el_state := NotLeader; el_token_valid := false |}.

(** [handle_patch_result]. *)
Definition handle_patch_result (ok : bool) (e : Election) : Election :=
  if ok then
    if el_is_leader e then e
    else {| el_identity := el_identity e; el_is_leader := true; el_state := Leader; el_token_valid := true |}
  else
    if el_is_leader e
    then {| el_identity := el_identity e; el_is_leader := false; el_state := NotLeader; el_token_valid := false |}
    else e.

(** [token], and the [Drop] of a token. A token reads the shared flag. *)
Definition token (e : Election) : option Election :=
  if decide (el_state e = Leader)
  then Some {| el_identity := el_identity e; el_is_leader := el_is_leader e; el_state := el_state e;
               el_token_valid := true |}
  else None.

Definition drop_token (e : Election) : Election :=
  {| el_identity := el_identity e; el_is_leader := el_is_leader e; el_state := el_state e; el_token_valid := false |}.

(** The Lease API: a server-side apply by a field manager onto what the server holds, the lease
    and the manager that owns its fields. It is refused only over a conflict of managers, and
    then nothing changes; an apply by the owner replaces its fields. *)
Class LeaseApi := {
  lease_apply : option (string * Lease) → string → Lease → option (string * Lease);
  lease_apply_fresh manager new : lease_apply None manager new = Some (manager, new);
  lease_apply_owner manager old new : lease_apply (Some (manager, old)) manager new = Some (manager, new);
}.

Section election.
Context `{!LeaseApi}.

(** One round of the loop of a replica. *)
Definition election_tick (e : Election) (lease : option (string * Lease)) (now : Z) :
    Election * option (string * Lease) :=
  match lease_apply lease "sunbeam-proxy" (build_lease (el_identity e) now) with
  | Some l => (handle_patch_result true e, Some l)
  | None => (handle_patch_result false e, lease)
  end.

(** A round of all replicas, one after the other. *)
Fixpoint election_round (es : list Election) (lease : option (string * Lease)) (now : Z) :
    list Election * option (string * Lease) :=
  match es with
  | [] => ([], lease)
  | e :: es =>
      let '(e, lease) := election_tick e lease now in
      let '(es, lease) := election_round es lease now in
      (e :: es, lease)
  end.

(** The election elects everyone: because every replica applies the lease as the same field
    manager and never looks at its holder, one round over a lease that is absent or was
    written by any of them leaves every replica a leader, though the lease names only the
    last. *)
Theorem every_replica_leads (ids : list string) (lease : option (string * Lease)) (now : Z) :
  match lease with Some (manager, _) => manager = "sunbeam-proxy" | None => True end →
  let '(es, lease') := election_round (Election_new <$> ids) lease now in
  el_identity <$> es = ids ∧ Forall (λ e, el_state e = Leader ∧ el_token_valid e = true) es ∧
  (ids ≠ [] → option_map (λ l, lease_holder l.2) lease' = last ids).
Proof.
  revert lease. induction ids as [|id ids IH]; intros lease Hm; [done|]. cbn [fmap list_fmap election_round].
  assert (election_tick (Election_new id) lease now =
    (handle_patch_result true (Election_new id), Some ("sunbeam-proxy", build_lease id now))) as ->.
  { unfold election_tick. cbn [Election_new el_identity].
    destruct lease as [[m l]|]; [subst m; by rewrite lease_apply_owner|by rewrite lease_apply_fresh]. }
  specialize (IH (Some ("sunbeam-proxy", build_lease id now)) eq_refl).
  destruct (election_round _ _ _) as [es lease'] eqn:He.
  destruct IH as (Hids & Hl & Hh). cbn [fmap list_fmap el_identity handle_patch_result Election_new el_is_leader].
  change (list_fmap _ _ el_identity es) with (el_identity <$> es). rewrite Hids. split; [done|].
  split; [by constructor|]. intros _. rewrite last_cons. destruct ids as [|id' ids].
  - by injection He as _ <-.
  - rewrite Hh by done. destruct (last (id' :: ids)) eqn:Hlast; [done|]. by apply last_None in Hlast.
Qed.
End election.

(** What a replica reports follows its last renewal: after any results of renewals, with no
    token dropped, it is the leader if and only if the last one succeeded, and its tokens
    are valid exactly then. *)
Theorem leadership_follows_renewals (identity : string) (results : list bool) :
  let e := foldl (λ e ok, handle_patch_result ok e) (Election_new identity) results in
  (el_state e = Leader ↔ last results = Some true) ∧ (el_token_valid e = true ↔ last results = Some true).
Proof.
  cbv zeta. assert (∃ b, foldl (λ e ok, handle_patch_result ok e) (Election_new identity) results =
    {| el_identity := identity; el_is_leader := b; el_state := if b then Leader else NotLeader; el_token_valid := b |} ∧
    b = default false (last results)) as (b & -> & ->).
  { induction results as [|r results (b & Hb & _)] using rev_ind; [by exists false|].
    rewrite foldl_app, Hb, last_snoc. exists r. by destruct r, b. }
  destruct (last results) as [[]|]; naive_solver.
Qed.

(** One dropped token takes the leadership from all: tokens share one flag, so a holder that
    finishes and drops its token invalidates every other token while the replica still
    leads, until another token is asked for. *)
Theorem dropped_token_revokes_others (e e1 e2 : Election) :
  token e = Some e1 → token e1 = Some e2 → el_is_leader e = true →
  el_token_valid e2 = true ∧ el_token_valid (drop_token e2) = false ∧ el_state (drop_token e2) = Leader ∧
  el_token_valid (handle_patch_result true (drop_token e2)) = false.
Proof.
  unfold token. case_decide as Hs; [|done]. intros [= <-]. rewrite decide_True by done. intros [= <-] Hl.
  cbn. rewrite Hl. done.
Qed.

(** *** Examples *)

Module WatchdogExamples.
Definition gw : ReconcileKey := {| rk_namespace := "default"; rk_name := "gw"; rk_generation := 1 |}.
Definition crashed : Watchdog nat := report_panic (spawn Watchdog_new gw 7%nat) gw.

(** The timer ticks every 20 ms. *)
Lemma panicked_task_comes_back_witness :
  is_Some (wd_tasks (tick (foldl wd_event (tick crashed 0).1 [WdTick 20000000; WdTick 40000000]) 100000000).1 !! gw).
Proof.
  destruct (tick crashed 0) as [w1 out1] eqn:Ht.
  destruct (panicked_task_comes_back crashed w1 out1 0 100000000 gw [WdTick 20000000; WdTick 40000000])
    as [_ [Hp|[Hr _]]].
  - vm_compute. eauto.
  - left.
  - exact Ht.
  - intros Hin. by rewrite !elem_of_cons, elem_of_nil in Hin; destruct_or! Hin.
  - done.
  - vm_compute in Ht. injection Ht as _ <-. by apply elem_of_nil in Hp.
  - exact Hr.
Defined.

Lemma crash_budget_exact_witness :
  let st := drain_all (Watchdog_new (F := nat), []) [(0, gw); (30000000000, gw)] in
  (drain_one 50000000000 st gw).2 = st.2 ++ [Poisoned gw].
Proof.
  cbv zeta. destruct (drain_all (Watchdog_new, []) [(0, gw); (30000000000, gw)]) as [w out] eqn:Hd.
  destruct (drain_one 50000000000 (w, out) gw) as [w' out'] eqn:H1.
  apply (crash_budget_exact (F := nat) Watchdog_new w w' out out' [(0, gw); (30000000000, gw)] 50000000000 gw);
    [reflexivity| | |exact Hd|exact H1|vm_compute; lia].
  - repeat constructor; cbn; lia.
  - repeat constructor; cbn; lia.
Defined.

Lemma dropped_token_revokes_others_witness :
  let e := handle_patch_result true (Election_new "a") in
  match token e with
  | Some e1 => match token e1 with Some e2 => el_token_valid (drop_token e2) = false | None => False end
  | None => False
  end.
Proof.
  cbv zeta. set (e := handle_patch_result true (Election_new "a")).
  destruct (dropped_token_revokes_others e e e) as (_ & Hd & _); [reflexivity..|]. exact Hd.
Defined.

(** A server that refuses other managers. *)
#[local] Program Instance lease_server : LeaseApi := {|
  lease_apply old manager new :=
    match old with
    | None => Some (manager, new)
    | Some (m, _) => if decide (m = manager) then Some (manager, new) else None
    end
|}.
Next Obligation. done. Qed.
Next Obligation. intros. cbn. by rewrite decide_True. Qed.

Lemma every_replica_leads_witness :
  match election_round (Election_new <$> ["a"; "b"]) None 0 with
  | (es, lease) => Forall (λ e, el_state e = Leader) es ∧ option_map (λ l, lease_holder l.2) lease = Some "b"
  end.
Proof.
  pose proof (every_replica_leads ["a"; "b"] None 0 I) as Ht.
  destruct (election_round _ _ _) as [es lease] eqn:He. destruct Ht as (_ & Hl & Hh).
  split; [apply (Forall_impl _ _ _ Hl); by intros ? []|by apply Hh].
Defined.
End WatchdogExamples.
