(* ===== verification/Gateway.v ===== *)
(** * Gateway API model and route attachment ([src/gateway/model], [src/gateway/reconcile]).

    The reconciled view of the cluster objects ([view.rs], [routing.rs]), the decision
    whether a route may attach to a parent ([reconcile/parent.rs], [reconcile/route/mod.rs],
    [reconcile/l4route/reconcile.rs]), cross-namespace permission
    ([reconcile/refgrant.rs], [reconcile/backend.rs]) and the effective hostnames of a
    route ([translate/hostnames.rs]). *)

From S2P Require Import Prelude Ir Hostname.

(** ** Listeners and parents ([model/view.rs]) *)

(** TLS termination mode of a listener. *)
Inductive TlsMode := Terminate | Passthrough.

#[export] Instance TlsMode_eq_dec : EqDecision TlsMode.
Proof. solve_decision. Defined.

(** [FrontendValidation] of the model has the fields of the IR type. *)
Record ListenerState := {
  ls_name : string;
  ls_protocol : string;
  ls_port : Z;
  ls_hostname : option string;
  ls_tls_mode : option TlsMode;
  ls_frontend_validation : option FrontendValidation;
  ls_programmed : bool;
}.

#[export] Instance ListenerState_eq_dec : EqDecision ListenerState.
Proof. solve_decision. Defined.

Record GatewayState := {
  gs_namespace : string;
  gs_name : string;
  gs_generation : Z;
  gs_listeners : list ListenerState;
  gs_backend_client_cert_id : option string;
}.

(** A reference from a route to its parent gateway or listener set. *)
Record ParentRef := {
  pr_group : string;
  pr_kind : string;
  pr_namespace : option string;
  pr_name : string;
  pr_section_name : option string;
  pr_port : option Z;
}.

Record RouteGroupKind := {
  gk_group : string;
  gk_kind : string;
}.

Inductive NamespaceFrom := NsSame | NsAll | NsSelector | NsNone.

(** [selector] is a [BTreeMap] of which only all entries are tested. *)
Record RouteNamespaces := {
  rn_from : NamespaceFrom;
  rn_selector : option (gmap string string);
}.

Record AllowedRoutes := {
  ar_kinds : list RouteGroupKind;
  ar_namespaces : RouteNamespaces;
}.

(** [AllowedRoutes::default()]: every kind, from the namespace of the gateway. *)
Definition AllowedRoutes_default : AllowedRoutes :=
  {| ar_kinds := []; ar_namespaces := {| rn_from := NsSame; rn_selector := None |} |}.

(** Keyed by namespace, name and listener name. *)
Abbreviation ListenerAllowedMap := (gmap (string * string * string) AllowedRoutes).
Abbreviation NamespaceLabels := (gmap string (gmap string string)).

Record ListenerSetState := {
  lss_namespace : string;
  lss_name : string;
  lss_generation : Z;
  lss_created_at : Z;
  lss_parent_ref : ParentRef;
  lss_listeners : list ListenerState;
  lss_conflicts : gmap string string;
  lss_accepted : bool;
  lss_programmed : bool;
  lss_reason : string;
  lss_listener_cert_errors : list (option string);
  lss_listener_kind_errors : list (option string);
}.

Record GrantSubject := {
  gsub_group : string;
  gsub_kind : string;
  gsub_namespace : option string;
  gsub_name : option string;
}.

Record ReferenceGrantState := {
  rg_namespace : string;
  rg_name : string;
  rg_generation : Z;
  rg_from : list GrantSubject;
  rg_to : list GrantSubject;
}.

Record RouteState := {
  rs_namespace : string;
  rs_name : string;
  rs_kind : string;
  rs_generation : Z;
  rs_parent_refs : list ParentRef;
}.

(** ** Routes ([model/routing.rs]) *)

Inductive GwPathMatch :=
| GwPathPrefix (s : string)
| GwPathExact (s : string)
| GwPathRegex (s : string).

Inductive GwHeaderMatchValue :=
| GwHeaderExact (s : string)
| GwHeaderRegex (s : string)
| GwHeaderPresent
| GwHeaderAbsent.

Record GwHeaderMatch := {
  ghm_name : string;
  ghm_value : GwHeaderMatchValue;
}.

Inductive GwQueryParamMatchValue :=
| GwQueryExact (s : string)
| GwQueryRegex (s : string).

Record GwQueryParamMatch := {
  gqm_name : string;
  gqm_value : GwQueryParamMatchValue;
}.

(** Match criteria for a single rule. *)
Record RouteMatch := {
  gm_path : option GwPathMatch;
  gm_headers : list GwHeaderMatch;
  gm_query_params : list GwQueryParamMatch;
  gm_method : option string;
}.

Record BackendTlsAttachment := {
  bta_hostname : string;
  bta_ca_bundle_pem : string;
  bta_subject_alt_names : list string;
}.

Record GwFraction := {
  gf_numerator : Z;
  gf_denominator : Z;
}.

Inductive GwPathRewrite :=
| GwFullReplace (target : string)
| GwPrefixReplace (prefix replacement : string).

(** A filter applied to a request or response. *)
Inductive RouteFilter :=
| RequestHeaderSet (name value : string)
| RequestHeaderAdd (name value : string)
| RequestHeaderRemove (name : string)
| ResponseHeaderSet (name value : string)
| ResponseHeaderAdd (name value : string)
| ResponseHeaderRemove (name : string)
| UrlRewrite (hostname : option string) (path : option GwPathRewrite)
| RequestRedirect (scheme hostname : option string) (path : option GwPathRewrite)
    (port : option Z) (status_code : Z)
| RequestMirror (backend : string) (fraction : option GwFraction)
| GwCors (allow_origins allow_methods allow_headers expose_headers : list string)
    (max_age : option Z) (allow_credentials : bool).

Record GwWeightedBackend := {
  gwb_backend : string;
  gwb_weight : Z;
  gwb_filters : list RouteFilter;
  gwb_protocol : BackendProtocol;
  gwb_tls : option BackendTlsAttachment;
}.

Record HTTPRouteRule := {
  hrr_matches : list RouteMatch;
  hrr_backends : list GwWeightedBackend;
  hrr_filters : list RouteFilter;
  hrr_timeout_ms : option Z;
  hrr_request_timeout_ms : option Z;
  hrr_programmed : bool;
}.

Record HTTPRouteState := {
  hrs_namespace : string;
  hrs_name : string;
  hrs_generation : Z;
  hrs_hostnames : list GwHostnameMatch;
  hrs_rules : list HTTPRouteRule;
  hrs_parent_refs : list ParentRef;
  hrs_programmed : bool;
}.

(** [TCPRouteState], [UDPRouteState] and [TLSRouteState] have the same fields, except
    that only a TLS route has hostnames. *)
Record TCPRouteState := {
  trs_namespace : string;
  trs_name : string;
  trs_generation : Z;
  trs_parent_refs : list ParentRef;
  trs_backends : list GwWeightedBackend;
  trs_programmed : bool;
}.

Record UDPRouteState := {
  urs_namespace : string;
  urs_name : string;
  urs_generation : Z;
  urs_parent_refs : list ParentRef;
  urs_backends : list GwWeightedBackend;
  urs_programmed : bool;
}.

Record TLSRouteState := {
  lrs_namespace : string;
  lrs_name : string;
  lrs_generation : Z;
  lrs_hostnames : list GwHostnameMatch;
  lrs_parent_refs : list ParentRef;
  lrs_backends : list GwWeightedBackend;
  lrs_programmed : bool;
}.

Inductive MethodMatchType := MethodExact | MethodRegular.

Record MethodMatch := {
  mm_match_type : MethodMatchType;
  mm_service : string;
  mm_method : option string;
  mm_case_sensitive : bool;
}.

(** [MethodMatch::exact_path]. *)
Definition exact_path (m : MethodMatch) : option string :=
  match mm_match_type m with
  | MethodRegular => None
  | MethodExact => (λ method, "/" +:+ mm_service m +:+ "/" +:+ method) <$> mm_method m
  end.

Record GRPCRouteMatch := {
  grm_method : option MethodMatch;
  grm_headers : list GwHeaderMatch;
}.

Record GRPCRouteRule := {
  grr_name : option string;
  grr_matches : list GRPCRouteMatch;
  grr_backends : list GwWeightedBackend;
  grr_filters : list RouteFilter;
  grr_programmed : bool;
}.

Record GRPCRouteState := {
  grs_namespace : string;
  grs_name : string;
  grs_generation : Z;
  grs_hostnames : list GwHostnameMatch;
  grs_rules : list GRPCRouteRule;
  grs_parent_refs : list ParentRef;
  grs_programmed : bool;
}.

(** [BackendTLSPolicyState] and its parts; the data path reads none of them. *)
Record ServiceTargetRef := {
  str_group : string;
  str_kind : string;
  str_namespace : string;
  str_name : string;
  str_section_name : option string;
}.

Record CaCertificateRef := {
  ccr_group : string;
  ccr_kind : string;
  ccr_name : string;
}.

Record SubjectAltName := {
  san_type : string;
  san_value : string;
}.

Record BackendTLSPolicyState := {
  bp_namespace : string;
  bp_name : string;
  bp_generation : Z;
  bp_created_at : Z;
  bp_target : ServiceTargetRef;
  bp_hostname : string;
  bp_ca_certificate_refs : list CaCertificateRef;
  bp_ca_bundle_pem : string;
  bp_subject_alt_names : list SubjectAltName;
  bp_accepted : bool;
  bp_accepted_reason : string;
  bp_accepted_message : string;
  bp_resolved_refs : bool;
  bp_resolved_refs_reason : string;
  bp_resolved_refs_message : string;
  bp_programmed : bool;
}.

(** The full reconciled state, the input of the translation. *)
Record ReconciledView := {
  gateways : list GatewayState;
  listener_sets : list ListenerSetState;
  view_routes : list RouteState;
  http_route_states : list HTTPRouteState;
  grpc_route_states : list GRPCRouteState;
  tcp_route_states : list TCPRouteState;
  udp_route_states : list UDPRouteState;
  tls_route_states : list TLSRouteState;
  reference_grants : list ReferenceGrantState;
  backend_tls_policies : list BackendTLSPolicyState;
  namespace_labels : NamespaceLabels;
  listener_allowed : ListenerAllowedMap;
  listener_set_allowed : ListenerAllowedMap;
}.

(** ** Status conditions ([status/mod.rs], [status/conditions.rs]) *)

Inductive ConditionType :=
| CondAccepted | CondProgrammed | CondResolvedRefs | CondConflicted | CondPoison
| CondNoMatchingParent | CondRefNotPermitted | CondUnsupportedFeature
| CondInsecureFrontendValidationMode.

Inductive ConditionStatus := CsTrue | CsFalse | CsUnknown.

#[export] Instance ConditionType_eq_dec : EqDecision ConditionType.
Proof. solve_decision. Defined.
#[export] Instance ConditionStatus_eq_dec : EqDecision ConditionStatus.
Proof. solve_decision. Defined.

Record StatusCondition := {
  sc_condition_type : ConditionType;
  sc_status : ConditionStatus;
  sc_reason : string;
  sc_message : string;
  sc_observed_generation : Z;
}.

Definition accepted_condition (status : ConditionStatus) (reason message : string) (generation : Z) :
    StatusCondition :=
  {| sc_condition_type := CondAccepted; sc_status := status; sc_reason := reason;
     sc_message := message; sc_observed_generation := generation |}.

Definition programmed_condition (status : ConditionStatus) (reason message : string)
    (generation : Z) : StatusCondition :=
  {| sc_condition_type := CondProgrammed; sc_status := status; sc_reason := reason;
     sc_message := message; sc_observed_generation := generation |}.

Definition resolved_refs_condition (status : ConditionStatus) (reason message : string)
    (generation : Z) : StatusCondition :=
  {| sc_condition_type := CondResolvedRefs; sc_status := status; sc_reason := reason;
     sc_message := message; sc_observed_generation := generation |}.

(** ** Parent resolution ([reconcile/parent.rs]) *)

Definition GATEWAY_GROUP : string := "gateway.networking.k8s.io".

Record ParsedParentRef := {
  pp_group : string;
  pp_kind : string;
  pp_namespace : option string;
  pp_name : string;
  pp_section_name : option string;
  pp_port : option Z;
}.

Definition listener_allows_kind (allowed : AllowedRoutes) (group kind : string) : bool :=
  match ar_kinds allowed with
  | [] => true
  | kinds => existsb (λ k, bool_decide (gk_group k = group) && bool_decide (gk_kind k = kind)) kinds
  end.

(** [namespace_allowed] of [parent.rs] and of [hostnames.rs] are the same function. *)
Definition namespace_allowed (namespaces : RouteNamespaces) (route_ns gateway_ns : string)
    (labels : NamespaceLabels) : bool :=
  match rn_from namespaces with
  | NsAll => true
  | NsSame => bool_decide (route_ns = gateway_ns)
  | NsNone => false
  | NsSelector =>
      match labels !! route_ns with
      | None => false
      | Some l =>
          match rn_selector namespaces with
          | Some sel => forallb (λ kv, bool_decide (l !! kv.1 = Some kv.2)) (map_to_list sel)
          | None => false
          end
      end
  end.

Definition opt_all {A} (p : A → bool) (o : option A) : bool :=
  match o with Some a => p a | None => true end.

(** The listeners a parentRef selects. *)
Definition matching_listeners (parsed : ParsedParentRef) (listeners : list ListenerState)
    (conflicts : gmap string string) : list ListenerState :=
  filter (λ l, ls_programmed l = true ∧ conflicts !! ls_name l = None ∧
               opt_all (λ s, bool_decide (s = ls_name l)) (pp_section_name parsed) = true ∧
               opt_all (λ p, p =? ls_port l) (pp_port parsed) = true) listeners.

(** [allowed_map.get(..).cloned().unwrap_or_default()]. *)
Definition allowed_for (allowed_map : ListenerAllowedMap) (ns name : string) (l : ListenerState) :
    AllowedRoutes :=
  default AllowedRoutes_default (allowed_map !! (ns, name, ls_name l)).

Definition refused (reason message : string) (generation : Z) :
    option ParentRef * list StatusCondition :=
  (None, [accepted_condition CsFalse reason message generation]).

(** What the caller knows about the route: its namespace, kind, hostnames, the protocols
    it can attach to and the generation for its conditions. *)
Record AttachingRoute := {
  at_namespace : string;
  at_kind : string;
  at_hostnames : list GwHostnameMatch;
  at_protocols : option (list string);
  at_generation : Z;
}.

(** The four tests of the loop over the matching listeners. *)
Section listener_tests.
Context (route : AttachingRoute) (labels : NamespaceLabels) (allowed_map : ListenerAllowedMap).
Context (target_ns owner_name : string).

Definition kind_ok (l : ListenerState) : bool :=
  listener_allows_kind (allowed_for allowed_map target_ns owner_name l) GATEWAY_GROUP (at_kind route).

Definition protocol_ok (l : ListenerState) : bool :=
  opt_all (existsb (λ p, eq_ignore_ascii_case p (ls_protocol l))) (at_protocols route).

Definition ns_ok (l : ListenerState) : bool :=
  namespace_allowed (ar_namespaces (allowed_for allowed_map target_ns owner_name l))
    (at_namespace route) target_ns labels.

Definition hostname_ok (l : ListenerState) : bool :=
  listener_hostname_intersects (ls_hostname l) (at_hostnames route).
End listener_tests.

Definition resolve_listener_parent (parsed : ParsedParentRef) (route : AttachingRoute)
    (listeners : list ListenerState) (labels : NamespaceLabels) (allowed_map : ListenerAllowedMap)
    (target_ns owner_name owner_kind : string) (conflicts : gmap string string) :
    option ParentRef * list StatusCondition :=
  let matching := matching_listeners parsed listeners conflicts in
  let owner := owner_kind +:+ " " +:+ target_ns +:+ "/" +:+ owner_name in
  let section_missing :=
    negb (opt_all (λ s, existsb (λ l, bool_decide (ls_name l = s)) listeners) (pp_section_name parsed)) in
  let kind_allowed := existsb (kind_ok route allowed_map target_ns owner_name) matching in
  let protocol_allowed :=
    match at_protocols route with None => true | Some _ => false end || existsb (protocol_ok route) matching in
  let namespace_allowed_flag := existsb (ns_ok route labels allowed_map target_ns owner_name) matching in
  let hostname_intersects_flag := existsb (hostname_ok route) matching in
  if section_missing then
    refused "NoMatchingParent"
      ("listener " +:+ default "" (pp_section_name parsed) +:+ " not found on " +:+ owner)
      (at_generation route)
  else if bool_decide (is_Some (pp_port parsed)) && bool_decide (matching = []) then
    refused "NoMatchingParent"
      ("no listener matching port " +:+ default "" (pretty <$> pp_port parsed) +:+ " on " +:+ owner)
      (at_generation route)
  else if negb kind_allowed || negb protocol_allowed || negb namespace_allowed_flag then
    refused "NotAllowedByListeners"
      ("Route is not allowed by any listener of " +:+ owner) (at_generation route)
  else if negb hostname_intersects_flag then
    refused "NoMatchingListenerHostname"
      ("Route hostnames do not intersect with any listener of " +:+ owner) (at_generation route)
  else
    (Some {| pr_group := pp_group parsed; pr_kind := pp_kind parsed; pr_namespace := Some target_ns;
             pr_name := pp_name parsed; pr_section_name := pp_section_name parsed;
             pr_port := wrap 16 <$> pp_port parsed |},
     [accepted_condition CsTrue "Accepted" "Route accepted by parent" (at_generation route)]).

(** [resolve_route_parent] with [resolve_gateway_parent] and [resolve_listenerset_parent]
    ([reconcile/route/mod.rs]). *)
Definition find_gateway (gs : list GatewayState) (ns name : string) : option GatewayState :=
  List.find (λ g, bool_decide (gs_namespace g = ns) && bool_decide (gs_name g = name)) gs.

Definition find_listener_set (lss : list ListenerSetState) (ns name : string) :
    option ListenerSetState :=
  List.find (λ s, bool_decide (lss_namespace s = ns) && bool_decide (lss_name s = name)) lss.

(** What a reconciler reads of the cluster. *)
Record ClusterState := {
  cl_gateways : list GatewayState;
  cl_listener_sets : list ListenerSetState;
  cl_labels : NamespaceLabels;
  cl_listener_allowed : ListenerAllowedMap;
  cl_listener_set_allowed : ListenerAllowedMap;
}.

Definition resolve_gateway_parent (parsed : ParsedParentRef) (route : AttachingRoute)
    (c : ClusterState) : option ParentRef * list StatusCondition :=
  let target_ns := default (at_namespace route) (pp_namespace parsed) in
  match find_gateway (cl_gateways c) target_ns (pp_name parsed) with
  | None => refused "NoMatchingParent"
              ("Gateway " +:+ target_ns +:+ "/" +:+ pp_name parsed +:+ " not found") (at_generation route)
  | Some g => resolve_listener_parent parsed route (gs_listeners g) (cl_labels c)
                (cl_listener_allowed c) target_ns (pp_name parsed) "Gateway" ∅
  end.

Definition resolve_listenerset_parent (parsed : ParsedParentRef) (route : AttachingRoute)
    (c : ClusterState) : option ParentRef * list StatusCondition :=
  let target_ns := default (at_namespace route) (pp_namespace parsed) in
  match find_listener_set (cl_listener_sets c) target_ns (pp_name parsed) with
  | None => refused "NoMatchingParent"
              ("ListenerSet " +:+ target_ns +:+ "/" +:+ pp_name parsed +:+ " not found") (at_generation route)
  | Some s => resolve_listener_parent parsed route (lss_listeners s) (cl_labels c)
                (cl_listener_set_allowed c) target_ns (pp_name parsed) "ListenerSet" (lss_conflicts s)
  end.

Definition unsupported_parent (parsed : ParsedParentRef) (route : AttachingRoute) :
    option ParentRef * list StatusCondition :=
  refused "UnsupportedValue"
    ("parentRef group " +:+ pp_group parsed +:+ " kind " +:+ pp_kind parsed +:+
     " is not supported for " +:+ at_kind route) (at_generation route).

Definition resolve_route_parent (parsed : ParsedParentRef) (route : AttachingRoute)
    (c : ClusterState) : option ParentRef * list StatusCondition :=
  if negb (bool_decide (pp_group parsed = GATEWAY_GROUP)) then unsupported_parent parsed route
  else if bool_decide (pp_kind parsed = "Gateway") then resolve_gateway_parent parsed route c
  else if bool_decide (pp_kind parsed = "ListenerSet") then resolve_listenerset_parent parsed route c
  else unsupported_parent parsed route.

(** [resolve_l4_parent_ref] ([reconcile/l4route/reconcile.rs]). *)
Definition resolve_l4_parent_ref (parsed : ParsedParentRef) (route : AttachingRoute)
    (c : ClusterState) : option ParentRef * list StatusCondition :=
  if negb (bool_decide (pp_group parsed = GATEWAY_GROUP)) || negb (bool_decide (pp_kind parsed = "Gateway"))
  then refused "UnsupportedValue"
         ("parentRef group " +:+ pp_group parsed +:+ " kind " +:+ pp_kind parsed +:+ " is not supported")
         (at_generation route)
  else resolve_gateway_parent parsed route c.

(** ** Reference grants ([reconcile/refgrant.rs]) *)

Definition is_permitted (grants : list ReferenceGrantState)
    (from_ns from_group from_kind to_ns to_group to_kind to_name : string) : bool :=
  bool_decide (from_ns = to_ns) ||
  existsb (λ g,
    bool_decide (rg_namespace g = to_ns) &&
    existsb (λ f, bool_decide (gsub_group f = from_group) && bool_decide (gsub_kind f = from_kind) &&
                  bool_decide (gsub_namespace f = Some from_ns)) (rg_from g) &&
    existsb (λ t, bool_decide (gsub_group t = to_group) && bool_decide (gsub_kind t = to_kind) &&
                  (bool_decide (gsub_name t = None) || bool_decide (gsub_name t = Some to_name)))
      (rg_to g)) grants.

(** ** Backend references ([reconcile/backend.rs]) *)

Inductive BackendResolutionStatus :=
| BackendOk
| BackendRefNotPermitted (msg : string)
| BackendUnsupported (msg : string)
| BackendNotFound (msg : string).

(** The fields of [BackendRefLike]. *)
Record BackendRef := {
  bref_group : option string;
  bref_kind : option string;
  bref_namespace : option string;
  bref_name : string;
  bref_port : option Z;
  bref_weight : option Z;
}.

Record RuleBackendResolution := {
  rbr_ok : bool;
  rbr_message : string;
}.

Record BackendResolution := {
  br_overall : BackendResolutionStatus;
  br_rules : list RuleBackendResolution;
}.

Definition check_backend_permitted (backend : BackendRef) (route_ns route_kind : string)
    (grants : list ReferenceGrantState) : result unit BackendResolutionStatus :=
  let group := default "" (bref_group backend) in
  let kind := default "Service" (bref_kind backend) in
  let target_ns := default route_ns (bref_namespace backend) in
  if negb (bool_decide (group = "")) || negb (bool_decide (kind = "Service")) then
    Err (BackendUnsupported ("backendRef group " +:+ group +:+ " kind " +:+ kind +:+ " is not supported"))
  else if is_permitted grants route_ns GATEWAY_GROUP route_kind target_ns group kind (bref_name backend)
  then Ok tt
  else Err (BackendRefNotPermitted
              ("cross-namespace backend reference from " +:+ route_ns +:+ " to " +:+ target_ns +:+ "/"
               +:+ bref_name backend +:+ " is not permitted")).

Definition status_message (s : BackendResolutionStatus) : string :=
  match s with
  | BackendOk => ""
  | BackendRefNotPermitted m | BackendUnsupported m | BackendNotFound m => m
  end.

(** The API server: whether a [Service] can be read. *)
Class ServiceStore := service_exists : string → string → bool.

Section backends.
Context `{!ServiceStore}.
Context (route_ns route_kind : string) (grants : list ReferenceGrantState).

(** The check of one backend in [resolve_backend_refs_async]. *)
Definition check_backend (b : BackendRef) : result unit BackendResolutionStatus :=
  match check_backend_permitted b route_ns route_kind grants with
  | Err s => Err s
  | Ok _ =>
      let target_ns := default route_ns (bref_namespace b) in
      if service_exists target_ns (bref_name b) then Ok tt
      else Err (BackendNotFound ("backend Service " +:+ target_ns +:+ "/" +:+ bref_name b +:+ " not found"))
  end.

(** The inner loop: the overall status keeps the first failure of the route, the rule
    message the first of the rule. *)
Fixpoint resolve_rule (overall : BackendResolutionStatus) (res : RuleBackendResolution)
    (bs : list BackendRef) : BackendResolutionStatus * RuleBackendResolution :=
  match bs with
  | [] => (overall, res)
  | b :: bs =>
      match check_backend b with
      | Ok _ => resolve_rule overall res bs
      | Err s =>
          resolve_rule (match overall with BackendOk => s | _ => overall end)
            {| rbr_ok := false;
               rbr_message := if decide (rbr_message res = "") then status_message s
                              else rbr_message res |} bs
      end
  end.

Fixpoint resolve_rules (overall : BackendResolutionStatus) (rules : list (option (list BackendRef))) :
    BackendResolutionStatus * list RuleBackendResolution :=
  match rules with
  | [] => (overall, [])
  | r :: rules =>
      let '(overall, res) := resolve_rule overall {| rbr_ok := true; rbr_message := "" |} (default [] r) in
      let '(overall, rest) := resolve_rules overall rules in
      (overall, res :: rest)
  end.

(** [resolve_backend_refs_async]; [rules] are the backendRefs of each rule. *)
Definition resolve_backend_refs_async (rules : option (list (option (list BackendRef)))) :
    BackendResolution :=
  match rules with
  | None => {| br_overall := BackendOk; br_rules := [] |}
  | Some rules =>
      let '(overall, res) := resolve_rules BackendOk rules in
      {| br_overall := overall; br_rules := res |}
  end.
End backends.

Definition build_backend_resolution_conditions (res : BackendResolution) (accepted : bool)
    (generation : Z) : list StatusCondition :=
  let resolved_refs :=
    match br_overall res with
    | BackendOk => resolved_refs_condition CsTrue "ResolvedRefs" "All backend references resolved" generation
    | BackendRefNotPermitted m => resolved_refs_condition CsFalse "RefNotPermitted" m generation
    | BackendUnsupported m => resolved_refs_condition CsFalse "InvalidKind" m generation
    | BackendNotFound m => resolved_refs_condition CsFalse "BackendNotFound" m generation
    end in
  let programmed :=
    match br_overall res, accepted with
    | BackendOk, true => programmed_condition CsTrue "Programmed" "Route programmed into proxy" generation
    | _, _ => programmed_condition CsFalse "NotProgrammed" "Route not programmed into proxy" generation
    end in
  [resolved_refs; programmed].

(** ** HTTP and gRPC routes ([reconcile/route/mod.rs], [reconcile/mod.rs]) *)

Record ReconciledRoute := {
  rr_parent_refs : list ParentRef;
  rr_parent_statuses : list (ParentRef * list StatusCondition);
  rr_programmed : bool;
}.

(** The parentRef shown in the status when resolution fails. *)
Definition status_parent_ref (parsed : ParsedParentRef) (route : AttachingRoute) : ParentRef :=
  {| pr_group := pp_group parsed; pr_kind := pp_kind parsed;
     pr_namespace := Some (default (at_namespace route) (pp_namespace parsed));
     pr_name := pp_name parsed; pr_section_name := pp_section_name parsed;
     pr_port := wrap 16 <$> pp_port parsed |}.

Definition backends_ok (res : BackendResolution) : bool :=
  match br_overall res with BackendOk => true | _ => false end.

Definition reconcile_single_route (route : AttachingRoute) (parents : list ParsedParentRef)
    (c : ClusterState) (res : BackendResolution) : ReconciledRoute :=
  let resolutions := (λ p, (p, resolve_route_parent p route c)) <$> parents in
  let refs := omap (λ pr, pr.2.1) resolutions in
  {| rr_parent_refs := refs;
     rr_parent_statuses :=
       (λ pr, (default (status_parent_ref pr.1 route) pr.2.1,
               pr.2.2 ++ build_backend_resolution_conditions res (bool_decide (is_Some pr.2.1))
                           (at_generation route))) <$> resolutions;
     rr_programmed := negb (bool_decide (refs = [])) && backends_ok res |}.

(** [update_rules_programmed]: a [zip] over rules and resolutions. *)
Fixpoint update_rules_programmed (rules : list HTTPRouteRule) (res : list RuleBackendResolution) :
    list HTTPRouteRule :=
  match rules, res with
  | r :: rules, x :: res =>
      {| hrr_matches := hrr_matches r; hrr_backends := hrr_backends r; hrr_filters := hrr_filters r;
         hrr_timeout_ms := hrr_timeout_ms r; hrr_request_timeout_ms := hrr_request_timeout_ms r;
         hrr_programmed := hrr_programmed r && rbr_ok x |} :: update_rules_programmed rules res
  | _, _ => rules
  end.

(** One iteration of [collect_routes] for an HTTP route; [state] is the parsed state. *)
Definition collect_route (state : HTTPRouteState) (reconciled : ReconciledRoute)
    (res : BackendResolution) : HTTPRouteState :=
  {| hrs_namespace := hrs_namespace state; hrs_name := hrs_name state;
     hrs_generation := hrs_generation state; hrs_hostnames := hrs_hostnames state;
     hrs_rules := update_rules_programmed (hrs_rules state) (br_rules res);
     hrs_parent_refs := rr_parent_refs reconciled;
     hrs_programmed := negb (bool_decide (rr_parent_refs reconciled = [])) && backends_ok res |}.

(** ** L4 routes ([reconcile/l4route/reconcile.rs]) *)

Record ReconciledL4Route := {
  rl4_parent_refs : list ParentRef;
  rl4_parent_statuses : list (ParentRef * list StatusCondition);
  rl4_programmed : bool;
}.

Definition l4_status_parent_ref (parsed : ParsedParentRef) (route : AttachingRoute) : ParentRef :=
  {| pr_group := GATEWAY_GROUP; pr_kind := "Gateway";
     pr_namespace := Some (default (at_namespace route) (pp_namespace parsed));
     pr_name := pp_name parsed; pr_section_name := pp_section_name parsed;
     pr_port := wrap 16 <$> pp_port parsed |}.

Definition l4_parent_status (route : AttachingRoute) (c : ClusterState) (parsed : ParsedParentRef) :
    option (ParentRef * list StatusCondition) :=
  match resolve_l4_parent_ref parsed route c with
  | (Some pr, conds) => Some (pr, conds)
  | (None, []) => None
  | (None, conds) => Some (l4_status_parent_ref parsed route, conds)
  end.

Definition is_refusal (c : StatusCondition) : bool :=
  bool_decide (sc_condition_type c = CondAccepted) && bool_decide (sc_status c = CsFalse).

(** [reconcile_l4_routes] on one route. *)
Definition reconcile_l4_route (route : AttachingRoute) (parents : list ParsedParentRef)
    (c : ClusterState) : ReconciledL4Route :=
  let statuses := omap (l4_parent_status route c) parents in
  let accepted := negb (bool_decide (statuses = [])) &&
                  negb (existsb (λ ps, existsb is_refusal ps.2) statuses) in
  let programmed :=
    if accepted
    then programmed_condition CsTrue "Programmed" "Route programmed into proxy" (at_generation route)
    else programmed_condition CsFalse "NotProgrammed" "Route not programmed into proxy" (at_generation route) in
  {| rl4_parent_refs := omap (λ p, (resolve_l4_parent_ref p route c).1) parents;
     rl4_parent_statuses := (λ ps, (ps.1, ps.2 ++ [programmed])) <$> statuses;
     rl4_programmed := accepted |}.

Section l4_backends.
Context `{!ServiceStore}.
Context (route_ns route_kind : string) (grants : list ReferenceGrantState) (generation : Z).

Definition l4_backend (b : BackendRef) : GwWeightedBackend :=
  let target_ns := default route_ns (bref_namespace b) in
  {| gwb_backend := bref_name b +:+ "." +:+ target_ns +:+ ".svc.cluster.local.:"
                    +:+ pretty (default 0 (bref_port b));
     gwb_weight := match bref_weight b with Some w => Z.max w 0 | None => 1 end;
     gwb_filters := []; gwb_protocol := BackendHttp; gwb_tls := None |}.

(** The loop body on one backend: the reason and message of a failure, if it has one. *)
Definition l4_backend_check (b : BackendRef) : result unit (option (string * string)) :=
  match check_backend_permitted b route_ns route_kind grants with
  | Err (BackendUnsupported m) => Err (Some ("InvalidKind", m))
  | Err (BackendRefNotPermitted m) => Err (Some ("RefNotPermitted", m))
  | Err _ => Err None
  | Ok _ =>
      let target_ns := default route_ns (bref_namespace b) in
      if service_exists target_ns (bref_name b) then Ok tt
      else Err (Some ("BackendNotFound", "Service " +:+ target_ns +:+ "/" +:+ bref_name b +:+ " not found"))
  end.

Definition l4_backend_failure (b : BackendRef) : option (string * string) :=
  match l4_backend_check b with Err f => f | Ok _ => None end.

(** [resolve_l4_backends_async]: the resolved backends and the first failure. *)
Definition resolve_l4_backends_async (bs : list BackendRef) :
    list GwWeightedBackend * option StatusCondition :=
  (l4_backend <$> filter (λ b, is_ok (l4_backend_check b) = true) bs,
   (λ rm, resolved_refs_condition CsFalse rm.1 rm.2 generation) <$> head (omap l4_backend_failure bs)).
End l4_backends.

(** ** Effective hostnames ([translate/hostnames.rs]) *)

Record EffectiveHostname := {
  eh_route_hostname : GwHostnameMatch;
  eh_listener_hostname : GwHostnameMatch;
  eh_listener_port : option Z;
  eh_client_cert_id : option string;
  eh_listener_id : option string;
}.

(** The hosts and kind of an HTTP or gRPC route, the trait [RouteHostnames]. *)
Record RouteHostnames := {
  rh_namespace : string;
  rh_parent_refs : list ParentRef;
  rh_hostnames : list GwHostnameMatch;
  rh_kind : string;
}.

(** The entry for a parent that is not there, or that no listener of accepts. *)
Definition unattached (h : GwHostnameMatch) : EffectiveHostname :=
  {| eh_route_hostname := h; eh_listener_hostname := GwAny; eh_listener_port := None;
     eh_client_cert_id := None; eh_listener_id := None |}.

Definition section_port_match (p : ParentRef) (l : ListenerState) : bool :=
  opt_all (λ s, bool_decide (ls_name l = s)) (pr_section_name p) &&
  opt_all (λ port, port =? ls_port l) (pr_port p).

Section effective.
Context (view : ReconciledView) (route : RouteHostnames).

Definition parent_ns (p : ParentRef) : string := default (rh_namespace route) (pr_namespace p).

(** The parent of a reference: its candidate listeners, permissions and backend
    certificate. A listener set counts only when it is programmed, a gateway only with
    its programmed listeners. *)
Definition resolve_parent (p : ParentRef) :
    option (list ListenerState * ListenerAllowedMap * option string) :=
  if bool_decide (pr_kind p = "ListenerSet") then
    match find_listener_set (listener_sets view) (parent_ns p) (pr_name p) with
    | Some s => if lss_programmed s
                then Some (filter (λ l, section_port_match p l = true) (lss_listeners s),
                           listener_set_allowed view, None)
                else None
    | None => None
    end
  else
    match find_gateway (gateways view) (parent_ns p) (pr_name p) with
    | Some g => Some (filter (λ l, ls_programmed l && section_port_match p l = true) (gs_listeners g),
                      listener_allowed view, gs_backend_client_cert_id g)
    | None => None
    end.

Definition listener_attaches (p : ParentRef) (allowed_map : ListenerAllowedMap) (l : ListenerState) : bool :=
  let allowed := allowed_for allowed_map (parent_ns p) (pr_name p) l in
  listener_allows_kind allowed GATEWAY_GROUP (rh_kind route) &&
  namespace_allowed (ar_namespaces allowed) (rh_namespace route) (parent_ns p) (namespace_labels view) &&
  listener_hostname_intersects (ls_hostname l) (rh_hostnames route).

Definition listener_match (l : ListenerState) : GwHostnameMatch :=
  match ls_hostname l with Some h => parse_listener_hostname h | None => GwExact "" end.

Definition listener_path (ns name : string) (l : ListenerState) : string :=
  ns +:+ "/" +:+ name +:+ "/" +:+ ls_name l.

Definition attached (p : ParentRef) (cert : option string) (l : ListenerState) (h : GwHostnameMatch) :
    EffectiveHostname :=
  {| eh_route_hostname := h; eh_listener_hostname := listener_match l;
     eh_listener_port := Some (ls_port l); eh_client_cert_id := cert;
     eh_listener_id := Some (listener_path (parent_ns p) (pr_name p) l) |}.

(** The hostnames of the route on a listener it is attached to. *)
Definition hostnames_on (l : ListenerState) : list GwHostnameMatch :=
  match rh_hostnames route with
  | [] => [match ls_hostname l with Some h => parse_listener_hostname h | None => GwAny end]
  | hs => intersect_hostnames hs (ls_hostname l)
  end.

Definition parent_hostnames (p : ParentRef) : list EffectiveHostname :=
  let found := resolve_parent p in
  let attached_listeners :=
    match found with
    | Some (ls, allowed_map, cert) => filter (λ l, listener_attaches p allowed_map l = true) ls
    | None => []
    end in
  let cert := match found with Some (_, _, cert) => cert | None => None end in
  match rh_hostnames route, found, attached_listeners with
  | [], None, _ | [], _, [] => [unattached GwAny]
  | hs, None, _ => unattached <$> hs
  | _, Some _, ls => ls ≫= λ l, attached p cert l <$> hostnames_on l
  end.

Definition compute_effective_hostnames : list EffectiveHostname :=
  rh_parent_refs route ≫= parent_hostnames.
End effective.

(** ** Lemmas *)

Lemma existsb_elem {A} (f : A → bool) l : existsb f l = true ↔ ∃ x, x ∈ l ∧ f x = true.
Proof. rewrite existsb_exists. by setoid_rewrite list_elem_of_In. Qed.

Lemma matching_section parsed ls conflicts l s :
  l ∈ matching_listeners parsed ls conflicts → pp_section_name parsed = Some s →
  existsb (λ l', bool_decide (ls_name l' = s)) ls = true.
Proof.
  unfold matching_listeners. rewrite list_elem_of_filter. intros [(_ & _ & Hs & _) Hl] Hsec.
  rewrite Hsec in Hs. simpl in Hs. simp_bool. apply existsb_elem. exists l.
  split; [done|]. by apply bool_decide_eq_true.
Qed.

(** Attachment to a listener with a hostname: the route's hostnames on it accept the hosts
    that both sides accept. *)
Lemma hostnames_on_exact route l host :
  (∃ h, h ∈ hostnames_on route l ∧ gw_matches h host) ↔
  (∀ lh, ls_hostname l = Some lh → gw_matches (parse_listener_hostname lh) host) ∧
  (rh_hostnames route = [] ∨ ∃ rh, rh ∈ rh_hostnames route ∧ gw_matches rh host).
Proof.
  unfold hostnames_on. destruct (rh_hostnames route) as [|rh rhs] eqn:Hr.
  - setoid_rewrite list_elem_of_singleton. destruct (ls_hostname l) as [lh|] eqn:Hl.
    + split; [intros (? & -> & ?)|intros [H _]; eauto]. split; [by intros ? [= <-]|by left].
    + split; [intros _|intros _; exists GwAny; split; [done|apply gw_matches_any]].
      split; [done|by left].
  - rewrite <-Hr. destruct (ls_hostname l) as [lh|] eqn:Hl.
    + rewrite intersect_hostnames_exact. split.
      * intros [Hm Hrh]. split; [by intros ? [= <-]|by right].
      * intros [Hm [Hn|Hrh]]; [congruence|]. split; [by apply Hm|done].
    + simpl. split; [intros Hrh; split; [done|by right]|]. intros [_ [Hn|Hrh]]; [congruence|done].
Qed.

Lemma elem_of_parent_hostnames view route p e :
  e ∈ parent_hostnames view route p ↔
  match resolve_parent view route p with
  | Some (ls, am, cert) =>
      (∃ l, l ∈ ls ∧ listener_attaches view route p am l = true ∧
            ∃ h, h ∈ hostnames_on route l ∧ e = attached route p cert l h) ∨
      (rh_hostnames route = [] ∧ (∀ l, l ∈ ls → listener_attaches view route p am l = false) ∧
       e = unattached GwAny)
  | None => rh_hostnames route = [] ∧ e = unattached GwAny ∨
            ∃ h, h ∈ rh_hostnames route ∧ e = unattached h
  end.
Proof.
  unfold parent_hostnames. destruct (resolve_parent view route p) as [[[ls am] cert]|].
  - set (att := filter _ ls).
    assert (∀ l, l ∈ att ↔ l ∈ ls ∧ listener_attaches view route p am l = true) as Hatt.
    { intros l. unfold att. rewrite list_elem_of_filter. tauto. }
    assert (e ∈ (att ≫= λ l, attached route p cert l <$> hostnames_on route l) ↔
      ∃ l, l ∈ ls ∧ listener_attaches view route p am l = true ∧
            ∃ h, h ∈ hostnames_on route l ∧ e = attached route p cert l h) as Hb.
    { rewrite list_elem_of_bind. setoid_rewrite list_elem_of_fmap. setoid_rewrite Hatt. naive_solver. }
    destruct (rh_hostnames route) as [|rh rhs]; [|rewrite Hb; naive_solver].
    destruct att as [|a att'] eqn:Ha.
    + rewrite list_elem_of_singleton. split.
      * intros ->. right. split_and!; [done| |done]. intros l Hl.
        destruct (listener_attaches view route p am l) eqn:Hat; [|done].
        by pose proof (proj2 (Hatt l) (conj Hl Hat)) as ?%elem_of_nil.
      * intros [(l & Hl & Hat & _)|(_ & _ & ->)]; [|done].
        by pose proof (proj2 (Hatt l) (conj Hl Hat)) as ?%elem_of_nil.
    + rewrite Hb. split; [by left|]. intros [?|(_ & Hn & _)]; [done|].
      destruct (proj1 (Hatt a)) as [H1 H2]; [left|]. by rewrite Hn in H2.
  - destruct (rh_hostnames route) as [|rh rhs].
    + rewrite list_elem_of_singleton. split; [by left|].
      intros [[_ ?]|(h & ?%elem_of_nil & _)]; done.
    + rewrite list_elem_of_fmap. naive_solver.
Qed.

Lemma check_backend_ok `{!ServiceStore} ns kind grants b :
  check_backend ns kind grants b = Ok tt ↔
  default "" (bref_group b) = "" ∧ default "Service" (bref_kind b) = "Service" ∧
  is_permitted grants ns GATEWAY_GROUP kind (default ns (bref_namespace b)) "" "Service" (bref_name b) = true ∧
  service_exists (default ns (bref_namespace b)) (bref_name b) = true.
Proof.
  unfold check_backend, check_backend_permitted. repeat case_bool_decide; simpl; [|naive_solver..].
  repeat match goal with H : default _ _ = _ |- _ => rewrite H end.
  repeat case_match; naive_solver.
Qed.

Lemma resolve_rule_spec `{!ServiceStore} ns kind grants overall res bs :
  let failed := filter (λ b, is_ok (check_backend ns kind grants b) = false) bs in
  let r := resolve_rule ns kind grants overall res bs in
  rbr_ok r.2 = rbr_ok res && bool_decide (failed = []) ∧
  (r.1 = BackendOk ↔ overall = BackendOk ∧ failed = []) .
Proof.
  simpl. revert overall res. induction bs as [|b bs IH]; intros overall res; simpl.
  { rewrite andb_true_r. naive_solver. }
  destruct (check_backend ns kind grants b) as [[]|st] eqn:Hb.
  - rewrite filter_cons_False by (by rewrite Hb). apply IH.
  - rewrite filter_cons_True by (by rewrite Hb). rewrite bool_decide_eq_false_2, andb_false_r by done.
    match goal with |- context [resolve_rule _ _ _ ?o ?x bs] => destruct (IH o x) as [-> ->] end.
    split; [done|]. assert (st ≠ BackendOk) as Hst.
    { intros ->. unfold check_backend, check_backend_permitted in Hb.
      repeat case_match; simplify_eq. }
    split; [|naive_solver]. destruct overall; naive_solver.
Qed.

(** Every backend of every rule passes its check. *)
Lemma resolve_rules_spec `{!ServiceStore} ns kind grants overall rules :
  let r := resolve_rules ns kind grants overall rules in
  let good (bs : option (list BackendRef)) :=
    bool_decide (filter (λ b, is_ok (check_backend ns kind grants b) = false) (default [] bs) = []) in
  rbr_ok <$> r.2 = good <$> rules ∧
  (r.1 = BackendOk ↔ overall = BackendOk ∧ forallb good rules = true).
Proof.
  revert overall. induction rules as [|bs rules IH]; intros overall; simpl; [naive_solver|].
  pose proof (resolve_rule_spec ns kind grants overall {| rbr_ok := true; rbr_message := "" |} (default [] bs)) as Hr.
  destruct (resolve_rule _ _ _ _ _ _) as [o r]. destruct Hr as [Hok Ho]. simpl in Hok, Ho.
  specialize (IH o). simpl in IH. destruct (resolve_rules _ _ _ o rules) as [o' rs].
  destruct IH as [Hrs Ho']. simpl in *. split; [by f_equal|].
  rewrite Ho', Ho, andb_true_iff, bool_decide_eq_true. tauto.
Qed.

Lemma is_permitted_iff grants from_ns from_group from_kind to_ns to_group to_kind to_name :
  is_permitted grants from_ns from_group from_kind to_ns to_group to_kind to_name = true ↔
  from_ns = to_ns ∨
  ∃ g f t, g ∈ grants ∧ rg_namespace g = to_ns ∧
    f ∈ rg_from g ∧ gsub_group f = from_group ∧ gsub_kind f = from_kind ∧ gsub_namespace f = Some from_ns ∧
    t ∈ rg_to g ∧ gsub_group t = to_group ∧ gsub_kind t = to_kind ∧
    (gsub_name t = None ∨ gsub_name t = Some to_name).
Proof.
  unfold is_permitted. rewrite orb_true_iff, bool_decide_eq_true, existsb_elem.
  setoid_rewrite andb_true_iff. setoid_rewrite andb_true_iff. setoid_rewrite existsb_elem.
  setoid_rewrite andb_true_iff. setoid_rewrite andb_true_iff. setoid_rewrite orb_true_iff.
  setoid_rewrite bool_decide_eq_true. naive_solver.
Qed.

Lemma update_rules_lookup rules res i r :
  update_rules_programmed rules res !! i = Some r → hrr_programmed r = true →
  ∀ x, res !! i = Some x → rbr_ok x = true.
Proof.
  revert res i. induction rules as [|r0 rules IH]; intros [|x0 res] [|i]; simpl; try done.
  - intros [= <-] [_ Hx]%andb_true_iff x [= <-]. done.
  - apply IH.
Qed.

(** Acceptance depends on four flags that different listeners may set. *)
Lemma parent_accepted_flags parsed route listeners labels am ns name kind conflicts :
  let matching := matching_listeners parsed listeners conflicts in
  is_Some (resolve_listener_parent parsed route listeners labels am ns name kind conflicts).1 ↔
  (∃ l, l ∈ matching ∧ kind_ok route am ns name l = true) ∧
  (at_protocols route = None ∨ ∃ l, l ∈ matching ∧ protocol_ok route l = true) ∧
  (∃ l, l ∈ matching ∧ ns_ok route labels am ns name l = true) ∧
  (∃ l, l ∈ matching ∧ hostname_ok route l = true).
Proof.
  intros matching. setoid_rewrite <-existsb_elem. unfold resolve_listener_parent. fold matching.
  assert (existsb (protocol_ok route) matching = true ∨ at_protocols route = None ↔
    (match at_protocols route with None => true | Some _ => false end
     || existsb (protocol_ok route) matching) = true) as Hp.
  { destruct (at_protocols route); simpl; naive_solver. }
  destruct (negb (opt_all _ _)) eqn:Hsec.
  { simpl. split; [by intros []|]. intros ((l & Hl & _)%existsb_elem & _).
    destruct (pp_section_name parsed) as [s|] eqn:Hs; [|done]. simpl in Hsec.
    by rewrite (matching_section _ _ _ _ _ Hl Hs) in Hsec. }
  destruct (bool_decide _ && bool_decide _) eqn:Hport.
  { apply andb_true_iff in Hport as [_ Hnil%bool_decide_eq_true]. simpl. split; [by intros []|].
    intros ((l & Hl & _)%existsb_elem & _). rewrite Hnil in Hl. by apply elem_of_nil in Hl. }
  destruct (existsb (kind_ok _ _ _ _) matching), (existsb (ns_ok _ _ _ _ _) matching),
    (existsb (hostname_ok _) matching), (_ || existsb (protocol_ok _) matching); simpl;
    split; try (by intros []); intros; try naive_solver.
  all: split_and!; try done; destruct Hp as [_ Hp]; specialize (Hp eq_refl); tauto.
Qed.

(** ** Properties *)

(** Acceptance of a parentRef, in full: a route is accepted exactly when among the
    listeners the reference selects (programmed, without conflict, of the named section
    and port) one allows the kind, one has a suitable protocol, one allows the namespace
    and one intersects the hostnames. When it is refused the single condition says so.
    With one selected listener that listener allows the route. *)
Theorem parent_accepted_iff (parsed : ParsedParentRef) (route : AttachingRoute)
    (listeners : list ListenerState) (labels : NamespaceLabels) (am : ListenerAllowedMap)
    (ns name kind : string) (conflicts : gmap string string) :
  let r := resolve_listener_parent parsed route listeners labels am ns name kind conflicts in
  let matching := matching_listeners parsed listeners conflicts in
  (is_Some r.1 ↔
     (∃ l, l ∈ matching ∧ kind_ok route am ns name l = true) ∧
     (at_protocols route = None ∨ ∃ l, l ∈ matching ∧ protocol_ok route l = true) ∧
     (∃ l, l ∈ matching ∧ ns_ok route labels am ns name l = true) ∧
     (∃ l, l ∈ matching ∧ hostname_ok route l = true)) ∧
  (∃ c, r.2 = [c] ∧ sc_condition_type c = CondAccepted ∧
        sc_status c = match r.1 with Some _ => CsTrue | None => CsFalse end) ∧
  (∀ l, matching = [l] → is_Some r.1 →
     kind_ok route am ns name l && ns_ok route labels am ns name l &&
     hostname_ok route l && protocol_ok route l = true).
Proof.
  intros r matching.
  pose proof (parent_accepted_flags parsed route listeners labels am ns name kind conflicts) as Hiff.
  cbv zeta in Hiff. fold matching r in Hiff.
  split; [exact Hiff|split].
  - unfold r, resolve_listener_parent.
    repeat match goal with |- context [if ?b then _ else _] =>
             match type of b with bool => destruct b end end;
      simpl; eexists; split_and!; reflexivity.
  - intros l Hm (Hk & Hp & Hn & Hh)%Hiff.
    rewrite Hm in Hk, Hp, Hn, Hh. repeat setoid_rewrite list_elem_of_singleton in Hk.
    setoid_rewrite list_elem_of_singleton in Hp. setoid_rewrite list_elem_of_singleton in Hn.
    setoid_rewrite list_elem_of_singleton in Hh.
    destruct Hk as (? & -> & ->), Hn as (? & -> & ->), Hh as (? & -> & ->). simpl.
    destruct Hp as [Hp|(? & -> & ->)]; [|done]. unfold protocol_ok. by rewrite Hp.
Qed.

(** The effective hostnames of a route are exact: an entry for a listener accepts a host
    exactly when the listener is a candidate of one of the parents, lets the route
    attach (kind, namespace, hostnames), and the host is accepted by the listener's
    hostname, if it has one, and by one of the route's, if it has any. *)
Theorem effective_hostnames_exact (view : ReconciledView) (route : RouteHostnames)
    (host lid : string) (port : Z) :
  (∃ e, e ∈ compute_effective_hostnames view route ∧ eh_listener_id e = Some lid ∧
        eh_listener_port e = Some port ∧ gw_matches (eh_route_hostname e) host) ↔
  ∃ p ls am cert l, p ∈ rh_parent_refs route ∧ resolve_parent view route p = Some (ls, am, cert) ∧
    l ∈ ls ∧ listener_attaches view route p am l = true ∧
    lid = listener_path (parent_ns route p) (pr_name p) l ∧ port = ls_port l ∧
    (∀ lh, ls_hostname l = Some lh → gw_matches (parse_listener_hostname lh) host) ∧
    (rh_hostnames route = [] ∨ ∃ rh, rh ∈ rh_hostnames route ∧ gw_matches rh host).
Proof.
  unfold compute_effective_hostnames. setoid_rewrite list_elem_of_bind.
  setoid_rewrite elem_of_parent_hostnames. split.
  - intros (e & (p & He & Hp) & Hid & Hport & Hm).
    destruct (resolve_parent view route p) as [[[ls am] cert]|] eqn:Hr; [|naive_solver].
    destruct He as [(l & Hl & Ha & h & Hh & ->)|(_ & _ & ->)]; [|done].
    simpl in Hid, Hport, Hm. simplify_eq. exists p, ls, am, cert, l.
    destruct (proj1 (hostnames_on_exact route l host)) as [? ?]; [eauto|]. done.
  - intros (p & ls & am & cert & l & Hp & Hr & Hl & Ha & -> & -> & H1 & H2).
    destruct (proj2 (hostnames_on_exact route l host) (conj H1 H2)) as (h & Hh & Hm).
    exists (attached route p cert l h). split_and!; [|done..]. exists p. rewrite Hr. eauto 10.
Qed.

(** The fallback: a route gets an entry that is tied to no listener exactly when one of
    its parents is not found, or when it has no hostnames and no listener of the parent
    lets it attach. Such an entry holds on every port, and for a route without hostnames
    it accepts every host. *)
Theorem unattached_iff (view : ReconciledView) (route : RouteHostnames) :
  (∃ e, e ∈ compute_effective_hostnames view route ∧ eh_listener_id e = None) ↔
  ∃ p, p ∈ rh_parent_refs route ∧
    match resolve_parent view route p with
    | Some (ls, am, _) => rh_hostnames route = [] ∧
                          ∀ l, l ∈ ls → listener_attaches view route p am l = false
    | None => True
    end.
Proof.
  unfold compute_effective_hostnames. setoid_rewrite list_elem_of_bind.
  setoid_rewrite elem_of_parent_hostnames. split.
  - intros (e & (p & He & Hp) & Hid). exists p. split; [done|].
    destruct (resolve_parent view route p) as [[[ls am] cert]|]; [|done].
    destruct He as [(l & Hl & Ha & h & Hh & ->)|(? & ? & _)]; done.
  - intros (p & Hp & Hr). destruct (resolve_parent view route p) as [[[ls am] cert]|] eqn:Hrp.
    + exists (unattached GwAny). split; [|done]. exists p. rewrite Hrp. naive_solver.
    + destruct (rh_hostnames route) as [|h hs] eqn:Hh.
      * exists (unattached GwAny). split; [|done]. exists p. rewrite Hrp. naive_solver.
      * exists (unattached h). split; [|done]. exists p. rewrite Hrp. split; [|done].
        right. exists h. split; [left|done].
Qed.

(** A reference to a Service that exists, in the namespace of the route or in one with a
    ReferenceGrant that lets routes of this kind and namespace refer to it. *)
Definition permitted_ref `{!ServiceStore} (grants : list ReferenceGrantState) (ns kind : string) (b : BackendRef) : Prop :=
  let target := default ns (bref_namespace b) in
  default "" (bref_group b) = "" ∧ default "Service" (bref_kind b) = "Service" ∧ service_exists target (bref_name b) = true ∧
  (ns = target ∨
   ∃ g f t, g ∈ grants ∧ rg_namespace g = target ∧
     f ∈ rg_from g ∧ gsub_group f = GATEWAY_GROUP ∧ gsub_kind f = kind ∧ gsub_namespace f = Some ns ∧
     t ∈ rg_to g ∧ gsub_group t = "" ∧ gsub_kind t = "Service" ∧
     (gsub_name t = None ∨ gsub_name t = Some (bref_name b))).

(** The resolutions, one for each rule, and what an untroubled one means. *)
Lemma resolution_permits `{!ServiceStore} ns kind grants refs :
  let res := br_rules (resolve_backend_refs_async ns kind grants (Some refs)) in
  length res = length refs ∧
  ∀ i x bs b, res !! i = Some x → rbr_ok x = true → refs !! i = Some (Some bs) → b ∈ bs → permitted_ref grants ns kind b.
Proof.
  cbn. pose proof (resolve_rules_spec ns kind grants BackendOk refs) as [Hok _].
  destruct (resolve_rules _ _ _ _ refs) as [o res]. simpl in Hok |- *. split.
  { apply (f_equal length) in Hok. by rewrite !length_fmap in Hok. }
  intros i x bs b Hx Hxok Hrefs Hb. apply (f_equal (lookup i)) in Hok. rewrite !list_lookup_fmap, Hx, Hrefs in Hok. simpl in Hok.
  rewrite Hxok in Hok. injection Hok as Hnil%eq_sym%bool_decide_eq_true.
  assert (check_backend ns kind grants b = Ok tt) as Hc.
  { destruct (check_backend ns kind grants b) as [[]|s] eqn:Hc; [done|].
    assert (b ∈ @nil BackendRef) as ?%elem_of_nil; [|done].
    rewrite <-Hnil. apply list_elem_of_filter. by rewrite Hc. }
  apply check_backend_ok in Hc as (? & ? & ?%is_permitted_iff & ?). done.
Qed.

(** No cross-namespace traffic without a grant: when a rule of an HTTP route is
    programmed, each of its backendRefs names a Service that exists, in the namespace
    of the route or in one with a ReferenceGrant that lets routes of this kind and
    namespace refer to it. *)
Theorem programmed_backends_permitted `{!ServiceStore} (state : HTTPRouteState)
    (reconciled : ReconciledRoute) (grants : list ReferenceGrantState) (kind : string)
    (refs : list (option (list BackendRef))) (i : nat) (r : HTTPRouteRule)
    (bs : list BackendRef) (b : BackendRef) :
  let ns := hrs_namespace state in
  hrs_rules (collect_route state reconciled (resolve_backend_refs_async ns kind grants (Some refs))) !! i
    = Some r → hrr_programmed r = true → refs !! i = Some (Some bs) → b ∈ bs →
  permitted_ref grants ns kind b.
Proof.
  intros ns Hr Hp Hrefs Hb. simpl hrs_rules in Hr. destruct (resolution_permits ns kind grants refs) as [Hlen Hperm].
  destruct (lookup_lt_is_Some_2 (br_rules (resolve_backend_refs_async ns kind grants (Some refs))) i) as [x Hx].
  { rewrite Hlen. by eapply lookup_lt_Some. }
  eapply Hperm; [exact Hx| |exact Hrefs|exact Hb]. by eapply update_rules_lookup.
Qed.

Module GatewayExamples.
#[local] Instance all_services : ServiceStore := λ _ _, true.

Definition web_ref : BackendRef :=
  {| bref_group := None; bref_kind := None; bref_namespace := Some "shop"; bref_name := "web";
     bref_port := Some 80; bref_weight := None |}.

Definition web_grant : ReferenceGrantState :=
  {| rg_namespace := "shop"; rg_name := "from-edge"; rg_generation := 1;
     rg_from := [{| gsub_group := GATEWAY_GROUP; gsub_kind := "HTTPRoute";
                    gsub_namespace := Some "edge"; gsub_name := None |}];
     rg_to := [{| gsub_group := ""; gsub_kind := "Service"; gsub_namespace := None; gsub_name := None |}] |}.

Definition web_rule : HTTPRouteRule :=
  {| hrr_matches := []; hrr_backends := []; hrr_filters := []; hrr_timeout_ms := None;
     hrr_request_timeout_ms := None; hrr_programmed := true |}.

Definition web_state : HTTPRouteState :=
  {| hrs_namespace := "edge"; hrs_name := "web"; hrs_generation := 1; hrs_hostnames := [];
     hrs_rules := [web_rule]; hrs_parent_refs := []; hrs_programmed := false |}.
End GatewayExamples.
Import GatewayExamples.

Lemma programmed_backends_permitted_witness :
  hrr_programmed <$> hrs_rules (collect_route web_state {| rr_parent_refs := []; rr_parent_statuses := [];
    rr_programmed := false |} (resolve_backend_refs_async (H := all_services) "edge" "HTTPRoute" [] (Some [Some [web_ref]])))
    = [false] ∧
  service_exists (ServiceStore := all_services) "shop" "web" = true.
Proof.
  split; [vm_compute; reflexivity|].
  eapply (programmed_backends_permitted (H := all_services) web_state
    {| rr_parent_refs := []; rr_parent_statuses := []; rr_programmed := false |} [web_grant] "HTTPRoute"
    [Some [web_ref]] 0 web_rule [web_ref] web_ref); [vm_compute; reflexivity..|left].
Defined.
