(* ===== verification/Json.v ===== *)
(** * JSON values, Secrets and ConfigMaps.

    Listeners and other parts of Kubernetes objects are read as JSON values of [serde_json],
    and Secrets and ConfigMaps through the API of the cluster. All are classes. *)

From S2P Require Import Prelude.

(** [serde_json]: the field of an object, strings, unsigned numbers, arrays, the entries of an
    object; [None] on another kind of value. *)
Class JsonOps (J : Type) := {
  j_field : J → string → option J;
  j_str : J → option string;
  j_u64 : J → option Z;
  j_array : J → option (list J);
  j_entries : J → option (list (string * J));
}.

Definition field_str {J} `{!JsonOps J} (j : J) (k : string) : option string := j_field j k ≫= j_str.
Definition field_u64 {J} `{!JsonOps J} (j : J) (k : string) : option Z := j_field j k ≫= j_u64.
Definition field_array {J} `{!JsonOps J} (j : J) (k : string) : option (list J) := j_field j k ≫= j_array.

(** A Secret: its data, if any. *)
Abbreviation Secret := (option (gmap string string)).

(** Reading a Secret of a namespace by name. *)
Class SecretApi := secret_get : string → string → option Secret.

(** Reading the data of a ConfigMap of a namespace by name, [None] if the request fails. *)
Class ConfigMapApi := configmap_get : string → string → option (option (gmap string string)).

(** *** Values for examples *)

Module JsonExamples.
Inductive Json :=
| JString (s : string)
| JNumber (n : Z)
| JArray (l : list Json)
| JObject (l : list (string * Json)).

#[export] Instance json : JsonOps Json :=
  {| j_field j k := match j with JObject l => snd <$> find (λ f, bool_decide (f.1 = k)) l | _ => None end;
     j_str j := match j with JString s => Some s | _ => None end;
     j_u64 j := match j with JNumber n => if 0 <=? n then Some n else None | _ => None end;
     j_array j := match j with JArray l => Some l | _ => None end;
     j_entries j := match j with JObject l => Some l | _ => None end |}.
End JsonExamples.
