(* ===== verification/Listeners.v ===== *)
(** * Listeners ([src/gateway/reconcile/listener_common.rs],
    [src/gateway/reconcile/gateway/listeners.rs], [certificates.rs]).

    How the listeners of a Gateway and of the ListenerSets attached to it are read, validated
    and accepted. Listeners are JSON objects;
    of a Gateway, ListenerSet or route the fields the code reads are kept. The set of
    reserved ports, a process-wide variable, is an argument. *)

From S2P Require Import Prelude Ir Hostname BodyFilter Gateway Json.

(** ** Objects of the API server *)

Record GatewayObject (J : Type) := {
  go_namespace : option string;
  go_name : option string;
  go_generation : option Z;
  go_listeners : list J;
  go_allowed_listeners : option J;
  go_tls : option J;
  go_attached_listener_sets : option Z;
}.
#[global] Arguments go_namespace {J} _.
#[global] Arguments go_name {J} _.
#[global] Arguments go_generation {J} _.
#[global] Arguments go_tls {J} _.
#[global] Arguments go_attached_listener_sets {J} _.
#[global] Arguments go_listeners {J} _.
#[global] Arguments go_allowed_listeners {J} _.

(** An entry of a ListenerSet, and the same entry as a JSON object. *)
Record ListenerEntry (J : Type) := {
  le_name : string;
  le_protocol : string;
  le_port : Z;
  le_hostname : option string;
  le_json : option J;
}.
#[global] Arguments le_name {J} _.
#[global] Arguments le_protocol {J} _.
#[global] Arguments le_port {J} _.
#[global] Arguments le_hostname {J} _.
#[global] Arguments le_json {J} _.

Record ListenerSetObject (J : Type) := {
  lo_namespace : option string;
  lo_name : option string;
  lo_generation : option Z;
  lo_creation_timestamp : option Z;
  lo_parent_group : option string;
  lo_parent_kind : option string;
  lo_parent_namespace : option string;
  lo_parent_name : string;
  lo_listeners : list (ListenerEntry J);
}.
#[global] Arguments lo_namespace {J} _.
#[global] Arguments lo_name {J} _.
#[global] Arguments lo_generation {J} _.
#[global] Arguments lo_creation_timestamp {J} _.
#[global] Arguments lo_parent_group {J} _.
#[global] Arguments lo_parent_kind {J} _.
#[global] Arguments lo_parent_namespace {J} _.
#[global] Arguments lo_parent_name {J} _.
#[global] Arguments lo_listeners {J} _.

Section listeners.
Context {J : Type} `{!JsonOps J}.

(** ** [listener_common.rs] *)

(** [obj] is [None] for an empty object. *)
Definition parse_tls_mode (obj : option J) (protocol : string) : option TlsMode :=
  if decide (protocol = "HTTPS") then Some Terminate
  else if decide (protocol = "TLS") then
    let explicit := obj ≫= λ o, j_field o "tls" ≫= λ tls, field_str tls "mode" in
    Some (if decide (explicit = Some "Terminate") then Terminate else Passthrough)
  else None.

Definition build_listener_state_from_obj (name protocol : string) (port : Z) (hostname : option string)
    (obj : option J) : ListenerState :=
  {| ls_name := name; ls_protocol := protocol; ls_port := port; ls_hostname := hostname;
     ls_tls_mode := parse_tls_mode obj protocol; ls_frontend_validation := None; ls_programmed := true |}.

Definition parse_kind (k : J) : option RouteGroupKind :=
  let kind := default "" (field_str k "kind") in
  if str_is_empty kind then None
  else Some {| gk_group := default GATEWAY_GROUP (field_str k "group"); gk_kind := kind |}.

Definition match_labels (ns : J) : option (gmap string string) :=
  sel ← j_field ns "selector";
  entries ← j_field sel "matchLabels" ≫= j_entries;
  let m : gmap string string := list_to_map (reverse (omap (λ kv, (λ s, (kv.1, s)) <$> j_str kv.2) entries)) in
  if decide (m = ∅) then None else Some m.

Definition parse_allowed_routes (listener : J) : AllowedRoutes :=
  match j_field listener "allowedRoutes" with
  | None => AllowedRoutes_default
  | Some allowed =>
      {| ar_kinds := omap parse_kind (default [] (field_array allowed "kinds"));
         ar_namespaces :=
           match j_field allowed "namespaces" with
           | None => {| rn_from := NsSame; rn_selector := None |}
           | Some ns =>
               {| rn_from := match field_str ns "from" with
                             | Some s => if decide (s = "All") then NsAll
                                         else if decide (s = "Selector") then NsSelector else NsSame
                             | None => NsSame
                             end;
                  rn_selector := match_labels ns |}
           end |}
  end.

(** The route kinds a protocol serves. *)
Definition listener_supported_kinds (protocol : string) : list RouteGroupKind :=
  (λ k, {| gk_group := GATEWAY_GROUP; gk_kind := k |}) <$>
  (if decide (protocol = "TCP") then ["TCPRoute"]
   else if decide (protocol = "UDP") then ["UDPRoute"]
   else if decide (protocol = "TLS") then ["TLSRoute"]
   else ["HTTPRoute"; "GRPCRoute"]).

Definition is_port_reserved (reserved : gset Z) (port : Z) : bool := bool_decide (port ∈ reserved).

(** Status, reason and message of a condition. *)
Abbreviation Verdict := (string * string * string)%type.

Definition listener_accepted (reserved : gset Z) (name protocol : string) (port : Z) (tls_mode : option TlsMode)
    (mixed_conflict_names : gset string) (supports_tls_terminate supports_tls_mixed : bool) : Verdict :=
  let ok := ("True", "Accepted", "Listener accepted") in
  if is_port_reserved reserved port then ("False", "PortUnavailable", "Port is reserved for internal use")
  else if decide (protocol = "TLS") then
    if decide (name ∈ mixed_conflict_names) then
      if supports_tls_mixed then ok
      else ("False", "ProtocolConflict", "Mixed TLS termination modes on the same port are not supported")
    else if bool_decide (tls_mode = Some Terminate) && negb supports_tls_terminate
    then ("False", "UnsupportedValue", "TLS termination mode Terminate is not supported")
    else ok
  else ok.

Definition protocol_kind (protocol : string) : string :=
  if decide (protocol = "TCP") then "TCPRoute"
  else if decide (protocol = "UDP") then "UDPRoute"
  else if decide (protocol = "TLS") then "TLSRoute"
  else "HTTPRoute".

(** The kind of an entry of [allowedRoutes.kinds], if it is supported. *)
Definition supported_kind (protocol : string) (entry : J) : option RouteGroupKind :=
  let group := default GATEWAY_GROUP (field_str entry "group") in
  let kind := default "" (field_str entry "kind") in
  if bool_decide (group = GATEWAY_GROUP) && bool_decide (kind = protocol_kind protocol)
  then Some {| gk_group := group; gk_kind := kind |} else None.

Definition validate_listener_kinds (listener : J) : list RouteGroupKind * Verdict :=
  let protocol := default "HTTP" (field_str listener "protocol") in
  let resolved := ("True", "ResolvedRefs", "All references resolved") in
  match default [] (j_field listener "allowedRoutes" ≫= λ v, field_array v "kinds") with
  | [] => ([{| gk_group := GATEWAY_GROUP; gk_kind := protocol_kind protocol |}], resolved)
  | kinds =>
      (omap (supported_kind protocol) kinds,
       if existsb (λ e, bool_decide (supported_kind protocol e = None)) kinds
       then ("False", "InvalidRouteKinds", "Listener contains unsupported route kinds") else resolved)
  end.

(** ** [gateway/listeners.rs] *)

Definition listener_port (l : J) (d : Z) : Z := wrap 16 (default d (field_u64 l "port")).

Definition is_object (j : J) : bool := bool_decide (is_Some (j_entries j)).

Definition build_listener_model (gw : GatewayObject J) : list ListenerState :=
  (λ l, build_listener_state_from_obj (default "" (field_str l "name")) (default "HTTP" (field_str l "protocol"))
          (listener_port l 80) (field_str l "hostname") (Some l)) <$>
  filter (λ l, is_object l = true) (go_listeners gw).

Definition build_listener_allowed_map (gws : list (GatewayObject J)) : ListenerAllowedMap :=
  foldl (λ m kv, <[kv.1 := kv.2]> m) ∅
    (gws ≫= λ gw,
       (λ l, ((default "default" (go_namespace gw), default "" (go_name gw), default "" (field_str l "name")),
              parse_allowed_routes l)) <$> filter (λ l, is_object l = true) (go_listeners gw)).

(** Name, port and mode of a TLS listener. *)
Definition tls_listener (l : J) : option (string * Z * TlsMode) :=
  if is_object l && bool_decide (field_str l "protocol" = Some "TLS")
  then Some (default "" (field_str l "name"), default 0 (field_u64 l "port"),
             default Passthrough (parse_tls_mode (Some l) "TLS"))
  else None.

(** [mixed_tls_conflict_names]: the pairs are compared in both orders instead of one. *)
Definition mixed_tls_conflict_names (ls : list J) : gset string :=
  let tls := omap tls_listener ls in
  list_to_set (omap (λ a : string * Z * TlsMode,
    if existsb (λ b : string * Z * TlsMode, bool_decide (a.1.2 = b.1.2) && negb (bool_decide (a.2 = b.2))) tls
    then Some a.1.1 else None) tls).

Record CertValidation := {
  cv_reason : string;
  cv_message : string;
}.

Definition is_frontend_ca_error (reason : string) : bool :=
  bool_decide (reason ∈ ["InvalidCACertificateRef"; "InvalidCACertificateKind"; "RefNotPermitted"]).

Record ListenerStatus := {
  lst_name : string;
  lst_supported_kinds : list RouteGroupKind;
  lst_attached_routes : Z;
  lst_accepted : Verdict;
  lst_programmed : Verdict;
  lst_resolved_refs : Verdict;
}.

(** One round of [build_listener_status]. *)
Definition gateway_listener_status (reserved : gset Z) (mixed : gset string) (features : gset string)
    (obj : J) (err : option CertValidation) (attached : Z) : ListenerStatus :=
  let name := default "" (field_str obj "name") in
  let protocol := default "HTTP" (field_str obj "protocol") in
  let '(kinds, resolved) := validate_listener_kinds obj in
  let accepted := listener_accepted reserved name protocol (listener_port obj 80) (parse_tls_mode (Some obj) protocol)
    mixed (bool_decide ("TLSRouteModeTerminate" ∈ features)) (bool_decide ("TLSRouteModeMixed" ∈ features)) in
  {| lst_name := name;
     lst_supported_kinds :=
       if bool_decide (accepted.1.1 = "False") &&
          bool_decide (accepted.1.2 ∈ ["UnsupportedValue"; "ProtocolConflict"]) then [] else kinds;
     lst_attached_routes := attached;
     lst_accepted :=
       match err with
       | Some e => if decide (accepted.1.1 = "True")
                   then ("False", if is_frontend_ca_error (cv_reason e) then "NoValidCACertificate" else cv_reason e,
                         cv_message e)
                   else accepted
       | None => accepted
       end;
     lst_programmed :=
       match err with
       | Some _ => ("False", "Invalid", "Listener has unresolved certificate references")
       | None => ("True", "Programmed", "Listener programmed")
       end;
     lst_resolved_refs := match err with Some e => ("False", cv_reason e, cv_message e) | None => resolved end |}.

Definition build_listener_status (reserved : gset Z) (features : gset string) (gw : GatewayObject J)
    (cert_errors : list (option CertValidation)) (attached_routes : list Z) : list ListenerStatus :=
  let mixed := mixed_tls_conflict_names (go_listeners gw) in
  omap id (imap (λ idx l,
    if is_object l then
      Some (gateway_listener_status reserved mixed features l (mjoin (cert_errors !! idx)) (default 0 (attached_routes !! idx)))
    else None) (go_listeners gw)).

(** ** [gateway/certificates.rs] *)

Definition secret_data_valid (secret : Secret) : bool :=
  match secret with
  | None => false
  | Some data =>
      forallb (λ key, match data !! key with Some b => str_contains (from_utf8_lossy b) "-----BEGIN" | None => false end)
        ["tls.crt"; "tls.key"]
  end.

Definition invalid_ref (message : string) : option CertValidation :=
  Some {| cv_reason := "InvalidCertificateRef"; cv_message := message |}.

Context `{!SecretApi}.

Definition validate_cert_ref (grants : list ReferenceGrantState) (from_ns from_kind : string) (cert : J) :
    option CertValidation :=
  let group := default "" (field_str cert "group") in
  let kind := default "" (field_str cert "kind") in
  if negb (str_is_empty group) || negb (bool_decide (kind = "Secret"))
  then invalid_ref "CertificateRef must be a core Secret"
  else match field_str cert "name" with
  | None => invalid_ref "CertificateRef name is required"
  | Some name =>
    if str_is_empty name then invalid_ref "CertificateRef name is required"
    else
      let ns := default from_ns (field_str cert "namespace") in
      if negb (bool_decide (ns = from_ns)) && negb (is_permitted grants from_ns GATEWAY_GROUP from_kind ns group kind name)
      then Some {| cv_reason := "RefNotPermitted";
                   cv_message := "Cross-namespace CertificateRef is not permitted by ReferenceGrant" |}
      else match secret_get ns name with
           | None => invalid_ref "CertificateRef Secret not found"
           | Some secret =>
               if secret_data_valid secret then None
               else invalid_ref "CertificateRef Secret does not contain a valid TLS certificate"
           end
  end.

Definition validate_listener_certificates (grants : list ReferenceGrantState) (from_ns from_kind : string) (listener : J) :
    option CertValidation :=
  match j_field listener "tls" ≫= λ tls, field_array tls "certificateRefs" with
  | None => None
  | Some certs => find_map (validate_cert_ref grants from_ns from_kind) certs
  end.
End listeners.

(** ** Theorems *)

Section validation.
Context {J : Type} `{!JsonOps J} `{!SecretApi}.

(** Certificates without an error: every reference is to a Secret of the namespace or one a
    grant permits, and the Secret exists and holds the two PEM entries. *)
Theorem validated_references_permitted (grants : list ReferenceGrantState) (from_ns from_kind : string) (listener tls : J)
    (certs : list J) (cert : J) :
  validate_listener_certificates grants from_ns from_kind listener = None →
  j_field listener "tls" = Some tls → field_array tls "certificateRefs" = Some certs → cert ∈ certs →
  ∃ name secret, field_str cert "name" = Some name ∧ field_str cert "kind" = Some "Secret" ∧
    default "" (field_str cert "group") = "" ∧
    (default from_ns (field_str cert "namespace") = from_ns ∨
     is_permitted grants from_ns GATEWAY_GROUP from_kind (default from_ns (field_str cert "namespace")) "" "Secret" name = true) ∧
    secret_get (default from_ns (field_str cert "namespace")) name = Some secret ∧ secret_data_valid secret = true.
Proof.
  unfold validate_listener_certificates. intros Hv Htls Hc Hin. rewrite Htls in Hv. simpl in Hv. rewrite Hc in Hv.
  pose proof (find_map_None _ _ Hv cert Hin) as Hr.
  revert Hr. unfold validate_cert_ref, invalid_ref.
  destruct (negb (str_is_empty _) || _) eqn:Hk; [done|]. simp_bool.
  destruct (field_str cert "name") as [name|] eqn:Hname; [|done].
  destruct (str_is_empty name); [done|].
  destruct (negb _ && negb _) eqn:Hperm; [done|].
  destruct (secret_get _ _) as [secret|] eqn:Hs; [|done].
  destruct (secret_data_valid secret) eqn:Hd; [|done]. intros _.
  match goal with Hg : str_is_empty _ = true, Hsec : default "" _ = "Secret" |- _ =>
    apply bool_decide_eq_true in Hg; rewrite Hg, Hsec in Hperm; rename Hg into Hgroup, Hsec into Hsecret end.
  exists name, secret. split_and!; [done| |done| |done..].
  - by destruct (field_str cert "kind") as [k|]; simpl in Hsecret; [rewrite Hsecret|].
  - apply andb_false_iff in Hperm as [Hns|Hg]; simp_bool; [by left|by right].
Qed.
End validation.

Module ListenerExamples.
Import JsonExamples.

(** The kinds the model of a listener admits and the kinds its validation admits differ: an
    HTTP listener that names GRPCRoute is reported as invalid. *)
Lemma grpc_kind_reported_invalid :
  {| gk_group := GATEWAY_GROUP; gk_kind := "GRPCRoute" |} ∈ listener_supported_kinds "HTTP" ∧
  validate_listener_kinds
    (JObject [("protocol", JString "HTTP");
              ("allowedRoutes", JObject [("kinds", JArray [JObject [("kind", JString "GRPCRoute")]])])]) =
  ([], ("False", "InvalidRouteKinds", "Listener contains unsupported route kinds")).
Proof. split; [right; left|vm_compute; reflexivity]. Qed.

(** A Secret whose entries merely contain the PEM marker passes validation. *)
Lemma pem_marker_suffices :
  secret_data_valid (Some (<["tls.crt" := "-----BEGIN"]> {["tls.key" := "-----BEGIN"]})) = true.
Proof. vm_compute. reflexivity. Qed.
End ListenerExamples.
