(* ===== verification/ListenerSets.v ===== *)
(** * ListenerSets ([src/gateway/reconcile/listenerset/state.rs]) and attached routes
    ([src/gateway/reconcile/gateway/attachment.rs]).

    A ListenerSet adds listeners to the gateway it names. Its state is built from the object
    and from the gateway's [allowedListeners]; conflicts between the listeners of one gateway
    are then resolved in the order of creation. Unconflicted listeners of one gateway never
    share a port and a host, and a listener is refused only for a reason. *)

From S2P Require Import Prelude Ir Hostname BodyFilter Gateway Json Listeners.

(** ** State of a ListenerSet *)

Section listener_sets.
Context {J : Type} `{!JsonOps J, !SecretApi}.

Definition build_listener_state (entry : ListenerEntry J) : ListenerState :=
  build_listener_state_from_obj (le_name entry) (le_protocol entry) (wrap 16 (le_port entry)) (le_hostname entry)
    (le_json entry).

Definition parse_allowed_listeners (gw : GatewayObject J) : RouteNamespaces :=
  match go_allowed_listeners gw with
  | None => {| rn_from := NsNone; rn_selector := None |}
  | Some value =>
      match j_field value "namespaces" with
      | None => {| rn_from := NsSame; rn_selector := None |}
      | Some ns =>
          {| rn_from := match field_str ns "from" with
                        | Some s => if decide (s = "All") then NsAll
                                    else if decide (s = "Selector") then NsSelector
                                    else if decide (s = "None") then NsNone else NsSame
                        | None => NsSame
                        end;
             rn_selector := match_labels ns |}
      end
  end.

Definition listener_set_allowed (ls_ns : string) (gw : GatewayObject J) (labels : NamespaceLabels) : bool :=
  namespace_allowed (parse_allowed_listeners gw) ls_ns (default "default" (go_namespace gw)) labels.

Definition find_parent_gateway (ls : ListenerSetObject J) (gws : list (GatewayObject J)) : option (GatewayObject J) :=
  let target_ns := match lo_parent_namespace ls with
                   | Some ns => ns
                   | None => default "default" (lo_namespace ls)
                   end in
  find (λ g, bool_decide (default "default" (go_namespace g) = target_ns) &&
             bool_decide (default "" (go_name g) = lo_parent_name ls)) gws.

(** [build_listener_set_allowed_map]. *)
Definition set_allowed_entries (raw : list (ListenerSetObject J)) (st : ListenerSetState) :
    list (string * string * string * AllowedRoutes) :=
  match find (λ r, bool_decide (default "default" (lo_namespace r) = lss_namespace st) &&
                   bool_decide (default "" (lo_name r) = lss_name st)) raw with
  | None => []
  | Some r =>
      omap id (imap (λ idx l,
        match lss_conflicts st !! ls_name l with
        | Some _ => None
        | None =>
            Some ((lss_namespace st, lss_name st, ls_name l),
                  match lo_listeners r !! idx ≫= le_json with
                  | Some o => parse_allowed_routes o
                  | None => AllowedRoutes_default
                  end)
        end) (lss_listeners st))
  end.

Definition build_listener_set_allowed_map (raw : list (ListenerSetObject J)) (sts : list ListenerSetState) :
    ListenerAllowedMap :=
  foldl (λ m kv, <[kv.1 := kv.2]> m) ∅ (sts ≫= set_allowed_entries raw).

(** The errors of one listener: of its certificates and of its kinds. *)
Definition entry_errors (grants : list ReferenceGrantState) (ns : string) (e : ListenerEntry J) :
    option string * option string :=
  match le_json e with
  | None => (Some "InvalidCertificateRef", None)
  | Some obj =>
      (cv_reason <$> validate_listener_certificates grants ns "ListenerSet" obj,
       let '(_, (status, reason, _)) := validate_listener_kinds obj in
       if decide (status = "False") then Some reason else None)
  end.

Definition build_listener_set_state (ls : ListenerSetObject J) (gws : list (GatewayObject J)) (labels : NamespaceLabels)
    (grants : list ReferenceGrantState) : ListenerSetState :=
  let namespace := default "default" (lo_namespace ls) in
  let allowed := match find_parent_gateway ls gws with
                 | Some gw => listener_set_allowed namespace gw labels
                 | None => false
                 end in
  let errors := if allowed then entry_errors grants namespace <$> lo_listeners ls else [] in
  let listeners_valid := forallb (λ e, bool_decide (e.1 = None) && bool_decide (e.2 = None)) errors in
  {| lss_namespace := namespace; lss_name := default "" (lo_name ls);
     lss_generation := Z.max (default 0 (lo_generation ls)) 1;
     lss_created_at := default 0 (lo_creation_timestamp ls);
     lss_parent_ref :=
       {| pr_group := default GATEWAY_GROUP (lo_parent_group ls); pr_kind := default "Gateway" (lo_parent_kind ls);
          pr_namespace := lo_parent_namespace ls; pr_name := lo_parent_name ls; pr_section_name := None; pr_port := None |};
     lss_listeners := if allowed then build_listener_state <$> lo_listeners ls else [];
     lss_conflicts := ∅;
     lss_accepted := allowed && listeners_valid; lss_programmed := allowed && listeners_valid;
     lss_reason := if negb allowed then "NotAllowed" else if negb listeners_valid then "ListenersNotValid" else "Accepted";
     lss_listener_cert_errors := errors.*1; lss_listener_kind_errors := errors.*2 |}.
End listener_sets.

Definition count_attached_listener_sets (gw_ns gw_name : string) (sts : list ListenerSetState) : Z :=
  Z.of_nat (length (filter (λ ls,
    default gw_ns (pr_namespace (lss_parent_ref ls)) = gw_ns ∧ pr_name (lss_parent_ref ls) = gw_name ∧
    lss_accepted ls = true ∧ lss_programmed ls = true) sts)).

(** *** Conflicts *)

Inductive Owner :=
| OwnerGateway (namespace name : string)
| OwnerListenerSet (idx : nat).

Record ActiveListener := {
  al_port : Z;
  al_protocol : string;
  al_hostname : option string;
  al_owner : Owner;
}.

(** Namespace and name of the gateway a ListenerSet attaches to. *)
Definition parent_gateway (ls : ListenerSetState) : string * string :=
  (default (lss_namespace ls) (pr_namespace (lss_parent_ref ls)), pr_name (lss_parent_ref ls)).

Definition same_parent_gateway (active : ActiveListener) (sets : list ListenerSetState) (parent : string * string) : bool :=
  match al_owner active with
  | OwnerGateway namespace name => bool_decide ((namespace, name) = parent)
  | OwnerListenerSet idx =>
      match sets !! idx with Some other => bool_decide (parent_gateway other = parent) | None => false end
  end.

Definition listener_pattern (hostname : option string) : GwHostnameMatch :=
  match hostname with Some h => parse_listener_hostname h | None => GwAny end.

Definition hostname_matches (a b : option string) : bool := hostname_intersects (listener_pattern a) (listener_pattern b).

(** The reason for which a listener of a set is refused, against what is accepted so far. *)
Definition conflict_reason (reserved : gset Z) (sets : list ListenerSetState) (accepted : list ActiveListener)
    (parent : string * string) (l : ListenerState) : option string :=
  if is_port_reserved reserved (ls_port l) then Some "PortUnavailable"
  else (λ active, if eq_ignore_ascii_case (al_protocol active) (ls_protocol l)
                  then "HostnameConflict" else "ProtocolConflict") <$>
       find (λ active, same_parent_gateway active sets parent && (al_port active =? ls_port l) &&
                       hostname_matches (al_hostname active) (ls_hostname l)) accepted.

Definition gateway_actives (gws : list GatewayState) : list ActiveListener :=
  gws ≫= λ gw, (λ l, {| al_port := ls_port l; al_protocol := ls_protocol l; al_hostname := ls_hostname l;
                        al_owner := OwnerGateway (gs_namespace gw) (gs_name gw) |}) <$> gs_listeners gw.

Definition set_key_le (a b : ListenerSetState) : bool :=
  (lss_created_at a <? lss_created_at b) ||
  (lss_created_at a =? lss_created_at b) &&
  ((String.leb (lss_namespace a) (lss_namespace b) && negb (bool_decide (lss_namespace a = lss_namespace b))) ||
   bool_decide (lss_namespace a = lss_namespace b) && String.leb (lss_name a) (lss_name b)).

(** The sets with their indices, in the order in which they claim listeners. *)
Definition claim_order (sets : list ListenerSetState) : list (nat * ListenerSetState) :=
  sort_by (λ a b, set_key_le a.2 b.2) (imap pair sets).

(** A listener to place: its set, its position in it. *)
Record Candidate := {
  cd_set : nat;
  cd_ls : ListenerSetState;
  cd_pos : nat;
  cd_listener : ListenerState;
}.

Definition candidates (sets : list ListenerSetState) : list Candidate :=
  claim_order sets ≫= λ ils,
    imap (λ a l, {| cd_set := ils.1; cd_ls := ils.2; cd_pos := a; cd_listener := l |}) (lss_listeners ils.2).

Definition candidate_active (c : Candidate) : ActiveListener :=
  {| al_port := ls_port (cd_listener c); al_protocol := ls_protocol (cd_listener c);
     al_hostname := ls_hostname (cd_listener c); al_owner := OwnerListenerSet (cd_set c) |}.

(** One round of the loop: the accepted listeners and the conflicts found. *)
Definition conflict_step (reserved : gset Z) (sets : list ListenerSetState)
    (st : list ActiveListener * list (nat * string * string)) (c : Candidate) :
    list ActiveListener * list (nat * string * string) :=
  match conflict_reason reserved sets st.1 (parent_gateway (cd_ls c)) (cd_listener c) with
  | Some reason => (st.1, st.2 ++ [(cd_set c, ls_name (cd_listener c), reason)])
  | None => (st.1 ++ [candidate_active c], st.2)
  end.

Definition set_conflicts (m : gmap string string) (ls : ListenerSetState) : ListenerSetState :=
  {| lss_namespace := lss_namespace ls; lss_name := lss_name ls; lss_generation := lss_generation ls;
     lss_created_at := lss_created_at ls; lss_parent_ref := lss_parent_ref ls; lss_listeners := lss_listeners ls;
     lss_conflicts := m; lss_accepted := lss_accepted ls; lss_programmed := lss_programmed ls;
     lss_reason := lss_reason ls; lss_listener_cert_errors := lss_listener_cert_errors ls;
     lss_listener_kind_errors := lss_listener_kind_errors ls |}.

(** [listener_sets[idx].conflicts.insert(name, reason)]. *)
Definition add_conflict (sets : list ListenerSetState) (c : nat * string * string) : list ListenerSetState :=
  alter (λ ls, set_conflicts (<[c.1.2 := c.2]> (lss_conflicts ls)) ls) c.1.1 sets.

(** The last loop: a set without a valid listener is not accepted. *)
Definition withdraw (ls : ListenerSetState) : ListenerSetState :=
  if lss_accepted ls &&
     negb (existsb (λ l, bool_decide (lss_conflicts ls !! ls_name l = None)) (lss_listeners ls))
  then {| lss_namespace := lss_namespace ls; lss_name := lss_name ls; lss_generation := lss_generation ls;
          lss_created_at := lss_created_at ls; lss_parent_ref := lss_parent_ref ls; lss_listeners := lss_listeners ls;
          lss_conflicts := lss_conflicts ls; lss_accepted := false; lss_programmed := false;
          lss_reason := "ListenersNotValid"; lss_listener_cert_errors := lss_listener_cert_errors ls;
          lss_listener_kind_errors := lss_listener_kind_errors ls |}
  else ls.

Definition resolve_listener_set_conflicts (reserved : gset Z) (sets : list ListenerSetState) (gws : list GatewayState) :
    list ListenerSetState :=
  let '(_, conflicts) := foldl (conflict_step reserved sets) (gateway_actives gws, []) (candidates sets) in
  withdraw <$> foldl add_conflict sets conflicts.

(** ** Attached routes *)

(** What counting reads of a route: its namespace, its hostnames and its parentRefs. *)
Record RouteParents (P : Type) := {
  rp_namespace : option string;
  rp_hostnames : list GwHostnameMatch;
  rp_parents : list P;
}.
#[global] Arguments rp_namespace {P} _.
#[global] Arguments rp_hostnames {P} _.
#[global] Arguments rp_parents {P} _.

(** [counts[idx] += 1] for every listener a test accepts. *)
Definition count_if {A} (test : A → bool) (listeners : list A) (counts : list Z) : list Z :=
  zip_with (λ l n, if test l then n + 1 else n) listeners counts.

(** [attached_routes_per_listener]: the test of one parentRef. *)
Definition set_ref_selects (ls : ListenerSetState) (labels : NamespaceLabels) (allowed_map : ListenerAllowedMap)
    (route_ns : string) (hostnames : list GwHostnameMatch) (parsed : ParsedParentRef) (l : ListenerState) : bool :=
  bool_decide (pp_kind parsed = "ListenerSet") && bool_decide (pp_group parsed = GATEWAY_GROUP) &&
  bool_decide (default (lss_namespace ls) (pp_namespace parsed) = lss_namespace ls) &&
  bool_decide (pp_name parsed = lss_name ls) &&
  bool_decide (lss_conflicts ls !! ls_name l = None) &&
  opt_all (λ s, bool_decide (s = ls_name l)) (pp_section_name parsed) &&
  (let allowed := allowed_for allowed_map (lss_namespace ls) (lss_name ls) l in
   listener_allows_kind allowed GATEWAY_GROUP "HTTPRoute" &&
   namespace_allowed (ar_namespaces allowed) route_ns (lss_namespace ls) labels) &&
  listener_hostname_intersects (ls_hostname l) hostnames.

Definition attached_routes_per_listener (ls : ListenerSetState) (httproutes : list (RouteParents ParsedParentRef))
    (labels : NamespaceLabels) (allowed_map : ListenerAllowedMap) : list Z :=
  foldl (λ counts (rp : RouteParents ParsedParentRef * ParsedParentRef),
    count_if (set_ref_selects ls labels allowed_map (default (lss_namespace ls) (rp_namespace rp.1))
                (rp_hostnames rp.1) rp.2) (lss_listeners ls) counts)
    (replicate (length (lss_listeners ls)) 0)
    (httproutes ≫= λ route, pair route <$> rp_parents route).

(** [gateway/attachment.rs]. *)
Record ParentRefInfo := {
  pi_group : option string;
  pi_kind : option string;
  pi_namespace : option string;
  pi_name : string;
  pi_section_name : option string;
  pi_port : option Z;
}.

Definition is_gateway (parent : ParentRefInfo) : bool :=
  bool_decide (default GATEWAY_GROUP (pi_group parent) = GATEWAY_GROUP) &&
  bool_decide (default "Gateway" (pi_kind parent) = "Gateway").

Record ListenerMatch := {
  lm_name : string;
  lm_port : Z;
  lm_hostname : option string;
  lm_protocol : string;
  lm_allowed : AllowedRoutes;
}.

Definition listener_matches {J} `{!JsonOps J} (gw : GatewayObject J) : list ListenerMatch :=
  (λ l, {| lm_name := default "" (field_str l "name"); lm_port := listener_port l 80;
           lm_hostname := field_str l "hostname"; lm_protocol := default "HTTP" (field_str l "protocol");
           lm_allowed := parse_allowed_routes l |}) <$> filter (λ l, is_object l = true) (go_listeners gw).

Section attachment_counter.
Context (gw_ns gw_name : string) (listeners : list ListenerMatch) (labels : NamespaceLabels).

(** The test of [AttachmentCounter::increment]. *)
Definition ref_selects (parent : ParentRefInfo) (route_ns : string) (hostnames : list GwHostnameMatch)
    (route_kind expected_protocol : string) (l : ListenerMatch) : bool :=
  is_gateway parent && bool_decide (default route_ns (pi_namespace parent) = gw_ns) &&
  bool_decide (pi_name parent = gw_name) &&
  opt_all (λ s, bool_decide (s = lm_name l)) (pi_section_name parent) &&
  opt_all (λ p, wrap 16 p =? lm_port l) (pi_port parent) &&
  bool_decide (lm_protocol l = expected_protocol) &&
  listener_allows_kind (lm_allowed l) GATEWAY_GROUP route_kind &&
  namespace_allowed (ar_namespaces (lm_allowed l)) route_ns gw_ns labels &&
  listener_hostname_intersects (lm_hostname l) hostnames.

Definition increment (counts : list Z) (parent : ParentRefInfo) (route_ns : string)
    (hostnames : list GwHostnameMatch) (route_kind expected_protocol : string) : list Z :=
  count_if (ref_selects parent route_ns hostnames route_kind expected_protocol) listeners counts.

(** The loop over the routes of one kind; [None] when they cannot be listed. *)
Definition count_kind (kind : string) (protocols : list string) (hosts : RouteParents ParentRefInfo → list GwHostnameMatch)
    (routes : option (list (RouteParents ParentRefInfo))) (counts : list Z) : list Z :=
  foldl (λ counts (rp : RouteParents ParentRefInfo * ParentRefInfo),
    foldl (λ counts protocol,
      increment counts rp.2 (default gw_ns (rp_namespace rp.1)) (hosts rp.1) kind protocol) counts protocols)
    counts (default [] routes ≫= λ route, pair route <$> rp_parents route).

Definition count_attached_routes (http tcp udp tls : option (list (RouteParents ParentRefInfo))) : list Z :=
  count_kind "TLSRoute" ["TLS"] rp_hostnames tls
    (count_kind "UDPRoute" ["UDP"] (const []) udp
      (count_kind "TCPRoute" ["TCP"] (const []) tcp
        (count_kind "HTTPRoute" ["HTTPS"; "HTTP"] rp_hostnames http (replicate (length listeners) 0)))).
End attachment_counter.

(** ** Lemmas *)

(** A host matched by both listeners. *)
Definition shares_host (a b : option string) : Prop :=
  ∃ host, gw_matches (listener_pattern a) host ∧ gw_matches (listener_pattern b) host.

#[global] Instance shares_host_sym : Symmetric shares_host.
Proof. intros a b (h & ? & ?). by exists h. Qed.

Lemma gw_pattern_inhabited (p : GwHostnameMatch) : ∃ host, gw_matches p host.
Proof.
  destruct p as [s|suf|].
  - exists s. by apply gw_matches_exact.
  - exists ("a" +:+ String dot suf). by apply wildcard_member.
  - exists "". apply gw_matches_any.
Qed.

Lemma hostname_matches_iff (a b : option string) : hostname_matches a b = true ↔ shares_host a b.
Proof.
  unfold hostname_matches, shares_host, hostname_intersects.
  setoid_rewrite intersect_pair_exact. unfold intersect_hostname_pair.
  destruct (is_hostname_subset _ _); [split; [intros _; apply gw_pattern_inhabited|done]|].
  destruct (is_hostname_subset _ _); [split; [intros _; apply gw_pattern_inhabited|done]|].
  split; [done|by intros []].
Qed.

(** What makes an accepted listener stand in the way of a candidate. *)
Definition clashes (sets : list ListenerSetState) (active : ActiveListener) (c : Candidate) : Prop :=
  same_parent_gateway active sets (parent_gateway (cd_ls c)) = true ∧ al_port active = ls_port (cd_listener c) ∧
  shares_host (al_hostname active) (ls_hostname (cd_listener c)).

Lemma conflict_reason_none reserved sets accepted c :
  conflict_reason reserved sets accepted (parent_gateway (cd_ls c)) (cd_listener c) = None ↔
  is_port_reserved reserved (ls_port (cd_listener c)) = false ∧ ∀ active, active ∈ accepted → ¬ clashes sets active c.
Proof.
  unfold conflict_reason. destruct (is_port_reserved _ _); [naive_solver|].
  rewrite fmap_None. split.
  - intros Hf. split; [done|]. intros active Hin (Hp & Hport & Hh).
    apply list_elem_of_In, (find_none _ _ Hf) in Hin.
    apply hostname_matches_iff in Hh. apply Z.eqb_eq in Hport. by rewrite Hp, Hport, Hh in Hin.
  - intros [_ Hno]. destruct (find _ _) as [active|] eqn:Hf; [|done]. exfalso.
    apply find_some in Hf as [Hin Ht]. simp_bool. apply (Hno active); [by apply list_elem_of_In|].
    split_and!; [done|done|by apply hostname_matches_iff].
Qed.

(** *** The loop over the candidates *)

Section conflict_loop.
Context (reserved : gset Z) (sets : list ListenerSetState) (acc : list ActiveListener).

Definition conflict_run (cs : list Candidate) : list ActiveListener * list (nat * string * string) :=
  foldl (conflict_step reserved sets) (acc, []) cs.

(** The candidate at a position is accepted. *)
Definition kept_at (cs : list Candidate) (p : nat) (c : Candidate) : Prop :=
  cs !! p = Some c ∧
  conflict_reason reserved sets (conflict_run (take p cs)).1 (parent_gateway (cd_ls c)) (cd_listener c) = None.

Lemma kept_at_snoc cs x p c :
  kept_at (cs ++ [x]) p c ↔
  kept_at cs p c ∨ p = length cs ∧ c = x ∧
    conflict_reason reserved sets (conflict_run cs).1 (parent_gateway (cd_ls x)) (cd_listener x) = None.
Proof.
  unfold kept_at. rewrite lookup_snoc_Some. split.
  - intros [[[Hlt Hp]|[-> ->]] Hk]; [left|right].
    + by rewrite take_app_le in Hk by lia.
    + by rewrite take_app_length in Hk.
  - intros [[Hp Hk]|(-> & -> & Hk)].
    + pose proof (lookup_lt_Some _ _ _ Hp). rewrite take_app_le by lia. split; [by left|done].
    + rewrite take_app_length. split; [by right|done].
Qed.

Lemma conflict_run_snoc cs x : conflict_run (cs ++ [x]) = conflict_step reserved sets (conflict_run cs) x.
Proof. unfold conflict_run. by rewrite foldl_app. Qed.

Lemma conflict_run_accepted cs active :
  active ∈ (conflict_run cs).1 ↔ active ∈ acc ∨ ∃ p c, kept_at cs p c ∧ active = candidate_active c.
Proof.
  induction cs as [|x cs IH] using rev_ind.
  { split; [by left|]. intros [?|(p & c & [Hp _] & _)]; done. }
  rewrite conflict_run_snoc. unfold conflict_step. setoid_rewrite kept_at_snoc.
  destruct (conflict_reason _ _ _ _ _) as [reason|] eqn:Hr; cbn [fst].
  - rewrite IH. naive_solver.
  - rewrite elem_of_app, list_elem_of_singleton, IH. naive_solver.
Qed.

Lemma conflict_run_refused cs i n :
  (∃ reason, (i, n, reason) ∈ (conflict_run cs).2) ↔
  ∃ p c, cs !! p = Some c ∧ ¬ kept_at cs p c ∧ cd_set c = i ∧ ls_name (cd_listener c) = n.
Proof.
  induction cs as [|x cs IH] using rev_ind.
  { split; [by intros [? ?%elem_of_nil]|by intros (p & c & ? & _)]. }
  rewrite conflict_run_snoc. unfold conflict_step. setoid_rewrite kept_at_snoc. setoid_rewrite lookup_snoc_Some.
  assert (∀ p c, kept_at cs p c → p < length cs)%nat as Hlt by (intros p c [?%lookup_lt_Some _]; lia).
  destruct (conflict_reason _ _ _ _ _) as [reason|] eqn:Hr; cbn [snd].
  - setoid_rewrite elem_of_app. setoid_rewrite list_elem_of_singleton. split.
    + intros (r & [Hin|[= -> -> ->]]).
      * destruct (proj1 IH) as (p & c & Hp & Hk & ? & ?); [by exists r|].
        exists p, c. pose proof (lookup_lt_Some _ _ _ Hp). naive_solver lia.
      * exists (length cs), x. split_and!; [by right| |done..]. intros [?%Hlt|?]; [lia|naive_solver].
    + intros (p & c & [[Hp Hc]|[-> ->]] & Hk & <- & <-); [|exists reason; by right].
      destruct (proj2 IH) as [r Hin]; [exists p, c; naive_solver|]. exists r. by left.
  - rewrite IH. split.
    + intros (p & c & Hp & Hk & ? & ?). exists p, c. pose proof (lookup_lt_Some _ _ _ Hp). naive_solver lia.
    + intros (p & c & [[Hp Hc]|[-> ->]] & Hk & <- & <-); [exists p, c; naive_solver|].
      exfalso. apply Hk. by right.
Qed.

Lemma kept_at_iff cs p c :
  cs !! p = Some c →
  kept_at cs p c ↔
  is_port_reserved reserved (ls_port (cd_listener c)) = false ∧ (∀ active, active ∈ acc → ¬ clashes sets active c) ∧
  ∀ q c', (q < p)%nat → kept_at cs q c' → ¬ clashes sets (candidate_active c') c.
Proof.
  intros Hc. unfold kept_at at 1. rewrite conflict_reason_none. setoid_rewrite conflict_run_accepted.
  assert (∀ q c', kept_at (take p cs) q c' ↔ (q < p)%nat ∧ kept_at cs q c') as Htake.
  { intros q c'. unfold kept_at. rewrite lookup_take_Some, take_take. split.
    - intros [[Hq ?] Hk]. rewrite Nat.min_l in Hk by lia. done.
    - intros (? & Hq & Hk). rewrite Nat.min_l by lia. done. }
  setoid_rewrite Htake. naive_solver.
Qed.
End conflict_loop.

(** *** The candidates and their order *)

Lemma elem_of_candidates sets c :
  c ∈ candidates sets ↔
  sets !! cd_set c = Some (cd_ls c) ∧ lss_listeners (cd_ls c) !! cd_pos c = Some (cd_listener c).
Proof.
  unfold candidates, claim_order. rewrite list_elem_of_bind. setoid_rewrite elem_of_sort_by.
  setoid_rewrite elem_of_lookup_imap. split.
  - intros ([i ls] & (a & l & -> & Hl) & (i' & ls' & [= <- <-] & Hs)). done.
  - intros [Hs Hl]. exists (cd_set c, cd_ls c). split; [|by eauto].
    exists (cd_pos c), (cd_listener c). split; [by destruct c|done].
Qed.

(** A listener of an older set, or an earlier listener of the same set. *)
Definition older (c' c : Candidate) : Prop :=
  cd_set c' = cd_set c ∧ (cd_pos c' < cd_pos c)%nat ∨
  cd_set c' ≠ cd_set c ∧ set_key_le (cd_ls c') (cd_ls c) = true.

Lemma set_key_le_iff a b :
  set_key_le a b = true ↔
  lss_created_at a < lss_created_at b ∨
  lss_created_at a = lss_created_at b ∧
    (lss_namespace a ≠ lss_namespace b ∧ String.leb (lss_namespace a) (lss_namespace b) = true ∨
     lss_namespace a = lss_namespace b ∧ String.leb (lss_name a) (lss_name b) = true).
Proof.
  unfold set_key_le. rewrite orb_true_iff, !andb_true_iff, orb_true_iff, !andb_true_iff, negb_true_iff.
  rewrite bool_decide_eq_true, bool_decide_eq_false, Z.ltb_lt, Z.eqb_eq. tauto.
Qed.

Lemma set_key_le_total a b : set_key_le a b = true ∨ set_key_le b a = true.
Proof.
  rewrite !set_key_le_iff.
  destruct (Z.lt_trichotomy (lss_created_at a) (lss_created_at b)) as [?|[?|?]]; [tauto| |tauto].
  destruct (decide (lss_namespace a = lss_namespace b)).
  - destruct (String.leb_total (lss_name a) (lss_name b)); intuition.
  - destruct (String.leb_total (lss_namespace a) (lss_namespace b)); intuition.
Qed.

Lemma set_key_le_trans a b c : set_key_le a b = true → set_key_le b c = true → set_key_le a c = true.
Proof.
  rewrite !set_key_le_iff.
  intros [?|(E1 & H1)] [?|(E2 & H2)]; [left; lia..|]. right. split; [lia|].
  destruct H1 as [[N1 L1]|[N1 L1]], H2 as [[N2 L2]|[N2 L2]].
  - left. split; [|by eapply leb_trans]. intros E. rewrite E in L1. apply N2. by apply String.leb_antisym.
  - left. by rewrite <- N2.
  - left. by rewrite N1.
  - right. split; [congruence|by eapply leb_trans].
Qed.

Lemma set_key_le_antisym a b :
  set_key_le a b = true → set_key_le b a = true → (lss_namespace a, lss_name a) = (lss_namespace b, lss_name b).
Proof.
  rewrite !set_key_le_iff.
  intros [?|(E1 & H1)] [?|(E2 & H2)]; [lia..|].
  destruct H1 as [[N1 L1]|[N1 L1]], H2 as [[N2 L2]|[N2 L2]]; [|congruence..|].
  - by destruct N1; apply String.leb_antisym.
  - f_equal; [done|by apply String.leb_antisym].
Qed.

Lemma set_candidates_sorted i ls listeners k :
  StronglySorted older
    (imap (λ a l, {| cd_set := i; cd_ls := ls; cd_pos := k + a; cd_listener := l |}) listeners).
Proof.
  revert k. induction listeners as [|l listeners IH]; intros k; [constructor|]. cbn [imap].
  constructor.
  - erewrite imap_ext; [apply (IH (S k))|]. intros a l' _. unfold compose. f_equal; lia.
  - apply Forall_forall. intros c (a & l' & -> & _)%elem_of_lookup_imap. left. unfold compose. simpl. lia.
Qed.

Lemma candidates_sorted sets : StronglySorted older (candidates sets).
Proof.
  unfold candidates.
  assert (NoDup (claim_order sets).*1) as Hnd.
  { unfold claim_order. rewrite sort_by_perm. apply NoDup_alt. intros i j x.
    rewrite !list_lookup_fmap, !list_lookup_imap. destruct (sets !! i), (sets !! j); naive_solver. }
  assert (StronglySorted (λ x y, set_key_le x.2 y.2 = true) (claim_order sets)) as Hs.
  { apply (sort_by_sorted (λ a b, set_key_le a.2 b.2)); intros *; [apply set_key_le_total|apply set_key_le_trans]. }
  induction (claim_order sets) as [|[i ls] order IH]; [constructor|].
  cbn [fmap list_fmap fst] in Hnd. apply NoDup_cons in Hnd as [Hni Hnd]. inv Hs. cbn [mbind list_bind].
  apply StronglySorted_app_2; [|apply (set_candidates_sorted i ls _ 0)|by apply IH].
  intros c1 c2 (a & l & -> & _)%elem_of_lookup_imap Hc2. right. simpl.
  apply list_elem_of_bind in Hc2 as ([j ls'] & (b & l' & -> & _)%elem_of_lookup_imap & Hj). simpl. split.
  - intros ->. apply Hni. by apply (list_elem_of_fmap_2 fst) in Hj.
  - by eapply (Forall_forall _ _) in Hj; [|done].
Qed.

(** Without two sets of one name the order is strict. *)
Lemma older_asym sets c c' :
  NoDup ((λ s, (lss_namespace s, lss_name s)) <$> sets) → c ∈ candidates sets → c' ∈ candidates sets →
  older c' c → ¬ older c c'.
Proof.
  intros Hnd [Hc _]%elem_of_candidates [Hc' _]%elem_of_candidates.
  intros [[? ?]|[Hne H1]] [[? ?]|[Hne' H2]]; [lia|congruence..|]. apply Hne.
  rewrite NoDup_alt in Hnd. eapply Hnd; rewrite list_lookup_fmap; [by rewrite Hc'|rewrite Hc; cbn [fmap option_fmap option_map]].
  f_equal. by apply set_key_le_antisym.
Qed.

Lemma sorted_older sets p q c c' :
  candidates sets !! p = Some c → candidates sets !! q = Some c' → (q < p)%nat → older c' c.
Proof.
  intros Hp Hq Hlt. pose proof (candidates_sorted sets) as Hs.
  rewrite <- (take_drop p (candidates sets)) in Hs.
  eapply StronglySorted_app_1_elem_of; [done|..].
  - apply list_elem_of_lookup. exists q. by rewrite lookup_take_lt.
  - apply list_elem_of_lookup. exists 0%nat. by rewrite lookup_drop, Nat.add_0_r.
Qed.

Lemma older_position sets p q c c' :
  NoDup ((λ s, (lss_namespace s, lss_name s)) <$> sets) →
  candidates sets !! p = Some c → candidates sets !! q = Some c' → older c' c → (q < p)%nat.
Proof.
  intros Hnd Hp Hq Ho. destruct (Nat.lt_total q p) as [?|[->|Hlt]]; [done|exfalso..].
  - simplify_eq. destruct Ho as [[_ ?]|[? _]]; [lia|done].
  - eapply older_asym; [done| | |exact Ho|by eapply sorted_older]; by eapply list_elem_of_lookup_2.
Qed.

Lemma clashes_candidate sets c c' :
  c' ∈ candidates sets →
  clashes sets (candidate_active c') c ↔
  parent_gateway (cd_ls c') = parent_gateway (cd_ls c) ∧ ls_port (cd_listener c') = ls_port (cd_listener c) ∧
  shares_host (ls_hostname (cd_listener c')) (ls_hostname (cd_listener c)).
Proof.
  intros [Hc' _]%elem_of_candidates. unfold clashes, same_parent_gateway. cbn [candidate_active al_owner al_port al_hostname].
  by rewrite Hc', bool_decide_eq_true.
Qed.

Lemma clashes_gateway sets gws c :
  (∃ active, active ∈ gateway_actives gws ∧ clashes sets active c) ↔
  ∃ gw l, gw ∈ gws ∧ l ∈ gs_listeners gw ∧ (gs_namespace gw, gs_name gw) = parent_gateway (cd_ls c) ∧
          ls_port l = ls_port (cd_listener c) ∧ shares_host (ls_hostname l) (ls_hostname (cd_listener c)).
Proof.
  unfold gateway_actives, clashes. setoid_rewrite list_elem_of_bind. setoid_rewrite list_elem_of_fmap. split.
  - intros (? & (gw & (l & -> & Hl) & Hgw) & Hp & ? & ?). apply bool_decide_eq_true in Hp. eauto 10.
  - intros (gw & l & Hgw & Hl & Hp & ? & ?). eexists. split; [eauto 10|]. split_and!; [by apply bool_decide_eq_true|done..].
Qed.

(** *** What the pass leaves in a set *)

Lemma add_conflicts_lookup conf : ∀ sets i,
  foldl add_conflict sets conf !! i =
  (λ s, set_conflicts (foldl (λ m c, <[c.1.2 := c.2]> m) (lss_conflicts s) (filter (λ c, c.1.1 = i) conf)) s) <$>
    sets !! i.
Proof.
  induction conf as [|c conf IH]; intros sets i; cbn [foldl].
  - rewrite filter_nil. destruct (sets !! i) as [s|]; [by destruct s|done].
  - rewrite IH. unfold add_conflict. rewrite filter_cons. destruct (decide (c.1.1 = i)) as [<-|Hne].
    + rewrite list_lookup_alter_eq. by destruct (sets !! c.1.1).
    + by rewrite list_lookup_alter_ne.
Qed.

Lemma foldl_insert_none (l : list (nat * string * string)) n : ∀ m : gmap string string,
  foldl (λ m c, <[c.1.2 := c.2]> m) m l !! n = None ↔ m !! n = None ∧ ∀ c, c ∈ l → c.1.2 ≠ n.
Proof.
  induction l as [|c l IH]; intros m; cbn [foldl]; [set_solver|].
  rewrite IH, lookup_insert_None. set_solver.
Qed.

Lemma withdraw_fields ls :
  lss_listeners (withdraw ls) = lss_listeners ls ∧ lss_conflicts (withdraw ls) = lss_conflicts ls ∧
  parent_gateway (withdraw ls) = parent_gateway ls.
Proof. unfold withdraw. by case_match. Qed.

Section resolved.
Context (reserved : gset Z) (sets : list ListenerSetState) (gws : list GatewayState).

Abbreviation resolved := (resolve_listener_set_conflicts reserved sets gws).
Abbreviation kept := (kept_at reserved sets (gateway_actives gws) (candidates sets)).

Lemma resolve_length : length resolved = length sets.
Proof.
  unfold resolve_listener_set_conflicts. destruct (foldl _ _ _) as [accepted conf]. rewrite length_fmap.
  revert sets. induction conf as [|c conf IH]; intros sets'; [done|]. cbn [foldl]. rewrite IH. apply length_alter.
Qed.

Lemma resolve_lookup i o :
  resolved !! i = Some o →
  ∃ s, sets !! i = Some s ∧ lss_listeners o = lss_listeners s ∧ parent_gateway o = parent_gateway s ∧
    ∀ n, lss_conflicts o !! n = None ↔
         lss_conflicts s !! n = None ∧
         ∀ p c, candidates sets !! p = Some c → cd_set c = i → ls_name (cd_listener c) = n → kept p c.
Proof.
  unfold resolve_listener_set_conflicts.
  destruct (foldl _ _ _) as [accepted conf] eqn:Hrun.
  assert (conf = (conflict_run reserved sets (gateway_actives gws) (candidates sets)).2) as ->
    by (unfold conflict_run; by rewrite Hrun).
  rewrite list_lookup_fmap, add_conflicts_lookup. destruct (sets !! i) as [s|]; [|done]. intros [= <-].
  exists s. destruct (withdraw_fields (set_conflicts (foldl (λ m c, <[c.1.2 := c.2]> m) (lss_conflicts s)
    (filter (λ c, c.1.1 = i) (conflict_run reserved sets (gateway_actives gws) (candidates sets)).2)) s))
    as (-> & -> & ->).
  split_and!; [done..|]. intros n. cbn [set_conflicts lss_conflicts]. rewrite foldl_insert_none. f_equiv.
  pose proof (conflict_run_refused reserved sets (gateway_actives gws) (candidates sets) i n) as Href.
  split.
  - intros Hno p c Hp Hi Hn. unfold kept_at. split; [done|].
    destruct (decide (conflict_reason reserved sets
      (conflict_run reserved sets (gateway_actives gws) (take p (candidates sets))).1
      (parent_gateway (cd_ls c)) (cd_listener c) = None)) as [|Hk]; [done|exfalso].
    destruct (proj2 Href) as [reason Hin]; [exists p, c; unfold kept_at; naive_solver|].
    by apply (Hno (i, n, reason)); [apply list_elem_of_filter|].
  - intros Hkept [[j m] reason] [Hj Hin]%list_elem_of_filter Hm. cbn in Hj, Hm. subst.
    destruct (proj1 Href) as (p & c & Hp & Hk & Hi & Hn); [by exists reason|]. by eapply Hk, Hkept.
Qed.

(** A listener of a set that ends up without a conflict, and the gateway it belongs to. *)
Definition in_effect (gw : string * string) (i a : nat) (l : ListenerState) : Prop :=
  ∃ o, resolved !! i = Some o ∧ parent_gateway o = gw ∧ lss_listeners o !! a = Some l ∧
       lss_conflicts o !! ls_name l = None.

Lemma in_effect_kept gw i a l :
  in_effect gw i a l → ∃ p c, kept p c ∧ cd_set c = i ∧ cd_pos c = a ∧ cd_listener c = l ∧ parent_gateway (cd_ls c) = gw.
Proof.
  intros (o & Ho & Hgw & Hl & Hnone). apply resolve_lookup in Ho as (s & Hs & Hls & Hpg & Hconf).
  set (c := {| cd_set := i; cd_ls := s; cd_pos := a; cd_listener := l |}).
  assert (c ∈ candidates sets) as [p Hp]%list_elem_of_lookup by (apply elem_of_candidates; simpl; by rewrite <- Hls).
  exists p, c. split_and!; [|done..|simpl; congruence]. by apply Hconf in Hnone as [_ Hk]; eapply Hk.
Qed.

Lemma candidate_unique p q c c' :
  (∀ s, s ∈ sets → NoDup (ls_name <$> lss_listeners s)) →
  candidates sets !! p = Some c → candidates sets !! q = Some c' →
  cd_set c' = cd_set c → ls_name (cd_listener c') = ls_name (cd_listener c) → q = p ∧ c' = c.
Proof.
  intros Hwf Hp Hq Hi Hn.
  pose proof (list_elem_of_lookup_2 _ _ _ Hp) as [Hs Hl]%elem_of_candidates.
  pose proof (list_elem_of_lookup_2 _ _ _ Hq) as [Hs' Hl']%elem_of_candidates.
  rewrite Hi, Hs in Hs'. injection Hs' as Hs'. rewrite <- Hs' in Hl'.
  pose proof (Hwf _ (list_elem_of_lookup_2 _ _ _ Hs)) as Hnd. rewrite NoDup_alt in Hnd.
  assert (cd_pos c' = cd_pos c) as Hpos
    by (eapply Hnd; rewrite list_lookup_fmap; [by rewrite Hl'|by rewrite Hl; cbn; rewrite Hn]).
  assert (c' = c) as -> by (destruct c, c'; simpl in *; congruence). split; [|done].
  destruct (Nat.lt_total q p) as [Hlt|[?|Hlt]]; [exfalso|done|exfalso].
  - destruct (sorted_older sets p q c c) as [[_ ?]|[? _]]; [done..|lia|done].
  - destruct (sorted_older sets q p c c) as [[_ ?]|[? _]]; [done..|lia|done].
Qed.

Lemma kept_in_effect p c :
  (∀ s, s ∈ sets → lss_conflicts s = ∅) → (∀ s, s ∈ sets → NoDup (ls_name <$> lss_listeners s)) →
  candidates sets !! p = Some c →
  kept p c ↔ in_effect (parent_gateway (cd_ls c)) (cd_set c) (cd_pos c) (cd_listener c).
Proof.
  intros He Hnd Hp. pose proof (list_elem_of_lookup_2 _ _ _ Hp) as [Hs Hl]%elem_of_candidates. split.
  - intros Hk. destruct (resolved !! cd_set c) as [o|] eqn:Ho; cycle 1.
    { apply lookup_ge_None in Ho. apply lookup_lt_Some in Hs. by rewrite resolve_length in Ho; lia. }
    pose proof Ho as (s & Hs' & Hls & Hpg & Hconf)%resolve_lookup. rewrite Hs in Hs'. injection Hs' as <-. exists o.
    split_and!; [done..|by rewrite Hls|]. apply Hconf.
    rewrite (He (cd_ls c)) by (by eapply list_elem_of_lookup_2). split; [done|].
    intros q c' Hq Hi Hn. by destruct (candidate_unique p q c c') as [-> ->].
  - intros (q & c' & Hk & Hi & _ & Hl' & _)%in_effect_kept.
    destruct (candidate_unique p q c c') as [-> ->]; [done..|by destruct Hk|done|by rewrite Hl'|done].
Qed.
End resolved.

(** ** Theorems *)

(** C15. The listeners that remain in effect on a gateway never overlap: one that comes from a
    ListenerSet has a port that is not reserved, and on its port no other such listener of
    the gateway and no listener of the gateway itself matches a host it matches. *)
Theorem listeners_in_effect_disjoint (reserved : gset Z) (sets : list ListenerSetState) (gws : list GatewayState)
    (gw : string * string) (i a : nat) (l : ListenerState) :
  in_effect reserved sets gws gw i a l →
  is_port_reserved reserved (ls_port l) = false ∧
  (∀ g gl, g ∈ gws → (gs_namespace g, gs_name g) = gw → gl ∈ gs_listeners g → ls_port gl = ls_port l →
     ¬ shares_host (ls_hostname gl) (ls_hostname l)) ∧
  (∀ j b l', (j, b) ≠ (i, a) → in_effect reserved sets gws gw j b l' → ls_port l' = ls_port l →
     ¬ shares_host (ls_hostname l') (ls_hostname l)).
Proof.
  intros (p & c & Hk & <- & <- & <- & <-)%in_effect_kept.
  pose proof Hk as [Hp _]. pose proof (kept_at_iff reserved sets (gateway_actives gws) _ p c Hp) as Hiff.
  pose proof (proj1 Hiff Hk) as (Hres & Hgw & Hpre). split_and!; [done|..].
  - intros g gl Hg Hpar Hgl Hport Hsh.
    destruct (proj2 (clashes_gateway sets gws c)) as (active & Hin & Hc); [naive_solver|]. by eapply Hgw.
  - intros j b l' Hne (q & c' & Hk' & <- & <- & <- & Hpar)%in_effect_kept Hport Hsh.
    pose proof Hk' as [Hq _].
    destruct (Nat.lt_total q p) as [Hlt|[->|Hlt]].
    + apply (Hpre q c' Hlt Hk'). by apply clashes_candidate; [eapply list_elem_of_lookup_2|].
    + rewrite Hp in Hq. by injection Hq as ->.
    + apply (kept_at_iff _ _ _ _ q c' Hq) in Hk' as (_ & _ & Hpre').
      apply (Hpre' p c Hlt Hk). apply clashes_candidate; [by eapply list_elem_of_lookup_2|].
      split_and!; [done..|by symmetry].
Qed.

(** Nothing else is refused: with one set per name and distinct listener names, a listener
    of a set stays in effect exactly when its port is not reserved and neither a listener of
    its gateway nor an older listener in effect on that gateway matches one of its hosts on
    its port. *)
Theorem conflict_resolution_exact (reserved : gset Z) (sets : list ListenerSetState) (gws : list GatewayState)
    (c : Candidate) :
  NoDup ((λ s, (lss_namespace s, lss_name s)) <$> sets) →
  (∀ s, s ∈ sets → lss_conflicts s = ∅) → (∀ s, s ∈ sets → NoDup (ls_name <$> lss_listeners s)) →
  c ∈ candidates sets →
  in_effect reserved sets gws (parent_gateway (cd_ls c)) (cd_set c) (cd_pos c) (cd_listener c) ↔
  is_port_reserved reserved (ls_port (cd_listener c)) = false ∧
  (¬ ∃ g gl, g ∈ gws ∧ gl ∈ gs_listeners g ∧ (gs_namespace g, gs_name g) = parent_gateway (cd_ls c) ∧
       ls_port gl = ls_port (cd_listener c) ∧ shares_host (ls_hostname gl) (ls_hostname (cd_listener c))) ∧
  (¬ ∃ c', c' ∈ candidates sets ∧ older c' c ∧
       in_effect reserved sets gws (parent_gateway (cd_ls c)) (cd_set c') (cd_pos c') (cd_listener c') ∧
       ls_port (cd_listener c') = ls_port (cd_listener c) ∧
       shares_host (ls_hostname (cd_listener c')) (ls_hostname (cd_listener c))).
Proof.
  intros Hnames He Hnd [p Hp]%list_elem_of_lookup.
  rewrite <- (kept_in_effect reserved sets gws p c He Hnd Hp), (kept_at_iff _ _ _ _ p c Hp).
  rewrite <- (clashes_gateway sets gws c). f_equiv. f_equiv; [naive_solver|]. split.
  - intros Hpre (c' & [q Hq]%list_elem_of_lookup & Ho & Heff & Hport & Hsh).
    pose proof Heff as (q' & c'' & Hk & Hi & _ & Hl & Hpar)%in_effect_kept. pose proof Hk as [Hq' _].
    destruct (candidate_unique sets q q' c' c'') as [-> ->]; [done..|by rewrite Hl|].
    apply (Hpre q c'); [by eapply older_position|done|].
    by apply clashes_candidate; [eapply list_elem_of_lookup_2|].
  - intros Hno q c' Hlt Hk Hc. pose proof Hk as [Hq _]. pose proof (list_elem_of_lookup_2 _ _ _ Hq) as Hin.
    apply clashes_candidate in Hc as (Hpar & Hport & Hsh); [|done]. apply Hno. exists c'.
    split_and!; [done|by eapply sorted_older| |done..].
    rewrite <- Hpar. by apply (kept_in_effect reserved sets gws q c').
Qed.

(** A set stays accepted exactly when one of its listeners is in effect. *)
Theorem accepted_iff_in_effect (reserved : gset Z) (sets : list ListenerSetState) (gws : list GatewayState)
    (i : nat) (s o : ListenerSetState) :
  sets !! i = Some s → resolve_listener_set_conflicts reserved sets gws !! i = Some o →
  lss_accepted o = true ↔
  lss_accepted s = true ∧ ∃ a l, in_effect reserved sets gws (parent_gateway s) i a l.
Proof.
  intros Hs Ho. pose proof Ho as (s' & Hs' & Hls & Hpg & _)%resolve_lookup.
  rewrite Hs in Hs'. injection Hs' as <-.
  assert ((∃ a l, in_effect reserved sets gws (parent_gateway s) i a l) ↔
          existsb (λ l, bool_decide (lss_conflicts o !! ls_name l = None)) (lss_listeners o) = true) as ->.
  { rewrite existsb_exists. setoid_rewrite bool_decide_eq_true. setoid_rewrite <- list_elem_of_In.
    setoid_rewrite list_elem_of_lookup. unfold in_effect. split.
    - intros (a & l & o' & Ho' & _ & Hl & Hn). rewrite Ho in Ho'. injection Ho' as <-. eauto.
    - intros (l & [a Hl] & Hn). exists a, l, o. done. }
  revert Ho. unfold resolve_listener_set_conflicts. destruct (foldl _ _ _) as [accepted conf].
  rewrite list_lookup_fmap, add_conflicts_lookup, Hs. intros [= <-]. unfold withdraw.
  cbn [set_conflicts lss_accepted lss_conflicts lss_listeners].
  destruct (lss_accepted s) eqn:Ha, (existsb _ _) eqn:Hx; simpl; rewrite ?Ha, ?Hx; naive_solver.
Qed.

Module ListenerSetExamples.

Definition listener (name hostname : string) : ListenerState :=
  {| ls_name := name; ls_protocol := "HTTP"; ls_port := 80; ls_hostname := Some hostname; ls_tls_mode := None;
     ls_frontend_validation := None; ls_programmed := true |}.

Definition gateway : GatewayState :=
  {| gs_namespace := "infra"; gs_name := "gw"; gs_generation := 1; gs_listeners := [listener "own" "a.example"];
     gs_backend_client_cert_id := None |}.

Definition listener_set (namespace name : string) (created : Z) (accepted : bool) (ls : list ListenerState) : ListenerSetState :=
  {| lss_namespace := namespace; lss_name := name; lss_generation := 1; lss_created_at := created;
     lss_parent_ref := {| pr_group := GATEWAY_GROUP; pr_kind := "Gateway"; pr_namespace := Some "infra"; pr_name := "gw";
                          pr_section_name := None; pr_port := None |};
     lss_listeners := ls; lss_conflicts := ∅; lss_accepted := accepted; lss_programmed := accepted;
     lss_reason := if accepted then "Accepted" else "ListenersNotValid";
     lss_listener_cert_errors := []; lss_listener_kind_errors := [] |}.

(** The second set was created first. *)
Definition sets : list ListenerSetState :=
  [listener_set "apps" "late" 20 true [listener "x" "*.shop"; listener "y" "b.example"];
   listener_set "apps" "early" 10 true [listener "x" "a.example"; listener "y" "www.shop"]].

Lemma listeners_in_effect_disjoint_witness :
  is_port_reserved ∅ (ls_port (listener "y" "www.shop")) = false ∧
  ¬ shares_host (Some "b.example") (ls_hostname (listener "y" "www.shop")).
Proof.
  destruct (listeners_in_effect_disjoint ∅ sets [gateway] ("infra", "gw") 1 1 (listener "y" "www.shop"))
    as (Hr & _ & Ho); [eexists; split_and!; vm_compute; reflexivity|].
  split; [done|]. apply (Ho 0%nat 1%nat (listener "y" "b.example")); [done| |done].
  eexists. split_and!; vm_compute; reflexivity.
Defined.

Lemma conflict_resolution_exact_witness :
  ¬ in_effect ∅ sets [gateway] ("infra", "gw") 0 0 (listener "x" "*.shop").
Proof.
  intros Heff.
  apply (conflict_resolution_exact ∅ sets [gateway]
    {| cd_set := 0; cd_ls := listener_set "apps" "late" 20 true [listener "x" "*.shop"; listener "y" "b.example"];
       cd_pos := 0; cd_listener := listener "x" "*.shop" |}) in Heff as (_ & _ & Hno).
  - apply Hno.
    exists {| cd_set := 1; cd_ls := listener_set "apps" "early" 10 true [listener "x" "a.example"; listener "y" "www.shop"];
              cd_pos := 1; cd_listener := listener "y" "www.shop" |}.
    split_and!; [by apply elem_of_candidates|by right|eexists; split_and!; vm_compute; reflexivity|done|].
    apply hostname_matches_iff. vm_compute. reflexivity.
  - vm_compute. apply (bool_decide_unpack _). vm_compute. done.
  - intros s Hs. repeat (apply elem_of_cons in Hs as [->|Hs]; [done|]). by apply elem_of_nil in Hs.
  - intros s Hs. repeat (apply elem_of_cons in Hs as [->|Hs]; [apply (bool_decide_unpack _); vm_compute; done|]).
    by apply elem_of_nil in Hs.
  - by apply elem_of_candidates.
Defined.

(** A set that is not accepted still holds its hosts: the accepted set created after it is
    refused the same host and withdrawn. *)
Lemma refused_set_holds_hosts :
  lss_accepted <$> resolve_listener_set_conflicts ∅
    [listener_set "apps" "broken" 1 false [listener "x" "www.shop"];
     listener_set "apps" "good" 2 true [listener "x" "www.shop"]] [] = [false; false].
Proof. vm_compute. reflexivity. Qed.

(** A route that names another port is counted on a listener of a ListenerSet. *)
Lemma attached_count_ignores_port :
  attached_routes_per_listener (listener_set "apps" "s" 1 true [listener "x" "www.shop"])
    [{| rp_namespace := Some "apps"; rp_hostnames := [];
        rp_parents := [{| pp_group := GATEWAY_GROUP; pp_kind := "ListenerSet"; pp_namespace := None; pp_name := "s";
                          pp_section_name := None; pp_port := Some 9999 |}] |}] ∅ ∅ = [1].
Proof. vm_compute. reflexivity. Qed.
End ListenerSetExamples.
