(* ===== verification/Translate.v ===== *)
(** * Translation of the Gateway API view to the IR ([src/gateway/translate]).

    [from_model.rs], [http.rs], [grpc.rs], [ir.rs] and [l4.rs]: how a reconciled view
    becomes the [RouteTable] that the route manager compiles. [translate_view] and the
    functions only it uses produce the old configuration format for tests and are not
    modelled. *)

From S2P Require Import Prelude Net Ir Hostname Compile Lookup L4 Gateway.

(** ** Conversions ([from_model.rs]) *)

Definition to_ir_path_match (p : GwPathMatch) : PathMatch :=
  match p with
  | GwPathPrefix s => PathPrefix s
  | GwPathExact s => PathExact s
  | GwPathRegex s => PathRegex s
  end.

Definition to_ir_path_rewrite (p : GwPathRewrite) : PathRewrite :=
  match p with
  | GwFullReplace t => FullReplace t
  | GwPrefixReplace prefix replacement => PrefixReplace prefix replacement
  end.

Definition to_ir_header_match_value (v : GwHeaderMatchValue) : HeaderMatchValue :=
  match v with
  | GwHeaderExact s => HeaderExact s
  | GwHeaderRegex s => HeaderRegex s
  | GwHeaderPresent => HeaderPresent
  | GwHeaderAbsent => HeaderAbsent
  end.

Definition to_ir_header_match (h : GwHeaderMatch) : HeaderMatch :=
  {| hm_name := ghm_name h; hm_value := to_ir_header_match_value (ghm_value h) |}.

Definition to_ir_query_param_match_value (v : GwQueryParamMatchValue) : QueryParamMatchValue :=
  match v with GwQueryExact s => QueryExact s | GwQueryRegex s => QueryRegex s end.

Definition to_ir_query_param_match (q : GwQueryParamMatch) : QueryParamMatch :=
  {| qm_name := gqm_name q; qm_value := to_ir_query_param_match_value (gqm_value q) |}.

Definition to_ir_request_match (m : RouteMatch) : RequestMatch :=
  {| rm_path := to_ir_path_match <$> gm_path m; rm_method := gm_method m;
     rm_headers := to_ir_header_match <$> gm_headers m;
     rm_query_params := to_ir_query_param_match <$> gm_query_params m |}.

Definition route_filter_to_request_filters (f : RouteFilter) : list RequestFilter :=
  match f with
  | RequestHeaderSet n v => [ReqSetHeader n v]
  | RequestHeaderAdd n v => [ReqAddHeader n v]
  | RequestHeaderRemove n => [ReqRemoveHeader n]
  | UrlRewrite hostname path =>
      match hostname with Some h => [ReqRewriteHostname h] | None => [] end ++
      match path with Some p => [ReqRewritePath (to_ir_path_rewrite p)] | None => [] end
  | _ => []
  end.

Definition to_ir_backend_tls (t : BackendTlsAttachment) : BackendTlsConfig :=
  {| bt_sni := bta_hostname t; bt_verify_hostname := true; bt_alternative_cn := None;
     bt_client_cert_id := None;
     bt_ca_bundle_pem := if decide (bta_ca_bundle_pem t = "") then None else Some (bta_ca_bundle_pem t);
     bt_subject_alt_names := bta_subject_alt_names t |}.

(** [ir::WeightedBackend::from]. *)
Definition weighted_backend_from (b : GwWeightedBackend) : WeightedBackend :=
  {| wb_backend := gwb_backend b; wb_weight := gwb_weight b;
     wb_request_filters := gwb_filters b ≫= route_filter_to_request_filters;
     wb_protocol := gwb_protocol b; wb_tls := to_ir_backend_tls <$> gwb_tls b |}.

(** ** Rules ([http.rs], [grpc.rs]) *)

(** [to_ir_weighted_backend], used for L4 routes, drops the filters. *)
Definition to_ir_weighted_backend (b : GwWeightedBackend) : WeightedBackend :=
  {| wb_backend := gwb_backend b; wb_weight := gwb_weight b; wb_request_filters := [];
     wb_protocol := gwb_protocol b; wb_tls := to_ir_backend_tls <$> gwb_tls b |}.

Definition unprogrammed_action : Action :=
  ActFixedResponse {| fr_status := 500; fr_headers := []; fr_body := None |}.

(** [apply_header_filters] appends to the two lists. *)
Definition header_request_filter (f : RouteFilter) : option RequestFilter :=
  match f with
  | RequestHeaderSet n v => Some (ReqSetHeader n v)
  | RequestHeaderAdd n v => Some (ReqAddHeader n v)
  | RequestHeaderRemove n => Some (ReqRemoveHeader n)
  | _ => None
  end.

Definition header_response_filter (f : RouteFilter) : option ResponseFilter :=
  match f with
  | ResponseHeaderSet n v => Some (RespSetHeader n v)
  | ResponseHeaderAdd n v => Some (RespAddHeader n v)
  | ResponseHeaderRemove n => Some (RespRemoveHeader n)
  | _ => None
  end.

Definition apply_header_filters (fs : list RouteFilter) : list RequestFilter * list ResponseFilter :=
  (omap header_request_filter fs, omap header_response_filter fs).

(** The path prefix the match is for; [ReplacePrefixMatch] replaces it. *)
Definition matched_prefix (m : RequestMatch) : option string :=
  match rm_path m with Some (PathPrefix s) => Some s | _ => None end.

(** The filter loop of [build_ir_rule]: what each filter pushes. *)
Definition rewrite_filters (prefix : option string) (f : RouteFilter) : list RequestFilter :=
  match f with
  | UrlRewrite hostname path =>
      match hostname with Some h => [ReqRewriteHostname h] | None => [] end ++
      match path with
      | Some p => [ReqRewritePath (with_matched_prefix (to_ir_path_rewrite p) prefix)]
      | None => []
      end
  | _ => []
  end.

Definition redirect_of (prefix : option string) (f : RouteFilter) : option RedirectAction :=
  match f with
  | RequestRedirect scheme hostname path port status =>
      Some {| rd_status_code := status; rd_scheme := scheme; rd_hostname := hostname; rd_port := port;
              rd_path := (λ p, with_matched_prefix (to_ir_path_rewrite p) prefix) <$> path |}
  | _ => None
  end.

Definition mirror_of (f : RouteFilter) : option (string * option Fraction) :=
  match f with
  | RequestMirror backend fraction =>
      Some (backend, (λ q, {| numerator := gf_numerator q; denominator := gf_denominator q |}) <$> fraction)
  | _ => None
  end.

Definition cors_of (f : RouteFilter) : option ResponseFilter :=
  match f with
  | GwCors origins methods headers expose age credentials =>
      Some (RespCors {| allow_origins := origins; allow_methods := methods; allow_headers := headers;
                        expose_headers := expose; max_age := age; allow_credentials := credentials |})
  | _ => None
  end.

Definition is_websocket (b : GwWeightedBackend) : bool :=
  match gwb_protocol b with BackendWebSocket | BackendWebSocketSecure => true | _ => false end.

(** [Duration::from_millis] in nanoseconds. *)
Definition from_millis (ms : Z) : Z := ms * 1000000.

Definition positive (o : option Z) : option Z :=
  match o with Some s => if 0 <? s then Some s else None | None => None end.

Definition build_ir_rule (rule : HTTPRouteRule) (m : RequestMatch) (idx : Z) (cert : option string) :
    Rule :=
  let prefix := matched_prefix m in
  let '(req, resp) := apply_header_filters (hrr_filters rule) in
  let mirrors := omap mirror_of (hrr_filters rule) in
  let effective_timeout :=
    match positive (hrr_request_timeout_ms rule) with
    | Some t => Some t
    | None => positive (hrr_timeout_ms rule)
    end in
  {| rule_matches := [m];
     rule_action :=
       match last (omap (redirect_of prefix) (hrr_filters rule)) with
       | Some r => ActRedirect r
       | None => ActRoute
           {| ra_backends := weighted_backend_from <$> hrr_backends rule;
              ra_timeout := from_millis <$> effective_timeout;
              ra_request_filters := req ++ (hrr_filters rule ≫= rewrite_filters prefix);
              ra_response_filters := resp ++ omap cors_of (hrr_filters rule);
              ra_mirror_backends := mirrors.*1; ra_mirror_fractions := mirrors.*2;
              ra_cache := None; ra_body_rewrites := []; ra_auth := None;
              ra_websocket := existsb is_websocket (hrr_backends rule);
              ra_disable_https_redirect := true; ra_client_cert_id := cert |}
       end;
     rule_order := idx |}.

(** [rule.matches], or one match of everything. *)
Definition matches_or_default (ms : list RequestMatch) : list RequestMatch :=
  match ms with [] => [RequestMatch_default] | _ => ms end.

Definition unprogrammed_rule (idx : Z) (m : RequestMatch) : Rule :=
  {| rule_matches := [m]; rule_action := unprogrammed_action; rule_order := idx |}.

Definition translate_rule_to_ir (rule : HTTPRouteRule) (idx : Z) (programmed : bool)
    (cert : option string) : list Rule :=
  let ms := matches_or_default (to_ir_request_match <$> hrr_matches rule) in
  if programmed then (λ m, build_ir_rule rule m idx cert) <$> ms else unprogrammed_rule idx <$> ms.

Definition grpc_match_to_route_match (m : GRPCRouteMatch) : RouteMatch :=
  {| gm_path :=
       method ← grm_method m;
       match mm_match_type method with
       | MethodExact => GwPathExact <$> exact_path method
       | MethodRegular => if decide (mm_service method = "") then None
                          else Some (GwPathPrefix ("/" +:+ mm_service method +:+ "/"))
       end;
     gm_headers := grm_headers m; gm_query_params := []; gm_method := None |}.

Definition build_ir_rule_from_grpc (rule : GRPCRouteRule) (m : RequestMatch) (idx : Z)
    (cert : option string) : Rule :=
  let '(req, resp) := apply_header_filters (grr_filters rule) in
  {| rule_matches := [m];
     rule_action := ActRoute
       {| ra_backends := weighted_backend_from <$> grr_backends rule; ra_timeout := None;
          ra_request_filters := req; ra_response_filters := resp;
          ra_mirror_backends := []; ra_mirror_fractions := []; ra_cache := None;
          ra_body_rewrites := []; ra_auth := None; ra_websocket := false;
          ra_disable_https_redirect := true; ra_client_cert_id := cert |};
     rule_order := idx |}.

Definition translate_grpc_rule_to_ir (rule : GRPCRouteRule) (idx : Z) (programmed : bool)
    (cert : option string) : list Rule :=
  let ms := matches_or_default
              ((λ m, to_ir_request_match (grpc_match_to_route_match m)) <$> grr_matches rule) in
  if programmed then (λ m, build_ir_rule_from_grpc rule m idx cert) <$> ms
  else unprogrammed_rule idx <$> ms.

(** ** Hosts ([ir.rs]) *)

Definition http_hosts (r : HTTPRouteState) : RouteHostnames :=
  {| rh_namespace := hrs_namespace r; rh_parent_refs := hrs_parent_refs r;
     rh_hostnames := hrs_hostnames r; rh_kind := "HTTPRoute" |}.

Definition grpc_hosts (r : GRPCRouteState) : RouteHostnames :=
  {| rh_namespace := grs_namespace r; rh_parent_refs := grs_parent_refs r;
     rh_hostnames := grs_hostnames r; rh_kind := "GRPCRoute" |}.

(** [enumerate]. *)
Definition enumerate {A} (l : list A) : list (Z * A) := imap (λ i a, (Z.of_nat i, a)) l.

(** The catch-all for a route whose rules translate to nothing: its first backend, or a
    500 when the route is not programmed. *)
Definition default_rule (programmed websocket : bool) (timeout : option Z)
    (backends : list GwWeightedBackend) (cert : option string) : list Rule :=
  if programmed then
    match backends with
    | b :: _ =>
        [{| rule_matches := [RequestMatch_default];
            rule_action := ActRoute
              {| ra_backends := [weighted_backend_from b]; ra_timeout := timeout;
                 ra_request_filters := []; ra_response_filters := []; ra_mirror_backends := [];
                 ra_mirror_fractions := []; ra_cache := None; ra_body_rewrites := []; ra_auth := None;
                 ra_websocket := websocket; ra_disable_https_redirect := true;
                 ra_client_cert_id := cert |};
            rule_order := 0 |}]
    | [] => []
    end
  else [unprogrammed_rule 0 RequestMatch_default].

Definition http_route_rules (r : HTTPRouteState) (cert : option string) : list Rule :=
  let rules := enumerate (hrs_rules r) ≫= λ ir, translate_rule_to_ir ir.2 ir.1 (hrr_programmed ir.2) cert in
  match rules, hrs_rules r with
  | [], r0 :: _ => default_rule (hrs_programmed r) (existsb is_websocket (hrr_backends r0))
                     (from_millis <$> hrr_timeout_ms r0) (hrr_backends r0) cert
  | _, _ => rules
  end.

Definition grpc_route_rules (r : GRPCRouteState) (cert : option string) : list Rule :=
  let rules := enumerate (grs_rules r) ≫= λ ir, translate_grpc_rule_to_ir ir.2 ir.1 (grr_programmed ir.2) cert in
  match rules, grs_rules r with
  | [], r0 :: _ => default_rule (grs_programmed r) false None (grr_backends r0) cert
  | _, _ => rules
  end.

Abbreviation host_key := (string * string * option Z)%type.

Definition eff_key (e : EffectiveHostname) : host_key :=
  (hostname_to_prefix (eh_listener_hostname e), hostname_to_prefix (eh_route_hostname e),
   eh_listener_port e).

Definition eff_host (e : EffectiveHostname) (rules : list Rule) : HostRoute :=
  let listener_id := hostname_to_prefix (eh_listener_hostname e) in
  {| hr_hostname := to_ir_hostname (eh_route_hostname e);
     hr_listener_ids := if decide (listener_id = "") then [] else [listener_id];
     hr_listener_hostname := match eh_listener_hostname e with
                             | GwAny => None
                             | h => Some (to_ir_hostname h)
                             end;
     hr_listener_port := eh_listener_port e; hr_gateway_api := true;
     hr_disable_secure_redirection := true; hr_rules := rules |}.

Definition extend_rules (h : HostRoute) (rules : list Rule) : HostRoute :=
  {| hr_hostname := hr_hostname h; hr_listener_ids := hr_listener_ids h;
     hr_listener_hostname := hr_listener_hostname h; hr_listener_port := hr_listener_port h;
     hr_gateway_api := hr_gateway_api h; hr_disable_secure_redirection := hr_disable_secure_redirection h;
     hr_rules := hr_rules h ++ rules |}.

(** [groups.entry(key)]: rules of one host and listener are put together. *)
Definition add_group (groups : gmap host_key HostRoute) (e : EffectiveHostname * list Rule) :
    gmap host_key HostRoute :=
  match groups !! eff_key e.1 with
  | Some h => <[eff_key e.1 := extend_rules h e.2]> groups
  | None => <[eff_key e.1 := eff_host e.1 e.2]> groups
  end.

(** The order of the keys of the [BTreeMap]. *)
Definition opt_le (a b : option Z) : bool :=
  match a, b with None, _ => true | Some _, None => false | Some x, Some y => x <=? y end.

Definition str_lt (a b : string) : bool := String.leb a b && negb (bool_decide (a = b)).

Definition host_key_le (a b : host_key) : bool :=
  let '(a1, a2, a3) := a in
  let '(b1, b2, b3) := b in
  str_lt a1 b1 || (bool_decide (a1 = b1) && (str_lt a2 b2 || (bool_decide (a2 = b2) && opt_le a3 b3))).

(** What the two loops over the routes add, in order. *)
Definition http_entries (view : ReconciledView) : list (EffectiveHostname * list Rule) :=
  http_route_states view ≫= λ r,
    match hrs_parent_refs r with
    | [] => []
    | _ => (λ e, (e, http_route_rules r (eh_client_cert_id e)))
             <$> compute_effective_hostnames view (http_hosts r)
    end.

Definition grpc_entries (view : ReconciledView) : list (EffectiveHostname * list Rule) :=
  grpc_route_states view ≫= λ r,
    match grs_parent_refs r with
    | [] => []
    | _ => (λ e, (e, grpc_route_rules r (eh_client_cert_id e)))
             <$> compute_effective_hostnames view (grpc_hosts r)
    end.

Definition translate_hosts (view : ReconciledView) : list HostRoute :=
  btree_values host_key_le (foldl add_group ∅ (http_entries view ++ grpc_entries view)).

(** ** L4 routes ([l4.rs]) *)

Definition listener_protocol_to_ir (protocol : string) : option Protocol :=
  if decide (protocol = "HTTP") then Some Http
  else if decide (protocol = "HTTPS") then Some Https
  else if decide (protocol = "TCP") then Some Tcp
  else if decide (protocol = "UDP") then Some Udp
  else if decide (protocol = "TLS") then Some Tls
  else None.

Definition gateway_listener_id (g : GatewayState) (l : ListenerState) : string :=
  listener_path (gs_namespace g) (gs_name g) l.

Definition listener_config (g : GatewayState) (l : ListenerState) (protocol : Protocol) : ListenerConfig :=
  {| lc_id := gateway_listener_id g l;
     lc_bind_addr := "0.0.0.0:" +:+ pretty (ls_port l);
     lc_protocol := protocol;
     lc_tls := match protocol with Https | Tls => Some (TlsRegistry "gateway") | _ => None end;
     lc_redirect_http_to_https := false;
     lc_frontend_validation := ls_frontend_validation l |}.

Definition add_l4_listener (listeners : gmap string ListenerConfig) (g : GatewayState)
    (l : ListenerState) : gmap string ListenerConfig :=
  if ls_programmed l then
    match listeners !! gateway_listener_id g l, listener_protocol_to_ir (ls_protocol l) with
    | None, Some protocol => <[gateway_listener_id g l := listener_config g l protocol]> listeners
    | _, _ => listeners
    end
  else listeners.

(** One step of the loops of [translate_l4_routes]: [add_l4_listener] on a gateway listener,
    then the routes pushed for it. *)
Record L4Attachment := {
  la_gateway : GatewayState;
  la_listener : ListenerState;
  la_routes : list L4Route;
}.

Definition l4_route (g : GatewayState) (l : ListenerState) (h : HostnameMatch) (m : L4Match)
    (a : L4Action) : L4Route :=
  {| l4r_listener_id := gateway_listener_id g l; l4r_listener_hostname := h; l4r_match := m; l4r_action := a |}.

(** The gateway listeners of a protocol that a parentRef selects, by section only. *)
Definition parent_listeners (gs : list GatewayState) (ns protocol : string) (p : ParentRef) :
    list (GatewayState * ListenerState) :=
  match find_gateway gs (default ns (pr_namespace p)) (pr_name p) with
  | None => []
  | Some g => (λ l, (g, l)) <$>
      filter (λ l, ls_protocol l = protocol ∧
                   opt_all (λ s, bool_decide (ls_name l = s)) (pr_section_name p) = true) (gs_listeners g)
  end.

Definition add_l4_routes_for_parents (gs : list GatewayState) (ns : string) (parents : list ParentRef)
    (protocol : string) (m : L4Match) (action : L4Action) : list L4Attachment :=
  parents ≫= λ p, (λ gl, {| la_gateway := gl.1; la_listener := gl.2;
                            la_routes := [l4_route gl.1 gl.2 HostAny m action] |})
                  <$> parent_listeners gs ns protocol p.

Definition tcp_attachments (view : ReconciledView) : list L4Attachment :=
  tcp_route_states view ≫= λ r,
    if trs_programmed r
    then add_l4_routes_for_parents (gateways view) (trs_namespace r) (trs_parent_refs r) "TCP" L4Any
           (TcpRelay (to_ir_weighted_backend <$> trs_backends r))
    else [].

Definition udp_attachments (view : ReconciledView) : list L4Attachment :=
  udp_route_states view ≫= λ r,
    if urs_programmed r
    then add_l4_routes_for_parents (gateways view) (urs_namespace r) (urs_parent_refs r) "UDP" L4Any
           (UdpRelay (to_ir_weighted_backend <$> urs_backends r))
    else [].

(** The hostname of a listener for L4; without one it takes every SNI. *)
Definition l4_listener_match (l : ListenerState) : GwHostnameMatch :=
  match ls_hostname l with Some h => parse_listener_hostname h | None => GwAny end.

Definition tls_hostnames (r : TLSRouteState) (l : ListenerState) : list GwHostnameMatch :=
  match lrs_hostnames r with
  | [] => [l4_listener_match l]
  | hs => omap (λ rh, intersect_hostname_pair rh (l4_listener_match l)) hs
  end.

Definition tls_action (r : TLSRouteState) (l : ListenerState) : L4Action :=
  let backends := to_ir_weighted_backend <$> lrs_backends r in
  if decide (ls_tls_mode l = Some Terminate) then TlsTerminate backends else TlsPassthrough backends.

Definition tls_attachment (r : TLSRouteState) (gl : GatewayState * ListenerState) : list L4Attachment :=
  match tls_hostnames r gl.2 with
  | [] => []
  | hs => [{| la_gateway := gl.1; la_listener := gl.2;
              la_routes := (λ h, l4_route gl.1 gl.2 (to_ir_hostname (l4_listener_match gl.2))
                                   (L4Sni (to_ir_hostname h)) (tls_action r gl.2)) <$> hs |}]
  end.

Definition tls_attachments (view : ReconciledView) : list L4Attachment :=
  tls_route_states view ≫= λ r,
    if lrs_programmed r
    then lrs_parent_refs r ≫= λ p,
           parent_listeners (gateways view) (lrs_namespace r) "TLS" p ≫= tls_attachment r
    else [].

Definition HTTPS_HTTP_TARGET : string := "127.0.0.1:10443".
Definition HTTP_TARGET : string := "127.0.0.1:10443".

(** The listeners some HTTP or gRPC route is attached to. *)
Definition https_listener_ids (view : ReconciledView) : gset string :=
  list_to_set (omap (λ e, eh_listener_id e.1) (http_entries view ++ grpc_entries view)).

Definition gateway_listeners (view : ReconciledView) (protocol : string) :
    list (GatewayState * ListenerState) :=
  gateways view ≫= λ g, (λ l, (g, l)) <$> filter (λ l, ls_protocol l = protocol) (gs_listeners g).

Definition https_attachments (view : ReconciledView) : list L4Attachment :=
  (λ gl, let h := to_ir_hostname (l4_listener_match gl.2) in
         {| la_gateway := gl.1; la_listener := gl.2;
            la_routes := [l4_route gl.1 gl.2 h
                            (match ls_hostname gl.2 with Some _ => L4Sni h | None => L4Any end)
                            (TerminateAndHttp HTTPS_HTTP_TARGET)] |}) <$>
  filter (λ gl, gateway_listener_id gl.1 gl.2 ∈ https_listener_ids view) (gateway_listeners view "HTTPS").

Definition http_attachments (view : ReconciledView) : list L4Attachment :=
  (λ gl, {| la_gateway := gl.1; la_listener := gl.2;
            la_routes := [l4_route gl.1 gl.2 (to_ir_hostname (l4_listener_match gl.2)) L4Any
                            (HttpRelay HTTP_TARGET)] |}) <$> gateway_listeners view "HTTP".

Definition l4_attachments (view : ReconciledView) : list L4Attachment :=
  tcp_attachments view ++ udp_attachments view ++ tls_attachments view ++
  https_attachments view ++ http_attachments view.

Definition add_attachment (m : gmap string ListenerConfig) (a : L4Attachment) : gmap string ListenerConfig :=
  add_l4_listener m (la_gateway a) (la_listener a).

Definition translate_l4_routes (view : ReconciledView) : list ListenerConfig * list L4Route :=
  (btree_values String.leb (foldl add_attachment ∅ (l4_attachments view)),
   l4_attachments view ≫= la_routes).

(** ** The table *)

Definition translate_view_to_ir (view : ReconciledView) : RouteTable :=
  let '(listeners, l4_routes) := translate_l4_routes view in
  {| rt_listeners := listeners; rt_hosts := translate_hosts view; rt_acme_routes := ∅;
     rt_l4_routes := l4_routes; rt_tls_certs := [] |}.

(** ** Lemmas: grouping of hosts *)

Definition view_entries (view : ReconciledView) : list (EffectiveHostname * list Rule) :=
  http_entries view ++ grpc_entries view.

(** The groups in closed form: the first entry of a key gives the host its fields, all of
    them their rules. *)
Lemma lookup_groups es k :
  foldl add_group ∅ es !! k =
  match filter (λ e, eff_key e.1 = k) es with
  | [] => None
  | e :: es' => Some (eff_host e.1 (e.2 ++ (es' ≫= snd)))
  end.
Proof.
  induction es as [|x es IH] using rev_ind; [done|].
  rewrite foldl_app, filter_app. simpl. rewrite filter_cons, filter_nil. unfold add_group.
  set (m := foldl _ ∅ es) in *. destruct (decide (eff_key x.1 = k)) as [Hk|Hk].
  - rewrite Hk, IH. destruct (filter _ es) as [|e es']; simpl.
    + by rewrite lookup_insert_eq, app_nil_r.
    + rewrite lookup_insert_eq, bind_app. unfold extend_rules. simpl.
      by rewrite app_nil_r, (assoc_L app).
  - rewrite app_nil_r, <-IH. by destruct (m !! eff_key x.1); rewrite lookup_insert_ne.
Qed.

(** Hostnames as the Gateway API admits them: no bare star, and a leading star label is a
    wildcard. *)
Definition host_wf (h : GwHostnameMatch) : Prop :=
  match h with GwExact s => s ≠ "*" ∧ starts_with s "*." = false | _ => True end.

Lemma hostname_to_prefix_inj a b :
  host_wf a → host_wf b → hostname_to_prefix a = hostname_to_prefix b → a = b.
Proof.
  assert (∀ s, starts_with ("*." +:+ s) "*." = true) as Hs.
  { intros s. apply starts_with_spec. by eexists. }
  destruct a as [a|a|], b as [b|b|]; simpl; intros Ha Hb Heq; simplify_eq; try done.
  - destruct Ha as [_ Ha]. by rewrite Hs in Ha.
  - by destruct Ha.
  - destruct Hb as [_ Hb]. by rewrite Hs in Hb.
  - by destruct Hb.
Qed.

Lemma parse_listener_hostname_wf lh : lh ≠ "*" → host_wf (parse_listener_hostname lh).
Proof.
  intros Hne. unfold parse_listener_hostname. destruct (strip_prefix "*." lh) eqn:Hp; [done|].
  split; [done|]. destruct (starts_with lh "*.") eqn:Hs; [|done].
  apply starts_with_spec in Hs as [r ->]. 
  by rewrite (proj2 (strip_prefix_Some _ _ r) eq_refl) in Hp.
Qed.

Lemma intersect_hostnames_wf hs lh h :
  Forall host_wf hs → (∀ s, lh = Some s → s ≠ "*") → h ∈ intersect_hostnames hs lh → host_wf h.
Proof.
  intros Hhs Hlh. destruct lh as [s|]; simpl.
  - intros (rh & Hrh & Hi)%list_elem_of_omap. unfold intersect_hostname_pair in Hi.
    rewrite Forall_forall in Hhs. repeat case_match; simplify_eq; [by apply Hhs|].
    apply parse_listener_hostname_wf. by apply Hlh.
  - rewrite Forall_forall in Hhs. apply Hhs.
Qed.

(** The hostnames of the view are well formed, as the validation of the API objects
    requires. *)
Record view_wf (view : ReconciledView) : Prop := {
  wf_gateways : ∀ g l, g ∈ gateways view → l ∈ gs_listeners g → ls_hostname l ≠ Some "*";
  wf_listener_sets : ∀ s l, s ∈ listener_sets view → l ∈ lss_listeners s → ls_hostname l ≠ Some "*";
  wf_http : ∀ r, r ∈ http_route_states view → Forall host_wf (hrs_hostnames r);
  wf_grpc : ∀ r, r ∈ grpc_route_states view → Forall host_wf (grs_hostnames r);
}.

Lemma resolve_parent_listener view route p ls am cert l :
  resolve_parent view route p = Some (ls, am, cert) → l ∈ ls →
  (∃ g, g ∈ gateways view ∧ l ∈ gs_listeners g) ∨ (∃ s, s ∈ listener_sets view ∧ l ∈ lss_listeners s).
Proof.
  unfold resolve_parent. case_bool_decide.
  - destruct (find_listener_set _ _ _) as [s|] eqn:Hf; [|done]. case_match; [|done]. intros [= <- _ _].
    intros [_ Hl]%list_elem_of_filter. right. exists s. split; [|done].
    by apply find_Some_elem in Hf as [? _].
  - destruct (find_gateway _ _ _) as [g|] eqn:Hf; [|done]. intros [= <- _ _].
    intros [_ Hl]%list_elem_of_filter. left. exists g. split; [|done].
    by apply find_Some_elem in Hf as [? _].
Qed.

Lemma effective_wf view route e :
  view_wf view → Forall host_wf (rh_hostnames route) →
  e ∈ compute_effective_hostnames view route →
  host_wf (eh_route_hostname e) ∧ host_wf (eh_listener_hostname e).
Proof.
  intros Hwf Hr (p & He & Hp)%list_elem_of_bind. apply elem_of_parent_hostnames in He.
  assert (∀ h, h ∈ rh_hostnames route → host_wf h) as Hrh by (by rewrite Forall_forall in Hr).
  destruct (resolve_parent view route p) as [[[ls am] cert]|] eqn:Hrp; [|naive_solver].
  destruct He as [(l & Hl & _ & h & Hh & ->)|(_ & _ & ->)]; [|done]. simpl.
  assert (ls_hostname l ≠ Some "*") as Hne.
  { destruct (resolve_parent_listener _ _ _ _ _ _ _ Hrp Hl) as [(g & ? & ?)|(s & ? & ?)];
      [by eapply wf_gateways|by eapply wf_listener_sets]. }
  split.
  - unfold hostnames_on in Hh. destruct (rh_hostnames route) as [|rh rhs] eqn:Hrhs.
    + apply list_elem_of_singleton in Hh as ->. destruct (ls_hostname l) as [lh|]; [|done].
      apply parse_listener_hostname_wf. congruence.
    + eapply intersect_hostnames_wf; [exact Hr| |exact Hh]. congruence.
  - unfold listener_match. destruct (ls_hostname l) as [lh|]; [|done].
    apply parse_listener_hostname_wf. congruence.
Qed.

(** A translated rule, with the effective hostname it is served under. *)
Definition rule_source (view : ReconciledView) (e : EffectiveHostname) (rule : Rule) : Prop :=
  (∃ r i hr, r ∈ http_route_states view ∧ hrs_parent_refs r ≠ [] ∧
     e ∈ compute_effective_hostnames view (http_hosts r) ∧ hrs_rules r !! i = Some hr ∧
     rule ∈ translate_rule_to_ir hr (Z.of_nat i) (hrr_programmed hr) (eh_client_cert_id e)) ∨
  (∃ r i gr, r ∈ grpc_route_states view ∧ grs_parent_refs r ≠ [] ∧
     e ∈ compute_effective_hostnames view (grpc_hosts r) ∧ grs_rules r !! i = Some gr ∧
     rule ∈ translate_grpc_rule_to_ir gr (Z.of_nat i) (grr_programmed gr) (eh_client_cert_id e)).

Lemma elem_of_enumerate_bind {A B} (f : Z → A → list B) (l : list A) (b : B) :
  b ∈ (enumerate l ≫= λ ia, f ia.1 ia.2) ↔ ∃ i a, l !! i = Some a ∧ b ∈ f (Z.of_nat i) a.
Proof.
  unfold enumerate. rewrite list_elem_of_bind. split.
  - intros ([j a] & Hb & (i & a' & [= -> ->] & Hl)%elem_of_lookup_imap). eauto.
  - intros (i & a & Hl & Hb). exists (Z.of_nat i, a). split; [done|]. apply elem_of_lookup_imap. eauto.
Qed.

Lemma matches_or_default_nonempty ms : ∃ m ms', matches_or_default ms = m :: ms'.
Proof. destruct ms; simpl; eauto. Qed.

(** Every rule of a route translates to at least one IR rule, so the catch-all default is
    never used. *)
Lemma http_route_rules_elem r cert rule :
  rule ∈ http_route_rules r cert ↔
  ∃ i hr, hrs_rules r !! i = Some hr ∧
    rule ∈ translate_rule_to_ir hr (Z.of_nat i) (hrr_programmed hr) cert.
Proof.
  unfold http_route_rules.
  rewrite <-(elem_of_enumerate_bind (λ i hr, translate_rule_to_ir hr i (hrr_programmed hr) cert)).
  destruct (hrs_rules r) as [|hr hrs]; [done|]. simpl. unfold translate_rule_to_ir at 1.
  destruct (matches_or_default_nonempty (to_ir_request_match <$> hrr_matches hr)) as (m & ms & ->).
  by destruct (hrr_programmed hr).
Qed.

Lemma grpc_route_rules_elem r cert rule :
  rule ∈ grpc_route_rules r cert ↔
  ∃ i gr, grs_rules r !! i = Some gr ∧
    rule ∈ translate_grpc_rule_to_ir gr (Z.of_nat i) (grr_programmed gr) cert.
Proof.
  unfold grpc_route_rules.
  rewrite <-(elem_of_enumerate_bind (λ i gr, translate_grpc_rule_to_ir gr i (grr_programmed gr) cert)).
  destruct (grs_rules r) as [|gr grs]; [done|]. simpl. unfold translate_grpc_rule_to_ir at 1.
  destruct (matches_or_default_nonempty
    ((λ m, to_ir_request_match (grpc_match_to_route_match m)) <$> grr_matches gr)) as (m & ms & ->).
  by destruct (grr_programmed gr).
Qed.

Lemma entry_source view e rules rule :
  (e, rules) ∈ view_entries view → rule ∈ rules → rule_source view e rule.
Proof.
  unfold view_entries. intros [He|He]%elem_of_app Hr; [left|right];
    apply list_elem_of_bind in He as (r & He & Hin).
  - destruct (hrs_parent_refs r) eqn:Hp; [by apply elem_of_nil in He|].
    apply list_elem_of_fmap in He as (e' & [= <- ->] & He').
    apply http_route_rules_elem in Hr as (i & hr & ? & ?). exists r, i, hr. split_and!; try done. congruence.
  - destruct (grs_parent_refs r) eqn:Hp; [by apply elem_of_nil in He|].
    apply list_elem_of_fmap in He as (e' & [= <- ->] & He').
    apply grpc_route_rules_elem in Hr as (i & hr & ? & ?). exists r, i, hr. split_and!; try done. congruence.
Qed.

Lemma entry_wf view e rules :
  view_wf view → (e, rules) ∈ view_entries view →
  host_wf (eh_route_hostname e) ∧ host_wf (eh_listener_hostname e).
Proof.
  intros Hwf [He|He]%elem_of_app; apply list_elem_of_bind in He as (r & He & Hin).
  - destruct (hrs_parent_refs r); [by apply elem_of_nil in He|].
    apply list_elem_of_fmap in He as (e' & [= <- ->] & He').
    eapply effective_wf; [done| |done]. by apply wf_http with view.
  - destruct (grs_parent_refs r); [by apply elem_of_nil in He|].
    apply list_elem_of_fmap in He as (e' & [= <- ->] & He').
    eapply effective_wf; [done| |done]. by apply wf_grpc with view.
Qed.

(** A rule of a translated host is a rule of a route that is effective under that host,
    listener hostname and port. *)
Lemma translate_host_rule view h rule :
  view_wf view → h ∈ translate_hosts view → rule ∈ hr_rules h →
  ∃ e, rule_source view e rule ∧ hr_hostname h = to_ir_hostname (eh_route_hostname e) ∧
       hr_listener_hostname h = hr_listener_hostname (eff_host e []) ∧
       hr_listener_port h = eh_listener_port e.
Proof.
  intros Hwf (k & Hk)%elem_of_btree_values Hr. fold (view_entries view) in Hk.
  rewrite lookup_groups in Hk.
  destruct (filter _ (view_entries view)) as [|[e rs] es] eqn:Hf; [done|]. injection Hk as <-.
  assert (∀ x, x ∈ (e, rs) :: es → x ∈ view_entries view ∧ eff_key x.1 = k) as Hin.
  { intros x. rewrite <-Hf, list_elem_of_filter. tauto. }
  simpl in Hr. destruct (Hin (e, rs)) as [He Hke]; [left|].
  assert (∃ e' rs', (e', rs') ∈ view_entries view ∧ eff_key e' = eff_key e ∧ rule ∈ rs')
    as (e' & rs' & He' & Hk' & Hr').
  { apply elem_of_app in Hr as [Hr|([e' rs'] & Hr & Hx)%list_elem_of_bind]; [by exists e, rs|].
    destruct (Hin (e', rs')) as [? ?]; [by right|]. exists e', rs'. simpl in *. split_and!; try done. congruence. }
  exists e'. split; [by eapply entry_source|].
  destruct (entry_wf _ _ _ Hwf He) as [Hw1 Hw2], (entry_wf _ _ _ Hwf He') as [Hw1' Hw2'].
  unfold eff_key in Hk'. injection Hk' as Hl Hh Hp.
  apply hostname_to_prefix_inj in Hl; [|done..]. apply hostname_to_prefix_inj in Hh; [|done..].
  simpl. by rewrite Hl, Hh, Hp.
Qed.

(** ** Lemmas: listeners *)

(** The listeners the attachments add: the first attachment of an id whose listener is
    programmed and of a known protocol. *)
Definition attachment_config (a : L4Attachment) : option ListenerConfig :=
  if ls_programmed (la_listener a)
  then listener_config (la_gateway a) (la_listener a) <$> listener_protocol_to_ir (ls_protocol (la_listener a))
  else None.

Lemma add_attachment_lookup m a id :
  add_attachment m a !! id =
  match m !! id with
  | Some c => Some c
  | None => if decide (gateway_listener_id (la_gateway a) (la_listener a) = id)
            then attachment_config a else None
  end.
Proof.
  unfold add_attachment, add_l4_listener, attachment_config.
  destruct (ls_programmed (la_listener a)); [|by destruct (m !! id); [|case_decide]].
  destruct (listener_protocol_to_ir _) as [pr|]; simpl.
  - destruct (m !! gateway_listener_id _ _) as [c|] eqn:Hm.
    + destruct (m !! id) eqn:Hid; [done|]. case_decide; congruence.
    + rewrite lookup_insert. case_decide as Hd; [by rewrite <-Hd, Hm|]. by destruct (m !! id).
  - destruct (m !! gateway_listener_id _ _); destruct (m !! id); try done; by case_decide.
Qed.

Lemma attachments_lookup as_ m id c :
  foldl add_attachment m as_ !! id = Some c →
  m !! id = Some c ∨
  ∃ a, a ∈ as_ ∧ gateway_listener_id (la_gateway a) (la_listener a) = id ∧ attachment_config a = Some c.
Proof.
  revert m. induction as_ as [|a as_ IH]; intros m; simpl; [by left|].
  intros [Hm|(a' & ? & ? & ?)]%IH; [|right; exists a'; split_and!; [by right|done..]].
  rewrite add_attachment_lookup in Hm. destruct (m !! id); [by left|]. case_decide; [|done].
  right. exists a. split_and!; [left|done..].
Qed.

Lemma attachments_bound as_ m a c :
  a ∈ as_ → attachment_config a = Some c →
  is_Some (foldl add_attachment m as_ !! gateway_listener_id (la_gateway a) (la_listener a)).
Proof.
  intros Ha Hc. revert m. induction as_ as [|a' as_ IH]; intros m; [by apply elem_of_nil in Ha|].
  apply elem_of_cons in Ha as [<-|Ha]; simpl; [|by apply IH].
  assert (∀ m' : gmap string ListenerConfig, ∀ id, is_Some (m' !! id) → is_Some (foldl add_attachment m' as_ !! id)) as Hmono.
  { clear. induction as_ as [|x as_ IH]; intros m' id Hs; [done|]. simpl. apply IH.
    rewrite add_attachment_lookup. destruct Hs as [c ->]. done. }
  apply Hmono. rewrite add_attachment_lookup, decide_True, Hc by done. by destruct (m !! _).
Qed.

Lemma attachment_config_id a c :
  attachment_config a = Some c → lc_id c = gateway_listener_id (la_gateway a) (la_listener a).
Proof.
  unfold attachment_config. case_match; [|done].
  destruct (listener_protocol_to_ir _); [|done]. by intros [= <-].
Qed.

Lemma translated_ids view : NoDup (lc_id <$> rt_listeners (translate_view_to_ir view)).
Proof.
  apply btree_values_ids. intros k c Hk%attachments_lookup.
  destruct Hk as [Hk|(a & _ & <- & Hc)]; [by rewrite lookup_empty in Hk|].
  by apply attachment_config_id.
Qed.

Lemma elem_of_translated_listeners view c :
  c ∈ rt_listeners (translate_view_to_ir view) →
  ∃ a, a ∈ l4_attachments view ∧ attachment_config a = Some c.
Proof.
  intros (k & Hk)%elem_of_btree_values. apply attachments_lookup in Hk as [Hk|(a & ? & _ & ?)];
    [by rewrite lookup_empty in Hk|eauto].
Qed.

Lemma parent_listeners_elem gs ns protocol p g l :
  (g, l) ∈ parent_listeners gs ns protocol p →
  g ∈ gs ∧ l ∈ gs_listeners g ∧ ls_protocol l = protocol.
Proof.
  unfold parent_listeners. destruct (find_gateway _ _ _) as [g'|] eqn:Hf; [|by intros ?%elem_of_nil].
  intros (l' & [= <- <-] & [[? _] Hl]%list_elem_of_filter)%list_elem_of_fmap.
  by apply find_Some_elem in Hf as [? _].
Qed.

Lemma elem_of_gateway_listeners view protocol g l :
  (g, l) ∈ gateway_listeners view protocol ↔
  g ∈ gateways view ∧ l ∈ gs_listeners g ∧ ls_protocol l = protocol.
Proof.
  unfold gateway_listeners. rewrite list_elem_of_bind. setoid_rewrite list_elem_of_fmap.
  setoid_rewrite list_elem_of_filter. naive_solver.
Qed.

(** Attachments are of gateway listeners of the view; an HTTPS listener has one only when
    some route is effective on it. *)
Lemma attachment_source view a :
  a ∈ l4_attachments view →
  la_gateway a ∈ gateways view ∧ la_listener a ∈ gs_listeners (la_gateway a) ∧
  (ls_protocol (la_listener a) = "HTTPS" →
   gateway_listener_id (la_gateway a) (la_listener a) ∈ https_listener_ids view).
Proof.
  unfold l4_attachments. rewrite !elem_of_app. intros [Ha|[Ha|[Ha|[Ha|Ha]]]].
  - apply list_elem_of_bind in Ha as (r & Ha & _). case_match; [|by apply elem_of_nil in Ha].
    apply list_elem_of_bind in Ha as (p & ([g l] & -> & Hgl)%list_elem_of_fmap & _).
    apply parent_listeners_elem in Hgl as (? & ? & Hp). simpl. by rewrite Hp.
  - apply list_elem_of_bind in Ha as (r & Ha & _). case_match; [|by apply elem_of_nil in Ha].
    apply list_elem_of_bind in Ha as (p & ([g l] & -> & Hgl)%list_elem_of_fmap & _).
    apply parent_listeners_elem in Hgl as (? & ? & Hp). simpl. by rewrite Hp.
  - apply list_elem_of_bind in Ha as (r & Ha & _). case_match; [|by apply elem_of_nil in Ha].
    apply list_elem_of_bind in Ha as (p & ([g l] & Ha & Hgl)%list_elem_of_bind & _).
    apply parent_listeners_elem in Hgl as (? & ? & Hp). unfold tls_attachment in Ha.
    case_match; [by apply elem_of_nil in Ha|]. apply list_elem_of_singleton in Ha as ->.
    simpl. by rewrite Hp.
  - apply list_elem_of_fmap in Ha as ([g l] & -> & [Hid Hgl]%list_elem_of_filter).
    apply elem_of_gateway_listeners in Hgl as (? & ? & ?). done.
  - apply list_elem_of_fmap in Ha as ([g l] & -> & Hgl).
    apply elem_of_gateway_listeners in Hgl as (? & ? & Hp). simpl. by rewrite Hp.
Qed.

Lemma elem_of_https_listener_ids view id :
  id ∈ https_listener_ids view ↔
  ∃ e rules, (e, rules) ∈ view_entries view ∧ eh_listener_id e = Some id.
Proof.
  unfold https_listener_ids. rewrite elem_of_list_to_set, list_elem_of_omap. fold (view_entries view).
  split; [intros ([e rules] & ? & ?); eauto|intros (e & rules & ? & ?); by exists (e, rules)].
Qed.

(** A programmed listener with an attachment is bound. *)
Lemma attached_bound view g l :
  (∃ a, a ∈ l4_attachments view ∧ la_gateway a = g ∧ la_listener a = l) →
  ls_programmed l = true → is_Some (listener_protocol_to_ir (ls_protocol l)) →
  gateway_listener_id g l ∈ lc_id <$> rt_listeners (translate_view_to_ir view).
Proof.
  intros (a & Ha & Hag & Hal) Hp [pr Hpr].
  assert (attachment_config a = Some (listener_config g l pr)) as Hc.
  { unfold attachment_config. by rewrite Hag, Hal, Hp, Hpr. }
  destruct (attachments_bound (l4_attachments view) ∅ a _ Ha Hc) as [c Hlk].
  rewrite Hag, Hal in Hlk. apply list_elem_of_fmap. exists c. split.
  - apply attachments_lookup in Hlk as [Hlk|(a' & _ & <- & Hc')];
      [by rewrite lookup_empty in Hlk|]. symmetry. by apply attachment_config_id.
  - apply elem_of_btree_values. eauto.
Qed.

(** A listener of the table is a programmed listener of a gateway. *)
Lemma translated_listener_source view c : c ∈ rt_listeners (translate_view_to_ir view) →
  ∃ g l protocol, g ∈ gateways view ∧ l ∈ gs_listeners g ∧ ls_programmed l = true ∧
    listener_protocol_to_ir (ls_protocol l) = Some protocol ∧ c = listener_config g l protocol.
Proof.
  intros (a & Ha & Hc)%elem_of_translated_listeners. apply attachment_source in Ha as (Hg & Hl & _).
  unfold attachment_config in Hc. destruct (ls_programmed _) eqn:Hp; [|done].
  destruct (listener_protocol_to_ir _) as [pr|] eqn:Hpr; [|done]. injection Hc as <-. eauto 10.
Qed.

(** ** Attachment, as the Gateway API describes it

    These definitions say when a route is attached to a listener without the functions
    that compute it: the listener belongs to a parent the route names, the reference
    selects it, its [allowedRoutes] admit the kind and the namespace of the route, and
    the host is one that both sides accept. *)

Definition accepts_host (h : GwHostnameMatch) (host : string) : Prop :=
  match h with
  | GwExact s => host = s
  | GwWildcard suf => ∃ x, x ≠ "" ∧ host = x +:+ String dot suf
  | GwAny => True
  end.

Definition admits_kind (allowed : AllowedRoutes) (kind : string) : Prop :=
  ar_kinds allowed = [] ∨
  ∃ k, k ∈ ar_kinds allowed ∧ gk_group k = "gateway.networking.k8s.io" ∧ gk_kind k = kind.

Definition admits_namespace (allowed : AllowedRoutes) (route_ns owner_ns : string)
    (labels : NamespaceLabels) : Prop :=
  match rn_from (ar_namespaces allowed) with
  | NsAll => True
  | NsSame => route_ns = owner_ns
  | NsNone => False
  | NsSelector => ∃ l sel, labels !! route_ns = Some l ∧
      rn_selector (ar_namespaces allowed) = Some sel ∧ sel ⊆ l
  end.

(** A parent that a reference names, with its listeners that are programmed and what
    they allow: a programmed ListenerSet or a Gateway of that namespace and name. *)
Definition named_parent (view : ReconciledView) (p : ParentRef) (ns : string)
    (ls : list ListenerState) (allowed : ListenerAllowedMap) : Prop :=
  (pr_kind p = "ListenerSet" ∧ allowed = listener_set_allowed view ∧
     ∃ s, s ∈ listener_sets view ∧ lss_namespace s = ns ∧ lss_name s = pr_name p ∧
          lss_programmed s = true ∧ ls = lss_listeners s) ∨
  (pr_kind p ≠ "ListenerSet" ∧ allowed = listener_allowed view ∧
     ∃ g, g ∈ gateways view ∧ gs_namespace g = ns ∧ gs_name g = pr_name p ∧
          ls = filter (λ l, ls_programmed l = true) (gs_listeners g)).

(** The reference selects the listener and the listener admits the route. *)
Record admitted (view : ReconciledView) (route : RouteHostnames) (p : ParentRef)
    (l : ListenerState) (allowed : ListenerAllowedMap) : Prop := {
  adm_section : ∀ s, pr_section_name p = Some s → ls_name l = s;
  adm_port : ∀ port, pr_port p = Some port → ls_port l = port;
  adm_kind : admits_kind (allowed_for allowed (parent_ns route p) (pr_name p) l) (rh_kind route);
  adm_namespace : admits_namespace (allowed_for allowed (parent_ns route p) (pr_name p) l)
                    (rh_namespace route) (parent_ns route p) (namespace_labels view);
}.

(** The route is attached to a listener of the port, and the two accept the host. *)
Definition attached_at (view : ReconciledView) (route : RouteHostnames) (host : string) (port : Z) : Prop :=
  ∃ p ls allowed l, p ∈ rh_parent_refs route ∧ named_parent view p (parent_ns route p) ls allowed ∧
    l ∈ ls ∧ admitted view route p l allowed ∧ ls_port l = port ∧
    (∀ lh, ls_hostname l = Some lh → accepts_host (parse_listener_hostname lh) host) ∧
    (rh_hostnames route = [] ∨ ∃ rh, rh ∈ rh_hostnames route ∧ accepts_host rh host).

(** There is no parent of that name, or it is a ListenerSet that is not programmed. *)
Definition missing_parent (view : ReconciledView) (p : ParentRef) (ns : string) : Prop :=
  if decide (pr_kind p = "ListenerSet") then
    ∀ s, s ∈ listener_sets view → lss_namespace s = ns → lss_name s = pr_name p →
      ∃ s', s' ∈ listener_sets view ∧ lss_namespace s' = ns ∧ lss_name s' = pr_name p ∧
            lss_programmed s' = false
  else ∀ g, g ∈ gateways view → gs_namespace g = ns → gs_name g ≠ pr_name p.

(** One of the parents of the route is missing, or the route has no hostnames and no
    listener of one of its parents admits it. *)
Definition unplaced (view : ReconciledView) (route : RouteHostnames) : Prop :=
  ∃ p, p ∈ rh_parent_refs route ∧
    (missing_parent view p (parent_ns route p) ∨
     (rh_hostnames route = [] ∧
      ∃ ls allowed, named_parent view p (parent_ns route p) ls allowed ∧
        ∀ l, l ∈ ls → ¬ admitted view route p l allowed)).

(** What a plan does with a request, read off the rule: a rule whose backends do not
    resolve answers 500, one with a redirect filter redirects as one of these filters
    says, and any other forwards to its backends with their weights. *)
Inductive acts_as (pl : CompiledPlan) (programmed : bool) (filters : list RouteFilter)
    (backends : list GwWeightedBackend) : Prop :=
| acts_refuses :
    programmed = false →
    request_stages pl = [StageTerminal (TermFixedResponse 500 [] None)] → upstream pl = None →
    acts_as pl programmed filters backends
| acts_redirects scheme hostname path port status rd :
    programmed = true → RequestRedirect scheme hostname path port status ∈ filters →
    rd_scheme rd = scheme → rd_hostname rd = hostname → rd_port rd = port → rd_status_code rd = status →
    request_stages pl = [StageTerminal (TermRedirect rd)] → upstream pl = None →
    acts_as pl programmed filters backends
| acts_forwards ua :
    programmed = true →
    (∀ scheme hostname path port status, RequestRedirect scheme hostname path port status ∉ filters) →
    request_stages pl = [] → upstream pl = Some ua →
    ((λ b, (wb_backend b, wb_weight b)) <$> ua_backends ua) =
      ((λ b, (gwb_backend b, gwb_weight b)) <$> backends) →
    acts_as pl programmed filters backends.

(** The rule of the view a plan was made from. *)
Definition plan_of_rule (view : ReconciledView) (pl : CompiledPlan) (route : RouteHostnames) : Prop :=
  (∃ r i hr, r ∈ http_route_states view ∧ route = http_hosts r ∧ hrs_rules r !! i = Some hr ∧
     plan_rule_order pl = Z.of_nat i ∧
     (hrr_matches hr = [] ∧ plan_match pl = RequestMatch_default ∨
      ∃ m, m ∈ hrr_matches hr ∧ plan_match pl = to_ir_request_match m) ∧
     acts_as pl (hrr_programmed hr) (hrr_filters hr) (hrr_backends hr)) ∨
  (∃ r i gr, r ∈ grpc_route_states view ∧ route = grpc_hosts r ∧ grs_rules r !! i = Some gr ∧
     plan_rule_order pl = Z.of_nat i ∧
     (grr_matches gr = [] ∧ plan_match pl = RequestMatch_default ∨
      ∃ m, m ∈ grr_matches gr ∧ plan_match pl = to_ir_request_match (grpc_match_to_route_match m)) ∧
     acts_as pl (grr_programmed gr) [] (grr_backends gr)).

Lemma accepts_host_iff h host : accepts_host h host ↔ gw_matches h host.
Proof.
  destruct h; simpl; [by rewrite gw_matches_exact|by rewrite gw_matches_wildcard|].
  split; [intros; apply gw_matches_any|done].
Qed.

Lemma admits_kind_iff allowed kind :
  listener_allows_kind allowed GATEWAY_GROUP kind = true ↔ admits_kind allowed kind.
Proof.
  unfold listener_allows_kind, admits_kind. destruct (ar_kinds allowed) as [|k ks]; [naive_solver|].
  rewrite existsb_elem. setoid_rewrite andb_true_iff. setoid_rewrite bool_decide_eq_true. naive_solver.
Qed.

Lemma admits_namespace_iff allowed route_ns owner_ns labels :
  namespace_allowed (ar_namespaces allowed) route_ns owner_ns labels = true ↔
  admits_namespace allowed route_ns owner_ns labels.
Proof.
  unfold namespace_allowed, admits_namespace. destruct (rn_from _); [by rewrite bool_decide_eq_true|done| |done].
  destruct (labels !! route_ns) as [l|]; [|naive_solver].
  destruct (rn_selector _) as [sel|]; [|naive_solver].
  assert (forallb (λ kv, bool_decide (l !! kv.1 = Some kv.2)) (map_to_list sel) = true ↔ sel ⊆ l) as ->.
  { rewrite forallb_forall, map_subseteq_spec. split.
    - intros Hall k v Hk. apply (bool_decide_eq_true _), (Hall (k, v)).
      by apply list_elem_of_In, elem_of_map_to_list.
    - intros Hsub [k v] Hk%list_elem_of_In%elem_of_map_to_list. apply bool_decide_eq_true. by apply Hsub. }
  naive_solver.
Qed.

Lemma section_port_match_iff p l :
  section_port_match p l = true ↔
  (∀ s, pr_section_name p = Some s → ls_name l = s) ∧ (∀ port, pr_port p = Some port → ls_port l = port).
Proof.
  unfold section_port_match. rewrite andb_true_iff.
  destruct (pr_section_name p), (pr_port p); simpl;
    rewrite ?bool_decide_eq_true, ?Z.eqb_eq; naive_solver.
Qed.

Lemma find_none_elem {A} (f : A → bool) l x : List.find f l = None → x ∈ l → f x = false.
Proof. intros Hf Hx%list_elem_of_In. by eapply List.find_none. Qed.

(** What [resolve_parent] finds. *)
Lemma resolve_parent_named view route p :
  match resolve_parent view route p with
  | Some (ls, am, _) => ∃ ls0, named_parent view p (parent_ns route p) ls0 am ∧
                               ∀ l, l ∈ ls ↔ l ∈ ls0 ∧ section_port_match p l = true
  | None => missing_parent view p (parent_ns route p)
  end.
Proof.
  unfold resolve_parent, named_parent, missing_parent, find_listener_set, find_gateway.
  case_bool_decide as Hk; [rewrite decide_True by done|rewrite decide_False by done];
    destruct (List.find _ _) as [s|] eqn:Hf.
  - apply find_some in Hf as [Hs%list_elem_of_In [Hn1%bool_decide_eq_true Hn2%bool_decide_eq_true]%andb_true_iff].
    destruct (lss_programmed s) eqn:Hp; [|eauto 10].
    exists (lss_listeners s). split; [left; eauto 10|]. intros l. rewrite list_elem_of_filter. tauto.
  - intros s Hs H1 H2. apply (find_none_elem _ _ s) in Hf; [|done].
    by apply andb_false_iff in Hf as [Hf%bool_decide_eq_false|Hf%bool_decide_eq_false].
  - apply find_some in Hf as [Hs%list_elem_of_In [Hn1%bool_decide_eq_true Hn2%bool_decide_eq_true]%andb_true_iff].
    exists (filter (λ l, ls_programmed l = true) (gs_listeners s)). split; [right; eauto 10|].
    intros l. rewrite !list_elem_of_filter. unfold is_true. rewrite andb_true_iff. tauto.
  - intros s Hs H1 H2. apply (find_none_elem _ _ s) in Hf; [|done].
    by apply andb_false_iff in Hf as [Hf%bool_decide_eq_false|Hf%bool_decide_eq_false].
Qed.

(** The tests of the code are the declarative ones, up to the hostnames. *)
Lemma listener_attaches_iff view route p am l :
  section_port_match p l = true ∧ listener_attaches view route p am l = true ↔
  admitted view route p l am ∧ listener_hostname_intersects (ls_hostname l) (rh_hostnames route) = true.
Proof.
  unfold listener_attaches.
  rewrite !andb_true_iff, section_port_match_iff, admits_kind_iff, admits_namespace_iff.
  split; [intros ([? ?] & [? ?] & ?)|intros ([] & ?)]; done.
Qed.

(** An effective hostname of a route, for a host and port it serves, is an attachment or
    the fallback. *)
Lemma effective_attached view route e host port :
  e ∈ compute_effective_hostnames view route → gw_matches (eh_route_hostname e) host →
  eh_listener_port e = None ∨ eh_listener_port e = Some port →
  attached_at view route host port ∨ unplaced view route.
Proof.
  intros (p & He & Hp)%list_elem_of_bind Hm Hport. apply elem_of_parent_hostnames in He.
  pose proof (resolve_parent_named view route p) as Hn.
  destruct (resolve_parent view route p) as [[[ls am] cert]|]; [|right; exists p; eauto].
  destruct Hn as (ls0 & Hn & Hls).
  destruct He as [(l & Hl & Ha & h & Hh & ->)|(Hnil & Hno & ->)].
  - left. simpl in Hm, Hport. destruct Hport as [?|[= <-]]; [done|]. apply Hls in Hl as [Hl Hs].
    destruct (proj1 (hostnames_on_exact route l host)) as [Hlh Hrh]; [eauto|].
    exists p, ls0, am, l. split_and!; try done.
    + by apply listener_attaches_iff.
    + intros lh Hlh'. apply accepts_host_iff. by apply Hlh.
    + destruct Hrh as [?|(rh & ? & ?)]; [by left|right]. exists rh. by rewrite accepts_host_iff.
  - right. exists p. split; [done|right]. split; [done|]. exists ls0, am. split; [done|].
    intros l Hl Hadm. destruct (proj2 (listener_attaches_iff view route p am l)) as [Hs Ha].
    { split; [done|]. by rewrite Hnil. }
    rewrite Hno in Ha; [done|]. by apply Hls.
Qed.

Lemma elem_of_matches_or_default ms m :
  m ∈ matches_or_default ms ↔ ms = [] ∧ m = RequestMatch_default ∨ m ∈ ms.
Proof.
  destruct ms as [|m0 ms]; cbn [matches_or_default]; [rewrite list_elem_of_singleton, elem_of_nil|]; naive_solver.
Qed.

(** The backends of a forwarding rule are those of the route. *)
Lemma weighted_backends_kept (bs : list GwWeightedBackend) :
  ((λ b, (wb_backend b, wb_weight b)) <$> (weighted_backend_from <$> bs)) =
  ((λ b, (gwb_backend b, gwb_weight b)) <$> bs).
Proof. by rewrite <-list_fmap_compose. Qed.

Lemma last_redirect prefix filters :
  match last (omap (redirect_of prefix) filters) with
  | Some rd => ∃ path, RequestRedirect (rd_scheme rd) (rd_hostname rd) path (rd_port rd) (rd_status_code rd) ∈ filters
  | None => ∀ scheme hostname path port status, RequestRedirect scheme hostname path port status ∉ filters
  end.
Proof.
  destruct (last _) as [rd|] eqn:Hl.
  - apply last_Some_elem_of, list_elem_of_omap in Hl as (f & Hf & Hrd).
    destruct f; try done. injection Hrd as <-. simpl. eauto.
  - apply last_None in Hl. intros scheme hostname path port status Hin.
    assert (∃ rd, rd ∈ omap (redirect_of prefix) filters) as [rd Hrd].
    { eexists. apply list_elem_of_omap. eexists. split; [exact Hin|reflexivity]. }
    rewrite Hl in Hrd. by apply elem_of_nil in Hrd.
Qed.

(** A plan compiled from a rule of an HTTP route acts as the rule says. *)
Lemma http_plan_acts hr i cert rule m prec gw dis lh pl :
  rule ∈ translate_rule_to_ir hr i (hrr_programmed hr) cert → m ∈ rule_matches rule →
  compile_plan rule prec m gw dis lh = Ok pl →
  plan_rule_order pl = i ∧
  (hrr_matches hr = [] ∧ plan_match pl = RequestMatch_default ∨
   ∃ m', m' ∈ hrr_matches hr ∧ plan_match pl = to_ir_request_match m') ∧
  acts_as pl (hrr_programmed hr) (hrr_filters hr) (hrr_backends hr).
Proof.
  unfold translate_rule_to_ir. intros Hr Hm Hc.
  assert (∃ m', m' ∈ matches_or_default (to_ir_request_match <$> hrr_matches hr) ∧
    rule = if hrr_programmed hr then build_ir_rule hr m' i cert else unprogrammed_rule i m') as (m' & Hm' & ->).
  { destruct (hrr_programmed hr); apply list_elem_of_fmap in Hr as (m' & -> & ?); eauto. }
  assert (m = m') as ->.
  { destruct (hrr_programmed hr); simpl in Hm; by apply list_elem_of_singleton in Hm. }
  assert (plan_rule_order pl = i ∧ plan_match pl = m') as [Ho Hpm].
  { unfold compile_plan in Hc. destruct (hrr_programmed hr); simpl in Hc;
      [destruct (last _) in Hc|]; injection Hc as <-; done. }
  split_and!; [done| |].
  - rewrite Hpm. apply elem_of_matches_or_default in Hm' as [[Hn%fmap_nil_inv ->]|(x & -> & ?)%list_elem_of_fmap]; eauto.
  - unfold compile_plan in Hc. destruct (hrr_programmed hr); simpl in Hc; [|injection Hc as <-; by apply acts_refuses].
    pose proof (last_redirect (matched_prefix m') (hrr_filters hr)) as Hlr.
    destruct (last _) as [rd|]; injection Hc as <-; [destruct Hlr; by eapply acts_redirects|].
    eapply acts_forwards; [done|done|reflexivity|reflexivity|]. apply weighted_backends_kept.
Qed.

Lemma grpc_plan_acts gr i cert rule m prec gw dis lh pl :
  rule ∈ translate_grpc_rule_to_ir gr i (grr_programmed gr) cert → m ∈ rule_matches rule →
  compile_plan rule prec m gw dis lh = Ok pl →
  plan_rule_order pl = i ∧
  (grr_matches gr = [] ∧ plan_match pl = RequestMatch_default ∨
   ∃ m', m' ∈ grr_matches gr ∧ plan_match pl = to_ir_request_match (grpc_match_to_route_match m')) ∧
  acts_as pl (grr_programmed gr) [] (grr_backends gr).
Proof.
  unfold translate_grpc_rule_to_ir. intros Hr Hm Hc.
  assert (∃ m', m' ∈ matches_or_default ((λ m, to_ir_request_match (grpc_match_to_route_match m)) <$> grr_matches gr) ∧
    rule = if grr_programmed gr then build_ir_rule_from_grpc gr m' i cert else unprogrammed_rule i m') as (m' & Hm' & ->).
  { destruct (grr_programmed gr); apply list_elem_of_fmap in Hr as (m' & -> & ?); eauto. }
  assert (m = m') as ->.
  { destruct (grr_programmed gr); simpl in Hm; by apply list_elem_of_singleton in Hm. }
  unfold compile_plan in Hc. destruct (grr_programmed gr); simpl in Hc; injection Hc as <-; simpl.
  all: split_and!; [done| |].
  1, 3: apply elem_of_matches_or_default in Hm' as [[Hn%fmap_nil_inv ->]|(x & -> & ?)%list_elem_of_fmap]; eauto.
  - eapply acts_forwards; [done|intros ?????; apply not_elem_of_nil|reflexivity|reflexivity|].
    apply weighted_backends_kept.
  - by apply acts_refuses.
Qed.

(** ** Properties *)

(** Every view translates to a table that compiles: whatever the cluster objects say,
    both compilers accept the translated table, its listener ids are distinct, and every
    bound listener is a programmed gateway listener with its own port, protocol and
    client-certificate policy. *)
Theorem translated_table_compiles `{!HashOrder} (view : ReconciledView) :
  let ir := translate_view_to_ir view in
  NoDup (lc_id <$> rt_listeners ir) ∧
  (∃ t, compile ir = Ok t) ∧ (∃ cfg, compile_l4 ir = Ok cfg) ∧
  ∀ c, c ∈ rt_listeners ir →
    ∃ g l protocol, g ∈ gateways view ∧ l ∈ gs_listeners g ∧ ls_programmed l = true ∧
      listener_protocol_to_ir (ls_protocol l) = Some protocol ∧ c = listener_config g l protocol.
Proof.
  intros ir. pose proof (translated_listener_source view) as Hsrc.
  split_and!; [apply translated_ids|apply compile_ok| |exact Hsrc].
  apply compile_l4_ok. intros c (g & l & pr & _ & _ & _ & _ & ->)%Hsrc. by destruct pr.
Qed.


(** HTTP listeners are always open and HTTPS listeners only with routes: when listener
    ids are unique, a programmed HTTP listener of any gateway is bound, and a programmed
    HTTPS listener is bound exactly when some HTTP or gRPC route is effective on it. *)
Theorem http_listeners_bound (view : ReconciledView) (g : GatewayState) (l : ListenerState) :
  (∀ g1 l1 g2 l2, g1 ∈ gateways view → l1 ∈ gs_listeners g1 → g2 ∈ gateways view →
     l2 ∈ gs_listeners g2 → gateway_listener_id g1 l1 = gateway_listener_id g2 l2 →
     ls_protocol l1 = ls_protocol l2) →
  g ∈ gateways view → l ∈ gs_listeners g → ls_programmed l = true →
  let bound := gateway_listener_id g l ∈ lc_id <$> rt_listeners (translate_view_to_ir view) in
  (ls_protocol l = "HTTP" → bound) ∧
  (ls_protocol l = "HTTPS" →
     bound ↔ ∃ e rules, (e, rules) ∈ view_entries view ∧ eh_listener_id e = Some (gateway_listener_id g l)).
Proof.
  intros Huniq Hg Hl Hp bound. split; intros Hproto.
  - apply attached_bound; [|done|by rewrite Hproto].
    eexists. split; [|split; shelve].
    unfold l4_attachments. rewrite !elem_of_app. do 4 right. apply list_elem_of_fmap.
    exists (g, l). split; [reflexivity|by apply elem_of_gateway_listeners].
    Unshelve. all: reflexivity.
  - rewrite <-elem_of_https_listener_ids. split.
    + intros (c & Hid & (a & Ha & Hc)%elem_of_translated_listeners)%list_elem_of_fmap.
      rewrite Hid, (attachment_config_id _ _ Hc) in *.
      apply attachment_source in Ha as (Hag & Hal & Hs). apply Hs.
      rewrite <-Hproto. symmetry. by apply (Huniq g l (la_gateway a) (la_listener a)).
    + intros Hid. apply attached_bound; [|done|by rewrite Hproto].
      eexists. split; [|split; shelve].
      unfold l4_attachments. rewrite !elem_of_app. do 3 right. left. apply list_elem_of_fmap.
      exists (g, l). split; [reflexivity|]. apply list_elem_of_filter.
      split; [done|by apply elem_of_gateway_listeners].
      Unshelve. all: reflexivity.
Qed.

(** A rule whose backends do not resolve keeps its place: it translates to the same
    matches with the same order and precedence as if it were programmed, and each of its
    plans answers 500 without an upstream, so its requests do not fall through to
    another route. *)
Theorem unprogrammed_rule_answers_500 (hr : HTTPRouteRule) (idx : Z) (cert : option string) :
  let on := translate_rule_to_ir hr idx true cert in
  let off := translate_rule_to_ir hr idx false cert in
  rule_matches <$> off = rule_matches <$> on ∧ rule_order <$> off = rule_order <$> on ∧
  compute_precedence <$> off = compute_precedence <$> on ∧
  ∀ r m prec gw redirect lh p, r ∈ off → compile_plan r prec m gw redirect lh = Ok p →
    upstream p = None ∧ request_stages p = [StageTerminal (TermFixedResponse 500 [] None)].
Proof.
  intros on off. unfold on, off, translate_rule_to_ir.
  split_and!; [by rewrite <-!list_fmap_compose..|].
  intros r m prec gw redirect lh p (m' & -> & _)%list_elem_of_fmap. by intros [= <-].
Qed.

(** The path of an exact gRPC method match is the path of the method, but a match that
    names only the service, which should take all its methods, takes every path of every
    service. *)
Theorem grpc_exact_match_paths `{!RegexEngine} (service : string) (method : option string)
    (case_sensitive : bool) (headers : list GwHeaderMatch) (path : string) :
  let m := {| grm_method := Some {| mm_match_type := MethodExact; mm_service := service;
                                    mm_method := method; mm_case_sensitive := case_sensitive |};
              grm_headers := headers |} in
  path_holds (rm_path (to_ir_request_match (grpc_match_to_route_match m))) path = true ↔
  match method with
  | Some name => path = "/" +:+ service +:+ "/" +:+ name
  | None => True
  end.
Proof. destruct method as [name|]; simpl; [by rewrite bool_decide_eq_true|done]. Qed.

Module TranslateExamples.
Definition listener (name protocol : string) (port : Z) (hostname : option string) : ListenerState :=
  {| ls_name := name; ls_protocol := protocol; ls_port := port; ls_hostname := hostname;
     ls_tls_mode := None; ls_frontend_validation := None; ls_programmed := true |}.

Definition gateway (ls : list ListenerState) : GatewayState :=
  {| gs_namespace := "infra"; gs_name := "gw"; gs_generation := 1; gs_listeners := ls;
     gs_backend_client_cert_id := None |}.

Definition parent (section : option string) (port : option Z) : ParentRef :=
  {| pr_group := GATEWAY_GROUP; pr_kind := "Gateway"; pr_namespace := Some "infra"; pr_name := "gw";
     pr_section_name := section; pr_port := port |}.

Definition service (name : string) : GwWeightedBackend :=
  {| gwb_backend := name; gwb_weight := 1; gwb_filters := []; gwb_protocol := BackendHttp; gwb_tls := None |}.

Definition http_route (ns name : string) (parents : list ParentRef) : HTTPRouteState :=
  {| hrs_namespace := ns; hrs_name := name; hrs_generation := 1; hrs_hostnames := [];
     hrs_rules := [{| hrr_matches := []; hrr_backends := [service name]; hrr_filters := [];
                      hrr_timeout_ms := None; hrr_request_timeout_ms := None; hrr_programmed := true |}];
     hrs_parent_refs := parents; hrs_programmed := true |}.

Definition tcp_route (ns name : string) (parents : list ParentRef) : TCPRouteState :=
  {| trs_namespace := ns; trs_name := name; trs_generation := 1; trs_parent_refs := parents;
     trs_backends := [service name]; trs_programmed := true |}.

Definition view (ls : list ListenerState) (hs : list HTTPRouteState) (ts : list TCPRouteState)
    (allowed : ListenerAllowedMap) : ReconciledView :=
  {| gateways := [gateway ls]; listener_sets := []; view_routes := []; http_route_states := hs;
     grpc_route_states := []; tcp_route_states := ts; udp_route_states := []; tls_route_states := [];
     reference_grants := []; backend_tls_policies := []; namespace_labels := ∅;
     listener_allowed := allowed; listener_set_allowed := ∅ |}.

#[export] Instance literal_regex : RegexEngine := λ pattern v, bool_decide (pattern = v).

(** The backends that serve a request for [host] on [port]. *)
Definition served (v : ReconciledView) (host : string) (port : Z) : option (list string) :=
  match compile (translate_view_to_ir v) with
  | Ok t => p ← lookup_route t {| req_host := host; req_port := port; req_path := "/";
                                  req_method := "GET"; req_header := λ _, None; req_query := None |};
            u ← upstream (plan p); Some (wb_backend <$> ua_backends u)
  | Err _ => None
  end.

(** The dispatch of a TCP connection on a listener port. *)
Definition tcp_dispatch (v : ReconciledView) (id : string) : option TcpDispatch :=
  match compile_l4 (translate_view_to_ir v) with
  | Ok cfg => Some (handle_tcp cfg (L4Context_new id Tcp (SocketV4 0 0) (SocketV4 3325256711 50000)) None)
  | Err _ => None
  end.

Definition allow (kinds : list string) (from : NamespaceFrom) : AllowedRoutes :=
  {| ar_kinds := (λ k, {| gk_group := GATEWAY_GROUP; gk_kind := k |}) <$> kinds;
     ar_namespaces := {| rn_from := from; rn_selector := None |} |}.
End TranslateExamples.
Import TranslateExamples.

(** Routes without hostnames on two HTTP listeners of one gateway: the compiler keeps only
    one catch-all host, so the route of the first port is lost and only the last listener
    in key order is served. *)
Theorem catch_all_lost_on_first_port :
  let ls := [listener "a" "HTTP" 8080 None; listener "b" "HTTP" 8081 None] in
  let ra := http_route "infra" "a-svc" [parent (Some "a") None] in
  let rb := http_route "infra" "b-svc" [parent (Some "b") None] in
  served (view ls [ra] [] ∅) "www.example.com" 8080 = Some ["a-svc"] ∧
  served (view ls [ra; rb] [] ∅) "www.example.com" 8081 = Some ["b-svc"] ∧
  served (view ls [ra; rb] [] ∅) "www.example.com" 8080 = None.
Proof. vm_compute. done. Qed.

(** Acceptance combines tests of different listeners: an HTTP route from another namespace
    is accepted by a gateway of which one listener takes HTTP routes only from its own
    namespace and the other takes routes from everywhere but only gRPC ones. No listener
    lets it attach, so it falls back to an entry without listener and is served for every
    host on every port. *)
Theorem accepted_by_no_listener :
  let ls := [listener "internal" "HTTP" 8080 None; listener "public" "HTTP" 80 None] in
  let am := {[ ("infra", "gw", "internal") := allow ["HTTPRoute"] NsSame;
               ("infra", "gw", "public") := allow ["GRPCRoute"] NsAll ]} in
  let parsed := {| pp_group := GATEWAY_GROUP; pp_kind := "Gateway"; pp_namespace := Some "infra";
                   pp_name := "gw"; pp_section_name := None; pp_port := None |} in
  let route := {| at_namespace := "guest"; at_kind := "HTTPRoute"; at_hostnames := [];
                  at_protocols := Some ["HTTP"; "HTTPS"]; at_generation := 1 |} in
  let cluster := {| cl_gateways := [gateway ls]; cl_listener_sets := []; cl_labels := ∅;
                    cl_listener_allowed := am; cl_listener_set_allowed := ∅ |} in
  let v := view ls [http_route "guest" "guest-svc" [parent None None]] [] am in
  (resolve_route_parent parsed route cluster).1 = Some (parent None None) ∧
  forallb (λ l, negb (listener_attaches v (http_hosts (http_route "guest" "guest-svc" [parent None None]))
                        (parent None None) am l)) ls = true ∧
  served v "www.example.com" 8080 = Some ["guest-svc"] ∧
  served v "bank.example.org" 443 = Some ["guest-svc"].
Proof. vm_compute. done. Qed.

(** L4 routes attach by section name only: a TCP route whose parentRef names port 5432 is
    also attached to the listener on port 6432, although that listener allows no routes of
    its namespace, and connections to it reach the route's backend. *)
Theorem tcp_route_attaches_to_other_port :
  let ls := [listener "db" "TCP" 5432 None; listener "admin" "TCP" 6432 None] in
  let am := {[ ("infra", "gw", "db") := allow ["TCPRoute"] NsAll;
               ("infra", "gw", "admin") := allow ["TCPRoute"] NsSame ]} in
  let parsed := {| pp_group := GATEWAY_GROUP; pp_kind := "Gateway"; pp_namespace := Some "infra";
                   pp_name := "gw"; pp_section_name := None; pp_port := Some 5432 |} in
  let route := {| at_namespace := "guest"; at_kind := "TCPRoute"; at_hostnames := [];
                  at_protocols := Some ["TCP"]; at_generation := 1 |} in
  let cluster := {| cl_gateways := [gateway ls]; cl_listener_sets := []; cl_labels := ∅;
                    cl_listener_allowed := am; cl_listener_set_allowed := ∅ |} in
  let v := view ls [] [tcp_route "guest" "guest-db" [parent None (Some 5432)]] am in
  (resolve_l4_parent_ref parsed route cluster).1 = Some (parent None (Some 5432)) ∧
  rl4_programmed (reconcile_l4_route route [parsed] cluster) = true ∧
  tcp_dispatch v "0.0.0.0:6432#Tcp" =
    Some (DispatchRelayTcp [to_ir_weighted_backend (service "guest-db")]).
Proof. vm_compute. done. Qed.

Definition example_view : ReconciledView :=
  view [listener "a" "HTTP" 8080 (Some "*.example.com")] [http_route "infra" "a-svc" [parent None None]] [] ∅.

Lemma example_view_wf : view_wf example_view.
Proof.
  split; simpl.
  - intros g l ->%list_elem_of_singleton. simpl. intros ->%list_elem_of_singleton. done.
  - intros s l Hs. by apply elem_of_nil in Hs.
  - intros r ->%list_elem_of_singleton. constructor.
  - intros r Hr. by apply elem_of_nil in Hr.
Qed.

Definition example_request : Request :=
  {| req_host := "www.example.com"; req_port := 8080; req_path := "/";
     req_method := "GET"; req_header := λ _, None; req_query := None |}.

Lemma example_view_serves : ∃ t p,
  compile (translate_view_to_ir example_view) = Ok t ∧ lookup_route t example_request = Some p.
Proof.
  assert (match compile (translate_view_to_ir example_view) with
          | Ok t => match lookup_route t example_request with Some _ => true | None => false end
          | Err _ => false
          end = true) as Hs by (vm_compute; reflexivity).
  destruct (compile _) as [t|]; [|done]. destruct (lookup_route t _) as [p|] eqn:Hl; [|done].
  by exists t, p.
Qed.


Lemma http_listeners_bound_witness :
  "infra/gw/a" ∈ lc_id <$> rt_listeners (translate_view_to_ir
    (view [listener "a" "HTTP" 8080 None] [] [] ∅)).
Proof.
  refine (proj1 (http_listeners_bound (view [listener "a" "HTTP" 8080 None] [] [] ∅)
    (gateway [listener "a" "HTTP" 8080 None]) (listener "a" "HTTP" 8080 None) _ _ _ _) _); try done.
  - intros g1 l1 g2 l2. simpl. rewrite !list_elem_of_singleton. intros ->. simpl.
    rewrite list_elem_of_singleton. intros -> ->. simpl. by rewrite list_elem_of_singleton; intros ->.
  - left.
  - left.
Defined.

Lemma translated_table_compiles_witness :
  ∃ cfg, compile_l4 (translate_view_to_ir
    (view [listener "a" "HTTPS" 443 None] [http_route "infra" "a-svc" [parent None None]] [] ∅)) = Ok cfg.
Proof. apply translated_table_compiles. Defined.
