(* ===== verification/FromConfig.v ===== *)
(** * Routes of the configuration file ([src/config.rs], [src/ir/from_config.rs]).

    The route types of the configuration and their conversion to the IR, with what a
    configured route means for the requests of its host once the table is compiled.
    [CorsConfig], [RewriteRule], [BodyRewrite] and [CacheConfig] of the configuration have
    the fields of their namesakes in the IR ([CacheConfig]: [CachePolicy]), which are used
    for both. *)

From S2P Require Import Prelude Net Ir Hostname Compile Lookup L4 L4Manager RouteManager RateLimit Filters Pipeline StaticFiles Float64 Limiter Bandwidth Ensemble Ddos Scanner Session Request Peer.

(** ** Configuration types *)

Record HeaderRule := {
  hdr_name : string;
  hdr_value : string;
}.

Inductive HeaderMatchValueConfig :=
| HmcExact (v : string)
| HmcRegex (v : string)
| HmcPresent
| HmcAbsent.

Record HeaderMatchConfig := {
  hmc_name : string;
  hmc_value : HeaderMatchValueConfig;
}.

Inductive QueryParamMatchValueConfig :=
| QmcExact (v : string)
| QmcRegex (v : string).

Record QueryParamMatchConfig := {
  qmc_name : string;
  qmc_value : QueryParamMatchValueConfig;
}.

Record WeightedBackendConfig := {
  wbc_backend : string;
  wbc_weight : Z;
}.

Record RedirectRule := {
  rr_status_code : Z;
  rr_scheme : option string;
  rr_hostname : option string;
  rr_port : option Z;
  rr_path : option string;
  rr_path_prefix : option string;
}.

Record PathRoute := {
  pr_prefix : string;
  pr_backend : string;
  pr_strip_prefix : bool;
  pr_websocket : bool;
  pr_auth_request : option string;
  pr_auth_capture_headers : list string;
  pr_upstream_path_prefix : option string;
  pr_path_rewrite_full : option string;
  pr_hostname_rewrite : option string;
  pr_timeout_secs : option Z;
  pr_timeout_ms : option Z;
  pr_mirror_backends : list string;
  pr_cors : option CorsConfig;
  pr_deny : bool;
  pr_gateway_api_unprogrammed : bool;
  pr_methods : list string;
  pr_weighted_backends : list WeightedBackendConfig;
  pr_redirect : option RedirectRule;
  pr_header_matches : list HeaderMatchConfig;
  pr_query_param_matches : list QueryParamMatchConfig;
  pr_rule_order : Z;
  pr_path_match_exact : bool;
  pr_request_headers : list HeaderRule;
  pr_request_headers_add : list HeaderRule;
  pr_request_headers_remove : list string;
  pr_response_headers : list HeaderRule;
  pr_response_headers_add : list HeaderRule;
  pr_response_headers_remove : list string;
}.

Record RouteConfig := {
  rc_host_prefix : string;
  rc_backend : string;
  rc_websocket : bool;
  rc_disable_secure_redirection : bool;
  rc_paths : list PathRoute;
  rc_static_root : option string;
  rc_fallback : option string;
  rc_rewrites : list RewriteRule;
  rc_body_rewrites : list BodyRewrite;
  rc_response_headers : list HeaderRule;
  rc_response_headers_add : list HeaderRule;
  rc_response_headers_remove : list string;
  rc_request_headers : list HeaderRule;
  rc_request_headers_add : list HeaderRule;
  rc_request_headers_remove : list string;
  rc_cache : option CachePolicy;
  rc_cors : option CorsConfig;
  rc_timeout_secs : option Z;
  rc_listener_hostname : option string;
  rc_gateway_api : bool;
}.

(** ** [from_route_configs] *)

Definition parse_host_prefix (prefix : string) : HostnameMatch :=
  if decide (prefix = "*") then HostAny
  else match strip_prefix "*." prefix with
       | Some rest => HostWildcard rest
       | None => if str_contains prefix "." then HostExact prefix else HostPrefix prefix
       end.

(** The hostname of a listener, which has no prefix form. *)
Definition parse_config_listener (s : string) : HostnameMatch :=
  if decide (s = "*") then HostAny
  else match strip_prefix "*." s with Some rest => HostWildcard rest | None => HostExact s end.

Definition header_match_of (hm : HeaderMatchConfig) : HeaderMatch :=
  {| hm_name := hmc_name hm;
     hm_value := match hmc_value hm with
                 | HmcExact v => HeaderExact v
                 | HmcRegex v => HeaderRegex v
                 | HmcPresent => HeaderPresent
                 | HmcAbsent => HeaderAbsent
                 end |}.

Definition query_match_of (qm : QueryParamMatchConfig) : QueryParamMatch :=
  {| qm_name := qmc_name qm;
     qm_value := match qmc_value qm with QmcExact v => QueryExact v | QmcRegex v => QueryRegex v end |}.

Definition path_request_match (pr : PathRoute) : RequestMatch :=
  {| rm_path := Some (if pr_path_match_exact pr then PathExact (pr_prefix pr) else PathPrefix (pr_prefix pr));
     rm_method := head (pr_methods pr);
     rm_headers := header_match_of <$> pr_header_matches pr;
     rm_query_params := query_match_of <$> pr_query_param_matches pr |}.

Definition path_request_filters (pr : PathRoute) : list RequestFilter :=
  (if pr_strip_prefix pr then [ReqStripPrefix (pr_prefix pr)] else []) ++
  (ReqPrependPath <$> option_list (pr_upstream_path_prefix pr)) ++
  ((λ full, ReqRewritePath (FullReplace full)) <$> option_list (pr_path_rewrite_full pr)) ++
  (ReqRewriteHostname <$> option_list (pr_hostname_rewrite pr)) ++
  ((λ h, ReqSetHeader (hdr_name h) (hdr_value h)) <$> pr_request_headers pr) ++
  ((λ h, ReqAddHeader (hdr_name h) (hdr_value h)) <$> pr_request_headers_add pr) ++
  (ReqRemoveHeader <$> pr_request_headers_remove pr).

Definition header_response_filters (set add : list HeaderRule) (remove : list string) : list ResponseFilter :=
  ((λ h, RespSetHeader (hdr_name h) (hdr_value h)) <$> set) ++
  ((λ h, RespAddHeader (hdr_name h) (hdr_value h)) <$> add) ++
  (RespRemoveHeader <$> remove).

Definition path_response_filters (pr : PathRoute) : list ResponseFilter :=
  header_response_filters (pr_response_headers pr) (pr_response_headers_add pr) (pr_response_headers_remove pr) ++
  (RespCors <$> option_list (pr_cors pr)).

Definition plain_backend (backend : string) (weight : Z) : WeightedBackend :=
  {| wb_backend := backend; wb_weight := weight; wb_request_filters := []; wb_protocol := BackendHttp; wb_tls := None |}.

Definition redirect_action (rr : RedirectRule) : RedirectAction :=
  {| rd_status_code := rr_status_code rr; rd_scheme := rr_scheme rr; rd_hostname := rr_hostname rr;
     rd_port := rr_port rr;
     rd_path := (λ p, match rr_path_prefix rr with
                      | Some prefix => PrefixReplace prefix p
                      | None => FullReplace p
                      end) <$> rr_path rr |}.

(** Durations in nanoseconds. *)
Definition path_timeout (pr : PathRoute) : option Z :=
  match pr_timeout_ms pr with
  | Some ms => Some (ms * 1000000)
  | None => (λ s, s * 1000000000) <$> pr_timeout_secs pr
  end.

Definition path_action (route : RouteConfig) (pr : PathRoute) : Action :=
  if pr_gateway_api_unprogrammed pr then
    ActFixedResponse {| fr_status := 500; fr_headers := []; fr_body := None |}
  else match pr_redirect pr with
  | Some rr => ActRedirect (redirect_action rr)
  | None =>
    if pr_deny pr then ActFixedResponse {| fr_status := 403; fr_headers := []; fr_body := None |}
    else
      ActRoute
        {| ra_backends := match pr_weighted_backends pr with
                          | [] => [plain_backend (pr_backend pr) 1]
                          | wbs => (λ wb, plain_backend (wbc_backend wb) (wbc_weight wb)) <$> wbs
                          end;
           ra_timeout := path_timeout pr;
           ra_request_filters := path_request_filters pr;
           ra_response_filters := path_response_filters pr;
           ra_mirror_backends := pr_mirror_backends pr; ra_mirror_fractions := [];
           ra_cache := rc_cache route; ra_body_rewrites := rc_body_rewrites route;
           ra_auth := (λ url, {| auth_url := url; auth_capture_headers := pr_auth_capture_headers pr |})
                        <$> pr_auth_request pr;
           ra_websocket := pr_websocket pr || rc_websocket route;
           ra_disable_https_redirect := rc_disable_secure_redirection route;
           ra_client_cert_id := None |}
  end.

Definition path_rule (route : RouteConfig) (order : nat) (pr : PathRoute) : Rule :=
  {| rule_matches := [path_request_match pr]; rule_action := path_action route pr; rule_order := Z.of_nat order |}.

(** The catch-all rule of a host without path routes. *)
Definition host_default_rule (route : RouteConfig) : Rule :=
  {| rule_matches := [RequestMatch_default];
     rule_action := ActRoute
       {| ra_backends := [plain_backend (rc_backend route) 1];
          ra_timeout := (λ s, s * 1000000000) <$> rc_timeout_secs route;
          ra_request_filters := [];
          ra_response_filters := header_response_filters (rc_response_headers route)
            (rc_response_headers_add route) (rc_response_headers_remove route);
          ra_mirror_backends := []; ra_mirror_fractions := [];
          ra_cache := rc_cache route; ra_body_rewrites := rc_body_rewrites route; ra_auth := None;
          ra_websocket := rc_websocket route;
          ra_disable_https_redirect := rc_disable_secure_redirection route; ra_client_cert_id := None |};
     rule_order := 0 |}.

Definition root_match : RequestMatch :=
  {| rm_path := Some (PathPrefix "/"); rm_method := None; rm_headers := []; rm_query_params := [] |}.

Definition host_static_rule (route : RouteConfig) (root : string) : Rule :=
  {| rule_matches := [root_match];
     rule_action := ActStaticFiles
       {| sf_root := root; sf_fallback := rc_fallback route; sf_rewrites := rc_rewrites route;
          sf_extra_headers := (λ h, (hdr_name h, hdr_value h)) <$> rc_response_headers route |};
     rule_order := Z.of_nat (length (rc_paths route)) |}.

Definition config_rules (route : RouteConfig) : list Rule :=
  (match rc_paths route with [] => [host_default_rule route] | paths => imap (path_rule route) paths end) ++
  (host_static_rule route <$> option_list (rc_static_root route)).

Definition config_host (route : RouteConfig) : HostRoute :=
  {| hr_hostname := parse_host_prefix (rc_host_prefix route);
     hr_listener_ids := option_list (rc_listener_hostname route);
     hr_listener_hostname := parse_config_listener <$> rc_listener_hostname route;
     hr_listener_port := None; hr_gateway_api := rc_gateway_api route;
     hr_disable_secure_redirection := rc_disable_secure_redirection route;
     hr_rules := config_rules route |}.

Definition from_route_configs (routes : list RouteConfig) : RouteTable :=
  {| rt_listeners := []; rt_hosts := config_host <$> routes; rt_acme_routes := ∅; rt_l4_routes := []; rt_tls_certs := [] |}.

(** ** Lemmas *)

(** The plan of a rule on a host. *)
Definition plan_of (h : HostRoute) (r : Rule) (p : CompiledPlan) : Prop :=
  ∃ m, m ∈ rule_matches r ∧
    compile_plan r (compute_precedence r) m (hr_gateway_api h) (hr_disable_secure_redirection h)
      (hr_listener_hostname h) = Ok p.

Lemma plan_of_fields h r p :
  plan_of h r p → precedence p = compute_precedence r ∧ plan_rule_order p = rule_order r ∧
    plan_match p ∈ rule_matches r ∧ plan_gateway_api p = hr_gateway_api h.
Proof.
  intros (m & Hm & Hc). unfold compile_plan in Hc. destruct (rule_action r); injection Hc as <-; done.
Qed.

Lemma forallb_fmap_true {A B} (f : B → bool) (g : A → B) (l : list A) :
  forallb f (g <$> l) = true ↔ ∀ x, x ∈ l → f (g x) = true.
Proof. rewrite forallb_forall. setoid_rewrite <-list_elem_of_In. setoid_rewrite list_elem_of_fmap. naive_solver. Qed.

Section config_lemmas.
Context `{!RegexEngine}.

(** A path route applies to a request, read off its fields: the path is the one of the route,
    or begins with the segments of its prefix; the method is one of those listed, if any are;
    and every header and query parameter match holds. *)
Definition header_applies (req : Request) (h : HeaderMatchConfig) : Prop :=
  match hmc_value h with
  | HmcExact v => req_header req (hmc_name h) = Some v
  | HmcRegex r => ∃ w, req_header req (hmc_name h) = Some w ∧ regex_is_match r w = true
  | HmcPresent => is_Some (req_header req (hmc_name h))
  | HmcAbsent => req_header req (hmc_name h) = None
  end.

Definition query_applies (req : Request) (q : QueryParamMatchConfig) : Prop :=
  ∃ w, (req_query req ≫= λ s, extract_query_param s (qmc_name q)) = Some w ∧
    match qmc_value q with QmcExact v => w = v | QmcRegex r => regex_is_match r w = true end.

Record pr_applies (req : Request) (pr : PathRoute) : Prop := {
  ap_path : if pr_path_match_exact pr then req_path req = pr_prefix pr
            else split_path (pr_prefix pr) `prefix_of` split_path (req_path req);
  ap_method : pr_methods pr = [] ∨ req_method req ∈ pr_methods pr;
  ap_headers : ∀ h, h ∈ pr_header_matches pr → header_applies req h;
  ap_query : ∀ q, q ∈ pr_query_param_matches pr → query_applies req q;
}.

(** The request spells methods and exact header values in the case of the route. *)
Definition spelled (req : Request) (pr : PathRoute) : Prop :=
  (∀ m, m ∈ pr_methods pr → eq_ignore_ascii_case m (req_method req) = true → m = req_method req) ∧
  (∀ h v w, h ∈ pr_header_matches pr → hmc_value h = HmcExact v → req_header req (hmc_name h) = Some w →
     eq_ignore_ascii_case w v = true → w = v).

(** What a plan does with a request of a path route, of its four kinds; a route that is of two
    of them at once is left open. *)
Record serves (pr : PathRoute) (pl : CompiledPlan) : Prop := {
  sv_forwards : pr_deny pr = false → pr_redirect pr = None → pr_gateway_api_unprogrammed pr = false →
    ∃ ua, upstream pl = Some ua ∧
      ((λ b, (wb_backend b, wb_weight b)) <$> ua_backends ua) =
        (if decide (pr_weighted_backends pr = []) then [(pr_backend pr, 1)]
         else (λ b, (wbc_backend b, wbc_weight b)) <$> pr_weighted_backends pr);
  sv_denies : pr_deny pr = true → pr_redirect pr = None → pr_gateway_api_unprogrammed pr = false →
    request_stages pl = [StageTerminal (TermFixedResponse 403 [] None)] ∧ upstream pl = None;
  sv_redirects rr : pr_redirect pr = Some rr → pr_deny pr = false → pr_gateway_api_unprogrammed pr = false →
    upstream pl = None ∧
    ∃ rd, request_stages pl = [StageTerminal (TermRedirect rd)] ∧ rd_status_code rd = rr_status_code rr ∧
      rd_scheme rd = rr_scheme rr ∧ rd_hostname rd = rr_hostname rr ∧ rd_port rd = rr_port rr;
  sv_unprogrammed : pr_gateway_api_unprogrammed pr = true → pr_deny pr = false → pr_redirect pr = None →
    request_stages pl = [StageTerminal (TermFixedResponse 500 [] None)] ∧ upstream pl = None;
}.

(** The numbers the precedence packs fit. *)
Definition pr_fits (pr : PathRoute) : Prop :=
  str_len (pr_prefix pr) < 2^16 ∧ Z.of_nat (length (pr_header_matches pr)) < 2^16 ∧
  Z.of_nat (length (pr_query_param_matches pr)) < 2^16.

Definition method_rank (pr : PathRoute) : Z := match pr_methods pr with [] => 0 | _ => 1 end.

(** Path route [i] comes before path route [j]: an exact path first, then the longer path, a
    method, more headers, more query parameters, the earlier one. *)
Definition pr_preferred (i : nat) (pr : PathRoute) (j : nat) (pr' : PathRoute) : Prop :=
  match pr_path_match_exact pr, pr_path_match_exact pr' with
  | true, false => True
  | false, true => False
  | _, _ =>
      let lt f := f pr' < f pr in
      let eq f := f pr' = f pr in
      let len pr := str_len (pr_prefix pr) in
      let hdrs pr := Z.of_nat (length (pr_header_matches pr)) in
      let qrys pr := Z.of_nat (length (pr_query_param_matches pr)) in
      lt len ∨ eq len ∧ (lt method_rank ∨ eq method_rank ∧ (lt hdrs ∨ eq hdrs ∧
        (lt qrys ∨ eq qrys ∧ (i ≤ j)%nat)))
  end.

Lemma path_rule_fields rc i pr :
  prec_path_len (path_rule rc i pr) = str_len (pr_prefix pr) ∧ prec_method (path_rule rc i pr) = method_rank pr ∧
  prec_headers (path_rule rc i pr) = Z.of_nat (length (pr_header_matches pr)) ∧
  prec_query (path_rule rc i pr) = Z.of_nat (length (pr_query_param_matches pr)).
Proof.
  unfold prec_path_len, prec_method, prec_headers, prec_query, method_rank, max_or_zero.
  cbn [path_rule rule_matches omap list_omap fmap list_fmap foldr path_request_match rm_path rm_method rm_headers rm_query_params].
  rewrite !length_fmap. split_and!; try lia.
  - destruct (pr_path_match_exact pr); cbn [path_match_str]; unfold str_len; lia.
  - by destruct (pr_methods pr).
Qed.

Lemma path_rule_precedence rc i pr :
  pr_fits pr → compute_precedence (path_rule rc i pr) =
    str_len (pr_prefix pr) * 2^48 + method_rank pr * 2^32 +
    Z.of_nat (length (pr_header_matches pr)) * 2^16 + Z.of_nat (length (pr_query_param_matches pr)).
Proof.
  intros Hf. destruct (path_rule_fields rc i pr) as (Hp & Hm & Hh & Hq).
  rewrite compute_precedence_value; [by rewrite Hp, Hm, Hh, Hq|].
  unfold prec_fits. by rewrite Hp, Hh, Hq.
Qed.

Lemma header_applies_iff req pr h :
  spelled req pr → h ∈ pr_header_matches pr → header_ok req (header_match_of h) = true ↔ header_applies req h.
Proof.
  intros [_ Hsp] Hh. unfold header_ok, header_applies, header_match_of. cbn [hm_name hm_value].
  specialize (Hsp h). destruct (hmc_value h) as [v|r| |], (req_header req (hmc_name h)) as [w|] eqn:Hw; try naive_solver.
  split; [intros He; f_equal; by eapply Hsp|]. intros [= ->]. apply eq_ignore_ascii_case_refl.
Qed.

Lemma query_applies_iff req q : query_ok req (query_match_of q) = true ↔ query_applies req q.
Proof.
  unfold query_ok, query_applies, query_match_of. cbn [qm_name qm_value].
  destruct (qmc_value q), (_ ≫= _) as [w|]; rewrite ?bool_decide_eq_true; naive_solver.
Qed.

(** The conditions of the plan of a path route, in terms of the route. *)
Lemma pr_applies_match req pr rc i p :
  plan_of (config_host rc) (path_rule rc i pr) (plan p) → spelled req pr → (length (pr_methods pr) ≤ 1)%nat →
  full_match req p = true ↔ pr_applies req pr.
Proof.
  intros (_ & _ & Hm%list_elem_of_singleton & _)%plan_of_fields Hsp Hlen.
  unfold full_match, plan_path, plan_matches. rewrite Hm. cbn [path_request_match rm_path rm_method rm_headers rm_query_params].
  rewrite !andb_true_iff, !forallb_fmap_true. setoid_rewrite query_applies_iff.
  assert (match head (pr_methods pr) with Some e => eq_ignore_ascii_case e (req_method req) | None => true end = true ↔
    pr_methods pr = [] ∨ req_method req ∈ pr_methods pr) as ->.
  { destruct (pr_methods pr) as [|m [|m' ms]] eqn:Hms; cbn [head length] in *; [naive_solver| |lia].
    rewrite list_elem_of_singleton. destruct Hsp as [Hsp _]. rewrite Hms in Hsp. split.
    - intros He. right. symmetry. apply Hsp; [left|done].
    - intros [?| ->]; [done|]. apply eq_ignore_ascii_case_refl. }
  assert (path_holds (Some (if pr_path_match_exact pr then PathExact (pr_prefix pr) else PathPrefix (pr_prefix pr))) (req_path req) = true ↔
    if pr_path_match_exact pr then req_path req = pr_prefix pr else split_path (pr_prefix pr) `prefix_of` split_path (req_path req)) as ->.
  { destruct (pr_path_match_exact pr); cbn [path_holds]; by rewrite bool_decide_eq_true. }
  split.
  - intros (Hp & (Hmm & Hh) & Hq). split; [done..| |done]. intros h Hin. apply (header_applies_iff req pr); [done..|]. by apply Hh.
  - intros [Hp Hmm Hh Hq]. split_and!; [done..| |done]. intros h Hin. apply (header_applies_iff req pr); [done..|]. by apply Hh.
Qed.

Lemma spelled_case_exact req pr rc i p :
  plan_of (config_host rc) (path_rule rc i pr) (plan p) → spelled req pr → case_exact req p = true.
Proof.
  intros (_ & _ & Hm%list_elem_of_singleton & _)%plan_of_fields [Hsm Hsh].
  unfold case_exact. rewrite Hm. cbn [path_request_match rm_method rm_headers]. apply andb_true_iff. split.
  - destruct (pr_methods pr) as [|m ms]; [done|]. cbn [head]. apply implb_true_iff. intros He.
    apply bool_decide_eq_true. apply Hsm; [left|done].
  - apply forallb_fmap_true. intros h Hh. cbn [header_match_of hm_name hm_value].
    destruct (hmc_value h) as [v|r| |] eqn:Hv; try done. destruct (req_header req (hmc_name h)) as [w|] eqn:Hw; [|done].
    apply implb_true_iff. intros He. apply bool_decide_eq_true. by eapply Hsh.
Qed.

Lemma path_rule_serves rc i pr pl : plan_of (config_host rc) (path_rule rc i pr) pl → serves pr pl.
Proof.
  intros (m & _ & Hc). unfold compile_plan in Hc. cbn [path_rule rule_action] in Hc. unfold path_action in Hc.
  destruct (pr_gateway_api_unprogrammed pr) eqn:Hu, (pr_redirect pr) as [rr|] eqn:Hr, (pr_deny pr) eqn:Hd;
    injection Hc as <-; split; intros *; rewrite ?Hu, ?Hr, ?Hd; try done.
  - intros [= <-] _ _. split; [done|]. eexists. split; [reflexivity|]. done.
  - intros _ _ _. eexists. split; [reflexivity|]. cbn [ua_backends].
    destruct (pr_weighted_backends pr) as [|w ws]; [done|]. rewrite decide_False by done.
    cbn. f_equal. induction ws as [|w' ws IH]; [done|]. cbn. by f_equal.
Qed.

Lemma elem_of_config_rules rc r :
  r ∈ config_rules rc ↔
  (∃ i pr, rc_paths rc !! i = Some pr ∧ r = path_rule rc i pr) ∨
  (rc_paths rc = [] ∧ r = host_default_rule rc) ∨
  (∃ root, rc_static_root rc = Some root ∧ r = host_static_rule rc root).
Proof.
  unfold config_rules. rewrite elem_of_app, list_elem_of_fmap.
  assert ((∃ y, r = host_static_rule rc y ∧ y ∈ option_list (rc_static_root rc)) ↔
          (∃ root, rc_static_root rc = Some root ∧ r = host_static_rule rc root)) as ->.
  { destruct (rc_static_root rc); set_solver. }
  destruct (rc_paths rc) as [|pr prs]; [set_solver|].
  rewrite elem_of_lookup_imap. naive_solver.
Qed.

Lemma priority_preferred rc i pr j pr' p q :
  pr_fits pr → pr_fits pr' →
  plan_of (config_host rc) (path_rule rc i pr) (plan p) → plan_of (config_host rc) (path_rule rc j pr') (plan q) →
  priority_le p q = true → pr_preferred i pr j pr'.
Proof.
  intros Hf Hf' (Hpp & Hpo & Hpm%list_elem_of_singleton & _)%plan_of_fields
    (Hqp & Hqo & Hqm%list_elem_of_singleton & _)%plan_of_fields.
  unfold priority_le, pr_preferred, is_exact_path, plan_path. rewrite Hpm, Hqm.
  cbn [path_request_match rm_path].
  assert (plan_le p q = true → str_len (pr_prefix pr') < str_len (pr_prefix pr) ∨ str_len (pr_prefix pr') = str_len (pr_prefix pr) ∧
    (method_rank pr' < method_rank pr ∨ method_rank pr' = method_rank pr ∧
     (Z.of_nat (length (pr_header_matches pr')) < Z.of_nat (length (pr_header_matches pr)) ∨
      Z.of_nat (length (pr_header_matches pr')) = Z.of_nat (length (pr_header_matches pr)) ∧
      (Z.of_nat (length (pr_query_param_matches pr')) < Z.of_nat (length (pr_query_param_matches pr)) ∨
       Z.of_nat (length (pr_query_param_matches pr')) = Z.of_nat (length (pr_query_param_matches pr)) ∧ (i ≤ j)%nat)))).
  2:{ destruct (pr_path_match_exact pr), (pr_path_match_exact pr'); done. }
  unfold plan_le, plan_key_le. rewrite Hpp, Hqp, Hpo, Hqo, !path_rule_precedence by done.
  cbn [path_rule rule_order]. rewrite orb_true_iff, andb_true_iff, Z.ltb_lt, Z.eqb_eq, Z.leb_le.
  destruct Hf as (? & ? & ?), Hf' as (? & ? & ?).
  assert (0 ≤ method_rank pr ≤ 1 ∧ 0 ≤ method_rank pr' ≤ 1) as [? ?]
    by (unfold method_rank; destruct (pr_methods pr), (pr_methods pr'); lia).
  assert (0 ≤ str_len (pr_prefix pr) ∧ 0 ≤ str_len (pr_prefix pr')) as [? ?] by (unfold str_len; lia).
  change (2^16) with 65536 in *. change (2^48) with 281474976710656. change (2^32) with 4294967296. lia.
Qed.

Lemma static_holds req rc root p : plan_of (config_host rc) (host_static_rule rc root) (plan p) → full_match req p = true.
Proof.
  intros (_ & _ & Hm%list_elem_of_singleton & _)%plan_of_fields.
  unfold full_match, plan_path, plan_matches. rewrite Hm. cbn [root_match rm_path rm_method rm_headers rm_query_params forallb].
  rewrite !andb_true_r. apply bool_decide_eq_true_2. apply prefix_nil.
Qed.

(** Only path routes depend on the case of the request. *)
Lemma config_case_exact `{!HashOrder} req rc q :
  (∀ pr, pr ∈ rc_paths rc → spelled req pr) → q ∈ host_plans (config_host rc) → case_exact req q = true.
Proof.
  intros Hsp (r & m & Hr & Hm & Hc)%elem_of_host_plans.
  assert (plan_of (config_host rc) r (plan q)) as Hof by (by exists m).
  apply elem_of_config_rules in Hr as [(i & pr & Hi & ->)|[[_ ->]|(root & _ & ->)]].
  - eapply spelled_case_exact; [exact Hof|]. apply Hsp. by eapply list_elem_of_lookup_2.
  - apply plan_of_fields in Hof as (_ & _ & Hpm%list_elem_of_singleton & _). unfold case_exact. by rewrite Hpm.
  - apply plan_of_fields in Hof as (_ & _ & Hpm%list_elem_of_singleton & _). unfold case_exact. by rewrite Hpm.
Qed.

(** The catch-all rule yields to the static rule. *)
Lemma default_yields rc root p q :
  plan_of (config_host rc) (host_default_rule rc) (plan p) →
  plan_of (config_host rc) (host_static_rule rc root) (plan q) → priority_le p q = true → False.
Proof.
  intros (Hpp & _ & Hpm%list_elem_of_singleton & _)%plan_of_fields (Hqp & _ & Hqm%list_elem_of_singleton & _)%plan_of_fields.
  unfold priority_le, is_exact_path, plan_path, plan_le, plan_key_le. rewrite Hpm, Hqm, Hpp, Hqp.
  change (compute_precedence (host_static_rule rc root)) with (2^48).
  change (compute_precedence (host_default_rule rc)) with 0. done.
Qed.
End config_lemmas.

Section forwarding.
Context {H : Type} `{!HeaderOps H, !RegexEngine, FS : !FileSystem, A : !AuthClient H}.
Context `{!KeyHash, !FxHash, !IpHash, !BytesHash, !Libm}.

Lemma detection_routes px now (s : Session H) o px' :
  detection px now s = Some (o, px') → px_routes px' = px_routes px.
Proof.
  assert (∀ (l : layer (H := H)) k px o px', (∀ o q, l = Some (o, q) → px_routes q = px_routes px) →
    (∀ q o q', k q = Some (o, q') → px_routes q' = px_routes q) →
    then_layer l k = Some (o, px') → px_routes px' = px_routes px) as Hthen.
  { intros [[[b|] q]|] k px1 o1 px1' Hl Hk; simpl; [| |done].
    - intros [= _ <-]. by eapply Hl.
    - intros Hq. rewrite (Hk _ _ _ Hq). by eapply Hl. }
  unfold detection. destruct (match extract_client_ip px s with Some _ => _ | None => _ end); [by intros [= _ <-]|].
  apply Hthen.
  { intros o1 q. unfold ddos_layer. repeat case_match; intros; by simplify_eq. }
  intros px1 o1 q1. apply Hthen.
  { intros o2 q. unfold scanner_layer. repeat case_match; intros; by simplify_eq. }
  intros px2 o2 q2. apply Hthen.
  { intros o3 q. unfold rate_limit_layer. repeat case_match; intros; by simplify_eq. }
  intros px3 o3 q3. unfold bandwidth_layer. repeat case_match; intros; by simplify_eq.
Qed.

Lemma run_stages_terminal px (s : Session H) ctx stages t ctx' :
  run_stages px s ctx stages = Ok (None, ctx') → StageTerminal t ∉ stages.
Proof.
  revert ctx. induction stages as [|st stages IH]; intros ctx; cbn [run_stages]; [set_solver|].
  intros ([out1 ctx1] & Hst & Hrest)%result_bind_ok. destruct out1 as [r|]; [done|].
  intros [<-|Hin]%elem_of_cons; [|by eapply IH].
  by apply result_bind_ok in Hst as (r1 & _ & Heq).
Qed.

(** A request goes on to the upstream only with the plan of the lookup, and past no terminal
    stage. *)
Lemma forwarded_plan px now ctx (s : Session H) b ctx' px' p :
  ctx_plan ctx = None → request_filter px now ctx s = Some (Ok (Forward b, ctx'), px') → ctx_plan ctx' = Some p →
  (∃ host port, lookup_plan px s host port = Some p) ∧ ∀ t, StageTerminal t ∉ request_stages p.
Proof.
  intros Hctx Hf Hp. revert Hf. unfold request_filter.
  destruct (downstream_context px s) as [scheme port].
  destruct (misdirected px scheme port s) as [[] px1] eqn:Hm.
  { intros [= Hr _]. by apply result_bind_ok in Hr as (r1 & _ & Heq). }
  apply misdirected_px in Hm as [sni ->]. destruct (is_plain_http s).
  - intros [= Hr _]. revert Hr. unfold plain_filter. cbv zeta. destruct (starts_with _ _).
    { destruct (_ !! _); [intros [= _ <-]; simpl in Hp; congruence|]. by intros (r1 & _ & Heq)%result_bind_ok. }
    change (lookup_plan (px_update _ _ _ _ _) s) with (lookup_plan px s).
    destruct (lookup_plan px s _ _) as [p'|] eqn:Hl.
    2:{ destruct (has_gateway_api_routes _); by intros (r1 & _ & Heq)%result_bind_ok. }
    destruct (_ || _); [|by intros (r1 & _ & Heq)%result_bind_ok].
    destruct (plain_preflight s p'); [by intros (r1 & _ & Heq)%result_bind_ok|].
    destruct (find_map terminal_of (request_stages p')) as [t|] eqn:Ht; [by intros (r1 & _ & Heq)%result_bind_ok|].
    intros [= _ <-]. simpl in Hp. injection Hp as ->. split; [eauto|]. intros t Hin.
    by apply (find_map_None _ _ Ht) in Hin.
  - destruct (detection _ now s) as [[[bl|] px2]|] eqn:Hd; [| |done].
    { intros [= Hr _]. by apply result_bind_ok in Hr as (r1 & _ & Heq). }
    apply detection_routes in Hd. cbn [px_update px_routes] in Hd.
    intros [= Hr _]. revert Hr. unfold routed_filter. cbv zeta.
    assert (lookup_plan px2 s = lookup_plan px s) as -> by (unfold lookup_plan; by rewrite Hd).
    destruct (lookup_plan px s _ _) as [p'|] eqn:Hl.
    + intros ([[r1|] c] & Hr & Heq)%result_bind_ok; simplify_eq.
      assert (p' = p) as -> by (apply run_stages_plan in Hr; simpl in Hr; congruence).
      split; [eauto|]. intros t. by eapply run_stages_terminal.
    + destruct (has_gateway_api_listener _ _ _); [intros [= _ <-]; simpl in Hp; congruence|].
      by intros (r1 & _ & Heq)%result_bind_ok.
Qed.
End forwarding.

(** ** Properties *)


(** C17. A path route that denies forwards nothing: when a request goes on to the upstream with a
    plan of the configured routes, and the plan is that of a path route, this path route
    neither denies nor redirects and is programmed, over plain HTTP and over TLS. Another path
    route that the request is matched to instead may still forward a path that this one denies. *)
Theorem denied_never_forwarded {H} `{!HeaderOps H, !RegexEngine, !FileSystem, !AuthClient H, !KeyHash, !FxHash,
    !IpHash, !BytesHash, !Libm, !HashOrder} (rcs : list RouteConfig) px now ctx (s : Session H) b ctx' px' p :
  compile (from_route_configs rcs) = Ok (px_routes px) → ctx_plan ctx = None →
  request_filter px now ctx s = Some (Ok (Forward b, ctx'), px') → ctx_plan ctx' = Some p →
  ∃ rc r, rc ∈ rcs ∧ r ∈ config_rules rc ∧ plan_of (config_host rc) r p ∧
    ∀ i pr, r = path_rule rc i pr →
      pr_deny pr = false ∧ pr_redirect pr = None ∧ pr_gateway_api_unprogrammed pr = false.
Proof.
  intros Ht Hctx Hf Hp. destruct (forwarded_plan _ _ _ _ _ _ _ _ Hctx Hf Hp) as [(host & port & Hl) Hterm].
  apply fmap_Some in Hl as (q & Hl & ->).
  destruct (lookup_route_sound_aux _ _ _ _ Ht Hl) as (h & [[Hh _] _] & Hq & _).
  apply list_elem_of_fmap in Hh as (rc & -> & Hrc). apply elem_of_host_plans in Hq as (r & m & Hr & Hm & Hc).
  exists rc, r. split; [done|]. split; [done|]. split; [by exists m|]. intros i pr ->.
  unfold compile_plan in Hc. cbn [path_rule rule_action] in Hc. unfold path_action in Hc.
  destruct (pr_gateway_api_unprogrammed pr); [|destruct (pr_redirect pr); [|destruct (pr_deny pr)]]; [..|done].
  all: exfalso; eapply Hterm; injection Hc as <-; cbn [request_stages]; left.
Qed.

(** A static root hides the backend of its host: documented to be tried before forwarding to
    the upstream, it replaces it. When the hosts of the configuration have static roots and
    no path routes, a request for which no file is found is never sent to the configured
    backend but answered with 404 (500 if the host is of the Gateway API). *)
Theorem static_root_hides_backend {H} `{!HeaderOps H, !RegexEngine, !PeerOps, !HashOrder} (rcs : list RouteConfig)
    (t : CompiledRouteTable) (req : Request) (p : PlanRef) certs counter rolls ctx (s : Session H) :
  (∀ rc, rc ∈ rcs → rc_paths rc = [] ∧ is_Some (rc_static_root rc)) →
  compile (from_route_configs rcs) = Ok t → lookup_route t req = Some p →
  ctx_acme_backend ctx = None → ctx_plan ctx = Some (plan p) →
  upstream_peer certs counter rolls ctx s =
    (RefusePeer (status_only (if plan_gateway_api (plan p) then 500 else 404)), [], ctx, counter).
Proof.
  intros Hrcs Ht Hl Hacme Hplan.
  assert (∃ rc root, plan_of (config_host rc) (host_static_rule rc root) (plan p)) as (rc & root & m & _ & Hc).
  { pose proof (lookup_route_best _ _ req Ht) as Hb. rewrite Hl in Hb.
    destruct Hb as (h & ((Hh & _) & _) & Hp & _ & Hbest).
    { intros h (rc & -> & Hrc)%list_elem_of_fmap. destruct (Hrcs rc Hrc) as [Hnil [root Hroot]].
      apply forallb_forall. intros q Hq%list_elem_of_In. eapply config_case_exact; [|done].
      rewrite Hnil. by intros pr ?%elem_of_nil. }
    destruct Hh as [(rc & -> & Hrc)%list_elem_of_fmap _]. destruct (Hrcs rc Hrc) as [Hnil [root Hroot]].
    exists rc, root. apply elem_of_host_plans in Hp as (r & m & Hr & Hm & Hc).
    apply elem_of_config_rules in Hr as [(i & pr & Hi & ->)|[[_ ->]|(root' & Hroot' & ->)]].
    - by rewrite Hnil in Hi.
    - exfalso. destruct (host_plans_complete (config_host rc) (host_static_rule rc root) root_match)
        as (q & Hq & Hcq); [apply elem_of_config_rules; eauto|by left|].
      assert (plan_of (config_host rc) (host_static_rule rc root) (plan q)) as Hofq by (exists root_match; split; [left|done]).
      eapply default_yields; [by exists m|exact Hofq|]. apply Hbest; [done|]. by eapply static_holds.
    - rewrite Hroot in Hroot'. injection Hroot' as <-. by exists m. }
  unfold upstream_peer. rewrite Hacme, Hplan. unfold compile_plan in Hc. simpl in Hc. by injection Hc as <-.
Qed.

(** *** Examples *)

Module ConfigExamples.
Import StaticExamples RequestExamples PeerExamples.

Definition path_route (prefix backend : string) (methods : list string) (deny : bool) : PathRoute :=
  {| pr_prefix := prefix; pr_backend := backend; pr_strip_prefix := false; pr_websocket := false;
     pr_auth_request := None; pr_auth_capture_headers := []; pr_upstream_path_prefix := None;
     pr_path_rewrite_full := None; pr_hostname_rewrite := None; pr_timeout_secs := None; pr_timeout_ms := None;
     pr_mirror_backends := []; pr_cors := None; pr_deny := deny; pr_gateway_api_unprogrammed := false;
     pr_methods := methods; pr_weighted_backends := []; pr_redirect := None; pr_header_matches := [];
     pr_query_param_matches := []; pr_rule_order := 0; pr_path_match_exact := false; pr_request_headers := [];
     pr_request_headers_add := []; pr_request_headers_remove := []; pr_response_headers := [];
     pr_response_headers_add := []; pr_response_headers_remove := [] |}.

Definition app (paths : list PathRoute) (root : option string) : RouteConfig :=
  {| rc_host_prefix := "app.example.com"; rc_backend := "http://10.0.0.9:80"; rc_websocket := false;
     rc_disable_secure_redirection := true; rc_paths := paths; rc_static_root := root; rc_fallback := None;
     rc_rewrites := []; rc_body_rewrites := []; rc_response_headers := []; rc_response_headers_add := [];
     rc_response_headers_remove := []; rc_request_headers := []; rc_request_headers_add := [];
     rc_request_headers_remove := []; rc_cache := None; rc_cors := None; rc_timeout_secs := None;
     rc_listener_hostname := None; rc_gateway_api := false |}.

Definition admin : list PathRoute :=
  [path_route "/" "http://10.0.0.1:80" [] false; path_route "/private/keys" "http://10.0.0.2:80" [] true].

Definition table (rcs : list RouteConfig) : CompiledRouteTable :=
  match compile (from_route_configs rcs) with
  | Ok t => t
  | Err _ => {| exact_hosts := ∅; wildcard_hosts := []; any_host := None; acme_routes := ∅ |}
  end.

Lemma table_compiles rcs : compile (from_route_configs rcs) = Ok (table rcs).
Proof. unfold table. destruct (compile_ok (from_route_configs rcs)) as [t Ht]. by rewrite Ht. Qed.

Definition request (path : string) : Lookup.Request :=
  {| req_host := "app.example.com"; req_port := 80; req_path := path; req_method := "GET";
     req_header := λ _, None; req_query := None |}.


Definition px (rcs : list RouteConfig) : SunbeamProxy :=
  {| px_routes := table rcs; px_l4_config := l4; px_acme_routes := ∅; px_ddos_detector := None;
     px_scanner_detector := None; px_bot_allowlist := None; px_rate_limiter := None; px_compiled_rewrites := [];
     px_pipeline_bypass_cidrs := []; px_trusted_proxy_cidrs := []; px_x_forwarded_for := true;
     px_cluster := None; px_ddos_observe_only := false; px_scanner_observe_only := false;
     px_sni_context := ∅; px_http_context := ∅ |}.

Lemma denied_never_forwarded_witness :
  match request_filter (px [app admin None]) 0 (new_ctx "id") (get true "app.example.com" "") with
  | Some (Ok (Forward _, c), _) =>
      match ctx_plan c with
      | Some p => ∃ rc r, rc ∈ [app admin None] ∧ r ∈ config_rules rc ∧ plan_of (config_host rc) r p ∧
          ∀ i pr, r = path_rule rc i pr →
            pr_deny pr = false ∧ pr_redirect pr = None ∧ pr_gateway_api_unprogrammed pr = false
      | None => False
      end
  | _ => False
  end.
Proof.
  destruct (request_filter _ _ _ _) as [[[[[b|r] c]|e] q]|] eqn:Hf; try (vm_compute in Hf; discriminate Hf).
  destruct (ctx_plan c) as [p|] eqn:Hp; [|vm_compute in Hf; injection Hf as <- <- <-; discriminate Hp].
  exact (denied_never_forwarded [app admin None] (px [app admin None]) 0 (new_ctx "id")
    (get true "app.example.com" "") b c q p (table_compiles _) eq_refl Hf Hp).
Defined.

Lemma static_root_hides_backend_witness :
  match lookup_route (table [app [] (Some "/srv")]) (request "/missing") with
  | Some p => upstream_peer None 0 [] (ctx_with_plan (new_ctx "id") (Some (plan p))) (get true "app.example.com" "") =
      (RefusePeer (status_only 404), [], ctx_with_plan (new_ctx "id") (Some (plan p)), 0)
  | None => False
  end.
Proof.
  destruct (lookup_route _ _) as [p|] eqn:Hl; [|vm_compute in Hl; discriminate Hl].
  rewrite (static_root_hides_backend [app [] (Some "/srv")] (table [app [] (Some "/srv")]) (request "/missing") p).
  - vm_compute in Hl. injection Hl as <-. reflexivity.
  - intros rc ->%list_elem_of_singleton. split; [reflexivity|by eexists].
  - apply table_compiles.
  - exact Hl.
  - reflexivity.
  - reflexivity.
Defined.

(** A path route that lists several methods serves only the first. *)
Lemma second_method_not_served :
  lookup_route (table [app [path_route "/" "http://10.0.0.1:80" ["POST"; "GET"] false] None]) (request "/") = None.
Proof. vm_compute. reflexivity. Qed.
End ConfigExamples.
