(* ===== verification/Tls.v ===== *)
(** * Certificates ([src/tls/registry.rs], [src/tls/source.rs]).

    The certificate store, the choice of a certificate by server name, the priority-ordered
    sources that feed the store, the checks a key pair passes, and the source that reads
    the certificates of Gateway listeners from the cluster. Host names are ASCII, as the TLS
    library hands them over, so that [to_lowercase] is the ASCII one. JSON values, X.509 and
    PEM parsing and the cluster API are classes. The root stores of [CertStore] are left
    out: no code of the repository fills them. *)

From S2P Require Import Prelude Ir Hostname Gateway Json.

(** ** [WildcardPattern] *)

Record WildcardPattern := { wp_suffix : string }.

#[export] Instance WildcardPattern_eq_dec : EqDecision WildcardPattern.
Proof. solve_decision. Defined.

(** [WildcardPattern::new]. *)
Definition WildcardPattern_new (pattern : string) : option WildcardPattern :=
  let pattern := str_lower pattern in
  if starts_with pattern "*." then (λ s, {| wp_suffix := s |}) <$> strip_prefix "*" pattern else None.

Definition wp_matches (p : WildcardPattern) (host : string) : bool :=
  match strip_suffix (wp_suffix p) (str_lower host) with
  | Some prefix => negb (str_is_empty prefix) && negb (str_contains prefix ".")
  | None => false
  end.

(** ** [CertStore] *)

(** [K] are certified keys, [C] client certificates. *)
Record CertStore (K C : Type) := {
  cs_default : option K;
  cs_exact : gmap string K;
  cs_wildcard : list (WildcardPattern * K);
  cs_client_certs : gmap string C;
}.
#[global] Arguments cs_default {K C} _.
#[global] Arguments cs_exact {K C} _.
#[global] Arguments cs_wildcard {K C} _.
#[global] Arguments cs_client_certs {K C} _.
#[global] Arguments Build_CertStore {K C} _ _ _ _.

Section store.
Context {K C : Type}.

Definition CertStore_default : CertStore K C :=
  {| cs_default := None; cs_exact := ∅; cs_wildcard := []; cs_client_certs := ∅ |}.

(** [CertStore::resolve]. *)
Definition resolve (store : CertStore K C) (host : string) : option K :=
  let normalized := str_lower host in
  match cs_exact store !! normalized with
  | Some cert => Some cert
  | None =>
      match find_map (λ pc, if wp_matches pc.1 normalized then Some pc.2 else None) (cs_wildcard store) with
      | Some cert => Some cert
      | None => cs_default store
      end
  end.

(** [ResolvesServerCert::resolve] of a ClientHello. *)
Definition resolve_hello (store : CertStore K C) (server_name : option string) : option K :=
  let host := match server_name with Some n => str_lower n | None => "" end in
  if str_is_empty host then cs_default store else resolve store host.

(** ** Sources *)

Definition override_wildcard (acc : list (WildcardPattern * K)) (pc : WildcardPattern * K) :
    list (WildcardPattern * K) :=
  filter (λ q, q.1 ≠ pc.1) acc ++ [pc].

Definition merge_cert_store (lower higher : CertStore K C) : CertStore K C :=
  {| cs_default := match cs_default higher with Some k => Some k | None => cs_default lower end;
     cs_exact := cs_exact higher ∪ cs_exact lower;
     cs_wildcard := foldl override_wildcard (cs_wildcard lower) (cs_wildcard higher);
     cs_client_certs := cs_client_certs higher ∪ cs_client_certs lower |}.

(** [-p] on an [i32]. *)
Definition neg_i32 (p : Z) : Z := if p =? - 2^31 then - 2^31 else - p.

(** [CompositeCertSource]: priorities and the snapshots of the sources, highest first. *)
Abbreviation sources := (list (Z * option (CertStore K C))).

Definition add_source (srcs : sources) (priority : Z) (source : option (CertStore K C)) : sources :=
  sort_by (λ a b, neg_i32 a.1 <=? neg_i32 b.1) (srcs ++ [(priority, source)]).

(** [CompositeCertSource::merge]. *)
Definition merge_sources_step (merged : CertStore K C) (src : Z * option (CertStore K C)) : CertStore K C :=
  match src.2 with Some store => merge_cert_store merged store | None => merged end.

Definition composite_merge (srcs : sources) : CertStore K C :=
  foldl merge_sources_step CertStore_default (reverse srcs).
End store.

(** ** Key pairs *)

(** What the code reads of a parsed certificate. *)
Record X509 := {
  x_not_before : Z;
  x_not_after : Z;
  x_server_auth : option bool;
  x_spki : string;
}.

Inductive CertError :=
| PemInvalid | NoCertificates | NoPrivateKey | X509Invalid | NotYetValid | Expired | NoServerAuth
| UnsupportedKey | NoPublicKey | KeyMismatch | SecretIncomplete.

(** [rustls_pemfile], [x509_parser] and the signing keys of [rustls]. *)
Class PkiOps (Der Key Signer : Type) := {
  pem_certs : string → option (list Der);
  pem_private_key : string → option (option Key);
  parse_x509 : Der → option X509;
  any_supported_type : Key → option Signer;
  public_key : Signer → option string;
}.

Section pki.
Context {Der Key Signer : Type} `{!PkiOps Der Key Signer}.

Definition parse_cert_chain (pem : string) : result (list Der) CertError :=
  match pem_certs pem with
  | None => Err PemInvalid
  | Some [] => Err NoCertificates
  | Some certs => Ok certs
  end.

Definition parse_private_key (pem : string) : result Key CertError :=
  match pem_private_key pem with
  | None => Err PemInvalid
  | Some None => Err NoPrivateKey
  | Some (Some key) => Ok key
  end.

(** [validate_cert_key_pair]; [now] in seconds. *)
Definition validate_cert_key_pair (now : Z) (certs : list Der) (key : Key) : result () CertError :=
  match certs with
  | [] => Err NoCertificates
  | first :: _ =>
      match parse_x509 first with
      | None => Err X509Invalid
      | Some cert =>
          if now <? x_not_before cert then Err NotYetValid
          else if x_not_after cert <? now then Err Expired
          else if bool_decide (x_server_auth cert = Some false) then Err NoServerAuth
          else match any_supported_type key with
               | None => Err UnsupportedKey
               | Some signer =>
                   match public_key signer with
                   | None => Err NoPublicKey
                   | Some spki => if decide (spki = x_spki cert) then Ok () else Err KeyMismatch
                   end
               end
      end
  end.

Definition certified_key_from_parts (now : Z) (certs : list Der) (key : Key) : result (list Der * Signer) CertError :=
  (let? _ := validate_cert_key_pair now certs key in
   match any_supported_type key with
   | Some signer => Ok (certs, signer)
   | None => Err UnsupportedKey
   end)%result.

Definition certified_key_from_pem (now : Z) (cert_pem key_pem : string) : result (list Der * Signer) CertError :=
  (let? certs := parse_cert_chain cert_pem in
   let? key := parse_private_key key_pem in
   certified_key_from_parts now certs key)%result.

Definition cert_key_from_pem (cert_pem key_pem : string) : result (list Der * Key) CertError :=
  (let? certs := parse_cert_chain cert_pem in
   let? key := parse_private_key key_pem in
   Ok (certs, key))%result.

Definition secret_pair (s : Secret) : result (string * string) CertError :=
  match s ≫= λ d, d !! "tls.crt", s ≫= λ d, d !! "tls.key" with
  | Some crt, Some key => Ok (crt, key)
  | _, _ => Err SecretIncomplete
  end.

Definition certified_key_from_secret (now : Z) (s : Secret) : result (list Der * Signer) CertError :=
  (let? (crt, key) := secret_pair s in certified_key_from_pem now crt key)%result.

Definition cert_key_from_secret (s : Secret) : result (list Der * Key) CertError :=
  (let? (crt, key) := secret_pair s in cert_key_from_pem crt key)%result.
End pki.

(** ** The source of Gateway listeners *)

(** The cluster: the listeners of a stored Gateway. *)
Class GatewayApi (J : Type) := gateway_listeners_of : string → string → option (list J).

Section gateway_source.
Context {Der Key Signer J : Type} `{!PkiOps Der Key Signer, !JsonOps J, !GatewayApi J, !SecretApi}.
Abbreviation K := (list Der * Signer)%type.
Abbreviation C := (list Der * Key)%type.

(** A reference of a Gateway to a Secret is in its own namespace, or granted. *)
Definition secret_allowed (grants : list ReferenceGrantState) (gw_ns ns name : string) : bool :=
  bool_decide (ns = gw_ns) ||
  is_permitted grants gw_ns "gateway.networking.k8s.io" "Gateway" ns "" "Secret" name.

Definition load_cert_ref (now : Z) (grants : list ReferenceGrantState) (gw_ns : string) (ref : J) : option K :=
  if bool_decide (default "" (field_str ref "kind") = "Secret") && bool_decide (default "" (field_str ref "group") = "")
  then
    name ← field_str ref "name";
    let ns := default gw_ns (field_str ref "namespace") in
    if secret_allowed grants gw_ns ns name then
      secret ← secret_get ns name;
      match certified_key_from_secret now secret with Ok k => Some k | Err _ => None end
    else None
  else None.

Definition store_listener_cert (hostname : option string) (store : CertStore K C) (k : K) : CertStore K C :=
  let with_default := {| cs_default := Some k; cs_exact := cs_exact store; cs_wildcard := cs_wildcard store;
                         cs_client_certs := cs_client_certs store |} in
  match hostname with
  | None => with_default
  | Some host =>
      if str_is_empty host then with_default
      else if starts_with host "*." then
        match WildcardPattern_new host with
        | Some pattern =>
            {| cs_default := cs_default store; cs_exact := cs_exact store;
               cs_wildcard := cs_wildcard store ++ [(pattern, k)]; cs_client_certs := cs_client_certs store |}
        | None => with_default
        end
      else
        {| cs_default := cs_default store; cs_exact := <[host := k]> (cs_exact store);
           cs_wildcard := cs_wildcard store; cs_client_certs := cs_client_certs store |}
  end.

(** The [certificateRefs] of a listener that terminates TLS. *)
Definition listener_cert_refs (l : J) : list J :=
  if bool_decide (default "HTTP" (field_str l "protocol") ∈ ["HTTPS"; "TLS"])
  then default [] (j_field l "tls" ≫= λ tls, j_field tls "certificateRefs" ≫= j_array)
  else [].

Definition load_listener (now : Z) (grants : list ReferenceGrantState) (gw_ns : string) (store : CertStore K C) (l : J) :
    CertStore K C :=
  let hostname := str_lower <$> field_str l "hostname" in
  foldl (λ st ref, match load_cert_ref now grants gw_ns ref with
                   | Some k => store_listener_cert hostname st k
                   | None => st
                   end) store (listener_cert_refs l).

(** [load_gateway_backend_client_cert]. *)
Definition load_client_cert (grants : list ReferenceGrantState) (gw_ns id : string) (store : CertStore K C) :
    CertStore K C :=
  match str_split "/" id with
  | [_; ns; name] =>
      if secret_allowed grants gw_ns ns name then
        match secret_get ns name ≫= λ s, match cert_key_from_secret s with Ok c => Some c | Err _ => None end with
        | Some c => {| cs_default := cs_default store; cs_exact := cs_exact store; cs_wildcard := cs_wildcard store;
                       cs_client_certs := <[id := c]> (cs_client_certs store) |}
        | None => store
        end
      else store
  | _ => store
  end.

Definition load_gateway (now : Z) (grants : list ReferenceGrantState) (store : CertStore K C) (gw : GatewayState) :
    CertStore K C :=
  match gateway_listeners_of (gs_namespace gw) (gs_name gw) with
  | None => store
  | Some ls =>
      let store := foldl (load_listener now grants (gs_namespace gw)) store ls in
      match gs_backend_client_cert_id gw with
      | Some id => load_client_cert grants (gs_namespace gw) id store
      | None => store
      end
  end.

(** [build_gateway_cert_store]. *)
Definition build_gateway_cert_store (now : Z) (view : ReconciledView) : CertStore K C :=
  foldl (load_gateway now (reference_grants view)) CertStore_default (gateways view).
End gateway_source.

(** ** Lemmas *)

(** *** Wildcards *)

(** Patterns as the constructor makes them. *)
Definition wp_wf (p : WildcardPattern) : Prop := ∃ r, wp_suffix p = String dot r.

Lemma WildcardPattern_new_wf s p : WildcardPattern_new s = Some p → wp_wf p.
Proof.
  unfold WildcardPattern_new. cbv zeta. destruct (starts_with _ _) eqn:Hs; [|done].
  intros (suf & Hp & ->)%fmap_Some. apply starts_with_spec in Hs as [r Hs]. rewrite Hs in Hp.
  apply strip_prefix_Some in Hp. exists r. cbn [wp_suffix].
  change ("*." +:+ r) with (String "*" (String dot r)) in Hp. change ("*" +:+ suf) with (String "*" suf) in Hp.
  by injection Hp.
Qed.

Lemma wp_matches_iff p host :
  wp_matches p host = true ↔ ∃ label, label ≠ "" ∧ ¬ str_elem dot label ∧ str_lower host = label +:+ wp_suffix p.
Proof.
  unfold wp_matches, str_is_empty. destruct (strip_suffix _ _) as [x|] eqn:Hx.
  - apply strip_suffix_Some in Hx. rewrite andb_true_iff, !negb_true_iff, bool_decide_eq_false.
    rewrite <-not_true_iff_false, str_contains_char. split; [naive_solver|].
    intros (label & ? & ? & Heq). rewrite Heq in Hx. apply str_app_inj_r in Hx as ->. done.
  - split; [done|]. intros (label & _ & _ & Heq). apply strip_suffix_Some in Heq. congruence.
Qed.

(** At most one pattern matches a host. *)
Lemma wp_unique p q host :
  wp_wf p → wp_wf q → wp_matches p host = true → wp_matches q host = true → p = q.
Proof.
  intros [r Hr] [r' Hr'] (l & _ & Hl & H1)%wp_matches_iff (l' & _ & Hl' & H2)%wp_matches_iff.
  rewrite H1, Hr, Hr' in H2. destruct p as [s], q as [s']; simpl in *. subst.
  apply (app_first_sep (eq dot)) in H2 as [_ [= ->]]; [done|..|done|done].
  - by intros ? <-.
  - by intros ? <-.
Qed.

(** *** Merging *)

Lemma option_union_match {A} (a b : option A) : a ∪ b = match a with Some x => Some x | None => b end.
Proof. by destruct a, b. Qed.

Section merging.
Context {K C : Type}.

Definition wildcard_cert (host : string) (pc : WildcardPattern * K) : option K :=
  if wp_matches pc.1 host then Some pc.2 else None.

Definition wildcards_wf (l : list (WildcardPattern * K)) : Prop := Forall (λ pc, wp_wf pc.1) l.

Lemma override_wf acc pc : wildcards_wf acc → wp_wf pc.1 → wildcards_wf (override_wildcard acc pc).
Proof.
  intros Ha Hp. apply Forall_app. split; [|by repeat constructor].
  apply Forall_forall. intros q [_ Hq]%list_elem_of_filter. by apply (proj1 (Forall_forall _ _) Ha).
Qed.

Lemma override_certs host acc pc :
  wildcards_wf acc → wp_wf pc.1 →
  omap (wildcard_cert host) (override_wildcard acc pc) =
    match wildcard_cert host pc with Some k => [k] | None => omap (wildcard_cert host) acc end.
Proof.
  intros Ha Hp. unfold override_wildcard. rewrite omap_app. cbn [omap list_omap].
  destruct (wildcard_cert host pc) as [k|] eqn:Hk.
  - unfold wildcard_cert in Hk. destruct (wp_matches pc.1 host) eqn:Hm; [|done]. injection Hk as <-.
    induction acc as [|q acc IH]; [done|]. apply Forall_cons in Ha as [Hq Ha]. rewrite filter_cons.
    case_decide as Hd; [|by apply IH]. cbn [omap list_omap]. unfold wildcard_cert at 1.
    destruct (wp_matches q.1 host) eqn:Hqm; [exfalso; apply Hd; by apply (wp_unique _ _ host)|by apply IH].
  - rewrite app_nil_r. unfold wildcard_cert in Hk. destruct (wp_matches pc.1 host) eqn:Hm; [done|].
    clear Ha. induction acc as [|q acc IH]; [done|]. rewrite filter_cons. case_decide as Hd.
    + cbn [omap list_omap]. by destruct (wildcard_cert host q); rewrite IH.
    + cbn [omap list_omap]. rewrite IH. assert (q.1 = pc.1) as Hqp by (destruct (decide (q.1 = pc.1)); [done|by destruct Hd]).
      unfold wildcard_cert at 2. by rewrite Hqp, Hm.
Qed.

Lemma merged_certs host acc hs :
  wildcards_wf acc → wildcards_wf hs →
  omap (wildcard_cert host) (foldl override_wildcard acc hs) =
    match last (omap (wildcard_cert host) hs) with Some k => [k] | None => omap (wildcard_cert host) acc end ∧
  wildcards_wf (foldl override_wildcard acc hs).
Proof.
  intros Ha. induction hs as [|pc hs IH] using rev_ind; [done|]. intros [Hhs [Hp _]%Forall_cons]%Forall_app.
  destruct (IH Hhs) as [Heq Hwf]. rewrite foldl_app, omap_app. cbn [foldl omap list_omap].
  split; [|by apply override_wf]. rewrite override_certs, Heq by done.
  destruct (wildcard_cert host pc) as [k|]; [by rewrite last_snoc|by rewrite app_nil_r].
Qed.

Lemma composite_cons src (srcs : list (Z * option (CertStore K C))) :
  composite_merge (src :: srcs) = merge_sources_step (composite_merge srcs) src.
Proof. unfold composite_merge. by rewrite reverse_cons, foldl_app. Qed.

(** The stores of the sources, and the first of them to have something. *)
Definition first_of {A} (f : CertStore K C → option A) (srcs : list (Z * option (CertStore K C))) : option A :=
  find_map f (omap snd srcs).

Definition sources_wf (srcs : list (Z * option (CertStore K C))) : Prop :=
  Forall (λ st, wildcards_wf (cs_wildcard st)) (omap snd srcs).

Lemma composite_fields srcs host :
  sources_wf srcs →
  cs_default (composite_merge srcs) = first_of cs_default srcs ∧
  cs_exact (composite_merge srcs) !! host = first_of (λ st, cs_exact st !! host) srcs ∧
  cs_client_certs (composite_merge srcs) !! host = first_of (λ st, cs_client_certs st !! host) srcs ∧
  find_map (wildcard_cert host) (cs_wildcard (composite_merge srcs)) =
    first_of (λ st, last (omap (wildcard_cert host) (cs_wildcard st))) srcs ∧
  wildcards_wf (cs_wildcard (composite_merge srcs)).
Proof.
  unfold sources_wf, first_of, find_map. induction srcs as [|[p o] srcs IH].
  { intros _. cbn. rewrite !lookup_empty. split_and!; try done. apply Forall_nil_2. }
  rewrite composite_cons. unfold merge_sources_step. cbn [snd omap list_omap].
  destruct o as [st|]; cbn [snd]; [|exact IH].
  intros [Hst Hsrcs]%Forall_cons. destruct (IH Hsrcs) as (Hd & He & Hc & Hw & Hwf). clear IH.
  cbn [merge_cert_store cs_default cs_exact cs_client_certs cs_wildcard omap list_omap].
  rewrite !lookup_union, !option_union_match.
  destruct (merged_certs host _ _ Hwf Hst) as [Heq Hwf']. rewrite Heq, Hd, He, Hc. split_and!; [..|done].
  - by destruct (cs_default st).
  - by destruct (cs_exact st !! host).
  - by destruct (cs_client_certs st !! host).
  - by destruct (last _).
Qed.

(** Adding sources keeps them in order of priority. *)
Lemma add_source_sorted srcs p st :
  StronglySorted (λ a b, (neg_i32 a.1 <=? neg_i32 b.1) = true) (add_source (C := C) (K := K) srcs p st).
Proof.
  apply sort_by_sorted.
  - intros x y. rewrite !Z.leb_le. lia.
  - intros x y z. rewrite !Z.leb_le. lia.
Qed.
End merging.

(** *** The certificates of a store *)

Section provenance.
Context {Der Key Signer J : Type} `{!PkiOps Der Key Signer, !JsonOps J, !GatewayApi J, !SecretApi}.
Abbreviation K := (list Der * Signer)%type.
Abbreviation C := (list Der * Key)%type.

(** Every certificate satisfies [P], every client certificate [Q]. *)
Definition store_all (P : K → Prop) (Q : C → Prop) (st : CertStore K C) : Prop :=
  (∀ k, cs_default st = Some k → P k) ∧ map_Forall (λ _ k, P k) (cs_exact st) ∧
  Forall (λ pc, P pc.2) (cs_wildcard st) ∧ map_Forall (λ _ c, Q c) (cs_client_certs st).

(** A reference to a Secret that a stored listener of a gateway of the view lists. *)
Definition listed_ref (view : ReconciledView) (gw : GatewayState) (ref : J) : Prop :=
  gw ∈ gateways view ∧ ∃ ls l tls refs,
    gateway_listeners_of (gs_namespace gw) (gs_name gw) = Some ls ∧ l ∈ ls ∧
    default "HTTP" (field_str l "protocol") ∈ ["HTTPS"; "TLS"] ∧
    j_field l "tls" = Some tls ∧ field_array tls "certificateRefs" = Some refs ∧ ref ∈ refs.

(** A certified key comes from a Secret that a gateway refers to and may use, and is valid at [now]. *)
Definition key_granted (now : Z) (view : ReconciledView) (k : K) : Prop :=
  ∃ gw ref name s, listed_ref view gw ref ∧ default "" (field_str ref "kind") = "Secret" ∧
    default "" (field_str ref "group") = "" ∧ field_str ref "name" = Some name ∧
    let ns := default (gs_namespace gw) (field_str ref "namespace") in
    secret_get ns name = Some s ∧ secret_allowed (reference_grants view) (gs_namespace gw) ns name = true ∧
    certified_key_from_secret now s = Ok k.

Definition client_cert_granted (view : ReconciledView) (c : C) : Prop :=
  ∃ gw ns name s, gw ∈ gateways view ∧ secret_get ns name = Some s ∧
    secret_allowed (reference_grants view) (gs_namespace gw) ns name = true ∧ cert_key_from_secret s = Ok c.

Lemma store_all_cert P Q host st k : store_all P Q st → P k → store_all P Q (store_listener_cert host st k).
Proof.
  intros (Hd & He & Hw & Hc) Hk. unfold store_listener_cert. cbv zeta.
  assert (store_all P Q {| cs_default := Some k; cs_exact := cs_exact st; cs_wildcard := cs_wildcard st;
                           cs_client_certs := cs_client_certs st |}) by (split_and!; [by intros ? [= <-]|done..]).
  destruct host as [h|]; [|done]. destruct (str_is_empty h); [done|]. destruct (starts_with h "*.").
  - destruct (WildcardPattern_new h); [|done]. split_and!; [done..| |done]. apply Forall_app. split; [done|by repeat constructor].
  - split_and!; [done| |done..]. by apply map_Forall_insert_2.
Qed.

Lemma load_cert_ref_granted now view gw ref k :
  listed_ref view gw ref → load_cert_ref now (reference_grants view) (gs_namespace gw) ref = Some k → key_granted now view k.
Proof.
  intros Hgw. unfold load_cert_ref. destruct (_ && _) eqn:Hk; [|done].
  apply andb_true_iff in Hk as [Hkind%bool_decide_eq_true Hgroup%bool_decide_eq_true].
  intros (name & Hn & Hk)%bind_Some. revert Hk. cbv zeta.
  destruct (secret_allowed _ _ _ _) eqn:Ha; [|done]. intros (s & Hs & Hk)%bind_Some.
  destruct (certified_key_from_secret now s) as [k'|] eqn:Hc; [|done]. injection Hk as <-.
  exists gw, ref, name, s. done.
Qed.

Lemma listener_cert_refs_listed view gw ls l ref :
  gw ∈ gateways view → gateway_listeners_of (gs_namespace gw) (gs_name gw) = Some ls → l ∈ ls →
  ref ∈ listener_cert_refs l → listed_ref view gw ref.
Proof.
  intros Hgw Hls Hl Hr. split; [done|]. revert Hr. unfold listener_cert_refs, field_array. case_bool_decide as Hp; [|by intros ?%elem_of_nil].
  destruct (j_field l "tls") as [tls|] eqn:Ht; cbn [mbind option_bind]; [|by intros ?%elem_of_nil].
  destruct (j_field tls "certificateRefs" ≫= j_array) as [refs|] eqn:Hr; [|by intros ?%elem_of_nil].
  intros Hin. by exists ls, l, tls, refs.
Qed.

Lemma load_listener_all now view gw ls l st :
  gw ∈ gateways view → gateway_listeners_of (gs_namespace gw) (gs_name gw) = Some ls → l ∈ ls →
  store_all (key_granted now view) (client_cert_granted view) st →
  store_all (key_granted now view) (client_cert_granted view)
    (load_listener now (reference_grants view) (gs_namespace gw) st l).
Proof.
  intros Hgw Hls Hl. pose proof (λ ref, listener_cert_refs_listed view gw ls l ref Hgw Hls Hl) as Hlist.
  unfold load_listener. cbv zeta. revert Hlist. generalize (listener_cert_refs l) as refs.
  intros refs Hlist. revert st Hlist. induction refs as [|ref refs IH]; intros st Hlist Hst; cbn [foldl]; [done|].
  apply IH; [intros r Hr; apply Hlist; by right|].
  destruct (load_cert_ref _ _ _ ref) as [k|] eqn:Hk; [|done]. apply store_all_cert; [done|].
  eapply load_cert_ref_granted; [|exact Hk]. apply Hlist. left.
Qed.

Lemma load_client_cert_all now view gw id st :
  gw ∈ gateways view → store_all (key_granted now view) (client_cert_granted view) st →
  store_all (key_granted now view) (client_cert_granted view)
    (load_client_cert (reference_grants view) (gs_namespace gw) id st).
Proof.
  intros Hgw (Hd & He & Hw & Hc). unfold load_client_cert.
  destruct (str_split "/" id) as [|a [|ns [|name []]]]; try by split_and!.
  destruct (secret_allowed _ _ _ _) eqn:Ha; [|by split_and!].
  destruct (secret_get ns name) as [s|] eqn:Hs; cbn [mbind option_bind]; [|by split_and!].
  destruct (cert_key_from_secret s) as [c|] eqn:Hck; [|by split_and!].
  split_and!; [done..|]. apply map_Forall_insert_2; [|done]. exists gw, ns, name, s. done.
Qed.

Lemma build_store_all now view :
  store_all (key_granted now view) (client_cert_granted view) (build_gateway_cert_store now view).
Proof.
  unfold build_gateway_cert_store.
  assert (∀ gws st, (∀ gw, gw ∈ gws → gw ∈ gateways view) → store_all (key_granted now view) (client_cert_granted view) st →
    store_all (key_granted now view) (client_cert_granted view) (foldl (load_gateway now (reference_grants view)) st gws)) as Hall.
  { induction gws as [|gw gws IH]; intros st Hin Hst; cbn [foldl]; [done|]. apply IH; [set_solver|].
    assert (gw ∈ gateways view) as Hgw by set_solver.
    unfold load_gateway. destruct (gateway_listeners_of _ _) as [ls|] eqn:Hgl; [|done].
    assert (store_all (key_granted now view) (client_cert_granted view)
      (foldl (load_listener now (reference_grants view) (gs_namespace gw)) st ls)) as Hls.
    { assert (∀ l, l ∈ ls → l ∈ ls) as Hsub by done. revert Hsub. generalize ls at 1 3 as ls'.
      clear IH Hin. intros ls'. revert st Hst. induction ls' as [|l ls' IH]; intros st Hst Hsub; cbn [foldl]; [done|].
      apply IH; [|intros l' Hl'; apply Hsub; by right]. eapply load_listener_all; [done|exact Hgl|apply Hsub; left|done]. }
    destruct (gs_backend_client_cert_id gw); [by apply load_client_cert_all|done]. }
  apply Hall; [done|]. split_and!; [done|apply map_Forall_empty|apply Forall_nil_2|apply map_Forall_empty].
Qed.

(** What a resolved certificate satisfies. *)
Lemma resolve_all P Q st host k : store_all P Q st → resolve st host = Some k → P k.
Proof.
  intros (Hd & He & Hw & _). unfold resolve. cbv zeta. destruct (cs_exact st !! _) eqn:Hx; [intros [= <-]; eauto|].
  destruct (find_map _ _) as [k'|] eqn:Hf; [|eauto]. intros [= <-].
  unfold find_map in Hf. apply head_Some_elem_of in Hf. apply list_elem_of_omap in Hf as (pc & Hpc & Hk).
  destruct (wp_matches _ _); [|done]. injection Hk as <-. by apply (proj1 (Forall_forall _ _) Hw).
Qed.

(** The key of a Secret: its certificates and the signer of its private key, checked. *)
Lemma certified_key_valid now s certs signer :
  certified_key_from_secret now s = Ok (certs, signer) →
  (∃ data crt pem key, s = Some data ∧ data !! "tls.crt" = Some crt ∧ data !! "tls.key" = Some pem ∧
     pem_certs crt = Some certs ∧ pem_private_key pem = Some (Some key) ∧ any_supported_type key = Some signer) ∧
  ∃ der rest cert, certs = der :: rest ∧ parse_x509 der = Some cert ∧
    x_not_before cert ≤ now ≤ x_not_after cert ∧ x_server_auth cert ≠ Some false ∧ public_key signer = Some (x_spki cert).
Proof.
  unfold certified_key_from_secret. intros ([crt pem] & Hpair & (cs & Hcs & (kk & Hkk & Hk)%result_bind_ok)%result_bind_ok)%result_bind_ok.
  apply result_bind_ok in Hk as ([] & Hv & Hk). revert Hv. unfold validate_cert_key_pair.
  destruct cs as [|der rest]; [done|]. destruct (parse_x509 der) as [cert|] eqn:Hx; [|done].
  destruct (Z.ltb_spec now (x_not_before cert)); [done|]. destruct (Z.ltb_spec (x_not_after cert) now); [done|].
  case_bool_decide; [done|]. destruct (any_supported_type kk) as [sg|] eqn:Hsg; [|done].
  destruct (public_key sg) as [spki|] eqn:Hp; [|done]. case_decide; [|done]. intros _. subst.
  injection Hk as <- <-. split; [|exists der, rest, cert; auto].
  unfold secret_pair in Hpair. destruct s as [data|]; [|done]. cbn in Hpair.
  destruct (data !! "tls.crt") as [c|] eqn:Hd1; [|done]. destruct (data !! "tls.key") as [k|] eqn:Hd2; [|done]. injection Hpair as -> ->.
  exists data, crt, pem, kk. unfold parse_cert_chain in Hcs. unfold parse_private_key in Hkk.
  destruct (pem_certs crt) as [[|d ds]|] eqn:Hd3; [done| |done]. injection Hcs as -> ->.
  destruct (pem_private_key pem) as [[k'|]|] eqn:Hd4; [|done..]. injection Hkk as ->. by split_and!.
Qed.
End provenance.

(** ** Properties *)

(** Certificates are chosen by priority: with sources added in any order, the certificate
    for a host is that of the highest-priority source with an entry for the exact name,
    else of the highest-priority source with a wildcard for it, else the default
    certificate of the highest priority. Wildcards of different sources never compete by
    their order, since at most one pattern matches a host. *)
Theorem merged_resolution {K C : Type} (adds : list (Z * option (CertStore K C))) (host : string) :
  Forall (λ a, - 2^31 < a.1 < 2^31) adds → sources_wf adds →
  ∃ srcs, srcs = foldl (λ s a, add_source s a.1 a.2) [] adds ∧
    srcs ≡ₚ adds ∧ StronglySorted (λ a b, b.1 ≤ a.1) srcs ∧
    resolve (composite_merge srcs) host =
      match first_of (λ st, cs_exact st !! str_lower host) srcs with
      | Some k => Some k
      | None =>
          match first_of (λ st, last (omap (wildcard_cert (str_lower host)) (cs_wildcard st))) srcs with
          | Some k => Some k
          | None => first_of cs_default srcs
          end
      end.
Proof.
  intros Hp Hwf. eexists. split; [reflexivity|]. set (srcs := foldl _ _ _).
  assert (srcs ≡ₚ adds) as Hperm.
  { unfold srcs. clear. change adds with ([] ++ adds) at 2. generalize (@nil (Z * option (CertStore K C))).
    induction adds as [|a adds IH]; intros acc; cbn [foldl]; [by rewrite app_nil_r|].
    rewrite IH. unfold add_source. rewrite sort_by_perm, <-app_assoc. by destruct a. }
  split; [done|]. split.
  - assert (StronglySorted (λ a b, (neg_i32 a.1 <=? neg_i32 b.1) = true) srcs) as Hs.
    { unfold srcs. destruct adds as [|a adds _] using rev_ind; [constructor|]. rewrite foldl_app. apply add_source_sorted. }
    rewrite <-Hperm in Hp. clearbody srcs. clear -Hs Hp. induction Hs as [|a l Hl IH Ha]; [constructor|].
    apply Forall_cons in Hp as [Hpa Hp]. constructor; [by apply IH|]. apply Forall_forall. intros b Hb.
    pose proof (proj1 (Forall_forall _ _) Ha b Hb) as Hle. pose proof (proj1 (Forall_forall _ _) Hp b Hb) as Hpb.
    unfold neg_i32 in Hle. simpl in *. destruct (Z.eqb_spec a.1 (- 2^31)), (Z.eqb_spec b.1 (- 2^31)); lia.
  - assert (sources_wf srcs) as Hw.
    { unfold sources_wf in *. by rewrite Hperm. }
    destruct (composite_fields srcs (str_lower host) Hw) as (Hd & He & _ & Hwc & _).
    unfold resolve. by rewrite He, <-Hwc, Hd.
Qed.


(** The wildcard of a certificate is narrower than the wildcard of a route: a host with two more
    labels than the suffix is routed to the listener of the wildcard, but its certificate is
    not used; the client gets the certificate of another name, or none. *)
Theorem deep_subdomain_without_certificate {K C : Type} (st : CertStore K C) (suffix a b : string) (p : WildcardPattern) (k : K) :
  let host := a +:+ "." +:+ b +:+ "." +:+ suffix in
  WildcardPattern_new ("*." +:+ suffix) = Some p → str_lower ("*." +:+ suffix) = "*." +:+ suffix →
  a ≠ "" → str_lower host = host → cs_wildcard st = [(p, k)] → cs_exact st !! host = None →
  ir_hostname_matches host (HostWildcard suffix) = true ∧ resolve st host = cs_default st.
Proof.
  intros host Hp Hl Ha Hlow Hw He. split.
  - cbn [ir_hostname_matches]. apply wildcard_test_spec. exists (a +:+ "." +:+ b). split; [by destruct a|].
    unfold host. by rewrite !str_app_assoc.
  - unfold resolve. cbv zeta. rewrite Hlow, He, Hw. unfold find_map. cbn [omap list_omap fst snd].
    destruct (wp_matches p host) eqn:Hm; [exfalso|done].
    apply wp_matches_iff in Hm as (label & _ & Hdot & Heq). apply Hdot. clear Hdot.
    rewrite Hlow in Heq. unfold WildcardPattern_new in Hp. rewrite Hl in Hp. simpl in Hp. injection Hp as <-.
    cbn [wp_suffix] in Heq. change ("." +:+ suffix) with (String dot suffix) in Heq.
    assert (label = a +:+ "." +:+ b) as ->.
    { apply (str_app_inj_r _ _ (String dot suffix)). rewrite <-Heq. unfold host. by rewrite !str_app_assoc. }
    apply str_elem_app. right. by left.
Qed.

(** *** Examples *)

Module TlsExamples.
(** Certificates are their names; a PEM file holds one, and its key has the same name. *)
#[export] Instance pki : PkiOps string string string :=
  {| pem_certs s := Some [s]; pem_private_key s := Some (Some s);
     parse_x509 d := Some {| x_not_before := 0; x_not_after := 100; x_server_auth := None; x_spki := d |};
     any_supported_type k := Some k; public_key s := Some s |}.

Import JsonExamples.

Definition https_listener : Json :=
  JObject [("protocol", JString "HTTPS"); ("hostname", JString "*.Example.com");
           ("tls", JObject [("certificateRefs", JArray [JObject [("kind", JString "Secret"); ("name", JString "web");
                                                               ("namespace", JString "certs")]])])].

#[export] Instance gateway_api : GatewayApi Json := λ ns name, if decide (name = "gw") then Some [https_listener] else None.
#[export] Instance secrets : SecretApi :=
  λ ns name, if decide (name = "web") then Some (Some {["tls.crt" := "web"; "tls.key" := "web"]}) else None.

Definition granted : ReconciledView :=
  {| gateways := [{| gs_namespace := "infra"; gs_name := "gw"; gs_generation := 1; gs_listeners := [];
                     gs_backend_client_cert_id := None |}];
     listener_sets := []; view_routes := []; http_route_states := []; grpc_route_states := []; tcp_route_states := [];
     udp_route_states := []; tls_route_states := [];
     reference_grants := [{| rg_namespace := "certs"; rg_name := "to-infra"; rg_generation := 1;
       rg_from := [{| gsub_group := "gateway.networking.k8s.io"; gsub_kind := "Gateway"; gsub_namespace := Some "infra";
                      gsub_name := None |}];
       rg_to := [{| gsub_group := ""; gsub_kind := "Secret"; gsub_namespace := None; gsub_name := None |}] |}];
     backend_tls_policies := []; namespace_labels := ∅; listener_allowed := ∅; listener_set_allowed := ∅ |}.


Definition star_example : WildcardPattern := {| wp_suffix := ".example.com" |}.
Definition disk : CertStore string string :=
  {| cs_default := Some "disk"; cs_exact := {["a.example.com" := "disk-a"]}; cs_wildcard := [(star_example, "disk-star")];
     cs_client_certs := ∅ |}.
Definition cluster_store : CertStore string string :=
  {| cs_default := None; cs_exact := ∅; cs_wildcard := [(star_example, "star")]; cs_client_certs := ∅ |}.

Lemma merged_resolution_witness :
  resolve (composite_merge (foldl (λ s a, add_source s a.1 a.2) [] [(0, Some disk); (100, Some cluster_store)])) "B.example.com" =
    Some "star".
Proof.
  destruct (merged_resolution [(0, Some disk); (100, Some cluster_store)] "B.example.com") as (srcs & -> & _ & _ & Hr).
  - repeat constructor; lia.
  - repeat constructor; by eexists.
  - rewrite Hr. vm_compute. reflexivity.
Defined.

Lemma deep_subdomain_without_certificate_witness :
  ir_hostname_matches "x.y.example.com" (HostWildcard "example.com") = true ∧ resolve disk "x.y.example.com" = Some "disk".
Proof.
  apply (deep_subdomain_without_certificate disk "example.com" "x" "y" star_example "disk-star"); reflexivity || discriminate.
Defined.
End TlsExamples.
