(* ===== verification/Caddyfile.v ===== *)
(** * The Caddyfile front end ([src/caddyfile/translate.rs], [parser.rs]).

    The translation of a parsed Caddyfile into the route table of the IR, and the loading of
    a file or a directory. The parser is a crate: its syntax tree is data here, with the
    fields the translation reads, and the parser itself a parameter. *)

From S2P Require Import Prelude Net Ir Hostname Compile Lookup L4 Filters Pipeline Session.

(** ** The syntax tree *)

(** [ad_https]: the scheme is [Https]. *)
Record Address := {
  ad_https : bool;
  ad_host : string;
  ad_port : option Z;
}.

Inductive Matcher :=
| MatcherAll
| MatcherPath (path : string)
| MatcherNamed (name : string).

(** Arguments by their [value()]. *)
Inductive Directive := Directive_ {
  dr_name : string;
  dr_matcher : option Matcher;
  dr_arguments : list string;
  dr_block : option (list Directive);
}.

Record SiteBlock := {
  sb_addresses : list Address;
  sb_directives : list Directive;
}.

(** [cf_global_options]: the directives of the global options block. *)
Record Caddyfile := {
  cf_global_options : option (list Directive);
  cf_sites : list SiteBlock;
}.

(** [TranslateError]: its message. *)
Abbreviation translated A := (result A string).

(** ** Matchers *)

Definition translate_path_matcher (path : string) : PathMatch :=
  if bool_decide (path = "*") then PathPrefix "/"
  else match strip_suffix "*" path with
       | Some prefix => PathPrefix prefix
       | None => PathExact path
       end.

Definition translate_matcher (matcher : option Matcher) : translated (option RequestMatch) :=
  match matcher with
  | None => Ok None
  | Some MatcherAll => Ok (Some RequestMatch_default)
  | Some (MatcherPath path) =>
      Ok (Some {| rm_path := Some (translate_path_matcher path); rm_method := None; rm_headers := [];
                  rm_query_params := [] |})
  | Some (MatcherNamed name) => Err ("named matcher @" +:+ name +:+ " is not supported in this patch")
  end.

Definition combine_matches (outer inner : RequestMatch) : RequestMatch :=
  {| rm_path := match rm_path inner with Some p => Some p | None => rm_path outer end;
     rm_method := match rm_method inner with Some m => Some m | None => rm_method outer end;
     rm_headers := rm_headers inner ++ rm_headers outer;
     rm_query_params := rm_query_params inner ++ rm_query_params outer |}.

(** ** Listeners *)

Definition translate_address (addr : Address) : HostnameMatch * option ListenerConfig :=
  let hostname :=
    if str_is_empty (ad_host addr) || bool_decide (ad_host addr = ":") then HostAny
    else match strip_prefix "*." (ad_host addr) with
         | Some rest => HostWildcard rest
         | None => HostExact (ad_host addr)
         end in
  (hostname,
   (λ port, let bind_addr := "0.0.0.0:" +:+ pretty port in
            {| lc_id := bind_addr; lc_bind_addr := bind_addr; lc_protocol := if ad_https addr then Https else Http;
               lc_tls := None; lc_redirect_http_to_https := false; lc_frontend_validation := None |}) <$> ad_port addr).

Definition translate_bind_directive (directive : Directive) : ListenerConfig :=
  let addr := default "0.0.0.0:80" (head (dr_arguments directive)) in
  let rest := trim_matches (String.length addr) "http://" addr in
  let bind_addr := trim_matches (String.length rest) "https://" rest in
  {| lc_id := bind_addr; lc_bind_addr := bind_addr; lc_protocol := if starts_with addr "https://" then Https else Http;
     lc_tls := None; lc_redirect_http_to_https := false; lc_frontend_validation := None |}.

(** ** Static files *)

Definition directive_values (directive : Directive) : list string :=
  match dr_arguments directive, dr_matcher directive with
  | [], Some (MatcherPath path) => [path]
  | args, _ => args
  end.

Definition directive_first_value (directive : Directive) : option string := head (directive_values directive).

(** [windows(2)] pairs each value with the next. *)
Definition translate_try_files (directive : Directive) : list RewriteRule :=
  let args := directive_values directive in
  omap (λ w, if starts_with w.2 "{" then None else Some {| rw_pattern := w.1; rw_target := w.2 |}) (zip args (tail args)).

(** The variables of [translate_static_file_block]. *)
Record FileBlock := {
  fb_root : string;
  fb_fallback : option string;
  fb_rewrites : list RewriteRule;
}.

(** One of the directives that belong to a file server; [None] for another one. *)
Definition file_directive (b : FileBlock) (d : Directive) : option FileBlock :=
  if bool_decide (dr_name d = "root") then
    Some {| fb_root := default "." (directive_first_value d); fb_fallback := fb_fallback b; fb_rewrites := fb_rewrites b |}
  else if bool_decide (dr_name d = "try_files") then
    Some {| fb_root := fb_root b;
            fb_fallback := match last (directive_values d) with
                           | Some v => if starts_with v "{" then fb_fallback b else Some v
                           | None => fb_fallback b
                           end;
            fb_rewrites := fb_rewrites b ++ translate_try_files d |}
  else None.

(** The scan backward, which another directive ends. *)
Fixpoint file_directives_before (b : FileBlock) (ds : list Directive) : FileBlock :=
  match ds with
  | [] => b
  | d :: ds => match file_directive b d with Some b' => file_directives_before b' ds | None => b end
  end.

(** The scan of the block, which skips another directive. *)
Definition file_directives_in (b : FileBlock) (block : list Directive) : FileBlock :=
  foldl (λ b d, default b (file_directive b d)) b block.

(** [directive] is [directives[start_idx]]. *)
Definition translate_static_file_block (directives : list Directive) (start_idx : nat) (directive : Directive) :
    translated (option Rule) :=
  if negb (bool_decide (dr_name directive = "file_server")) then Ok None else
  let b := file_directives_before {| fb_root := "."; fb_fallback := None; fb_rewrites := [] |}
             (rev (take start_idx directives)) in
  let b := file_directives_in b (default [] (dr_block directive)) in
  (let? matcher := translate_matcher (dr_matcher directive) in
   Ok (Some {| rule_matches := [default RequestMatch_default matcher];
               rule_action := ActStaticFiles {| sf_root := fb_root b; sf_fallback := fb_fallback b;
                                                sf_rewrites := fb_rewrites b; sf_extra_headers := [] |};
               rule_order := Z.of_nat start_idx |}))%result.

(** ** Routes *)

(** The [RouteAction] literals of the directives, which differ in four fields. *)
Definition route_action (backends : list WeightedBackend) (req : list RequestFilter) (resp : list ResponseFilter)
    (auth : option AuthConfig) : Action :=
  ActRoute {| ra_backends := backends; ra_timeout := None; ra_request_filters := req; ra_response_filters := resp;
              ra_mirror_backends := []; ra_mirror_fractions := []; ra_cache := None; ra_body_rewrites := [];
              ra_auth := auth; ra_websocket := false; ra_disable_https_redirect := false; ra_client_cert_id := None |}.

Definition directive_rule (matcher : option RequestMatch) (action : Action) (idx : nat) : Rule :=
  {| rule_matches := [default RequestMatch_default matcher]; rule_action := action; rule_order := Z.of_nat idx |}.

Definition translate_reverse_proxy (directive : Directive) (idx : nat) : translated Rule :=
  (let? matcher := translate_matcher (dr_matcher directive) in
   let backends := (λ addr, {| wb_backend := addr; wb_weight := 1; wb_request_filters := []; wb_protocol := BackendHttp;
                               wb_tls := None |}) <$> dr_arguments directive in
   Ok (directive_rule matcher (route_action backends [] [] None) idx))%result.

Definition translate_rewrite (directive : Directive) (idx : nat) : translated Rule :=
  (let? matcher := translate_matcher (dr_matcher directive) in
   let? rewrite := match matcher, dr_arguments directive with
                   | Some _, target :: _ => Ok (ReqRewritePath (FullReplace target))
                   | Some _, [] => Err ("rewrite directive at index " +:+ pretty idx +:+ " is missing a target")
                   | None, prefix :: replacement :: _ => Ok (ReqRewritePath (PrefixReplace prefix replacement))
                   | None, _ => Err ("rewrite directive at index " +:+ pretty idx +:+ " requires at least two arguments")
                   end in
   Ok (directive_rule matcher (route_action [] [rewrite] [] None) idx))%result.

Definition translate_header (directive : Directive) (idx : nat) : translated Rule :=
  (let? matcher := translate_matcher (dr_matcher directive) in
   let filters := match dr_arguments directive with
                  | name :: value :: _ => [if str_is_empty value then RespRemoveHeader name else RespSetHeader name value]
                  | _ => []
                  end in
   Ok (directive_rule matcher (route_action [] [] filters None) idx))%result.

Definition translate_request_header (directive : Directive) (idx : nat) : translated Rule :=
  (let? matcher := translate_matcher (dr_matcher directive) in
   let filters := match dr_arguments directive with
                  | name :: value :: _ => [if str_is_empty value then ReqRemoveHeader name else ReqSetHeader name value]
                  | _ => []
                  end in
   Ok (directive_rule matcher (route_action [] filters [] None) idx))%result.

Definition translate_forward_auth (directive : Directive) (idx : nat) : translated Rule :=
  (let? matcher := translate_matcher (dr_matcher directive) in
   match dr_arguments directive with
   | url :: _ => Ok (directive_rule matcher (route_action [] [] [] (Some {| auth_url := url; auth_capture_headers := [] |})) idx)
   | [] => Err ("forward_auth at index " +:+ pretty idx +:+ " requires a URL")
   end)%result.

(** A directive of a [handle] block; [None] for one that is skipped. *)
Definition translate_inner (block : list Directive) (inner_idx : nat) (inner : Directive) : translated (option Rule) :=
  let name := dr_name inner in
  let some (r : translated Rule) : translated (option Rule) := result_bind r (λ rule, Ok (Some rule)) in
  if bool_decide (name = "file_server") then
    (let? rule := translate_static_file_block block inner_idx inner in
     match rule with Some rule => Ok (Some rule) | None => Err "empty file_server block" end)%result
  else if bool_decide (name = "root") || bool_decide (name = "try_files") then Ok None
  else if bool_decide (name = "reverse_proxy") then some (translate_reverse_proxy inner inner_idx)
  else if bool_decide (name = "rewrite") then some (translate_rewrite inner inner_idx)
  else if bool_decide (name = "header") then some (translate_header inner inner_idx)
  else if bool_decide (name = "request_header") then some (translate_request_header inner inner_idx)
  else if bool_decide (name = "forward_auth") then some (translate_forward_auth inner inner_idx)
  else Ok None.

(** The filter [handle_path] puts first. *)
Definition strip_outer_prefix (outer : RequestMatch) (action : Action) : Action :=
  match rm_path outer, action with
  | Some (PathPrefix p | PathExact p | PathRegex p), ActRoute ra =>
      ActRoute {| ra_backends := ra_backends ra; ra_timeout := ra_timeout ra;
                  ra_request_filters := ReqStripPrefix p :: ra_request_filters ra;
                  ra_response_filters := ra_response_filters ra; ra_mirror_backends := ra_mirror_backends ra;
                  ra_mirror_fractions := ra_mirror_fractions ra; ra_cache := ra_cache ra;
                  ra_body_rewrites := ra_body_rewrites ra; ra_auth := ra_auth ra; ra_websocket := ra_websocket ra;
                  ra_disable_https_redirect := ra_disable_https_redirect ra; ra_client_cert_id := ra_client_cert_id ra |}
  | _, _ => action
  end.

(** The rule of an inner directive under the matcher of the group; [rule.matches[0]] is
    there, as each directive makes one match. *)
Definition grouped_rule (matcher : option RequestMatch) (strip_prefix : bool) (order : Z) (rule : Rule) : Rule :=
  match matcher with
  | None => {| rule_matches := rule_matches rule; rule_action := rule_action rule; rule_order := order |}
  | Some outer =>
      {| rule_matches := match rule_matches rule with
                         | m :: ms => combine_matches outer m :: ms
                         | [] => []
                         end;
         rule_action := if strip_prefix then strip_outer_prefix outer (rule_action rule) else rule_action rule;
         rule_order := order |}
  end.

Fixpoint translate_block (matcher : option RequestMatch) (strip_prefix : bool) (idx : nat) (block : list Directive)
    (inner_idx : nat) (ds : list Directive) : translated (list Rule) :=
  match ds with
  | [] => Ok []
  | inner :: ds =>
      (let? rule := translate_inner block inner_idx inner in
       let? rules := translate_block matcher strip_prefix idx block (S inner_idx) ds in
       Ok (option_list (grouped_rule matcher strip_prefix (Z.of_nat idx * 1000 + Z.of_nat inner_idx) <$> rule) ++ rules))%result
  end.

Definition translate_handle_group (directive : Directive) (idx : nat) : translated (list Rule) :=
  (let? matcher := translate_matcher (dr_matcher directive) in
   match dr_block directive with
   | Some block => translate_block matcher (bool_decide (dr_name directive = "handle_path")) idx block 0 block
   | None => Ok []
   end)%result.

(** ** Sites *)

(** One directive of a site: the listener it sets and the rules it adds. *)
Definition translate_directive (directives : list Directive) (idx : nat) (directive : Directive) :
    translated (option ListenerConfig * list Rule) :=
  let name := dr_name directive in
  let rule (r : translated Rule) : translated (option ListenerConfig * list Rule) :=
    result_bind r (λ rule, Ok (None, [rule])) in
  if bool_decide (name = "bind") then Ok (Some (translate_bind_directive directive), [])
  else if bool_decide (name = "file_server") then
    (let? rule := translate_static_file_block directives idx directive in Ok (None, option_list rule))%result
  else if bool_decide (name = "root") || bool_decide (name = "try_files") then Ok (None, [])
  else if bool_decide (name = "reverse_proxy") then rule (translate_reverse_proxy directive idx)
  else if bool_decide (name = "rewrite") then rule (translate_rewrite directive idx)
  else if bool_decide (name = "header") then rule (translate_header directive idx)
  else if bool_decide (name = "request_header") then rule (translate_request_header directive idx)
  else if bool_decide (name = "forward_auth") then rule (translate_forward_auth directive idx)
  else if bool_decide (name = "tls") then Ok (None, [])
  else if bool_decide (name = "handle") || bool_decide (name = "handle_path") || bool_decide (name = "route") then
    (let? rules := translate_handle_group directive idx in Ok (None, rules))%result
  else Ok (None, []).

Fixpoint translate_directives (directives : list Directive) (idx : nat) (ds : list Directive)
    (listener : option ListenerConfig) : translated (option ListenerConfig * list Rule) :=
  match ds with
  | [] => Ok (listener, [])
  | d :: ds =>
      (let? out := translate_directive directives idx d in
       let? rest := translate_directives directives (S idx) ds (match out.1 with Some l => Some l | None => listener end) in
       Ok (rest.1, out.2 ++ rest.2))%result
  end.

Definition translate_site (site : SiteBlock) : translated (HostRoute * option ListenerConfig) :=
  let addrs := translate_address <$> sb_addresses site in
  let listener := last (omap snd addrs) in
  let primary_hostname := default HostAny (head addrs.*1) in
  (let? out := translate_directives (sb_directives site) 0 (sb_directives site) listener in
   Ok ({| hr_hostname := primary_hostname; hr_listener_ids := []; hr_listener_hostname := None;
          hr_listener_port := None; hr_gateway_api := false; hr_disable_secure_redirection := false;
          hr_rules := out.2 |}, out.1))%result.

Definition translate_global (directives : list Directive) : list ListenerConfig :=
  omap (λ d, if bool_decide (dr_name d = "bind") then Some (translate_bind_directive d) else None) directives.

(** [translate]. *)
Definition translate (caddyfile : Caddyfile) : translated RouteTable :=
  let global := translate_global (default [] (cf_global_options caddyfile)) in
  (let? sites := result_mapM translate_site (cf_sites caddyfile) in
   Ok {| rt_listeners := global ++ omap snd sites; rt_hosts := sites.*1; rt_acme_routes := ∅; rt_l4_routes := [];
         rt_tls_certs := [] |})%result.

(** ** Loading ([parser.rs]) *)

Inductive ParseError :=
| ReadError (path : string)
| SyntaxError (path message : string).

Definition is_caddyfile (name : string) : bool := bool_decide (name = "Caddyfile") || ends_with name ".caddyfile".

Definition merge_tables (into other : RouteTable) : RouteTable :=
  {| rt_listeners := rt_listeners into ++ rt_listeners other; rt_hosts := rt_hosts into ++ rt_hosts other;
     rt_acme_routes := rt_acme_routes other ∪ rt_acme_routes into;
     rt_l4_routes := rt_l4_routes into ++ rt_l4_routes other; rt_tls_certs := rt_tls_certs into ++ rt_tls_certs other |}.

(** The file system and the parser of the crate: the entries of a directory by name, with
    [is_file]; the text of a file; the syntax tree of a text, or the message of its error. *)
Class CaddySource := {
  read_dir : string → option (list (string * bool));
  read_to_string : string → option string;
  caddyfile_parse : string → result Caddyfile string;
}.

Section parser.
Context `{!CaddySource}.

Definition parse_str (path raw : string) : result RouteTable ParseError :=
  match caddyfile_parse raw with
  | Err message => Err (SyntaxError path message)
  | Ok caddyfile => match translate caddyfile with Ok t => Ok t | Err message => Err (SyntaxError path message) end
  end.

Definition parse_file (path : string) : result RouteTable ParseError :=
  match read_to_string path with Some raw => parse_str path raw | None => Err (ReadError path) end.

Fixpoint parse_entries (dir : string) (table : RouteTable) (names : list string) : result RouteTable ParseError :=
  match names with
  | [] => Ok table
  | name :: names =>
      (let? file_table := parse_file (dir +:+ "/" +:+ name) in
       parse_entries dir (merge_tables table file_table) names)%result
  end.

(** The names of one directory are distinct, and paths with a common parent are ordered as
    their names are. *)
Definition parse_dir (dir : string) : result RouteTable ParseError :=
  match read_dir dir with
  | None => Err (ReadError dir)
  | Some entries =>
      let names := (filter (λ e, e.2 && is_caddyfile e.1 = true) entries).*1 in
      parse_entries dir RouteTable_default (sort_by String.leb names)
  end.
End parser.

(** ** What is rejected *)

Definition named_matcher (d : Directive) : bool :=
  match dr_matcher d with Some (MatcherNamed _) => true | _ => false end.

(** A directive that makes a rule, and cannot. *)
Definition rule_rejected (d : Directive) : bool :=
  let name := dr_name d in
  if bool_decide (name = "file_server") || bool_decide (name = "reverse_proxy") || bool_decide (name = "header")
     || bool_decide (name = "request_header") then named_matcher d
  else if bool_decide (name = "rewrite") then
    match dr_matcher d, dr_arguments d with
    | Some (MatcherNamed _), _ | Some _, [] | None, ([] | [_]) => true
    | _, _ => false
    end
  else if bool_decide (name = "forward_auth") then
    named_matcher d || match dr_arguments d with [] => true | _ => false end
  else false.

Definition directive_rejected (d : Directive) : bool :=
  let name := dr_name d in
  if bool_decide (name = "handle") || bool_decide (name = "handle_path") || bool_decide (name = "route") then named_matcher d || existsb rule_rejected (default [] (dr_block d)) else rule_rejected d.

Lemma is_ok_bind {A B E} (r : result A E) (k : A → result B E) :
  (∀ a, r = Ok a → is_ok (k a) = true) → is_ok (result_bind r k) = is_ok r.
Proof. destruct r as [a|e]; [intros Hk; by apply Hk|done]. Qed.

(** One case per name of the directive [d]. *)
Ltac case_names d :=
  repeat match goal with
  | |- context [bool_decide (dr_name d = ?n)] =>
      let E := fresh "Hn" in
      destruct (decide (dr_name d = n)) as [E|E];
      [repeat match goal with
       | |- context [bool_decide (dr_name d = ?n')] =>
           first [rewrite (bool_decide_eq_true_2 (dr_name d = n')) by exact E
                 |rewrite (bool_decide_eq_false_2 (dr_name d = n')) by (rewrite E; discriminate)]
       end
      |rewrite !(bool_decide_eq_false_2 (dr_name d = n)) by exact E];
      cbn [negb orb]
  end.

Lemma translate_matcher_ok d : is_ok (translate_matcher (dr_matcher d)) = negb (named_matcher d).
Proof. unfold named_matcher. by destruct (dr_matcher d) as [[]|]. Qed.

Lemma static_block_ok ds i d : dr_name d = "file_server" →
  is_ok (translate_static_file_block ds i d) = negb (named_matcher d).
Proof.
  intros Hn. unfold translate_static_file_block. rewrite bool_decide_true by done. cbn [negb].
  by rewrite is_ok_bind, translate_matcher_ok.
Qed.
Lemma reverse_proxy_ok i d : is_ok (translate_reverse_proxy d i) = negb (named_matcher d).
Proof. unfold translate_reverse_proxy. by rewrite is_ok_bind, translate_matcher_ok. Qed.
Lemma header_ok i d : is_ok (translate_header d i) = negb (named_matcher d).
Proof. unfold translate_header. by rewrite is_ok_bind, translate_matcher_ok. Qed.
Lemma request_header_ok i d : is_ok (translate_request_header d i) = negb (named_matcher d).
Proof. unfold translate_request_header. by rewrite is_ok_bind, translate_matcher_ok. Qed.
Lemma rewrite_ok i d : dr_name d = "rewrite" → is_ok (translate_rewrite d i) = negb (rule_rejected d).
Proof.
  intros Hn. unfold translate_rewrite, rule_rejected. cbn zeta. case_names d; try congruence.
  by destruct (dr_matcher d) as [[]|], (dr_arguments d) as [|? []].
Qed.
Lemma forward_auth_ok i d : dr_name d = "forward_auth" → is_ok (translate_forward_auth d i) = negb (rule_rejected d).
Proof.
  intros Hn. unfold translate_forward_auth, rule_rejected, named_matcher. cbn zeta. case_names d; try congruence.
  by destruct (dr_matcher d) as [[]|], (dr_arguments d).
Qed.

Lemma is_ok_fmap {A B E} (r : result A E) (f : A → B) : is_ok (result_bind r (λ a, Ok (f a))) = is_ok r.
Proof. by destruct r. Qed.

Lemma translate_inner_ok block i d : is_ok (translate_inner block i d) = negb (rule_rejected d).
Proof.
  destruct (decide (dr_name d = "rewrite")) as [Hn|Hn1].
  { unfold translate_inner. cbn zeta. case_names d; try congruence. by rewrite is_ok_fmap, rewrite_ok. }
  destruct (decide (dr_name d = "forward_auth")) as [Hn|Hn2].
  { unfold translate_inner. cbn zeta. case_names d; try congruence. by rewrite is_ok_fmap, forward_auth_ok. }
  unfold translate_inner, rule_rejected. cbn zeta. case_names d; try congruence; try done.
  - rewrite is_ok_bind; [by apply static_block_ok|]. intros [r|]; [done|]. unfold translate_static_file_block.
    rewrite bool_decide_true by done. cbn [negb]. intros (? & _ & ?)%result_bind_ok. discriminate.
  - by rewrite is_ok_fmap, reverse_proxy_ok.
  - by rewrite is_ok_fmap, header_ok.
  - by rewrite is_ok_fmap, request_header_ok.
Qed.

Lemma translate_block_ok m strip idx block : ∀ ds i,
  is_ok (translate_block m strip idx block i ds) = negb (existsb rule_rejected ds).
Proof.
  induction ds as [|d ds IH]; intros i; [done|]. cbn [translate_block existsb].
  pose proof (translate_inner_ok block i d) as Hi. destruct (translate_inner block i d) as [r|e]; cbn [result_bind is_ok] in *.
  - rewrite is_ok_fmap, IH. by destruct (rule_rejected d).
  - by destruct (rule_rejected d).
Qed.

Lemma translate_directive_ok ds i d : is_ok (translate_directive ds i d) = negb (directive_rejected d).
Proof.
  destruct (decide (dr_name d = "rewrite")) as [Hn|Hn1].
  { unfold translate_directive, directive_rejected. cbn zeta. case_names d; try congruence. by rewrite is_ok_fmap, rewrite_ok. }
  destruct (decide (dr_name d = "forward_auth")) as [Hn|Hn2].
  { unfold translate_directive, directive_rejected. cbn zeta. case_names d; try congruence.
    by rewrite is_ok_fmap, forward_auth_ok. }
  unfold translate_directive, directive_rejected, rule_rejected. cbn zeta. fold rule_rejected.
  case_names d; try congruence; try done.
  all: try by rewrite is_ok_fmap, ?reverse_proxy_ok, ?header_ok, ?request_header_ok, ?static_block_ok by done.
  all: rewrite is_ok_fmap; unfold translate_handle_group; pose proof (translate_matcher_ok d) as Hm;
    destruct (translate_matcher (dr_matcher d)), (named_matcher d); try done; cbn [result_bind orb];
    destruct (dr_block d) as [block|]; [apply translate_block_ok|done].
Qed.

Lemma translate_directives_ok ds : ∀ l i listener,
  is_ok (translate_directives ds i l listener) = forallb (λ d, negb (directive_rejected d)) l.
Proof.
  induction l as [|d l IH]; intros i listener; [done|]. cbn [translate_directives forallb].
  rewrite <- (translate_directive_ok ds i d). destruct (translate_directive ds i d); cbn [result_bind is_ok andb]; [|done].
  by rewrite is_ok_fmap, IH.
Qed.

Lemma is_ok_mapM {A B E} (f : A → result B E) l : is_ok (result_mapM f l) = forallb (λ x, is_ok (f x)) l.
Proof.
  induction l as [|x l IH]; [done|]. cbn [result_mapM forallb]. rewrite <- IH.
  destruct (f x); cbn [result_bind is_ok andb]; [|done]. by destruct (result_mapM f l).
Qed.

Lemma forallb_false {A} (f : A → bool) l : forallb f l = false → ∃ x, x ∈ l ∧ f x = false.
Proof.
  induction l as [|x l IH]; [done|]. cbn [forallb]. destruct (f x) eqn:Hx; [|exists x; split; [left|done]].
  intros (y & Hy & ?)%IH. exists y. split; [by right|done].
Qed.

Lemma translate_is_ok c :
  is_ok (translate c) = forallb (λ s, forallb (λ d, negb (directive_rejected d)) (sb_directives s)) (cf_sites c).
Proof.
  unfold translate. cbn zeta. rewrite is_ok_fmap, is_ok_mapM. induction (cf_sites c) as [|s sites IH]; [done|].
  cbn [forallb]. rewrite <- IH. f_equal. unfold translate_site. cbn zeta. by rewrite is_ok_fmap, translate_directives_ok.
Qed.

(** ** What the rules do *)

(** A rule with one match that serves files, or forwards with nothing but a stripped prefix;
    a rule with a filter of another directive or a subrequest has no backend. *)
Definition plain_rule (r : Rule) : Prop :=
  length (rule_matches r) = 1%nat ∧
  match rule_action r with
  | ActRoute ra =>
      ra_backends ra ≠ [] →
      ra_auth ra = None ∧ ra_response_filters ra = [] ∧
      (ra_request_filters ra = [] ∨ ∃ p, ra_request_filters ra = [ReqStripPrefix p])
  | ActStaticFiles _ => True
  | _ => False
  end.

(** Before a group adds its prefix. *)
Definition plainer_rule (r : Rule) : Prop :=
  plain_rule r ∧ match rule_action r with ActRoute ra => ra_backends ra ≠ [] → ra_request_filters ra = [] | _ => True end.

Lemma directive_rule_plain m bs req resp auth i :
  bs = [] ∨ req = [] ∧ resp = [] ∧ auth = None → plainer_rule (directive_rule m (route_action bs req resp auth) i).
Proof. intros [->|(-> & -> & ->)]; repeat split; cbn; auto; done. Qed.

Lemma static_block_plain ds i d r : translate_static_file_block ds i d = Ok (Some r) → plainer_rule r.
Proof.
  unfold translate_static_file_block. destruct (negb _); [discriminate|]. cbn zeta.
  intros (m & _ & [= <-])%result_bind_ok. by repeat split.
Qed.

Lemma reverse_proxy_plain d i r : translate_reverse_proxy d i = Ok r → plainer_rule r.
Proof. intros (m & _ & [= <-])%result_bind_ok. apply directive_rule_plain. by right. Qed.
Lemma rewrite_plain d i r : translate_rewrite d i = Ok r → plainer_rule r.
Proof. intros (m & _ & (f & _ & [= <-])%result_bind_ok)%result_bind_ok. apply directive_rule_plain. by left. Qed.
Lemma header_plain d i r : translate_header d i = Ok r → plainer_rule r.
Proof. intros (m & _ & [= <-])%result_bind_ok. apply directive_rule_plain. by left. Qed.
Lemma request_header_plain d i r : translate_request_header d i = Ok r → plainer_rule r.
Proof. intros (m & _ & [= <-])%result_bind_ok. apply directive_rule_plain. by left. Qed.
Lemma forward_auth_plain d i r : translate_forward_auth d i = Ok r → plainer_rule r.
Proof.
  intros (m & _ & Hr)%result_bind_ok. destruct (dr_arguments d); [discriminate|]. injection Hr as <-.
  apply directive_rule_plain. by left.
Qed.

Create HintDb caddy.
#[local] Hint Resolve static_block_plain reverse_proxy_plain rewrite_plain header_plain request_header_plain
  forward_auth_plain : caddy.

Lemma translate_inner_plain block i d r : translate_inner block i d = Ok (Some r) → plainer_rule r.
Proof.
  unfold translate_inner. cbn zeta. case_names d; try discriminate; intros (r' & Hr & Hs)%result_bind_ok;
    try (injection Hs as <-; eauto with caddy; fail).
  destruct r' as [r'|]; [|discriminate]. injection Hs as <-. eauto with caddy.
Qed.

Lemma grouped_rule_plain m strip order r : plainer_rule r → plain_rule (grouped_rule m strip order r).
Proof.
  intros [[Hl Ha] Hf]. destruct m as [outer|]; [|by split]. split; cbn.
  - by destruct (rule_matches r) as [|? []].
  - destruct strip; [|done]. unfold strip_outer_prefix.
    destruct (rm_path outer) as [[]|], (rule_action r) as [ra| | |]; try done; cbn;
      intros Hb; destruct (Ha Hb) as (? & ? & _); rewrite (Hf Hb); eauto.
Qed.

Lemma translate_block_plain m strip idx block : ∀ ds i rules,
  translate_block m strip idx block i ds = Ok rules → Forall plain_rule rules.
Proof.
  induction ds as [|d ds IH]; intros i rules; cbn [translate_block]; [by intros [= <-]|].
  intros (o & Ho & (rest & Hrest & [= <-])%result_bind_ok)%result_bind_ok. apply Forall_app. split; [|by eapply IH].
  destruct o as [r|]; [|constructor]. cbn. constructor; [|constructor].
  by eapply grouped_rule_plain, translate_inner_plain.
Qed.

Lemma translate_handle_group_plain d i rules : translate_handle_group d i = Ok rules → Forall plain_rule rules.
Proof.
  intros (m & _ & Ho)%result_bind_ok.
  destruct (dr_block d); [by eapply translate_block_plain|]. by injection Ho as <-.
Qed.

Lemma plainer_plain r : plainer_rule r → plain_rule r.
Proof. by intros []. Qed.

#[local] Hint Resolve plainer_plain translate_handle_group_plain : caddy.

Lemma translate_directive_plain ds i d out : translate_directive ds i d = Ok out → Forall plain_rule out.2.
Proof.
  unfold translate_directive. cbn zeta. case_names d; try (intros [= <-]; by constructor);
    intros (o & Ho & [= <-])%result_bind_ok; cbn [snd]; eauto with caddy.
  destruct o as [r|]; constructor; [|constructor]. eauto with caddy.
Qed.

Lemma translate_directives_plain ds : ∀ l i listener out,
  translate_directives ds i l listener = Ok out → Forall plain_rule out.2.
Proof.
  induction l as [|d l IH]; intros i listener out; cbn [translate_directives]; [by intros [= <-]|].
  intros (o & Ho & (rest & Hrest & [= <-])%result_bind_ok)%result_bind_ok. apply Forall_app.
  split; [by eapply translate_directive_plain|by eapply IH].
Qed.

Lemma result_mapM_Forall2 {A B E} (f : A → result B E) l : ∀ ys,
  result_mapM f l = Ok ys → Forall2 (λ x y, f x = Ok y) l ys.
Proof.
  induction l as [|x l IH]; intros ys; cbn [result_mapM]; [by intros [= <-]|].
  intros (y & Hy & (ys' & Hys & [= <-])%result_bind_ok)%result_bind_ok. constructor; [done|by apply IH].
Qed.

(** The host of a site: the hostname of its first address. *)
Definition site_hostname (s : SiteBlock) : HostnameMatch :=
  default HostAny (head ((translate_address <$> sb_addresses s).*1)).

Lemma translate_site_host s out : translate_site s = Ok out →
  hr_hostname out.1 = site_hostname s ∧ Forall plain_rule (hr_rules out.1).
Proof. intros (o & Ho & [= <-])%result_bind_ok. split; [done|]. by eapply translate_directives_plain. Qed.

Lemma translate_hosts c t : translate c = Ok t →
  hr_hostname <$> rt_hosts t = site_hostname <$> cf_sites c ∧
  (∀ h r, h ∈ rt_hosts t → r ∈ hr_rules h → plain_rule r) ∧ rt_l4_routes t = [].
Proof.
  intros (sites & Hs & [= <-])%result_bind_ok. cbn [rt_hosts rt_l4_routes]. split_and!; [| |done].
  - apply result_mapM_Forall2 in Hs. induction Hs as [|s o ss os Hs _ IH]; [done|]. cbn. f_equal; [|exact IH]. by apply translate_site_host.
  - intros h r (o & -> & Ho)%list_elem_of_fmap Hr. destruct (result_mapM_elem_inv _ _ _ _ Hs Ho) as (s & Hss & Ho').
    apply translate_site_host in Ho' as [_ Hp]. by eapply Forall_forall in Hp.
Qed.

(** ** Listeners *)

(** No listener of a Caddyfile has a certificate. *)
Definition caddy_listener (l : ListenerConfig) : Prop := lc_tls l = None ∧ (lc_protocol l = Http ∨ lc_protocol l = Https).

Lemma bind_listener d : caddy_listener (translate_bind_directive d).
Proof. split; [done|]. unfold translate_bind_directive. cbn. destruct (starts_with _ _); auto. Qed.

Lemma address_listener a l : (translate_address a).2 = Some l → caddy_listener l.
Proof. unfold translate_address. destruct (ad_port a); [|discriminate]. intros [= <-]. split; [done|]. cbn. destruct (ad_https a); auto. Qed.

Lemma translate_directives_listener ds : ∀ l i listener out,
  (∀ x, listener = Some x → caddy_listener x) → translate_directives ds i l listener = Ok out →
  ∀ x, out.1 = Some x → caddy_listener x.
Proof.
  induction l as [|d l IH]; intros i listener out Hl; cbn [translate_directives]; [by intros [= <-]|].
  intros (o & Ho & (rest & Hrest & [= <-])%result_bind_ok)%result_bind_ok. cbn [fst]. eapply IH; [|exact Hrest].
  destruct o as [[x|] rs]; [|exact Hl]. intros ? [= <-]. revert Ho. unfold translate_directive. cbn zeta.
  case_names d; try (intros (? & _ & ?)%result_bind_ok; discriminate); try discriminate.
  intros [= <- _]. apply bind_listener.
Qed.

Lemma translate_listeners c t l : translate c = Ok t → l ∈ rt_listeners t → caddy_listener l.
Proof.
  intros (sites & Hs & [= <-])%result_bind_ok [Hl|Hl]%elem_of_app.
  - apply list_elem_of_omap in Hl as (d & _ & Hd). case_bool_decide; [|discriminate]. injection Hd as <-. apply bind_listener.
  - apply list_elem_of_omap in Hl as (o & Ho & Hl). destruct (result_mapM_elem_inv _ _ _ _ Hs Ho) as (s & _ & Hs').
    apply result_bind_ok in Hs' as (out & Hout & [= <-]). cbn [snd] in Hl. eapply translate_directives_listener; [|exact Hout|exact Hl].
    intros x Hx. apply last_Some_elem_of, list_elem_of_omap in Hx as (a & Ha & Hx).
    apply list_elem_of_fmap in Ha as (addr & -> & _). by eapply address_listener.
Qed.

Lemma compile_l4_is_ok `{!HashOrder} t :
  is_ok (compile_l4 t) = forallb (λ l, negb (is_tls_protocol (lc_protocol l) && bool_decide (compile_tls <$> lc_tls l = None))) (rt_listeners t).
Proof.
  unfold compile_l4. rewrite is_ok_bind by done. rewrite is_ok_mapM.
  induction (rt_listeners t) as [|l ls IH]; [done|]. cbn [forallb]. rewrite IH. f_equal.
  unfold compile_listener. by destruct (_ && _).
Qed.

Lemma caddy_l4_is_ok `{!HashOrder} c t : translate c = Ok t →
  is_ok (compile_l4 t) = forallb (λ l, negb (bool_decide (lc_protocol l = Https))) (rt_listeners t).
Proof.
  intros Ht. rewrite compile_l4_is_ok. pose proof (λ l, translate_listeners c t l Ht) as Hl. revert Hl.
  induction (rt_listeners t) as [|l ls IH]; intros Hl; [done|]. cbn [forallb]. rewrite IH by (intros; apply Hl; by right).
  f_equal. destruct (Hl l ltac:(left)) as [-> Hp]. destruct Hp as [-> | ->]; reflexivity.
Qed.

(** ** Theorems *)

Section theorems.
Context `{!HashOrder, !RegexEngine}.

(** The translation of a Caddyfile. It fails exactly when a directive that makes a rule
    has a named matcher, or a rewrite or subrequest lacks its target. Otherwise there is one
    host per site, in order, under the hostname of the site's first address; every rule has
    one match; the table compiles, and its listeners compile exactly when none is HTTPS, as
    no listener of a Caddyfile has a certificate. *)
Theorem caddyfile_translation c :
  match translate c with
  | Err _ => ∃ s d, s ∈ cf_sites c ∧ d ∈ sb_directives s ∧ directive_rejected d = true
  | Ok t =>
      (∀ s d, s ∈ cf_sites c → d ∈ sb_directives s → directive_rejected d = false) ∧
      hr_hostname <$> rt_hosts t = site_hostname <$> cf_sites c ∧
      (∀ h r, h ∈ rt_hosts t → r ∈ hr_rules h → length (rule_matches r) = 1%nat) ∧
      (∃ ct, compile t = Ok ct) ∧
      is_ok (compile_l4 t) = forallb (λ l, negb (bool_decide (lc_protocol l = Https))) (rt_listeners t)
  end.
Proof.
  pose proof (translate_is_ok c) as Hok. destruct (translate c) as [t|e] eqn:Ht; cbn [is_ok] in Hok.
  - symmetry in Hok. rewrite forallb_forall in Hok. destruct (translate_hosts c t Ht) as (Hh & Hr & _).
    split_and!; [|exact Hh| |apply compile_ok|by eapply caddy_l4_is_ok].
    + intros s d Hs Hd. apply list_elem_of_In, Hok in Hs. rewrite forallb_forall in Hs.
      by apply list_elem_of_In, Hs, negb_true_iff in Hd.
    + intros h r Hh' Hr'. by apply (Hr h r).
  - symmetry in Hok. apply forallb_false in Hok as (s & Hs & Hok). apply forallb_false in Hok as (d & Hd & Hok).
    exists s, d. by apply negb_false_iff in Hok.
Qed.

(** No connection on a listener of a Caddyfile has a route, whatever the rules of the site:
    the translation makes no L4 route. *)
Theorem caddyfile_sockets_unrouted c t cfg ctx peeked :
  translate c = Ok t → compile_l4 t = Ok cfg → handle_tcp cfg ctx peeked = DispatchNoRoute.
Proof.
  intros Ht (cls & _ & [= <-])%result_bind_ok. destruct (translate_hosts c t Ht) as (_ & _ & ->).
  unfold handle_tcp, tcp_route. destruct ctx as [id la ra pr []], pr, peeked; reflexivity.
Qed.
End theorems.

(** ** Stripped prefixes *)

Lemma translate_slash_star base : translate_path_matcher (base +:+ "/*") = PathPrefix (base +:+ "/").
Proof.
  unfold translate_path_matcher. rewrite bool_decide_false.
  - assert (strip_suffix "*" (base +:+ "/*") = Some (base +:+ "/")) as ->; [|done].
    apply strip_suffix_Some. by rewrite str_app_assoc.
  - intros Hc. apply (f_equal String.length) in Hc. rewrite str_length_app in Hc. cbn in Hc. lia.
Qed.

Lemma grouped_rules m strip idx block rule : ∀ ds i rules,
  translate_block m strip idx block i ds = Ok rules → rule ∈ rules →
  ∃ order r, rule = grouped_rule m strip order r.
Proof.
  induction ds as [|d ds IH]; intros i rules; cbn [translate_block]; [intros [= <-] []%elem_of_nil|].
  intros (o & Ho & (rest & Hrest & [= <-])%result_bind_ok)%result_bind_ok [Hr|Hr]%elem_of_app; [|by eapply IH].
  destruct o as [r|]; cbn in Hr; [|by apply elem_of_nil in Hr]. apply list_elem_of_singleton in Hr as ->. by eexists _, r.
Qed.

(** A request under [handle_path base/*] is answered 400. The prefix that is stripped
    ends in the slash, what is left is not an absolute path, and the path rewriter refuses
    it; only the request for the prefix itself is forwarded. *)
Theorem handle_path_requests_rejected {H} `{!HeaderOps H, !UriOps} d idx rules rule ra base rest (r : UpstreamRequest H) :
  dr_name d = "handle_path" → dr_matcher d = Some (MatcherPath (base +:+ "/*")) →
  translate_handle_group d idx = Ok rules → rule ∈ rules → rule_action rule = ActRoute ra →
  ur_path r = base +:+ "/" +:+ rest → rest ≠ "" → starts_with rest "/" = false →
  apply_mutations r (compile_request_filter <$> ra_request_filters ra) =
    Err (HTTPStatus 400 "invalid path after prefix strip").
Proof.
  intros Hn Hm Hg Hr Ha Hpath Hne Hrel. unfold translate_handle_group in Hg. rewrite Hm in Hg.
  cbn [translate_matcher result_bind] in Hg. rewrite translate_slash_star, bool_decide_true in Hg by done.
  destruct (dr_block d) as [block|]; [|injection Hg as <-; by apply elem_of_nil in Hr].
  destruct (grouped_rules _ _ _ _ _ _ _ _ Hg Hr) as (order & r' & ->). cbn in Ha. unfold strip_outer_prefix in Ha.
  cbn [rm_path] in Ha. destruct (rule_action r') as [ra'| | |]; try discriminate. injection Ha as <-.
  cbn [ra_request_filters fmap list_fmap compile_request_filter apply_mutations apply_upstream_request_mutation mutated_path].
  rewrite Hpath. assert (strip_prefix (base +:+ "/") (base +:+ "/" +:+ rest) = Some rest) as ->.
  { apply strip_prefix_Some. by rewrite str_app_assoc. }
  unfold str_is_empty. rewrite bool_decide_false by done. unfold normalize_path. rewrite Hrel. reflexivity.
Qed.

(** ** Directories *)

Section loading.
Context `{!CaddySource}.

Lemma parse_entries_hosts dir : ∀ names table t,
  parse_entries dir table names = Ok t →
  ∃ ts, Forall2 (λ n ft, parse_file (dir +:+ "/" +:+ n) = Ok ft) names ts ∧
        rt_hosts t = rt_hosts table ++ mjoin (rt_hosts <$> ts) ∧
        rt_listeners t = rt_listeners table ++ mjoin (rt_listeners <$> ts).
Proof.
  induction names as [|n names IH]; intros table t; cbn [parse_entries].
  - intros [= <-]. exists []. by rewrite !app_nil_r.
  - intros (ft & Hft & (ts & Hts & -> & ->)%IH)%result_bind_ok. exists (ft :: ts). cbn. rewrite <- !app_assoc.
    split; [by constructor|done].
Qed.

(** A directory is loaded whole or not at all: the hosts and listeners of its Caddyfiles in
    the order of their names, and of nothing else; a file that cannot be read or translated
    is the error of the whole. No host of one file replaces one of another. *)
Theorem parse_dir_concatenates dir entries :
  read_dir dir = Some entries →
  let names := sort_by String.leb ((filter (λ e, e.2 && is_caddyfile e.1 = true) entries).*1) in
  match parse_dir dir with
  | Ok t => ∃ ts, Forall2 (λ n ft, parse_file (dir +:+ "/" +:+ n) = Ok ft) names ts ∧
                  rt_hosts t = mjoin (rt_hosts <$> ts) ∧ rt_listeners t = mjoin (rt_listeners <$> ts)
  | Err e => ∃ n, n ∈ names ∧ parse_file (dir +:+ "/" +:+ n) = Err e
  end.
Proof.
  intros Hd names. unfold parse_dir. rewrite Hd. fold names. clearbody names.
  assert (∀ table, match parse_entries dir table names with
                   | Ok _ => True
                   | Err e => ∃ n, n ∈ names ∧ parse_file (dir +:+ "/" +:+ n) = Err e
                   end) as Herr.
  { induction names as [|n names IH]; intros table; cbn [parse_entries]; [done|].
    destruct (parse_file (dir +:+ "/" +:+ n)) as [ft|e] eqn:Hn; cbn [result_bind]; [|exists n; split; [left|done]].
    specialize (IH (merge_tables table ft)). destruct (parse_entries _ _ _); [done|].
    destruct IH as (n' & ? & ?). exists n'. split; [by right|done]. }
  specialize (Herr RouteTable_default).
  destruct (parse_entries dir RouteTable_default names) as [t|e] eqn:Ht; [|exact Herr].
  destruct (parse_entries_hosts _ _ _ _ Ht) as (ts & Hts & -> & ->). by exists ts.
Qed.
End loading.

(** ** Examples *)

Module CaddyExamples.

#[local] Instance literal_engine : RegexEngine := λ pattern v, bool_decide (pattern = v).
#[local] Instance simple_uri : UriOps := {|
  parse_path_and_query s := Some (s, None); authority_valid _ := true; from_parts_ok _ _ := true;
|}.

Definition directive (name : string) (path : string) (args : list string) : Directive :=
  Directive_ name (Some (MatcherPath path)) args None.

Definition site (ds : list Directive) : Caddyfile :=
  {| cf_global_options := None;
     cf_sites := [{| sb_addresses := [{| ad_https := false; ad_host := "example.com"; ad_port := None |}];
                     sb_directives := ds |}] |}.

Definition request (path : string) : Request :=
  {| req_host := "example.com"; req_port := 80; req_path := path; req_method := "GET"; req_header := λ _, None;
     req_query := None |}.

(** The plan a request for [path] gets. *)
Definition planned (c : Caddyfile) (path : string) : option CompiledPlan :=
  match translate c with
  | Ok t => match compile t with Ok ct => plan <$> lookup_route ct (request path) | Err _ => None end
  | Err _ => None
  end.

Definition backends_of (p : CompiledPlan) : list string :=
  match upstream p with Some u => wb_backend <$> ua_backends u | None => [] end.

Definition guarded : Caddyfile := site [directive "forward_auth" "/*" ["http://auth"]; directive "reverse_proxy" "/*" ["app:80"]].

Definition guarded_late : Caddyfile := site [directive "reverse_proxy" "/*" ["app:80"]; directive "forward_auth" "/*" ["http://auth"]].

(** A subrequest before the proxy leaves the site without a backend, one after it is never
    made. *)
Example forward_auth_order :
  (λ p, (backends_of p, length (request_stages p))) <$> planned guarded "/x" = Some ([], 1%nat) ∧
  (λ p, (backends_of p, length (request_stages p))) <$> planned guarded_late "/x" = Some (["app:80"], 0%nat).
Proof. split; vm_compute; reflexivity. Qed.

(** A group written before another directive comes after it. *)
Example group_order_inverted :
  let group := Directive_ "handle" (Some (MatcherPath "/*")) [] (Some [Directive_ "reverse_proxy" None ["first:80"] None]) in
  backends_of <$> planned (site [directive "tls" "/*" []; group; directive "reverse_proxy" "/*" ["second:80"]]) "/x" =
    Some ["second:80"].
Proof. vm_compute. reflexivity. Qed.

(** A path matcher inside a group replaces the one of the group. *)
Example inner_matcher_escapes :
  let group := Directive_ "handle" (Some (MatcherPath "/admin*")) [] (Some [directive "reverse_proxy" "/*" ["admin:80"]]) in
  backends_of <$> planned (site [group]) "/public" = Some ["admin:80"].
Proof. vm_compute. reflexivity. Qed.

(** Two sites that differ in the port are one catch-all, the last. *)
Example ports_not_distinguished :
  let on port backend := {| sb_addresses := [{| ad_https := false; ad_host := ""; ad_port := Some port |}];
                            sb_directives := [directive "reverse_proxy" "/*" [backend]] |} in
  backends_of <$> planned {| cf_global_options := None; cf_sites := [on 8080 "a:80"; on 9090 "b:80"] |} "/x" = Some ["b:80"].
Proof. vm_compute. reflexivity. Qed.

(** An HTTPS address is a table that the listeners refuse. *)
Example https_site_refused :
  let c := {| cf_global_options := None;
              cf_sites := [{| sb_addresses := [{| ad_https := true; ad_host := "example.com"; ad_port := Some 443 |}];
                              sb_directives := [directive "reverse_proxy" "/*" ["app:80"]] |}] |} in
  match translate c with Ok t => is_ok (compile_l4 t) | Err _ => true end = false.
Proof. vm_compute. reflexivity. Qed.

Definition api_group : Directive :=
  Directive_ "handle_path" (Some (MatcherPath "/api/*")) [] (Some [Directive_ "reverse_proxy" None ["app:80"] None]).

Definition api_action : RouteAction :=
  {| ra_backends := [{| wb_backend := "app:80"; wb_weight := 1; wb_request_filters := []; wb_protocol := BackendHttp;
                        wb_tls := None |}];
     ra_timeout := None; ra_request_filters := [ReqStripPrefix "/api/"]; ra_response_filters := [];
     ra_mirror_backends := []; ra_mirror_fractions := []; ra_cache := None; ra_body_rewrites := []; ra_auth := None;
     ra_websocket := false; ra_disable_https_redirect := false; ra_client_cert_id := None |}.

Definition api_rule : Rule :=
  {| rule_matches := [{| rm_path := Some (PathPrefix "/api/"); rm_method := None; rm_headers := []; rm_query_params := [] |}];
     rule_action := ActRoute api_action; rule_order := 0 |}.

(** The theorem, on the usual form of the directive. *)
Lemma handle_path_requests_rejected_witness :
  apply_mutations (H := list (string * string)) (Build_UpstreamRequest [] "/api/users" None None None)
    (compile_request_filter <$> ra_request_filters api_action) = Err (HTTPStatus 400 "invalid path after prefix strip").
Proof.
  apply (handle_path_requests_rejected api_group 0 [api_rule] api_rule api_action "/api" "users");
    [reflexivity|reflexivity|vm_compute; reflexivity|left|reflexivity|reflexivity|discriminate|reflexivity].
Defined.
End CaddyExamples.
