(* ===== verification/Digest.v ===== *)
(** * The digest of the reconciled view ([src/gateway/model/digest/], [src/gateway/gossip/digest_publisher.rs]).

    The canonical encoding whose hash the replicas gossip: what it distinguishes, what it
    ignores; and the loop that publishes the digests and watches those of the peers. The
    encoders of the source append to a buffer; here each gives the bytes it appends. *)

From S2P Require Import Prelude Net Ir Hostname Sni Gateway.

(** ** Primitive encoders ([common.rs]) *)

(** [to_be_bytes] of an integer of [n] bytes. *)
Fixpoint be_bytes (n : nat) (v : Z) : bytes :=
  match n with
  | O => []
  | S n => (v / 256 ^ Z.of_nat n) mod 256 :: be_bytes n v
  end.

Definition encode_u16 (v : Z) : bytes := be_bytes 2 v.
Definition encode_u32 (v : Z) : bytes := be_bytes 4 v.
Definition encode_i64 (v : Z) : bytes := be_bytes 8 v.

Definition encode_bool (b : bool) : bytes := [if b then 1 else 0].

(** A length-prefixed string; [len() as u32] wraps. *)
Definition encode_str (s : string) : bytes := encode_u32 (str_len s) ++ bytes_of_string s.

Definition encode_option {A} (enc : A → bytes) (o : option A) : bytes :=
  match o with None => [0] | Some v => 1 :: enc v end.

Definition encode_option_str : option string → bytes := encode_option encode_str.
Definition encode_option_u16 : option Z → bytes := encode_option encode_u16.
(** [to_le_bytes]. *)
Definition encode_option_i32 : option Z → bytes := encode_option (λ v, rev (be_bytes 4 v)).

(** The length and the elements, in the order given. *)
Definition encode_list {A} (enc : A → bytes) (l : list A) : bytes :=
  encode_u32 (Z.of_nat (length l)) ++ mjoin (enc <$> l).

(** ** Orders *)

Definition then_with (a b : comparison) : comparison := match a with Eq => b | _ => a end.

Definition cmp_option {A} (cmp : A → A → comparison) (a b : option A) : comparison :=
  match a, b with
  | None, None => Eq
  | None, Some _ => Lt
  | Some _, None => Gt
  | Some a, Some b => cmp a b
  end.

(** [le] of a sort by [cmp]. *)
Definition cmp_le {A} (cmp : A → A → comparison) (a b : A) : bool := match cmp a b with Gt => false | _ => true end.

Definition by_str {A} (f : A → string) (a b : A) : comparison := String.compare (f a) (f b).

(** A list of a view, in the order of its comparator. *)
Definition encode_sorted {A} (cmp : A → A → comparison) (enc : A → bytes) (l : list A) : bytes :=
  encode_list enc (sort_by (cmp_le cmp) l).

(** The entries of a [BTreeMap] in order. *)
Definition entries {K V} `{Countable K} (cmp : K → K → comparison) (m : gmap K V) : list (K * V) :=
  sort_by (λ a b, cmp_le cmp a.1 b.1) (map_to_list m).

Definition encode_map {K V} `{Countable K} (cmp : K → K → comparison) (enc : K * V → bytes) (m : gmap K V) : bytes :=
  encode_list enc (entries cmp m).

(** ** Common resources ([common.rs]) *)

Definition encode_parent_ref (p : ParentRef) : bytes :=
  encode_option_str (pr_namespace p) ++ encode_str (pr_name p) ++ encode_option_str (pr_section_name p).

Definition cmp_parent_ref (a b : ParentRef) : comparison :=
  then_with (cmp_option String.compare (pr_namespace a) (pr_namespace b))
    (then_with (by_str pr_name a b) (cmp_option String.compare (pr_section_name a) (pr_section_name b))).

Definition encode_parent_refs (refs : list ParentRef) : bytes := encode_sorted cmp_parent_ref encode_parent_ref refs.

Definition encode_grant_subject (s : GrantSubject) : bytes :=
  encode_str (gsub_group s) ++ encode_str (gsub_kind s) ++ encode_option_str (gsub_namespace s) ++
  encode_option_str (gsub_name s).

Definition cmp_grant_subject (a b : GrantSubject) : comparison :=
  then_with (by_str gsub_group a b)
    (then_with (by_str gsub_kind a b)
       (then_with (cmp_option String.compare (gsub_namespace a) (gsub_namespace b))
          (cmp_option String.compare (gsub_name a) (gsub_name b)))).

Definition encode_reference_grant (g : ReferenceGrantState) : bytes :=
  encode_str (rg_namespace g) ++ encode_str (rg_name g) ++ encode_i64 (rg_generation g) ++
  encode_sorted cmp_grant_subject encode_grant_subject (rg_from g) ++
  encode_sorted cmp_grant_subject encode_grant_subject (rg_to g).

Definition encode_listener (l : ListenerState) : bytes :=
  encode_str (ls_name l) ++ encode_str (ls_protocol l) ++ encode_u16 (ls_port l).

Definition encode_pair (kv : string * string) : bytes := encode_str kv.1 ++ encode_str kv.2.

Definition encode_listener_set (s : ListenerSetState) : bytes :=
  encode_str (lss_namespace s) ++ encode_str (lss_name s) ++ encode_i64 (lss_generation s) ++
  encode_sorted (by_str ls_name) encode_listener (lss_listeners s) ++
  encode_map String.compare encode_pair (lss_conflicts s) ++
  encode_bool (lss_accepted s) ++ encode_bool (lss_programmed s) ++ encode_str (lss_reason s).

Definition encode_namespace_labels (labels : NamespaceLabels) : bytes :=
  encode_map String.compare (λ e, encode_str e.1 ++ encode_map String.compare encode_pair e.2) labels.

Definition encode_route_group_kind (k : RouteGroupKind) : bytes := encode_str (gk_group k) ++ encode_str (gk_kind k).

Definition cmp_group_kind (a b : RouteGroupKind) : comparison := then_with (by_str gk_group a b) (by_str gk_kind a b).

Definition encode_namespace_from (from : NamespaceFrom) : bytes :=
  [match from with NsSame => 0 | NsAll => 1 | NsSelector => 2 | NsNone => 3 end].

Definition encode_route_namespaces (ns : RouteNamespaces) : bytes :=
  encode_namespace_from (rn_from ns) ++ encode_option (encode_map String.compare encode_pair) (rn_selector ns).

Definition encode_allowed_routes (allowed : AllowedRoutes) : bytes :=
  encode_sorted cmp_group_kind encode_route_group_kind (ar_kinds allowed) ++
  encode_route_namespaces (ar_namespaces allowed).

Definition cmp_listener_key (a b : string * string * string) : comparison :=
  then_with (String.compare a.1.1 b.1.1) (then_with (String.compare a.1.2 b.1.2) (String.compare a.2 b.2)).

Definition encode_allowed_routes_map (m : ListenerAllowedMap) : bytes :=
  encode_map cmp_listener_key
    (λ e, encode_str e.1.1.1 ++ encode_str e.1.1.2 ++ encode_str e.1.2 ++ encode_allowed_routes e.2) m.

Definition encode_weighted_backend (b : GwWeightedBackend) : bytes :=
  encode_str (gwb_backend b) ++ encode_u32 (gwb_weight b).

(** ** HTTP routes ([http.rs]) *)

Definition encode_hostname (h : GwHostnameMatch) : bytes :=
  match h with GwExact s => 0 :: encode_str s | GwWildcard s => 1 :: encode_str s | GwAny => [2] end.

Definition cmp_hostname (a b : GwHostnameMatch) : comparison :=
  match a, b with
  | GwExact a, GwExact b => String.compare a b
  | GwExact _, _ => Lt
  | GwWildcard a, GwWildcard b => String.compare a b
  | GwWildcard _, GwExact _ => Gt
  | GwWildcard _, GwAny => Lt
  | GwAny, GwAny => Eq
  | GwAny, _ => Gt
  end.

Definition encode_option_path_match : option GwPathMatch → bytes :=
  encode_option (λ p, match p with
                      | GwPathExact s => 0 :: encode_str s
                      | GwPathPrefix s => 1 :: encode_str s
                      | GwPathRegex s => 2 :: encode_str s
                      end).

Definition encode_header_match (h : GwHeaderMatch) : bytes :=
  encode_str (ghm_name h) ++
  match ghm_value h with
  | GwHeaderExact s => 0 :: encode_str s
  | GwHeaderRegex s => 1 :: encode_str s
  | GwHeaderPresent => [2]
  | GwHeaderAbsent => [3]
  end.

Definition encode_query_param_match (q : GwQueryParamMatch) : bytes :=
  encode_str (gqm_name q) ++
  match gqm_value q with GwQueryExact s => 0 :: encode_str s | GwQueryRegex s => 1 :: encode_str s end.

Definition encode_route_match (m : RouteMatch) : bytes :=
  encode_option_path_match (gm_path m) ++ encode_option_str (gm_method m) ++
  encode_sorted (by_str ghm_name) encode_header_match (gm_headers m) ++
  encode_sorted (by_str gqm_name) encode_query_param_match (gm_query_params m).

Definition cmp_path_match (a b : option GwPathMatch) : comparison :=
  match a, b with
  | None, None => Eq
  | None, Some _ => Lt
  | Some _, None => Gt
  | Some (GwPathExact a), Some (GwPathExact b) => String.compare a b
  | Some (GwPathExact _), _ => Lt
  | Some (GwPathPrefix a), Some (GwPathPrefix b) => String.compare a b
  | Some (GwPathPrefix _), Some (GwPathExact _) => Gt
  | Some (GwPathPrefix _), _ => Lt
  | Some (GwPathRegex a), Some (GwPathRegex b) => String.compare a b
  | Some (GwPathRegex _), _ => Gt
  end.

Definition cmp_route_match (a b : RouteMatch) : comparison :=
  then_with (cmp_path_match (gm_path a) (gm_path b))
    (then_with (cmp_option String.compare (gm_method a) (gm_method b))
       (then_with (Nat.compare (length (gm_headers a)) (length (gm_headers b)))
          (Nat.compare (length (gm_query_params a)) (length (gm_query_params b))))).

Definition encode_path_rewrite (p : GwPathRewrite) : bytes :=
  match p with
  | GwFullReplace s => 0 :: encode_str s
  | GwPrefixReplace prefix replacement => 1 :: encode_str prefix ++ encode_str replacement
  end.

Definition encode_option_path_rewrite : option GwPathRewrite → bytes := encode_option encode_path_rewrite.

Definition route_filter_ord (f : RouteFilter) : nat :=
  match f with
  | RequestHeaderSet _ _ => 0
  | RequestHeaderAdd _ _ => 1
  | RequestHeaderRemove _ => 2
  | ResponseHeaderSet _ _ => 3
  | ResponseHeaderAdd _ _ => 4
  | ResponseHeaderRemove _ => 5
  | UrlRewrite _ _ => 6
  | RequestRedirect _ _ _ _ _ => 7
  | RequestMirror _ _ => 8
  | GwCors _ _ _ _ _ _ => 9
  end.

Definition encode_route_filter (f : RouteFilter) : bytes :=
  Z.of_nat (route_filter_ord f) ::
  match f with
  | RequestHeaderSet name value | RequestHeaderAdd name value
  | ResponseHeaderSet name value | ResponseHeaderAdd name value => encode_str name ++ encode_str value
  | RequestHeaderRemove name | ResponseHeaderRemove name => encode_str name
  | UrlRewrite hostname path => encode_option_str hostname ++ encode_option_path_rewrite path
  | RequestRedirect scheme hostname path port status_code =>
      encode_option_str scheme ++ encode_option_str hostname ++ encode_option_path_rewrite path ++
      encode_option_u16 port ++ encode_u16 status_code
  | RequestMirror backend fraction =>
      encode_str backend ++
      match fraction with Some f => encode_u32 (gf_numerator f) ++ encode_u32 (gf_denominator f) | None => [] end
  | GwCors allow_origins allow_methods allow_headers expose_headers max_age allow_credentials =>
      encode_list encode_str allow_origins ++ encode_list encode_str allow_methods ++
      encode_list encode_str allow_headers ++ encode_list encode_str expose_headers ++
      encode_option_i32 max_age ++ encode_bool allow_credentials
  end.

Definition cmp_backend (a b : GwWeightedBackend) : comparison :=
  then_with (by_str gwb_backend a b) (Z.compare (gwb_weight a) (gwb_weight b)).

Definition cmp_filter (a b : RouteFilter) : comparison := Nat.compare (route_filter_ord a) (route_filter_ord b).

Definition encode_http_route_rule (rule : HTTPRouteRule) : bytes :=
  encode_sorted cmp_route_match encode_route_match (hrr_matches rule) ++
  encode_sorted cmp_backend encode_weighted_backend (hrr_backends rule) ++
  encode_sorted cmp_filter encode_route_filter (hrr_filters rule).

Definition cmp_rule (a b : HTTPRouteRule) : comparison :=
  then_with (Nat.compare (length (hrr_matches a)) (length (hrr_matches b)))
    (Nat.compare (length (hrr_backends a)) (length (hrr_backends b))).

Definition encode_http_route (r : HTTPRouteState) : bytes :=
  encode_str (hrs_namespace r) ++ encode_str (hrs_name r) ++ encode_i64 (hrs_generation r) ++
  encode_sorted cmp_hostname encode_hostname (hrs_hostnames r) ++ encode_parent_refs (hrs_parent_refs r) ++
  encode_sorted cmp_rule encode_http_route_rule (hrs_rules r).

(** ** L4 routes ([l4.rs]) *)

Definition encode_tcp_route (r : TCPRouteState) : bytes :=
  encode_str (trs_namespace r) ++ encode_str (trs_name r) ++ encode_i64 (trs_generation r) ++
  encode_parent_refs (trs_parent_refs r) ++ encode_list encode_weighted_backend (trs_backends r) ++
  encode_bool (trs_programmed r).

Definition encode_udp_route (r : UDPRouteState) : bytes :=
  encode_str (urs_namespace r) ++ encode_str (urs_name r) ++ encode_i64 (urs_generation r) ++
  encode_parent_refs (urs_parent_refs r) ++ encode_list encode_weighted_backend (urs_backends r) ++
  encode_bool (urs_programmed r).

Definition encode_tls_route (r : TLSRouteState) : bytes :=
  encode_str (lrs_namespace r) ++ encode_str (lrs_name r) ++ encode_i64 (lrs_generation r) ++
  encode_parent_refs (lrs_parent_refs r) ++ encode_sorted cmp_hostname encode_hostname (lrs_hostnames r) ++
  encode_list encode_weighted_backend (lrs_backends r) ++ encode_bool (lrs_programmed r).

(** The order by namespace and name. *)
Definition by_name {A} (ns name : A → string) (a b : A) : comparison := then_with (by_str ns a b) (by_str name a b).

(** ** The view ([core.rs]) *)

Definition encode_gateway (g : GatewayState) : bytes :=
  encode_str (gs_namespace g) ++ encode_str (gs_name g) ++ encode_i64 (gs_generation g) ++
  encode_sorted (by_str ls_name) encode_listener (gs_listeners g).

Definition encode_route (r : RouteState) : bytes :=
  encode_str (rs_namespace r) ++ encode_str (rs_name r) ++ encode_str (rs_kind r) ++ encode_i64 (rs_generation r) ++
  encode_parent_refs (rs_parent_refs r).

Definition cmp_route (a b : RouteState) : comparison :=
  then_with (by_str rs_kind a b) (by_name rs_namespace rs_name a b).

Definition encode_view (view : ReconciledView) : bytes :=
  encode_sorted (by_name gs_namespace gs_name) encode_gateway (gateways view) ++
  encode_sorted (by_name lss_namespace lss_name) encode_listener_set (listener_sets view) ++
  encode_sorted cmp_route encode_route (view_routes view) ++
  encode_sorted (by_name hrs_namespace hrs_name) encode_http_route (http_route_states view) ++
  encode_sorted (by_name trs_namespace trs_name) encode_tcp_route (tcp_route_states view) ++
  encode_sorted (by_name urs_namespace urs_name) encode_udp_route (udp_route_states view) ++
  encode_sorted (by_name lrs_namespace lrs_name) encode_tls_route (tls_route_states view) ++
  encode_sorted (by_name rg_namespace rg_name) encode_reference_grant (reference_grants view) ++
  encode_namespace_labels (namespace_labels view) ++
  encode_allowed_routes_map (listener_allowed view) ++
  encode_allowed_routes_map (listener_set_allowed view).

(** [blake3::hash]. *)
Class Blake3 := blake3 : bytes → bytes.

Definition compute_digest `{!Blake3} (view : ReconciledView) : bytes := blake3 (encode_view view).

(** ** What an encoding determines *)

(** An encoding that can be read back: with anything after it, equal bytes have equal
    projections and equal rests, for values within the domain. *)
Class Faithful {A B} (enc : A → bytes) (ok : A → Prop) (proj : A → B) : Prop :=
  faithful x y r s : ok x → ok y → enc x ++ r = enc y ++ s → proj x = proj y ∧ r = s.

Lemma be_bytes_length n v : length (be_bytes n v) = n.
Proof. induction n; cbn; congruence. Qed.

Lemma be_bytes_inj n x y : be_bytes n x = be_bytes n y → x mod 256 ^ Z.of_nat n = y mod 256 ^ Z.of_nat n.
Proof.
  induction n as [|n IH]; [by rewrite !Z.mod_1_r|]. cbn [be_bytes]. intros [= Hd Hr]. apply IH in Hr.
  rewrite Nat2Z.inj_succ, Z.pow_succ_r, (Z.mul_comm 256) by lia. assert (0 < 256 ^ Z.of_nat n) by (apply Z.pow_pos_nonneg; lia).
  rewrite !Z.rem_mul_r by lia. congruence.
Qed.

Lemma faithful_fixed {A} (enc : A → bytes) (ok : A → Prop) n :
  (∀ x, length (enc x) = n) → (∀ x y, ok x → ok y → enc x = enc y → x = y) → Faithful enc ok id.
Proof. intros Hl Hi x y r s Hx Hy [He ->]%app_inj_1; [by split; [apply Hi|]|by rewrite !Hl]. Qed.

Definition u16_ok (v : Z) : Prop := 0 ≤ v < 2 ^ 16.
Definition u32_ok (v : Z) : Prop := 0 ≤ v < 2 ^ 32.
Definition i32_ok (v : Z) : Prop := - 2 ^ 31 ≤ v < 2 ^ 31.
Definition i64_ok (v : Z) : Prop := - 2 ^ 63 ≤ v < 2 ^ 63.

#[export] Instance u16_faithful : Faithful encode_u16 u16_ok id.
Proof.
  apply (faithful_fixed _ _ 2); [done|]. intros x y Hx Hy He%be_bytes_inj. unfold u16_ok in *.
  change (256 ^ Z.of_nat 2) with (2 ^ 16) in He. by rewrite !Z.mod_small in He.
Qed.
#[export] Instance u32_faithful : Faithful encode_u32 u32_ok id.
Proof.
  apply (faithful_fixed _ _ 4); [done|]. intros x y Hx Hy He%be_bytes_inj. unfold u32_ok in *.
  change (256 ^ Z.of_nat 4) with (2 ^ 32) in He. by rewrite !Z.mod_small in He.
Qed.

(** A signed integer is determined by its residue. *)
Lemma signed_inj w x y : 0 < w → - 2 ^ (w - 1) ≤ x < 2 ^ (w - 1) → - 2 ^ (w - 1) ≤ y < 2 ^ (w - 1) → x mod 2 ^ w = y mod 2 ^ w → x = y.
Proof.
  intros Hw Hx Hy He. assert (2 ^ w = 2 * 2 ^ (w - 1)) as Ew by (rewrite <- Z.pow_succ_r by lia; f_equal; lia).
  pose proof (Z.div_mod x (2 ^ w) ltac:(lia)). pose proof (Z.div_mod y (2 ^ w) ltac:(lia)).
  assert (x - y = 2 ^ w * (x / 2 ^ w - y / 2 ^ w)) as E by lia. revert E Ew Hx Hy.
  generalize (x / 2 ^ w - y / 2 ^ w). intros q. generalize (2 ^ w) (2 ^ (w - 1)). intros m h E -> Hx Hy.
  destruct (Z.lt_trichotomy q 0) as [Hq|[->|Hq]]; [|lia|].
  - assert (2 * h * q ≤ 2 * h * -1) by (apply Z.mul_le_mono_nonneg_l; lia). lia.
  - assert (2 * h * 1 ≤ 2 * h * q) by (apply Z.mul_le_mono_nonneg_l; lia). lia.
Qed.

#[export] Instance i64_faithful : Faithful encode_i64 i64_ok id.
Proof.
  apply (faithful_fixed _ _ 8); [done|]. intros x y Hx Hy He%be_bytes_inj.
  change (256 ^ Z.of_nat 8) with (2 ^ 64) in He. by apply (signed_inj 64).
Qed.
#[export] Instance i32_le_faithful : Faithful (λ v, rev (be_bytes 4 v)) i32_ok id.
Proof.
  apply (faithful_fixed _ _ 4); [intros; by rewrite length_rev|]. intros x y Hx Hy He.
  apply (f_equal (rev (A := Z))) in He. rewrite !rev_involutive in He. apply be_bytes_inj in He.
  change (256 ^ Z.of_nat 4) with (2 ^ 32) in He. by apply (signed_inj 32).
Qed.
#[export] Instance bool_faithful : Faithful encode_bool (λ _, True) id.
Proof. apply (faithful_fixed _ _ 1); [done|]. by intros [] []. Qed.
#[export] Instance namespace_from_faithful : Faithful encode_namespace_from (λ _, True) id.
Proof. apply (faithful_fixed _ _ 1); [done|]. by intros [] []. Qed.

Definition str_ok (s : string) : Prop := str_len s < 2 ^ 32.

Lemma bytes_of_string_inj s t r u :
  String.length s = String.length t → bytes_of_string s ++ r = bytes_of_string t ++ u → s = t ∧ r = u.
Proof.
  revert t. induction s as [|a s IH]; intros [|b t]; try discriminate; [by split|]. cbn. intros [= Hl] [= Ha Hr].
  destruct (IH t Hl Hr) as [-> ->]. split; [|done]. f_equal.
  apply N2Z.inj in Ha. by rewrite <- (Ascii.ascii_N_embedding a), Ha, Ascii.ascii_N_embedding.
Qed.

#[export] Instance str_faithful : Faithful encode_str str_ok id.
Proof.
  intros x y r s Hx Hy. unfold encode_str. rewrite <- !app_assoc. intros H.
  apply (faithful (enc := encode_u32)) in H as [El H]; [|unfold u32_ok, str_ok, str_len in *; lia..].
  apply bytes_of_string_inj in H; [done|]. unfold str_len in El. cbn in El. lia.
Qed.

Definition option_ok {A} (ok : A → Prop) (o : option A) : Prop := match o with Some v => ok v | None => True end.

#[export] Instance option_faithful {A B} enc ok (proj : A → B) :
  Faithful enc ok proj → Faithful (encode_option enc) (option_ok ok) (fmap proj).
Proof.
  intros F [x|] [y|] r s Hx Hy; cbn; intros H; simplify_eq; [|done].
  apply faithful in H as [-> ->]; [done|exact Hx|exact Hy].
Qed.

Definition list_ok {A} (ok : A → Prop) (l : list A) : Prop := Forall ok l ∧ Z.of_nat (length l) < 2 ^ 32.

Lemma join_faithful {A B} enc ok (proj : A → B) l : ∀ l' r s,
  Faithful enc ok proj → Forall ok l → Forall ok l' → length l = length l' →
  mjoin (enc <$> l) ++ r = mjoin (enc <$> l') ++ s → proj <$> l = proj <$> l' ∧ r = s.
Proof.
  induction l as [|x l IH]; intros [|y l'] r s F Hl Hl' Hlen; try discriminate; [done|].
  apply Forall_cons in Hl as [Hx Hl], Hl' as [Hy Hl']. injection Hlen as Hlen. cbn. rewrite <- !app_assoc.
  intros [Hp H]%faithful; [|done..]. destruct (IH l' r s F Hl Hl' Hlen H) as [-> ->]. by rewrite Hp.
Qed.

#[export] Instance list_faithful {A B} enc ok (proj : A → B) :
  Faithful enc ok proj → Faithful (encode_list enc) (list_ok ok) (fmap proj).
Proof.
  intros F x y r s [Hx Lx] [Hy Ly]. unfold encode_list. rewrite <- !app_assoc. intros H.
  apply (faithful (enc := encode_u32)) in H as [El H]; [|unfold u32_ok; lia..].
  apply (join_faithful enc ok proj) in H; [done..|]. cbn in El. lia.
Qed.

(** The elements in the order of the comparator. *)
Definition canonical {A B} (cmp : A → A → comparison) (proj : A → B) (l : list A) : list B :=
  proj <$> sort_by (cmp_le cmp) l.

#[export] Instance sorted_faithful {A B} cmp enc ok (proj : A → B) :
  Faithful enc ok proj → Faithful (encode_sorted cmp enc) (list_ok ok) (canonical cmp proj).
Proof.
  intros F x y r s [Hx Lx] [Hy Ly] H.
  apply (faithful (enc := encode_list enc)) in H; [done|split; by rewrite sort_by_perm..].
Qed.

Definition map_ok {K V} `{Countable K} (ok : K * V → Prop) (m : gmap K V) : Prop := list_ok ok (map_to_list m).

#[export] Instance map_faithful {K V W} `{Countable K} cmp enc (ok : K * V → Prop) (f : V → W) :
  Faithful enc ok (λ e, (e.1, f e.2)) → Faithful (encode_map cmp enc) (map_ok ok) (fmap f : gmap K V → gmap K W).
Proof.
  intros F x y r s [Hx Lx] [Hy Ly] He.
  apply (faithful (enc := encode_list enc)) in He as [He ->]; [|split; unfold entries; by rewrite sort_by_perm..].
  split; [|done]. apply map_to_list_inj. rewrite !map_to_list_fmap.
  assert (∀ m : gmap K V, prod_map id f <$> map_to_list m ≡ₚ (λ e, (e.1, f e.2)) <$> entries cmp m) as Hm.
  { intros m. unfold entries. rewrite sort_by_perm. apply Permutation_refl'. apply list_fmap_ext. by intros ? [] ?. }
  by rewrite !Hm, He.
Qed.

#[export] Instance option_faithful_id {A} (enc : A → bytes) ok :
  Faithful enc ok id → Faithful (encode_option enc) (option_ok ok) id.
Proof. intros F x y r s Hx Hy [E ->]%(faithful (Faithful := option_faithful _ _ _ F)); [|done..]. by rewrite !option_fmap_id in E. Qed.

#[export] Instance option_str_faithful : Faithful encode_option_str (option_ok str_ok) id := option_faithful_id _ _ _.
#[export] Instance option_u16_faithful : Faithful encode_option_u16 (option_ok u16_ok) id := option_faithful_id _ _ _.
#[export] Instance option_i32_faithful : Faithful encode_option_i32 (option_ok i32_ok) id := option_faithful_id _ _ _.

#[export] Instance list_faithful_id {A} (enc : A → bytes) ok :
  Faithful enc ok id → Faithful (encode_list enc) (list_ok ok) id.
Proof. intros F x y r s Hx Hy [E ->]%(faithful (Faithful := list_faithful _ _ _ F)); [|done..]. by rewrite !list_fmap_id in E. Qed.

(** Reads the fields of two encodings, one after the other. *)
Ltac decode H :=
  repeat first [rewrite <- app_assoc in H | rewrite <- app_comm_cons in H];
  repeat (apply faithful in H as [? H]; [|first [assumption|exact I]..]);
  unfold id in *.

(** ** The canonical view

    What the encoding keeps of each resource: the other fields are erased, the collections
    in the order of their comparators. *)

Definition erase_parent_ref (p : ParentRef) : ParentRef :=
  {| pr_group := ""; pr_kind := ""; pr_namespace := pr_namespace p; pr_name := pr_name p;
     pr_section_name := pr_section_name p; pr_port := None |}.
Definition parent_ref_ok (p : ParentRef) : Prop :=
  option_ok str_ok (pr_namespace p) ∧ str_ok (pr_name p) ∧ option_ok str_ok (pr_section_name p).

#[export] Instance parent_ref_faithful : Faithful encode_parent_ref parent_ref_ok erase_parent_ref.
Proof.
  intros x y r s (? & ? & ?) (? & ? & ?) Henc. unfold encode_parent_ref in Henc. decode Henc.
  split; [unfold erase_parent_ref; congruence|done].
Qed.

Definition canonical_refs : list ParentRef → list ParentRef := canonical cmp_parent_ref erase_parent_ref.

#[export] Instance parent_refs_faithful : Faithful encode_parent_refs (list_ok parent_ref_ok) canonical_refs :=
  sorted_faithful _ _ _ _ _.

Definition grant_subject_ok (s : GrantSubject) : Prop :=
  str_ok (gsub_group s) ∧ str_ok (gsub_kind s) ∧ option_ok str_ok (gsub_namespace s) ∧ option_ok str_ok (gsub_name s).

#[export] Instance grant_subject_faithful : Faithful encode_grant_subject grant_subject_ok id.
Proof.
  intros x y r s (? & ? & ? & ?) (? & ? & ? & ?) Henc. unfold encode_grant_subject in Henc. decode Henc.
  split; [destruct x, y; simpl in *; congruence|done].
Qed.

Definition canonical_grant (g : ReferenceGrantState) : ReferenceGrantState :=
  {| rg_namespace := rg_namespace g; rg_name := rg_name g; rg_generation := rg_generation g;
     rg_from := canonical cmp_grant_subject id (rg_from g); rg_to := canonical cmp_grant_subject id (rg_to g) |}.
Definition grant_ok (g : ReferenceGrantState) : Prop :=
  str_ok (rg_namespace g) ∧ str_ok (rg_name g) ∧ i64_ok (rg_generation g) ∧
  list_ok grant_subject_ok (rg_from g) ∧ list_ok grant_subject_ok (rg_to g).

#[export] Instance grant_faithful : Faithful encode_reference_grant grant_ok canonical_grant.
Proof.
  intros x y r s (? & ? & ? & ? & ?) (? & ? & ? & ? & ?) Henc. unfold encode_reference_grant in Henc. decode Henc.
  split; [unfold canonical_grant; unfold id in *; congruence|done].
Qed.

Definition erase_listener (l : ListenerState) : ListenerState :=
  {| ls_name := ls_name l; ls_protocol := ls_protocol l; ls_port := ls_port l; ls_hostname := None; ls_tls_mode := None;
     ls_frontend_validation := None; ls_programmed := false |}.
Definition listener_ok (l : ListenerState) : Prop := str_ok (ls_name l) ∧ str_ok (ls_protocol l) ∧ u16_ok (ls_port l).

#[export] Instance listener_faithful : Faithful encode_listener listener_ok erase_listener.
Proof.
  intros x y r s (? & ? & ?) (? & ? & ?) Henc. unfold encode_listener in Henc. decode Henc.
  split; [unfold erase_listener; congruence|done].
Qed.

Definition pair_ok (kv : string * string) : Prop := str_ok kv.1 ∧ str_ok kv.2.

#[export] Instance pair_faithful : Faithful encode_pair pair_ok (λ e, (e.1, id e.2)).
Proof. intros x y r s [? ?] [? ?] Henc. unfold encode_pair in Henc. decode Henc. split; [congruence|done]. Qed.

Definition canonical_listener_set (s : ListenerSetState) : ListenerSetState :=
  {| lss_namespace := lss_namespace s; lss_name := lss_name s; lss_generation := lss_generation s; lss_created_at := 0;
     lss_parent_ref := {| pr_group := ""; pr_kind := ""; pr_namespace := None; pr_name := ""; pr_section_name := None;
                          pr_port := None |};
     lss_listeners := canonical (by_str ls_name) erase_listener (lss_listeners s); lss_conflicts := lss_conflicts s;
     lss_accepted := lss_accepted s; lss_programmed := lss_programmed s; lss_reason := lss_reason s;
     lss_listener_cert_errors := []; lss_listener_kind_errors := [] |}.
Definition listener_set_ok (s : ListenerSetState) : Prop :=
  str_ok (lss_namespace s) ∧ str_ok (lss_name s) ∧ i64_ok (lss_generation s) ∧ list_ok listener_ok (lss_listeners s) ∧
  map_ok pair_ok (lss_conflicts s) ∧ str_ok (lss_reason s).

Lemma fmap_id_inj {K V} `{Countable K} (m m' : gmap K V) : id <$> m = id <$> m' → m = m'.
Proof. by rewrite !map_fmap_id. Qed.

#[export] Instance listener_set_faithful : Faithful encode_listener_set listener_set_ok canonical_listener_set.
Proof.
  intros x y r s (? & ? & ? & ? & ? & ?) (? & ? & ? & ? & ? & ?) Henc. unfold encode_listener_set in Henc.
  repeat rewrite <- app_assoc in Henc.
  do 4 (apply faithful in Henc as [? Henc]; [|assumption..]).
  apply (faithful (enc := encode_map _ _)) in Henc as [?%fmap_id_inj Henc]; [|assumption..].
  do 2 (apply (faithful (enc := encode_bool)) in Henc as [? Henc]; [|exact I..]).
  decode Henc. split; [unfold canonical_listener_set; congruence|done].
Qed.

Definition labels_ok : NamespaceLabels → Prop := map_ok (λ e, str_ok e.1 ∧ map_ok pair_ok e.2).

#[export] Instance labels_faithful : Faithful encode_namespace_labels labels_ok id.
Proof.
  assert (Faithful (λ e, encode_str e.1 ++ encode_map String.compare encode_pair e.2)
            (λ e : string * gmap string string, str_ok e.1 ∧ map_ok pair_ok e.2) (λ e, (e.1, id e.2))) as F.
  { intros [k m] [k' m'] r s [? ?] [? ?] Henc. cbn [fst snd] in *. repeat rewrite <- app_assoc in Henc.
    apply faithful in Henc as [? Henc]; [|assumption..]. apply faithful in Henc as [?%fmap_id_inj Henc]; [|assumption..].
    unfold id in *. split; [congruence|done]. }
  intros x y r s Hx Hy [E%fmap_id_inj ->]%(faithful (Faithful := map_faithful _ _ _ _ F)); done.
Qed.

Definition group_kind_ok (k : RouteGroupKind) : Prop := str_ok (gk_group k) ∧ str_ok (gk_kind k).

#[export] Instance group_kind_faithful : Faithful encode_route_group_kind group_kind_ok id.
Proof.
  intros x y r s [? ?] [? ?] Henc. unfold encode_route_group_kind in Henc. decode Henc.
  split; [destruct x, y; simpl in *; congruence|done].
Qed.

Definition canonical_allowed (a : AllowedRoutes) : AllowedRoutes :=
  {| ar_kinds := canonical cmp_group_kind id (ar_kinds a); ar_namespaces := ar_namespaces a |}.
Definition allowed_ok (a : AllowedRoutes) : Prop :=
  list_ok group_kind_ok (ar_kinds a) ∧ option_ok (map_ok pair_ok) (rn_selector (ar_namespaces a)).

#[export] Instance allowed_faithful : Faithful encode_allowed_routes allowed_ok canonical_allowed.
Proof.
  intros x y r s [? ?] [? ?] Henc. unfold encode_allowed_routes, encode_route_namespaces in Henc.
  repeat rewrite <- app_assoc in Henc. apply faithful in Henc as [? Henc]; [|assumption..].
  apply (faithful (enc := encode_namespace_from)) in Henc as [? Henc]; [|exact I..].
  apply faithful in Henc as [E ->]; [|assumption..]. split; [|done]. unfold canonical_allowed, id in *.
  destruct (ar_namespaces x) as [fx sx], (ar_namespaces y) as [fy sy]. cbn in *. assert (sx = sy) as ->; [|congruence].
  destruct sx as [m|], sy as [m'|]; try discriminate; [|done]. injection E as E. by apply fmap_id_inj in E as ->.
Qed.

Definition allowed_map_ok : ListenerAllowedMap → Prop :=
  map_ok (λ e, str_ok e.1.1.1 ∧ str_ok e.1.1.2 ∧ str_ok e.1.2 ∧ allowed_ok e.2).

#[export] Instance allowed_map_faithful : Faithful encode_allowed_routes_map allowed_map_ok (fmap canonical_allowed).
Proof.
  apply map_faithful. intros [[[ns n] l] a] [[[ns' n'] l'] a'] r s (? & ? & ? & ?) (? & ? & ? & ?) Henc. cbn [fst snd] in *. decode Henc.
  split; [congruence|done].
Qed.

Definition erase_backend (b : GwWeightedBackend) : GwWeightedBackend :=
  {| gwb_backend := gwb_backend b; gwb_weight := gwb_weight b; gwb_filters := []; gwb_protocol := BackendHttp; gwb_tls := None |}.
Definition backend_ok (b : GwWeightedBackend) : Prop := str_ok (gwb_backend b) ∧ u32_ok (gwb_weight b).

#[export] Instance backend_faithful : Faithful encode_weighted_backend backend_ok erase_backend.
Proof.
  intros x y r s [? ?] [? ?] Henc. unfold encode_weighted_backend in Henc. decode Henc.
  split; [unfold erase_backend; congruence|done].
Qed.

(** An encoding that starts with a tag. *)
Ltac decode_tagged :=
  let Henc := fresh "Henc" in
  intros ?? Henc; cbn [app] in Henc;
  first [discriminate Henc|apply (f_equal tail) in Henc; cbn [tail] in Henc; decode Henc; subst; split; reflexivity].

Definition hostname_ok (h : GwHostnameMatch) : Prop := match h with GwExact s | GwWildcard s => str_ok s | GwAny => True end.

#[export] Instance hostname_faithful : Faithful encode_hostname hostname_ok id.
Proof. intros x y r s. unfold encode_hostname. destruct x, y; decode_tagged. Qed.

Definition path_match_ok (p : GwPathMatch) : Prop :=
  match p with GwPathExact s | GwPathPrefix s | GwPathRegex s => str_ok s end.

#[export] Instance path_match_faithful : Faithful encode_option_path_match (option_ok path_match_ok) id.
Proof. apply option_faithful_id. intros x y r s. destruct x, y; decode_tagged. Qed.

Definition header_match_ok (h : GwHeaderMatch) : Prop :=
  str_ok (ghm_name h) ∧ match ghm_value h with GwHeaderExact s | GwHeaderRegex s => str_ok s | _ => True end.

#[export] Instance header_match_faithful : Faithful encode_header_match header_match_ok id.
Proof.
  intros [n v] [n' v'] r s [Hn Hv] [Hn' Hv'] Henc. unfold encode_header_match in Henc. cbn [ghm_name ghm_value] in *.
  rewrite <- !app_assoc in Henc. apply faithful in Henc as [Hne Henc]; [|assumption..]. unfold id in Hne. subst n'. revert Hv Hv' Henc.
  destruct v, v'; decode_tagged.
Qed.

Definition query_match_ok (q : GwQueryParamMatch) : Prop :=
  str_ok (gqm_name q) ∧ match gqm_value q with GwQueryExact s | GwQueryRegex s => str_ok s end.

#[export] Instance query_match_faithful : Faithful encode_query_param_match query_match_ok id.
Proof.
  intros [n v] [n' v'] r s [Hn Hv] [Hn' Hv'] Henc. unfold encode_query_param_match in Henc. cbn [gqm_name gqm_value] in *.
  rewrite <- !app_assoc in Henc. apply faithful in Henc as [Hne Henc]; [|assumption..]. unfold id in Hne. subst n'. revert Hv Hv' Henc.
  destruct v, v'; decode_tagged.
Qed.

Definition canonical_match (m : RouteMatch) : RouteMatch :=
  {| gm_path := gm_path m; gm_headers := canonical (by_str ghm_name) id (gm_headers m);
     gm_query_params := canonical (by_str gqm_name) id (gm_query_params m); gm_method := gm_method m |}.
Definition match_ok (m : RouteMatch) : Prop :=
  option_ok path_match_ok (gm_path m) ∧ option_ok str_ok (gm_method m) ∧ list_ok header_match_ok (gm_headers m) ∧
  list_ok query_match_ok (gm_query_params m).

#[export] Instance match_faithful : Faithful encode_route_match match_ok canonical_match.
Proof.
  intros x y r s (? & ? & ? & ?) (? & ? & ? & ?) Henc. unfold encode_route_match in Henc. decode Henc.
  split; [unfold canonical_match, id in *; congruence|done].
Qed.

Definition path_rewrite_ok (p : GwPathRewrite) : Prop :=
  match p with GwFullReplace s => str_ok s | GwPrefixReplace a b => str_ok a ∧ str_ok b end.

#[export] Instance path_rewrite_faithful : Faithful encode_option_path_rewrite (option_ok path_rewrite_ok) id.
Proof.
  apply option_faithful_id. intros x y r s Hx Hy. unfold encode_path_rewrite.
  destruct x, y; cbn [path_rewrite_ok] in Hx, Hy; destruct_and?; intros Henc; cbn [app] in Henc;
    first [discriminate Henc|apply (f_equal tail) in Henc; cbn [tail] in Henc; decode Henc; subst; split; reflexivity].
Qed.

(** The integers of a filter are within their types, and its strings and lists within the
    length prefix. *)
Definition filter_sized (f : RouteFilter) : Prop :=
  match f with
  | RequestHeaderSet n v | RequestHeaderAdd n v | ResponseHeaderSet n v | ResponseHeaderAdd n v => str_ok n ∧ str_ok v
  | RequestHeaderRemove n | ResponseHeaderRemove n => str_ok n
  | UrlRewrite h p => option_ok str_ok h ∧ option_ok path_rewrite_ok p
  | RequestRedirect sc h p port st =>
      option_ok str_ok sc ∧ option_ok str_ok h ∧ option_ok path_rewrite_ok p ∧ option_ok u16_ok port ∧ u16_ok st
  | RequestMirror b fraction => str_ok b ∧ option_ok (λ q, u32_ok (gf_numerator q) ∧ u32_ok (gf_denominator q)) fraction
  | GwCors o m h e age _ =>
      list_ok str_ok o ∧ list_ok str_ok m ∧ list_ok str_ok h ∧ list_ok str_ok e ∧ option_ok i32_ok age
  end.

(** The fraction of a mirror has no presence byte, so that what follows it cannot be told
    from a fraction: a mirror of all requests is within the domain, one of a part is not. *)
Definition whole_mirror (f : RouteFilter) : Prop := ∀ b fraction, f = RequestMirror b fraction → fraction = None.

Definition filter_ok (f : RouteFilter) : Prop := filter_sized f ∧ whole_mirror f.

#[export] Instance filter_faithful : Faithful encode_route_filter filter_ok id.
Proof.
  intros x y r s Hx Hy Henc. unfold encode_route_filter in Henc. rewrite <- !app_comm_cons in Henc.
  pose proof (f_equal head Henc) as Htag. cbn [head] in Htag. apply (f_equal tail) in Henc. cbn [tail] in Henc.
  injection Htag as Htag%Nat2Z.inj.
  destruct Hx as [Hx Hxw], Hy as [Hy Hyw].
  destruct x, y; try discriminate; cbn [filter_sized] in Hx, Hy; destruct_and?;
    try (rewrite (Hxw _ _ eq_refl), (Hyw _ _ eq_refl) in * ); subst; decode Henc;
    cbn [app] in Henc; subst; split; reflexivity.
Qed.

Definition canonical_rule (r : HTTPRouteRule) : HTTPRouteRule :=
  {| hrr_matches := canonical cmp_route_match canonical_match (hrr_matches r);
     hrr_backends := canonical cmp_backend erase_backend (hrr_backends r);
     hrr_filters := canonical cmp_filter id (hrr_filters r); hrr_timeout_ms := None; hrr_request_timeout_ms := None;
     hrr_programmed := false |}.
Definition rule_ok (r : HTTPRouteRule) : Prop :=
  list_ok match_ok (hrr_matches r) ∧ list_ok backend_ok (hrr_backends r) ∧ list_ok filter_ok (hrr_filters r).

#[export] Instance rule_faithful : Faithful encode_http_route_rule rule_ok canonical_rule.
Proof.
  intros x y r s (? & ? & ?) (? & ? & ?) Henc. unfold encode_http_route_rule in Henc. decode Henc.
  split; [unfold canonical_rule, id in *; congruence|done].
Qed.

Definition canonical_http_route (r : HTTPRouteState) : HTTPRouteState :=
  {| hrs_namespace := hrs_namespace r; hrs_name := hrs_name r; hrs_generation := hrs_generation r;
     hrs_hostnames := canonical cmp_hostname id (hrs_hostnames r); hrs_rules := canonical cmp_rule canonical_rule (hrs_rules r);
     hrs_parent_refs := canonical_refs (hrs_parent_refs r); hrs_programmed := false |}.
Definition http_route_ok (r : HTTPRouteState) : Prop :=
  str_ok (hrs_namespace r) ∧ str_ok (hrs_name r) ∧ i64_ok (hrs_generation r) ∧ list_ok hostname_ok (hrs_hostnames r) ∧
  list_ok parent_ref_ok (hrs_parent_refs r) ∧ list_ok rule_ok (hrs_rules r).

#[export] Instance http_route_faithful : Faithful encode_http_route http_route_ok canonical_http_route.
Proof.
  intros x y r s (? & ? & ? & ? & ? & ?) (? & ? & ? & ? & ? & ?) Henc. unfold encode_http_route in Henc. decode Henc.
  split; [unfold canonical_http_route, id in *; congruence|done].
Qed.

Definition canonical_tcp_route (r : TCPRouteState) : TCPRouteState :=
  {| trs_namespace := trs_namespace r; trs_name := trs_name r; trs_generation := trs_generation r;
     trs_parent_refs := canonical_refs (trs_parent_refs r); trs_backends := erase_backend <$> trs_backends r;
     trs_programmed := trs_programmed r |}.
Definition tcp_route_ok (r : TCPRouteState) : Prop :=
  str_ok (trs_namespace r) ∧ str_ok (trs_name r) ∧ i64_ok (trs_generation r) ∧ list_ok parent_ref_ok (trs_parent_refs r) ∧
  list_ok backend_ok (trs_backends r).

#[export] Instance tcp_route_faithful : Faithful encode_tcp_route tcp_route_ok canonical_tcp_route.
Proof.
  intros x y r s (? & ? & ? & ? & ?) (? & ? & ? & ? & ?) Henc. unfold encode_tcp_route in Henc. decode Henc.
  split; [unfold canonical_tcp_route; congruence|done].
Qed.

Definition canonical_udp_route (r : UDPRouteState) : UDPRouteState :=
  {| urs_namespace := urs_namespace r; urs_name := urs_name r; urs_generation := urs_generation r;
     urs_parent_refs := canonical_refs (urs_parent_refs r); urs_backends := erase_backend <$> urs_backends r;
     urs_programmed := urs_programmed r |}.
Definition udp_route_ok (r : UDPRouteState) : Prop :=
  str_ok (urs_namespace r) ∧ str_ok (urs_name r) ∧ i64_ok (urs_generation r) ∧ list_ok parent_ref_ok (urs_parent_refs r) ∧
  list_ok backend_ok (urs_backends r).

#[export] Instance udp_route_faithful : Faithful encode_udp_route udp_route_ok canonical_udp_route.
Proof.
  intros x y r s (? & ? & ? & ? & ?) (? & ? & ? & ? & ?) Henc. unfold encode_udp_route in Henc. decode Henc.
  split; [unfold canonical_udp_route; congruence|done].
Qed.

Definition canonical_tls_route (r : TLSRouteState) : TLSRouteState :=
  {| lrs_namespace := lrs_namespace r; lrs_name := lrs_name r; lrs_generation := lrs_generation r;
     lrs_hostnames := canonical cmp_hostname id (lrs_hostnames r); lrs_parent_refs := canonical_refs (lrs_parent_refs r);
     lrs_backends := erase_backend <$> lrs_backends r; lrs_programmed := lrs_programmed r |}.
Definition tls_route_ok (r : TLSRouteState) : Prop :=
  str_ok (lrs_namespace r) ∧ str_ok (lrs_name r) ∧ i64_ok (lrs_generation r) ∧ list_ok parent_ref_ok (lrs_parent_refs r) ∧
  list_ok hostname_ok (lrs_hostnames r) ∧ list_ok backend_ok (lrs_backends r).

#[export] Instance tls_route_faithful : Faithful encode_tls_route tls_route_ok canonical_tls_route.
Proof.
  intros x y r s (? & ? & ? & ? & ? & ?) (? & ? & ? & ? & ? & ?) Henc. unfold encode_tls_route in Henc. decode Henc.
  split; [unfold canonical_tls_route, id in *; congruence|done].
Qed.

Definition canonical_gateway (g : GatewayState) : GatewayState :=
  {| gs_namespace := gs_namespace g; gs_name := gs_name g; gs_generation := gs_generation g;
     gs_listeners := canonical (by_str ls_name) erase_listener (gs_listeners g); gs_backend_client_cert_id := None |}.
Definition gateway_ok (g : GatewayState) : Prop :=
  str_ok (gs_namespace g) ∧ str_ok (gs_name g) ∧ i64_ok (gs_generation g) ∧ list_ok listener_ok (gs_listeners g).

#[export] Instance gateway_faithful : Faithful encode_gateway gateway_ok canonical_gateway.
Proof.
  intros x y r s (? & ? & ? & ?) (? & ? & ? & ?) Henc. unfold encode_gateway in Henc. decode Henc.
  split; [unfold canonical_gateway; congruence|done].
Qed.

Definition canonical_route (r : RouteState) : RouteState :=
  {| rs_namespace := rs_namespace r; rs_name := rs_name r; rs_kind := rs_kind r; rs_generation := rs_generation r;
     rs_parent_refs := canonical_refs (rs_parent_refs r) |}.
Definition route_ok (r : RouteState) : Prop :=
  str_ok (rs_namespace r) ∧ str_ok (rs_name r) ∧ str_ok (rs_kind r) ∧ i64_ok (rs_generation r) ∧
  list_ok parent_ref_ok (rs_parent_refs r).

#[export] Instance route_faithful : Faithful encode_route route_ok canonical_route.
Proof.
  intros x y r s (? & ? & ? & ? & ?) (? & ? & ? & ? & ?) Henc. unfold encode_route in Henc. decode Henc.
  split; [unfold canonical_route; congruence|done].
Qed.

Definition canonical_view (v : ReconciledView) : ReconciledView :=
  {| gateways := canonical (by_name gs_namespace gs_name) canonical_gateway (gateways v);
     listener_sets := canonical (by_name lss_namespace lss_name) canonical_listener_set (listener_sets v);
     view_routes := canonical cmp_route canonical_route (view_routes v);
     http_route_states := canonical (by_name hrs_namespace hrs_name) canonical_http_route (http_route_states v);
     grpc_route_states := [];
     tcp_route_states := canonical (by_name trs_namespace trs_name) canonical_tcp_route (tcp_route_states v);
     udp_route_states := canonical (by_name urs_namespace urs_name) canonical_udp_route (udp_route_states v);
     tls_route_states := canonical (by_name lrs_namespace lrs_name) canonical_tls_route (tls_route_states v);
     reference_grants := canonical (by_name rg_namespace rg_name) canonical_grant (reference_grants v);
     backend_tls_policies := [];
     namespace_labels := namespace_labels v;
     listener_allowed := canonical_allowed <$> listener_allowed v;
     listener_set_allowed := canonical_allowed <$> listener_set_allowed v |}.

(** What the faithfulness of the encoding needs: the integers are within their types, no string
    or collection has [2 ^ 32] elements, and no mirror of an HTTP route has a fraction. *)
Definition view_ok (v : ReconciledView) : Prop :=
  list_ok gateway_ok (gateways v) ∧ list_ok listener_set_ok (listener_sets v) ∧ list_ok route_ok (view_routes v) ∧
  list_ok http_route_ok (http_route_states v) ∧ list_ok tcp_route_ok (tcp_route_states v) ∧
  list_ok udp_route_ok (udp_route_states v) ∧ list_ok tls_route_ok (tls_route_states v) ∧
  list_ok grant_ok (reference_grants v) ∧ labels_ok (namespace_labels v) ∧
  allowed_map_ok (listener_allowed v) ∧ allowed_map_ok (listener_set_allowed v).

(** The same in two parts: what the types and the length prefixes bound, and the mirrors. *)
Definition rule_sized (r : HTTPRouteRule) : Prop :=
  list_ok match_ok (hrr_matches r) ∧ list_ok backend_ok (hrr_backends r) ∧ list_ok filter_sized (hrr_filters r).
Definition http_route_sized (r : HTTPRouteState) : Prop :=
  str_ok (hrs_namespace r) ∧ str_ok (hrs_name r) ∧ i64_ok (hrs_generation r) ∧ list_ok hostname_ok (hrs_hostnames r) ∧
  list_ok parent_ref_ok (hrs_parent_refs r) ∧ list_ok rule_sized (hrs_rules r).
Definition view_sized (v : ReconciledView) : Prop :=
  list_ok gateway_ok (gateways v) ∧ list_ok listener_set_ok (listener_sets v) ∧ list_ok route_ok (view_routes v) ∧
  list_ok http_route_sized (http_route_states v) ∧ list_ok tcp_route_ok (tcp_route_states v) ∧
  list_ok udp_route_ok (udp_route_states v) ∧ list_ok tls_route_ok (tls_route_states v) ∧
  list_ok grant_ok (reference_grants v) ∧ labels_ok (namespace_labels v) ∧
  allowed_map_ok (listener_allowed v) ∧ allowed_map_ok (listener_set_allowed v).

Definition whole_mirrors (v : ReconciledView) : Prop :=
  ∀ r rule b fraction, r ∈ http_route_states v → rule ∈ hrs_rules r →
    RequestMirror b fraction ∈ hrr_filters rule → fraction = None.

Lemma list_ok_impl {A} (P Q : A → Prop) l : list_ok P l → (∀ x, x ∈ l → P x → Q x) → list_ok Q l.
Proof. intros [HP Hl] HPQ. split; [|done]. rewrite Forall_forall in *. eauto. Qed.

Lemma view_ok_sized v : view_sized v → whole_mirrors v → view_ok v.
Proof.
  intros (? & ? & ? & Hr & Hrest) Hw. do 3 (split; [done|]). split; [|exact Hrest]. apply (list_ok_impl _ _ _ Hr).
  intros r Hin (? & ? & ? & ? & ? & Hrules). split_and!; try done. apply (list_ok_impl _ _ _ Hrules).
  intros rule Hrule (? & ? & Hf). split_and!; try done. apply (list_ok_impl _ _ _ Hf).
  intros f Hinf Hfs. split; [done|]. intros b fraction ->. by eapply Hw.
Qed.

#[export] Instance view_faithful : Faithful encode_view view_ok canonical_view.
Proof.
  intros x y r s (? & ? & ? & ? & ? & ? & ? & ? & ? & ? & ?) (? & ? & ? & ? & ? & ? & ? & ? & ? & ? & ?) Henc.
  unfold encode_view in Henc. decode Henc. split; [unfold canonical_view; congruence|done].
Qed.

(** ** Orders of the comparators *)

Class CmpOrder {A} (cmp : A → A → comparison) : Prop := {
  cmp_opp a b : cmp b a = CompOpp (cmp a b);
  cmp_lt_trans a b c : cmp a b = Lt → cmp b c = Lt → cmp a c = Lt;
  cmp_eq_l a b c : cmp a b = Eq → cmp a c = cmp b c;
}.

#[export] Instance string_order : CmpOrder String.compare.
Proof.
  assert (∀ a b, String.compare a b = Eq → a = b) as Heq by (intros a b; apply String.compare_eq_iff).
  split.
  - intros a b. apply String.compare_antisym.
  - intros a b c Hab Hbc. assert (String.leb a c = true) as Hle.
    { apply (leb_trans a b c); unfold String.leb; [by rewrite Hab|by rewrite Hbc]. }
    unfold String.leb in Hle. destruct (String.compare a c) eqn:Hac; [|done|discriminate]. apply Heq in Hac as ->.
    rewrite String.compare_antisym, Hbc in Hab. discriminate.
  - by intros a b c ->%Heq.
Qed.

#[export] Instance by_str_order {A} (f : A → string) : CmpOrder (by_str f).
Proof. split; intros; unfold by_str in *; [apply cmp_opp|by eapply cmp_lt_trans|by apply cmp_eq_l]. Qed.

Lemma cmp_eq_r {A} (cmp : A → A → comparison) `{!CmpOrder cmp} a b c : cmp b c = Eq → cmp a b = cmp a c.
Proof. intros He. rewrite (cmp_opp b a), (cmp_opp c a). by rewrite (cmp_eq_l b c a He). Qed.

#[export] Instance then_with_order {A} (c d : A → A → comparison) :
  CmpOrder c → CmpOrder d → CmpOrder (λ a b, then_with (c a b) (d a b)).
Proof.
  intros C D. split.
  - intros a b. rewrite (cmp_opp (cmp := c) a b), (cmp_opp (cmp := d) a b). by destruct (c a b).
  - intros a b e. unfold then_with. destruct (c a b) eqn:Hab, (c b e) eqn:Hbe; try done.
    + rewrite (cmp_eq_l a b e Hab), Hbe. apply cmp_lt_trans.
    + by rewrite (cmp_eq_l a b e Hab), Hbe.
    + by rewrite <- (cmp_eq_r c a b e Hbe), Hab.
    + by rewrite (cmp_lt_trans a b e Hab Hbe).
  - intros a b e. unfold then_with. destruct (c a b) eqn:Hab; try done. intros Hd. by rewrite (cmp_eq_l a b e Hab), (cmp_eq_l a b e Hd).
Qed.

#[export] Instance by_name_order {A} (ns name : A → string) : CmpOrder (by_name ns name) := then_with_order _ _ _ _.
#[export] Instance cmp_route_order : CmpOrder cmp_route := then_with_order _ _ _ _.

Lemma cmp_le_total {A} (cmp : A → A → comparison) `{!CmpOrder cmp} a b : cmp_le cmp a b = true ∨ cmp_le cmp b a = true.
Proof. unfold cmp_le. rewrite (cmp_opp a b). destruct (cmp a b); auto. Qed.

Lemma cmp_le_trans {A} (cmp : A → A → comparison) `{!CmpOrder cmp} a b c :
  cmp_le cmp a b = true → cmp_le cmp b c = true → cmp_le cmp a c = true.
Proof.
  unfold cmp_le. destruct (cmp a b) eqn:Hab, (cmp b c) eqn:Hbc; try done; intros _ _.
  - by rewrite (cmp_eq_l a b c Hab), Hbc.
  - by rewrite (cmp_eq_l a b c Hab), Hbc.
  - by rewrite <- (cmp_eq_r cmp a b c Hbc), Hab.
  - by rewrite (cmp_lt_trans a b c Hab Hbc).
Qed.

(** The sorted encoding of resources whose keys are distinct does not depend on their order. *)
Lemma encode_sorted_perm {A K} (key : A → K) (cmp : A → A → comparison) `{!CmpOrder cmp} enc l l' :
  (∀ a b, cmp a b = Eq → key a = key b) → NoDup (key <$> l) → l ≡ₚ l' → encode_sorted cmp enc l = encode_sorted cmp enc l'.
Proof.
  intros Hk Hn Hp. unfold encode_sorted. f_equal. apply sort_by_unique; [apply cmp_le_total; apply _|apply cmp_le_trans; apply _| |done].
  intros x y Hx Hy. unfold cmp_le. rewrite (cmp_opp x y). destruct (cmp x y) eqn:He; try done. intros _ _.
  by eapply (NoDup_fmap_elem_inj key); [..|apply Hk].
Qed.

(** ** Theorems *)

(** Two views that list the same resources, those of each kind under distinct keys, in any
    order. *)
Record same_resources (v w : ReconciledView) : Prop := {
  sr_gateways : NoDup ((λ g, (gs_namespace g, gs_name g)) <$> gateways v) ∧ gateways v ≡ₚ gateways w;
  sr_listener_sets : NoDup ((λ s, (lss_namespace s, lss_name s)) <$> listener_sets v) ∧ listener_sets v ≡ₚ listener_sets w;
  sr_routes : NoDup ((λ r, (rs_kind r, rs_namespace r, rs_name r)) <$> view_routes v) ∧ view_routes v ≡ₚ view_routes w;
  sr_http : NoDup ((λ r, (hrs_namespace r, hrs_name r)) <$> http_route_states v) ∧ http_route_states v ≡ₚ http_route_states w;
  sr_tcp : NoDup ((λ r, (trs_namespace r, trs_name r)) <$> tcp_route_states v) ∧ tcp_route_states v ≡ₚ tcp_route_states w;
  sr_udp : NoDup ((λ r, (urs_namespace r, urs_name r)) <$> udp_route_states v) ∧ udp_route_states v ≡ₚ udp_route_states w;
  sr_tls : NoDup ((λ r, (lrs_namespace r, lrs_name r)) <$> tls_route_states v) ∧ tls_route_states v ≡ₚ tls_route_states w;
  sr_grants : NoDup ((λ g, (rg_namespace g, rg_name g)) <$> reference_grants v) ∧ reference_grants v ≡ₚ reference_grants w;
  sr_maps : namespace_labels v = namespace_labels w ∧ listener_allowed v = listener_allowed w ∧
            listener_set_allowed v = listener_set_allowed w;
}.

Lemma by_str_eq {A} (f : A → string) a b : by_str f a b = Eq → f a = f b.
Proof. apply String.compare_eq_iff. Qed.

Lemma by_name_eq {A} (ns name : A → string) a b : by_name ns name a b = Eq → (ns a, name a) = (ns b, name b).
Proof.
  unfold by_name, then_with. destruct (by_str ns a b) eqn:Hns; try discriminate.
  intros ->%by_str_eq. by apply by_str_eq in Hns as ->.
Qed.

Lemma cmp_route_eq a b : cmp_route a b = Eq → (rs_kind a, rs_namespace a, rs_name a) = (rs_kind b, rs_namespace b, rs_name b).
Proof.
  unfold cmp_route, then_with. destruct (by_str rs_kind a b) eqn:Hk; try discriminate.
  intros [= -> ->]%by_name_eq. by apply by_str_eq in Hk as ->.
Qed.

Section digest_theorems.
Context `{!Blake3}.

(** C19. What a digest stands for. Two views with the same digest, whose encodings are not a
    collision of the hash, agree on everything that the encoding covers: they have the same
    canonical view, in which the objects of each kind are sorted and reduced to the fields that
    are encoded (among others, gRPC routes, backend TLS policies, listener hostnames and
    timeouts are not). So the encoding is read back unambiguously. This is for views whose
    integers are within their types and whose strings and collections have fewer than 2^32
    elements, and in which no mirror filter of an HTTP route has a fraction: the fraction is
    encoded without a presence byte, and a view that has one can be confused with another. *)
Theorem digest_determines_view v w :
  view_sized v → view_sized w → whole_mirrors v → whole_mirrors w →
  (blake3 (encode_view v) = blake3 (encode_view w) → encode_view v = encode_view w) →
  compute_digest v = compute_digest w → canonical_view v = canonical_view w.
Proof.
  intros Hv Hw Hmv Hmw Hinj Hd%Hinj.
  destruct (faithful (enc := encode_view) v w [] []) as [Hc _]; [by apply view_ok_sized..| |exact Hc].
  by rewrite !app_nil_r.
Qed.

(** A digest does not depend on the order in which the resources of a view come, as long
    as those of a kind have distinct names: replicas that list the same resources publish
    the same digest. *)
Theorem digest_order_irrelevant v w : same_resources v w → compute_digest v = compute_digest w.
Proof.
  intros [[] [] [] [] [] [] [] [] (Hl & Ha & Hs)]. unfold compute_digest, encode_view. f_equal.
  rewrite Hl, Ha, Hs.
  do 8 (apply (f_equal2 app);
        [first [eapply (encode_sorted_perm _ _ _ _ _ (by_name_eq _ _))|eapply (encode_sorted_perm _ _ _ _ _ cmp_route_eq)];
         assumption|]).
  reflexivity.
Qed.

(** What a digest does not see: routes of gRPC and policies of backends are not encoded. *)
Lemma digest_ignores_grpc v grpc policies :
  compute_digest {| gateways := gateways v; listener_sets := listener_sets v; view_routes := view_routes v;
                    http_route_states := http_route_states v; grpc_route_states := grpc;
                    tcp_route_states := tcp_route_states v; udp_route_states := udp_route_states v;
                    tls_route_states := tls_route_states v; reference_grants := reference_grants v;
                    backend_tls_policies := policies; namespace_labels := namespace_labels v;
                    listener_allowed := listener_allowed v; listener_set_allowed := listener_set_allowed v |} =
  compute_digest v.
Proof. reflexivity. Qed.
End digest_theorems.

(** ** Examples *)

Module DigestExamples.
#[local] Instance no_hash : Blake3 := id.

Definition listener (hostname : option string) : ListenerState :=
  {| ls_name := "web"; ls_protocol := "HTTPS"; ls_port := 443; ls_hostname := hostname; ls_tls_mode := Some Terminate;
     ls_frontend_validation := None; ls_programmed := true |}.

Definition gateway (name : string) (ls : list ListenerState) : GatewayState :=
  {| gs_namespace := "infra"; gs_name := name; gs_generation := 1; gs_listeners := ls; gs_backend_client_cert_id := None |}.

Definition view_of (gs : list GatewayState) : ReconciledView :=
  {| gateways := gs; listener_sets := []; view_routes := []; http_route_states := []; grpc_route_states := [];
     tcp_route_states := []; udp_route_states := []; tls_route_states := []; reference_grants := [];
     backend_tls_policies := []; namespace_labels := ∅; listener_allowed := ∅; listener_set_allowed := ∅ |}.

(** The hostname of a listener is not in the digest. *)
Example hostname_unseen :
  compute_digest (view_of [gateway "a" [listener (Some "a.example")]]) =
  compute_digest (view_of [gateway "a" [listener (Some "b.example")]]).
Proof. vm_compute. reflexivity. Qed.

Definition rule (paths : list string) : HTTPRouteRule :=
  {| hrr_matches := (λ p, {| gm_path := Some (GwPathPrefix p); gm_headers := []; gm_query_params := []; gm_method := None |}) <$> paths;
     hrr_backends := []; hrr_filters := []; hrr_timeout_ms := None; hrr_request_timeout_ms := None; hrr_programmed := true |}.

Definition route (rules : list HTTPRouteRule) : HTTPRouteState :=
  {| hrs_namespace := "apps"; hrs_name := "r"; hrs_generation := 1; hrs_hostnames := []; hrs_rules := rules;
     hrs_parent_refs := []; hrs_programmed := true |}.

(** Nor is the order of two rules with different numbers of matches. *)
Example rule_order_unseen :
  encode_http_route (route [rule ["/a"]; rule ["/a"; "/b"]]) = encode_http_route (route [rule ["/a"; "/b"]; rule ["/a"]]).
Proof. vm_compute. reflexivity. Qed.

(** Two different lists of mirrors with one encoding: the name of the second mirror on the
    right holds, after three bytes, the encoding of the second mirror on the left. *)
Example mirror_fraction_ambiguous :
  let inner := RequestMirror "c" None in
  let filters1 := [RequestMirror "a" (Some {| gf_numerator := 8 * 2 ^ 24; gf_denominator := 9 * 2 ^ 24 + 97 * 65793 |}); inner] in
  let filters2 := [RequestMirror "a" None; RequestMirror ("aaa" +:+ string_of_bytes (encode_route_filter inner)) None] in
  filters1 ≠ filters2 ∧ encode_list encode_route_filter filters1 = encode_list encode_route_filter filters2.
Proof. split; [discriminate|vm_compute; reflexivity]. Qed.

(** Both views are within the domain. *)
Lemma gateways_ok : view_sized (view_of [gateway "a" [listener None]]) ∧ view_sized (view_of [gateway "a" [listener (Some "x")]]).
Proof.
  assert (∀ h, view_sized (view_of [gateway "a" [listener h]])) as Hok.
  { intros h. repeat split; cbn; repeat constructor; try done; rewrite map_to_list_empty; done. }
  split; apply Hok.
Qed.

(** The theorem, on two views that differ in the hostname of a listener. *)
Lemma digest_determines_view_witness :
  canonical_view (view_of [gateway "a" [listener None]]) = canonical_view (view_of [gateway "a" [listener (Some "x")]]).
Proof.
  apply (digest_determines_view (view_of [gateway "a" [listener None]]) (view_of [gateway "a" [listener (Some "x")]]));
    [exact (proj1 gateways_ok)|exact (proj2 gateways_ok)|intros r rule b f Hr; by apply elem_of_nil in Hr
    |intros r rule b f Hr; by apply elem_of_nil in Hr|intros H; exact H|vm_compute; reflexivity].
Defined.

(** The theorem, on two gateways. *)
Lemma digest_order_irrelevant_witness :
  compute_digest (view_of [gateway "a" []; gateway "b" [listener None]]) =
  compute_digest (view_of [gateway "b" [listener None]; gateway "a" []]).
Proof.
  apply digest_order_irrelevant. split; try (split; [constructor|reflexivity]); [|by split_and!].
  split; [apply (bool_decide_unpack _); vm_compute; exact I|apply Permutation_swap].
Defined.
End DigestExamples.
