(* ===== verification/RouteParse.v ===== *)
(** * Reading routes ([src/gateway/reconcile/route/http_parse.rs], [grpc_parse.rs],
    [header_filter.rs], [reconcile/parent.rs], [reconcile/l4route/kinds.rs],
    [reconcile/refgrant.rs], [reconcile/mod.rs]).

    From the objects of the API server to the states of routes and grants. Of an object the
    fields the code reads are kept, optional where the API makes them optional. *)

From S2P Require Import Prelude Ir Hostname Gateway Json.

(** Metadata: namespace, name and generation. *)
Record ObjectMeta := {
  om_namespace : option string;
  om_name : option string;
  om_generation : option Z;
}.

Definition meta_namespace (m : ObjectMeta) : string := default "default" (om_namespace m).
Definition meta_name (m : ObjectMeta) : string := default "" (om_name m).
Definition meta_generation (m : ObjectMeta) : Z := default 0 (om_generation m).

(** ** Parents and hostnames *)

Record RawParentRef := {
  rpr_group : option string;
  rpr_kind : option string;
  rpr_namespace : option string;
  rpr_name : string;
  rpr_section_name : option string;
  rpr_port : option Z;
}.

(** The macro [impl_parse_parent_refs]. *)
Definition parse_parent_refs (refs : option (list RawParentRef)) : list ParsedParentRef :=
  omap (λ v, Some {| pp_group := default "gateway.networking.k8s.io" (rpr_group v); pp_kind := default "Gateway" (rpr_kind v);
                     pp_namespace := rpr_namespace v; pp_name := rpr_name v; pp_section_name := rpr_section_name v;
                     pp_port := rpr_port v |}) (default [] refs).

Definition parse_route_hostnames (hostnames : option (list string)) : list GwHostnameMatch :=
  (λ s, match strip_prefix "*." s with Some rest => GwWildcard rest | None => GwExact s end) <$> default [] hostnames.

(** ** Filters ([header_filter.rs]) *)

Record HeaderModifier := {
  hm_set : option (list (string * string));
  hm_add : option (list (string * string));
  hm_remove : option (list string);
}.

Definition parse_request_header_modifier (m : HeaderModifier) : list RouteFilter :=
  ((λ h, RequestHeaderSet h.1 h.2) <$> default [] (hm_set m)) ++
  ((λ h, RequestHeaderAdd h.1 h.2) <$> default [] (hm_add m)) ++
  (RequestHeaderRemove <$> default [] (hm_remove m)).

Definition parse_response_header_modifier (m : HeaderModifier) : list RouteFilter :=
  ((λ h, ResponseHeaderSet h.1 h.2) <$> default [] (hm_set m)) ++
  ((λ h, ResponseHeaderAdd h.1 h.2) <$> default [] (hm_add m)) ++
  (ResponseHeaderRemove <$> default [] (hm_remove m)).

(** ** HTTP routes ([http_parse.rs]) *)

Inductive RawFilterType :=
| FtUrlRewrite | FtRequestHeaderModifier | FtResponseHeaderModifier | FtRequestRedirect | FtRequestMirror | FtCors | FtOther.

Inductive RawPathRewriteType := ReplaceFullPath | ReplacePrefixMatch.

Record RawPathRewrite := {
  rp_type : RawPathRewriteType;
  rp_replace_full_path : option string;
  rp_replace_prefix_match : option string;
}.

Record RawUrlRewrite := {
  ru_hostname : option string;
  ru_path : option RawPathRewrite;
}.

Inductive RawScheme := RawHttp | RawHttps.

Record RawRedirect := {
  rd_scheme : option RawScheme;
  rd_hostname : option string;
  rd_path : option RawPathRewrite;
  rd_port : option Z;
  rd_status_code : option Z;
}.

Record RawMirror := {
  rmi_name : string;
  rmi_namespace : option string;
  rmi_port : option Z;
  rmi_fraction : option (Z * option Z);
  rmi_percent : option Z;
}.

Record RawCors := {
  rco_allow_origins : option (list string);
  rco_allow_methods : option (list string);
  rco_allow_headers : option (list string);
  rco_expose_headers : option (list string);
  rco_max_age : option Z;
  rco_allow_credentials : option bool;
}.

(** A filter: its type and what the object has for each type. *)
Record RawFilter := {
  rf_type : RawFilterType;
  rf_url_rewrite : option RawUrlRewrite;
  rf_request_header_modifier : option HeaderModifier;
  rf_response_header_modifier : option HeaderModifier;
  rf_request_redirect : option RawRedirect;
  rf_request_mirror : option RawMirror;
  rf_cors : option RawCors;
}.

(** The address of a Service, [format!("{}.{}.svc.cluster.local.:{}", name, ns, port)]. *)
Definition service_address (name ns : string) (port : Z) : string :=
  name +:+ "." +:+ ns +:+ ".svc.cluster.local.:" +:+ pretty port.

Definition parse_url_rewrite_path (p : RawPathRewrite) : option GwPathRewrite :=
  match rp_type p with
  | ReplacePrefixMatch => Some (GwPrefixReplace "/" (default "" (rp_replace_prefix_match p)))
  | ReplaceFullPath => GwFullReplace <$> rp_replace_full_path p
  end.

Definition parse_redirect_path (p : RawPathRewrite) : option GwPathRewrite :=
  match rp_type p with
  | ReplaceFullPath => GwFullReplace <$> rp_replace_full_path p
  | ReplacePrefixMatch => GwPrefixReplace "/" <$> rp_replace_prefix_match p
  end.

Definition parse_mirror_fraction (m : RawMirror) : option GwFraction :=
  match rmi_fraction m with
  | Some (numerator, denominator) =>
      Some {| gf_numerator := Z.max numerator 0; gf_denominator := Z.max (default 100 denominator) 1 |}
  | None => (λ p, {| gf_numerator := Z.max p 0; gf_denominator := 100 |}) <$> rmi_percent m
  end.

Definition http_parse_filter (route_ns : string) (f : RawFilter) : list RouteFilter :=
  match rf_type f with
  | FtUrlRewrite =>
      match rf_url_rewrite f with
      | None => []
      | Some u =>
          let path := ru_path u ≫= parse_url_rewrite_path in
          match ru_hostname u, path with
          | None, None => []
          | hostname, path => [UrlRewrite hostname path]
          end
      end
  | FtRequestHeaderModifier => from_option parse_request_header_modifier [] (rf_request_header_modifier f)
  | FtResponseHeaderModifier => from_option parse_response_header_modifier [] (rf_response_header_modifier f)
  | FtRequestRedirect =>
      match rf_request_redirect f with
      | None => []
      | Some r =>
          [RequestRedirect ((λ s, match s with RawHttp => "http" | RawHttps => "https" end) <$> rd_scheme r) (rd_hostname r)
             (rd_path r ≫= parse_redirect_path) (wrap 16 <$> rd_port r) (wrap 16 (default 302 (rd_status_code r)))]
      end
  | FtRequestMirror =>
      match rf_request_mirror f with
      | None => []
      | Some m =>
          [RequestMirror (service_address (rmi_name m) (default route_ns (rmi_namespace m)) (default 80 (rmi_port m)))
             (parse_mirror_fraction m)]
      end
  | FtCors =>
      match rf_cors f with
      | None => []
      | Some c =>
          [GwCors (default [] (rco_allow_origins c)) (default [] (rco_allow_methods c)) (default [] (rco_allow_headers c))
             (default [] (rco_expose_headers c)) (rco_max_age c) (default false (rco_allow_credentials c))]
      end
  | FtOther => []
  end.

(** Also [parse_filter] and [parse_backend_filter] of [grpc_parse.rs]. *)
Definition parse_backend_filter (f : RawFilter) : list RouteFilter :=
  match rf_type f with
  | FtRequestHeaderModifier => from_option parse_request_header_modifier [] (rf_request_header_modifier f)
  | FtResponseHeaderModifier => from_option parse_response_header_modifier [] (rf_response_header_modifier f)
  | _ => []
  end.

Inductive RawMatchType := RmtExact | RmtRegularExpression.

Record RawValueMatch := {
  rv_type : option RawMatchType;
  rv_name : string;
  rv_value : string;
}.

(** Also that of [grpc_parse.rs]. *)
Definition parse_header_match (v : RawValueMatch) : option GwHeaderMatch :=
  Some {| ghm_name := rv_name v;
          ghm_value := match default RmtExact (rv_type v) with
                       | RmtExact => GwHeaderExact (rv_value v)
                       | RmtRegularExpression => GwHeaderRegex (rv_value v)
                       end |}.

Definition parse_query_param_match (v : RawValueMatch) : option GwQueryParamMatch :=
  Some {| gqm_name := rv_name v;
          gqm_value := match default RmtExact (rv_type v) with
                       | RmtExact => GwQueryExact (rv_value v)
                       | RmtRegularExpression => GwQueryRegex (rv_value v)
                       end |}.

Inductive RawMethod :=
| MethodGet | MethodHead | MethodPost | MethodPut | MethodDelete | MethodConnect | MethodOptions | MethodTrace | MethodPatch.

Definition method_to_str (m : RawMethod) : string :=
  match m with
  | MethodGet => "GET" | MethodHead => "HEAD" | MethodPost => "POST" | MethodPut => "PUT" | MethodDelete => "DELETE"
  | MethodConnect => "CONNECT" | MethodOptions => "OPTIONS" | MethodTrace => "TRACE" | MethodPatch => "PATCH"
  end.

Inductive RawPathType := RptExact | RptPathPrefix | RptRegularExpression.

Definition parse_path_match (p : option RawPathType * option string) : option GwPathMatch :=
  let val := default "/" p.2 in
  Some match default RptPathPrefix p.1 with
       | RptExact => GwPathExact val
       | RptPathPrefix => GwPathPrefix val
       | RptRegularExpression => GwPathRegex val
       end.

Record RawHttpMatch := {
  rhm_path : option (option RawPathType * option string);
  rhm_method : option RawMethod;
  rhm_headers : option (list RawValueMatch);
  rhm_query_params : option (list RawValueMatch);
}.

Definition http_parse_match (v : RawHttpMatch) : option RouteMatch :=
  Some {| gm_path := rhm_path v ≫= parse_path_match;
          gm_headers := omap parse_header_match (default [] (rhm_headers v));
          gm_query_params := omap parse_query_param_match (default [] (rhm_query_params v));
          gm_method := method_to_str <$> rhm_method v |}.

(** A backendRef, the fields of [BackendRefLike] and its filters. *)
Record RawBackendRef := {
  rbr_ref : BackendRef;
  rbr_filters : option (list RawFilter);
}.

(** Also that of [grpc_parse.rs]. *)
Definition parse_backend_ref (route_ns : string) (v : RawBackendRef) : option GwWeightedBackend :=
  let b := rbr_ref v in
  Some {| gwb_backend := service_address (bref_name b) (default route_ns (bref_namespace b)) (default 80 (bref_port b));
          gwb_weight := wrap 32 (default 1 (bref_weight b));
          gwb_filters := default [] (rbr_filters v) ≫= parse_backend_filter;
          gwb_protocol := BackendHttp; gwb_tls := None |}.

(** [gateway_api::Duration::from_str] and [as_millis]. *)
Class DurationParser := parse_duration_ms : string → option Z.

Record RawHttpRule := {
  rhr_matches : option (list RawHttpMatch);
  rhr_backend_refs : option (list RawBackendRef);
  rhr_filters : option (list RawFilter);
  rhr_timeout_request : option string;
  rhr_timeout_backend_request : option string;
}.

Section http.
Context `{!DurationParser}.

Definition http_parse_rule (route_ns : string) (v : RawHttpRule) : option HTTPRouteRule :=
  Some {| hrr_matches := omap http_parse_match (default [] (rhr_matches v));
          hrr_backends := omap (parse_backend_ref route_ns) (default [] (rhr_backend_refs v));
          hrr_filters := default [] (rhr_filters v) ≫= http_parse_filter route_ns;
          hrr_timeout_ms := rhr_timeout_backend_request v ≫= λ d, wrap 64 <$> parse_duration_ms d;
          hrr_request_timeout_ms := rhr_timeout_request v ≫= λ d, wrap 64 <$> parse_duration_ms d;
          hrr_programmed := true |}.

Record HTTPRoute := {
  hr_meta : ObjectMeta;
  hr_parent_refs : option (list RawParentRef);
  hr_hostnames : option (list string);
  hr_rules : option (list RawHttpRule);
}.

Definition parse_httproute_state (r : HTTPRoute) : HTTPRouteState :=
  let ns := meta_namespace (hr_meta r) in
  {| hrs_namespace := ns; hrs_name := meta_name (hr_meta r); hrs_generation := meta_generation (hr_meta r);
     hrs_hostnames := parse_route_hostnames (hr_hostnames r);
     hrs_rules := omap (http_parse_rule ns) (default [] (hr_rules r)); hrs_parent_refs := []; hrs_programmed := false |}.
End http.

(** ** gRPC routes ([grpc_parse.rs]) *)

Record RawMethodMatch := {
  rmm_type : option RawMatchType;
  rmm_service : option string;
  rmm_method : option string;
}.

Definition parse_method_match (v : RawMethodMatch) : option MethodMatch :=
  let service := default "" (rmm_service v) in
  match rmm_method v with
  | None =>
      if str_is_empty service then None
      else Some {| mm_match_type := match rmm_type v with Some RmtRegularExpression => MethodRegular | _ => MethodExact end;
                   mm_service := service; mm_method := None; mm_case_sensitive := true |}
  | Some m =>
      Some {| mm_match_type := match rmm_type v with Some RmtRegularExpression => MethodRegular | _ => MethodExact end;
              mm_service := service; mm_method := Some m; mm_case_sensitive := true |}
  end.

Record RawGrpcRule := {
  rgr_name : option string;
  rgr_matches : option (list (option RawMethodMatch * option (list RawValueMatch)));
  rgr_backend_refs : option (list RawBackendRef);
  rgr_filters : option (list RawFilter);
}.

Definition grpc_parse_match (v : option RawMethodMatch * option (list RawValueMatch)) : option GRPCRouteMatch :=
  Some {| grm_method := v.1 ≫= parse_method_match; grm_headers := omap parse_header_match (default [] v.2) |}.

Definition grpc_parse_rule (route_ns : string) (v : RawGrpcRule) : option GRPCRouteRule :=
  Some {| grr_name := rgr_name v; grr_matches := omap grpc_parse_match (default [] (rgr_matches v));
          grr_backends := omap (parse_backend_ref route_ns) (default [] (rgr_backend_refs v));
          grr_filters := default [] (rgr_filters v) ≫= parse_backend_filter; grr_programmed := true |}.

Record GRPCRoute := {
  gr_meta : ObjectMeta;
  gr_parent_refs : option (list RawParentRef);
  gr_hostnames : option (list string);
  gr_rules : option (list RawGrpcRule);
}.

Definition parse_grpcroute_state (r : GRPCRoute) : GRPCRouteState :=
  let ns := meta_namespace (gr_meta r) in
  {| grs_namespace := ns; grs_name := meta_name (gr_meta r); grs_generation := meta_generation (gr_meta r);
     grs_hostnames := parse_route_hostnames (gr_hostnames r);
     grs_rules := omap (grpc_parse_rule ns) (default [] (gr_rules r)); grs_parent_refs := []; grs_programmed := false |}.

(** ** L4 routes ([l4route/kinds.rs]) *)

(** A TCPRoute, UDPRoute or TLSRoute; only the last has hostnames. *)
Record RawL4Route := {
  rl_meta : ObjectMeta;
  rl_parent_refs : option (list RawParentRef);
  rl_hostnames : list string;
  rl_rules : list (list BackendRef);
}.

Record ParsedL4Route := {
  pl_namespace : string;
  pl_name : string;
  pl_generation : Z;
  pl_hostnames : list GwHostnameMatch;
  pl_parent_refs : list ParsedParentRef;
  pl_backends : list BackendRef;
}.

(** [flatten_tcp_backends], [flatten_udp_backends] and [flatten_tls_backends]. *)
Definition flatten_backends (rules : list (list BackendRef)) : list BackendRef := rules ≫= id.

Definition parse_l4_route (hostnames : list GwHostnameMatch) (r : RawL4Route) : ParsedL4Route :=
  {| pl_namespace := meta_namespace (rl_meta r); pl_name := meta_name (rl_meta r); pl_generation := meta_generation (rl_meta r);
     pl_hostnames := hostnames; pl_parent_refs := parse_parent_refs (rl_parent_refs r);
     pl_backends := flatten_backends (rl_rules r) |}.

Definition parse_tcproute (r : RawL4Route) : ParsedL4Route := parse_l4_route [] r.
Definition parse_udproute (r : RawL4Route) : ParsedL4Route := parse_l4_route [] r.
Definition parse_tlsroute (r : RawL4Route) : ParsedL4Route := parse_l4_route (parse_route_hostnames (Some (rl_hostnames r))) r.

(** ** Grants ([refgrant.rs]) *)

Record RawReferenceGrant (J : Type) := {
  rrg_meta : ObjectMeta;
  rrg_from : list J;
  rrg_to : list J;
}.
#[global] Arguments rrg_meta {J} _.
#[global] Arguments rrg_from {J} _.
#[global] Arguments rrg_to {J} _.

Section grants.
Context {J : Type} `{!JsonOps J}.

Definition parse_grant_subject (v : J) : option GrantSubject :=
  if bool_decide (is_Some (j_entries v))
  then Some {| gsub_group := default "" (field_str v "group"); gsub_kind := default "" (field_str v "kind");
               gsub_namespace := field_str v "namespace"; gsub_name := field_str v "name" |}
  else None.

Definition parse_reference_grant (g : RawReferenceGrant J) : ReferenceGrantState :=
  {| rg_namespace := meta_namespace (rrg_meta g); rg_name := meta_name (rrg_meta g);
     rg_generation := meta_generation (rrg_meta g); rg_from := omap parse_grant_subject (rrg_from g);
     rg_to := omap parse_grant_subject (rrg_to g) |}.

Definition reconcile_reference_grants (gs : list (RawReferenceGrant J)) : list ReferenceGrantState := parse_reference_grant <$> gs.
End grants.

(** ** Collecting routes ([route/mod.rs], [reconcile/mod.rs]) *)

(** [resolve_backend_refs] is [resolve_backend_refs_async] without the look at the Service. *)
Definition resolve_backend_refs (route_ns route_kind : string) (grants : list ReferenceGrantState)
    (rules : option (list (option (list BackendRef)))) : BackendResolution :=
  @resolve_backend_refs_async (λ _ _, true) route_ns route_kind grants rules.

(** The references [RouteLike] and [RuleLike] give access to. *)
Definition rule_backend_refs (refs : option (list RawBackendRef)) : option (list BackendRef) := (λ l : list _, rbr_ref <$> l) <$> refs.

Definition http_backend_refs (r : HTTPRoute) : option (list (option (list BackendRef))) :=
  (λ rules : list _, (λ rule, rule_backend_refs (rhr_backend_refs rule)) <$> rules) <$> hr_rules r.

Definition grpc_backend_refs (r : GRPCRoute) : option (list (option (list BackendRef))) :=
  (λ rules : list _, (λ rule, rule_backend_refs (rgr_backend_refs rule)) <$> rules) <$> gr_rules r.

(** [RouteResource] for the two kinds. *)
Definition http_attaching (r : HTTPRoute) : AttachingRoute :=
  {| at_namespace := meta_namespace (hr_meta r); at_kind := "HTTPRoute";
     at_hostnames := parse_route_hostnames (hr_hostnames r); at_protocols := Some ["HTTP"; "HTTPS"];
     at_generation := meta_generation (hr_meta r) |}.

Definition grpc_attaching (r : GRPCRoute) : AttachingRoute :=
  {| at_namespace := meta_namespace (gr_meta r); at_kind := "GRPCRoute";
     at_hostnames := parse_route_hostnames (gr_hostnames r); at_protocols := Some ["HTTP"; "HTTPS"];
     at_generation := meta_generation (gr_meta r) |}.

Definition route_state (meta : ObjectMeta) (kind : string) (parents : list ParentRef) : RouteState :=
  {| rs_namespace := meta_namespace meta; rs_name := meta_name meta; rs_kind := kind;
     rs_generation := meta_generation meta; rs_parent_refs := parents |}.

Definition reconcile_http_route (grants : list ReferenceGrantState) (c : ClusterState) (r : HTTPRoute) : ReconciledRoute :=
  reconcile_single_route (http_attaching r) (parse_parent_refs (hr_parent_refs r)) c
    (resolve_backend_refs (meta_namespace (hr_meta r)) "HTTPRoute" grants (http_backend_refs r)).

Definition reconcile_grpc_route (grants : list ReferenceGrantState) (c : ClusterState) (r : GRPCRoute) : ReconciledRoute :=
  reconcile_single_route (grpc_attaching r) (parse_parent_refs (gr_parent_refs r)) c
    (resolve_backend_refs (meta_namespace (gr_meta r)) "GRPCRoute" grants (grpc_backend_refs r)).

(** [update_rules_programmed] of a gRPC route. *)
Fixpoint update_grpc_rules_programmed (rules : list GRPCRouteRule) (res : list RuleBackendResolution) : list GRPCRouteRule :=
  match rules, res with
  | r :: rules, x :: res =>
      {| grr_name := grr_name r; grr_matches := grr_matches r; grr_backends := grr_backends r; grr_filters := grr_filters r;
         grr_programmed := grr_programmed r && rbr_ok x |} :: update_grpc_rules_programmed rules res
  | _, _ => rules
  end.

Section collect.
Context `{!DurationParser, !ServiceStore}.
Context (grants : list ReferenceGrantState) (c : ClusterState).

(** [collect_routes], zipped with what the routes reconciled to. *)
Definition collect_http_route (r : HTTPRoute) : HTTPRouteState :=
  collect_route (parse_httproute_state r) (reconcile_http_route grants c r)
    (resolve_backend_refs_async (meta_namespace (hr_meta r)) "HTTPRoute" grants (http_backend_refs r)).

Definition collect_grpc_route (r : GRPCRoute) : GRPCRouteState :=
  let state := parse_grpcroute_state r in
  let parents := rr_parent_refs (reconcile_grpc_route grants c r) in
  let res := resolve_backend_refs_async (meta_namespace (gr_meta r)) "GRPCRoute" grants (grpc_backend_refs r) in
  {| grs_namespace := grs_namespace state; grs_name := grs_name state; grs_generation := grs_generation state;
     grs_hostnames := grs_hostnames state; grs_rules := update_grpc_rules_programmed (grs_rules state) (br_rules res);
     grs_parent_refs := parents; grs_programmed := negb (bool_decide (parents = [])) && backends_ok res |}.

(** [reconcile_tcproutes] and the like, on one route. *)
Definition reconcile_parsed_l4 (kind : string) (protocols : list string) (p : ParsedL4Route) : ReconciledL4Route :=
  reconcile_l4_route {| at_namespace := pl_namespace p; at_kind := kind; at_hostnames := pl_hostnames p;
                        at_protocols := Some protocols; at_generation := pl_generation p |} (pl_parent_refs p) c.

(** [collect_l4_routes] on one route: the backends that resolve, and whether it is programmed. *)
Definition collect_l4 (kind : string) (protocols : list string) (p : ParsedL4Route) :
    list ParentRef * list GwWeightedBackend * bool :=
  let reconciled := reconcile_parsed_l4 kind protocols p in
  let '(backends, refs) := resolve_l4_backends_async (pl_namespace p) kind grants (pl_generation p) (pl_backends p) in
  (rl4_parent_refs reconciled, backends, rl4_programmed reconciled && bool_decide (refs = None)).

Definition collect_tcp_route (r : RawL4Route) : TCPRouteState :=
  let p := parse_tcproute r in
  let '(parents, backends, programmed) := collect_l4 "TCPRoute" ["TCP"] p in
  {| trs_namespace := pl_namespace p; trs_name := pl_name p; trs_generation := pl_generation p; trs_parent_refs := parents;
     trs_backends := backends; trs_programmed := programmed |}.

Definition collect_udp_route (r : RawL4Route) : UDPRouteState :=
  let p := parse_udproute r in
  let '(parents, backends, programmed) := collect_l4 "UDPRoute" ["UDP"] p in
  {| urs_namespace := pl_namespace p; urs_name := pl_name p; urs_generation := pl_generation p; urs_parent_refs := parents;
     urs_backends := backends; urs_programmed := programmed |}.

Definition collect_tls_route (r : RawL4Route) : TLSRouteState :=
  let p := parse_tlsroute r in
  let '(parents, backends, programmed) := collect_l4 "TLSRoute" ["TLS"] p in
  {| lrs_namespace := pl_namespace p; lrs_name := pl_name p; lrs_generation := pl_generation p;
     lrs_hostnames := pl_hostnames p; lrs_parent_refs := parents; lrs_backends := backends; lrs_programmed := programmed |}.
End collect.
