(* ===== verification/Endpoints.v ===== *)
(** * Services, endpoints and backend TLS ([src/gateway/reconcile/endpoints.rs],
    [src/gateway/reconcile/backendtlspolicy.rs]).

    Which BackendTLSPolicy applies to a Service, and how the backends of routes become
    addresses: the name of a Service, or its ready endpoints. Services, EndpointSlices and
    policies are the fields the code reads; a list request may fail. *)

From S2P Require Import Prelude Net Ir Hostname Pipeline Peer Gateway Json Translate Digest RouteParse.

(** ** BackendTLSPolicies ([backendtlspolicy.rs]) *)

Inductive SanType := SanHostname | SanUri.

Record RawSan := {
  rsan_type : SanType;
  rsan_hostname : option string;
  rsan_uri : option string;
}.

Record RawTargetRef := {
  rtr_group : string;
  rtr_kind : string;
  rtr_name : string;
  rtr_section_name : option string;
}.

Record BackendTLSPolicy := {
  btp_meta : ObjectMeta;
  btp_creation_timestamp : option Z;
  btp_target_refs : list RawTargetRef;
  btp_hostname : string;
  btp_ca_certificate_refs : option (list CaCertificateRef);
  btp_subject_alt_names : option (list RawSan);
}.

Record PrePolicy := {
  pre_raw : BackendTLSPolicy;
  pre_namespace : string;
  pre_name : string;
  pre_generation : Z;
  pre_created_at : Z;
  pre_target : ServiceTargetRef;
  pre_hostname : string;
  pre_ca_certificate_refs : list CaCertificateRef;
  pre_ca_bundle_pem : string;
  pre_subject_alt_names : list SubjectAltName;
  pre_target_invalid : bool;
  pre_ca_invalid_count : Z;
  pre_ca_invalid_kind_count : Z;
  pre_ca_invalid_ref_count : Z;
  pre_ca_total_count : Z;
}.

(** Appending a bundle, ended by a newline. *)
Definition push_pem (bundle ca : string) : string :=
  let b := bundle +:+ ca in
  if ends_with b (String "010" "") then b else b +:+ String "010" "".

Definition target_of (ns : string) (refs : list RawTargetRef) : ServiceTargetRef * bool :=
  match refs with
  | [t] =>
      ({| str_group := rtr_group t; str_kind := rtr_kind t; str_namespace := ns; str_name := rtr_name t;
          str_section_name := rtr_section_name t |},
       negb (str_is_empty (rtr_group t)) || negb (bool_decide (rtr_kind t = "Service")))
  | _ => ({| str_group := ""; str_kind := ""; str_namespace := ns; str_name := ""; str_section_name := None |}, true)
  end.

Definition san_of (s : RawSan) : SubjectAltName :=
  match rsan_type s with
  | SanHostname => {| san_type := "Hostname"; san_value := default "" (rsan_hostname s) |}
  | SanUri => {| san_type := "URI"; san_value := default "" (rsan_uri s) |}
  end.

Abbreviation ServiceTargetKey := (string * string * option string)%type.

Abbreviation ServiceGateways := (gmap (string * string) (list ParentRef)).

Section policies.
Context `{!ConfigMapApi}.

(** One CA reference: the certificate, or whether its kind is at fault. *)
Definition ca_of (ns : string) (r : CaCertificateRef) : result string bool :=
  if negb (bool_decide (ccr_kind r = "ConfigMap")) || negb (str_is_empty (ccr_group r)) then Err true
  else match configmap_get ns (ccr_name r) with
       | Some data =>
           match data ≫= lookup "ca.crt" with
           | Some ca => if str_is_empty ca then Err false else Ok ca
           | None => Err false
           end
       | None => Err false
       end.

(** The loop: the bundle, the invalid references, those of a wrong kind and the others. *)
Definition ca_step (ns : string) (acc : string * Z * Z * Z) (r : CaCertificateRef) : string * Z * Z * Z :=
  let '(bundle, invalid, kinds, refs) := acc in
  match ca_of ns r with
  | Ok ca => (push_pem bundle ca, invalid, kinds, refs)
  | Err true => (bundle, invalid + 1, kinds + 1, refs)
  | Err false => (bundle, invalid + 1, kinds, refs + 1)
  end.

Definition prevalidate (policy : BackendTLSPolicy) : PrePolicy :=
  let ns := meta_namespace (btp_meta policy) in
  let '(target, target_invalid) := target_of ns (btp_target_refs policy) in
  let cas := default [] (btp_ca_certificate_refs policy) in
  let '(bundle, invalid, kinds, refs) := foldl (ca_step ns) ("", 0, 0, 0) cas in
  {| pre_raw := policy; pre_namespace := ns; pre_name := meta_name (btp_meta policy);
     pre_generation := meta_generation (btp_meta policy); pre_created_at := default 0 (btp_creation_timestamp policy);
     pre_target := target; pre_hostname := btp_hostname policy; pre_ca_certificate_refs := cas; pre_ca_bundle_pem := bundle;
     pre_subject_alt_names := san_of <$> default [] (btp_subject_alt_names policy); pre_target_invalid := target_invalid;
     pre_ca_invalid_count := invalid; pre_ca_invalid_kind_count := kinds; pre_ca_invalid_ref_count := refs;
     pre_ca_total_count := Z.of_nat (length cas) |}.

Definition accepted_of (p : PrePolicy) (is_winner : bool) : bool * string * string :=
  let all_ca_invalid := (0 <? pre_ca_total_count p) && (pre_ca_invalid_count p =? pre_ca_total_count p) in
  if negb is_winner then
    (false, "Conflicted", "BackendTLSPolicy conflicted by an older or alphabetically earlier policy")
  else if pre_target_invalid p then
    (false, "InvalidKind", "targetRefs must contain exactly one reference to a Service in the core API group")
  else if all_ca_invalid then (false, "NoValidCACertificate", "all CA certificate references are invalid")
  else (true, "Accepted", "BackendTLSPolicy accepted").

Definition resolved_refs_of (p : PrePolicy) : bool * string * string :=
  if 0 <? pre_ca_invalid_kind_count p then
    (false, "InvalidKind", pretty (pre_ca_invalid_kind_count p) +:+ " CA certificate reference(s) have an unsupported kind")
  else if 0 <? pre_ca_invalid_ref_count p then
    (false, "InvalidCACertificateRef", pretty (pre_ca_invalid_ref_count p) +:+ " CA certificate reference(s) are invalid")
  else (true, "ResolvedRefs", "all references resolved").

Definition build_state (p : PrePolicy) (is_winner : bool) : BackendTLSPolicyState :=
  let '(accepted, accepted_reason, accepted_message) := accepted_of p is_winner in
  let '(resolved, resolved_reason, resolved_message) := resolved_refs_of p in
  {| bp_namespace := pre_namespace p; bp_name := pre_name p; bp_generation := pre_generation p;
     bp_created_at := pre_created_at p; bp_target := pre_target p; bp_hostname := pre_hostname p;
     bp_ca_certificate_refs := pre_ca_certificate_refs p; bp_ca_bundle_pem := pre_ca_bundle_pem p;
     bp_subject_alt_names := pre_subject_alt_names p; bp_accepted := accepted; bp_accepted_reason := accepted_reason;
     bp_accepted_message := accepted_message; bp_resolved_refs := resolved; bp_resolved_refs_reason := resolved_reason;
     bp_resolved_refs_message := resolved_message; bp_programmed := accepted && resolved |}.

(** *** Conflicts *)

Definition target_key (t : ServiceTargetRef) : ServiceTargetKey := (str_namespace t, str_name t, str_section_name t).

(** The order of the key of [min_by_key]. *)
Definition policy_cmp (a b : PrePolicy) : comparison :=
  then_with (pre_created_at a ?= pre_created_at b)
    (by_str (λ p, pre_namespace p +:+ "/" +:+ pre_name p) a b).

(** [Iterator::min_by_key]: the first of the smallest. *)
Definition min_by {A} (cmp : A → A → comparison) (l : list A) : option A :=
  match l with
  | [] => None
  | x :: l => Some (foldl (λ m y, match cmp y m with Lt => y | _ => m end) x l)
  end.

Definition winners (pre : list PrePolicy) : gmap ServiceTargetKey string :=
  omap (λ g, pre_name <$> min_by policy_cmp g) (group_by (λ p, Some (target_key (pre_target p))) pre).

Definition is_winner (pre : list PrePolicy) (p : PrePolicy) : bool :=
  bool_decide (winners pre !! target_key (pre_target p) = Some (pre_name p)).

Definition policy_states (policies : list BackendTLSPolicy) : list BackendTLSPolicyState :=
  let pre := prevalidate <$> policies in
  (λ p, build_state p (is_winner pre p)) <$> pre.

(** *** Status *)

Definition same_parent (a b : ParentRef) : bool :=
  bool_decide (pr_group a = pr_group b) && bool_decide (pr_kind a = pr_kind b) &&
  bool_decide (pr_namespace a = pr_namespace b) && bool_decide (pr_name a = pr_name b) &&
  bool_decide (pr_section_name a = pr_section_name b) && bool_decide (pr_port a = pr_port b).

(** The namespace and name of a Service address. *)
Definition parse_backend_service (backend : string) : option (string * string) :=
  match str_split "." (default "" (head (str_split ":" backend))) with
  | name :: ns :: svc :: cluster :: _ =>
      if negb (bool_decide (svc = "svc")) || negb (bool_decide (cluster = "cluster")) then None else Some (ns, name)
  | _ => None
  end.

Definition add_parents (parents : list ParentRef) (entry : list ParentRef) : list ParentRef :=
  foldl (λ entry p, if existsb (λ q, same_parent q p) entry then entry else entry ++ [p]) entry parents.

(** [RouteRuleLike] gives the backends of the rules. *)
Definition collect_gateways_for_route (m : ServiceGateways) (parents : list ParentRef) (rules : list (list GwWeightedBackend)) :
    ServiceGateways :=
  let gateway_parents :=
    filter (λ p, bool_decide (pr_kind p = "Gateway") && bool_decide (pr_group p = "gateway.networking.k8s.io") = true) parents in
  match gateway_parents with
  | [] => m
  | _ =>
      (foldl (λ acc backend,
         let '(seen, m) := acc in
         match parse_backend_service (gwb_backend backend) with
         | None => acc
         | Some key =>
             if bool_decide (key ∈ seen) then acc
             else ({[key]} ∪ seen, <[key := add_parents gateway_parents (default [] (m !! key))]> m)
         end) (∅ : gset (string * string), m) (rules ≫= id)).2
  end.

Definition build_service_to_gateways (https : list HTTPRouteState) (grpcs : list GRPCRouteState) : ServiceGateways :=
  let m := foldl (λ m r, collect_gateways_for_route m (hrs_parent_refs r) (hrr_backends <$> hrs_rules r)) ∅ https in
  foldl (λ m r, collect_gateways_for_route m (grs_parent_refs r) (grr_backends <$> grs_rules r)) m grpcs.

(** An ancestor of the status: a Gateway that routes to the Service, or the Service itself. *)
Inductive Ancestor :=
| AncestorService (name namespace : string)
| AncestorParent (p : ParentRef).

Definition policy_conditions (state : BackendTLSPolicyState) : list StatusCondition :=
  let status (b : bool) := if b then CsTrue else CsFalse in
  let generation := bp_generation state in
  [accepted_condition (status (bp_accepted state)) (bp_accepted_reason state) (bp_accepted_message state) generation;
   resolved_refs_condition (status (bp_resolved_refs state)) (bp_resolved_refs_reason state) (bp_resolved_refs_message state)
     generation;
   if bp_programmed state then programmed_condition CsTrue "Programmed" "BackendTLSPolicy programmed" generation
   else programmed_condition CsFalse "NotProgrammed" "BackendTLSPolicy not programmed" generation].

(** What [patch_status] writes. *)
Definition policy_status (state : BackendTLSPolicyState) (ancestors : list ParentRef) : list (Ancestor * list StatusCondition) :=
  match ancestors with
  | [] => [(AncestorService (str_name (bp_target state)) (str_namespace (bp_target state)), policy_conditions state)]
  | _ => (λ p, (AncestorParent p, policy_conditions state)) <$> ancestors
  end.

(** The states, and the statuses a leader writes. A list request that fails counts as empty. *)
Definition reconcile_backend_tls_policies (listed : option (list BackendTLSPolicy)) (https : list HTTPRouteState)
    (grpcs : list GRPCRouteState) (is_leader : bool) :
    list BackendTLSPolicyState * list (string * string * list (Ancestor * list StatusCondition)) :=
  let states := policy_states (default [] listed) in
  let gateways := build_service_to_gateways https grpcs in
  (states,
   if is_leader
   then (λ s, (bp_namespace s, bp_name s,
               policy_status s (default [] (gateways !! (str_namespace (bp_target s), str_name (bp_target s)))))) <$> states
   else []).
End policies.

(** ** Endpoints ([endpoints.rs]) *)

Inductive IntOrString := IsInt (n : Z) | IsString (s : string).

Record ServicePort := {
  sp_name : option string;
  sp_port : Z;
  sp_app_protocol : option string;
  sp_target_port : option IntOrString;
}.

Record ServiceSpec := {
  sv_cluster_ip : option string;
  sv_selector : option (gmap string string);
  sv_ports : option (list ServicePort);
}.

Record Service := {
  sv_namespace : option string;
  sv_name : option string;
  sv_spec : option ServiceSpec;
}.

Record EndpointPort := {
  ept_name : option string;
  ept_port : option Z;
}.

(** [conditions]: [ready] and [terminating]. *)
Record Endpoint := {
  en_addresses : list string;
  en_conditions : option (option bool * option bool);
}.

Record EndpointSlice := {
  esl_namespace : option string;
  esl_labels : option (gmap string string);
  esl_ports : option (list EndpointPort);
  esl_endpoints : list Endpoint;
}.

Record ServiceInfo := {
  si_cluster_ip : option string;
  si_selector : option (gmap string string);
  si_ports : list ServicePort;
}.

Record EndpointInfo := {
  ei_address : string;
  ei_ports : list EndpointPort;
}.

Record ServiceTarget := {
  stg_name : string;
  stg_namespace : string;
  stg_port : Z;
}.

Definition service_port_protocol (p : ServicePort) : BackendProtocol :=
  match str_lower <$> sp_app_protocol p with
  | Some s =>
      if bool_decide (s = "kubernetes.io/h2c") then BackendH2c
      else if bool_decide (s = "kubernetes.io/ws") then BackendWebSocket
      else if bool_decide (s ∈ ["kubernetes.io/wss"; "https"; "kubernetes.io/https"]) then BackendHttps
      else BackendHttp
  | None => BackendHttp
  end.

Definition build_service_map (services : list Service) : gmap (string * string) ServiceInfo :=
  foldl (λ m s,
    let spec := default {| sv_cluster_ip := None; sv_selector := None; sv_ports := None |} (sv_spec s) in
    <[(default "" (sv_namespace s), default "" (sv_name s)) :=
        {| si_cluster_ip := sv_cluster_ip spec; si_selector := sv_selector spec; si_ports := default [] (sv_ports spec) |}]> m)
    ∅ services.

Definition endpoint_is_ready (e : Endpoint) : bool :=
  let ready := default true (en_conditions e ≫= fst) in
  let terminating := default false (en_conditions e ≫= snd) in
  ready && negb terminating.

Definition slice_service (s : EndpointSlice) : option (string * string) :=
  pair (default "" (esl_namespace s)) <$> (default ∅ (esl_labels s) !! "kubernetes.io/service-name").

Definition slice_endpoints (s : EndpointSlice) : list EndpointInfo :=
  filter (λ e, endpoint_is_ready e = true) (esl_endpoints s) ≫= λ e,
    (λ a, {| ei_address := a; ei_ports := default [] (esl_ports s) |}) <$> en_addresses e.

Definition build_endpoint_map (slices : list EndpointSlice) : gmap (string * string) (list EndpointInfo) :=
  foldl (λ m s, match slice_service s with
                | None => m
                | Some key => foldl (λ m e, push_entry key e m) m (slice_endpoints s)
                end) ∅ slices.

Definition attachment_of (p : BackendTLSPolicyState) : BackendTlsAttachment :=
  {| bta_hostname := bp_hostname p; bta_ca_bundle_pem := bp_ca_bundle_pem p;
     bta_subject_alt_names := san_value <$> bp_subject_alt_names p |}.

Definition build_tls_policy_map (policies : list BackendTLSPolicyState) : gmap ServiceTargetKey BackendTlsAttachment :=
  foldl (λ m p, if negb (bp_accepted p) || negb (bp_programmed p) then m
                else <[target_key (bp_target p) := attachment_of p]> m) ∅ policies.

Definition needs_endpoint_resolution (info : ServiceInfo) : bool :=
  if bool_decide (si_cluster_ip info = Some "None") then true
  else match si_selector info with None => true | Some s => bool_decide (s = ∅) end.

Definition find_port (ports : list ServicePort) (port : Z) : option ServicePort := find (λ p, sp_port p =? port) ports.

Definition resolve_endpoint_port (service_port : Z) (info : ServiceInfo) (ep : EndpointInfo) : option Z :=
  match union (find_port (si_ports info) service_port) (head (si_ports info)) with
  | None => None
  | Some svc_port =>
      let port_name := default "" (sp_name svc_port) in
      match find (λ p, bool_decide (default "" (ept_name p) = port_name)) (ei_ports ep) with
      | Some matched => ept_port matched
      | None =>
          match ei_ports ep with
          | [p] => ept_port p
          | _ => match sp_target_port svc_port with Some (IsInt n) => Some n | _ => None end
          end
      end
  end.

(** [str::trim_start_matches] with a string. *)
Fixpoint trim_start_matches_fuel (fuel : nat) (p s : string) : string :=
  match fuel with
  | O => s
  | S fuel => match strip_prefix p s with Some r => trim_start_matches_fuel fuel p r | None => s end
  end.

Definition trim_start_matches (p s : string) : string := trim_start_matches_fuel (String.length s) p s.

(** [str::rsplit_once] on a character. *)
Fixpoint rsplit_once (c : ascii) (s : string) : option (string * string) :=
  match s with
  | EmptyString => None
  | String a s' =>
      match rsplit_once c s' with
      | Some (x, y) => Some (String a x, y)
      | None => if decide (a = c) then Some ("", s') else None
      end
  end.

(** [str::parse::<i32>]. *)
Definition parse_i32 (s : string) : option Z :=
  match strip_prefix "-" s with
  | Some digits => if str_is_empty digits then None else Z.opp <$> parse_digits (2 ^ 31) 0 digits
  | None => parse_uint (2 ^ 31 - 1) s
  end.

Definition parse_service_target (backend : string) : option ServiceTarget :=
  let addr := trim_start_matches "http://" (trim_start_matches "https://" backend) in
  match rsplit_once ":" addr with
  | None => None
  | Some (host, port_str) =>
      match parse_i32 port_str with
      | None => None
      | Some port =>
          let host := default host (strip_suffix "." host) in
          match reverse (str_split "." host) with
          | loc :: cluster :: svc :: namespace :: name =>
              if negb (bool_decide (svc = "svc")) || negb (bool_decide (cluster = "cluster")) || negb (bool_decide (loc = "local"))
              then None
              else Some {| stg_name := str_join "." (reverse name); stg_namespace := namespace; stg_port := port |}
          | _ => None
          end
      end
  end.

Definition format_backend_address (address : string) (port : Z) : string :=
  if bool_decide (":"%char ∈ String.list_ascii_of_string address) then "[" +:+ address +:+ "]:" +:+ pretty port
  else address +:+ ":" +:+ pretty port.

Section expand.
Context (service_map : gmap (string * string) ServiceInfo) (endpoint_map : gmap (string * string) (list EndpointInfo)).
Context (tls_policy_map : gmap ServiceTargetKey BackendTlsAttachment).

(** The policy of a port: one for its section first, then one for the Service. *)
Definition tls_attachment (target : ServiceTarget) (info : ServiceInfo) : option BackendTlsAttachment :=
  let port_name := find_port (si_ports info) (stg_port target) ≫= sp_name in
  union (port_name ≫= λ name, tls_policy_map !! (stg_namespace target, stg_name target, Some name))
    (tls_policy_map !! (stg_namespace target, stg_name target, None)).

Definition backend_protocol (target : ServiceTarget) (info : ServiceInfo) : BackendProtocol :=
  match tls_attachment target info with
  | Some _ => BackendHttps
  | None => from_option service_port_protocol BackendHttp (find_port (si_ports info) (stg_port target))
  end.

(** The name of the Service, with the protocol and policy. *)
Definition backend_by_name (b : GwWeightedBackend) (protocol : BackendProtocol) (tls : option BackendTlsAttachment) : GwWeightedBackend :=
  {| gwb_backend := gwb_backend b; gwb_weight := gwb_weight b; gwb_filters := gwb_filters b; gwb_protocol := protocol;
     gwb_tls := union tls (gwb_tls b) |}.

Definition backend_by_address (b : GwWeightedBackend) (protocol : BackendProtocol) (tls : option BackendTlsAttachment)
    (target : ServiceTarget) (info : ServiceInfo) (ep : EndpointInfo) : option GwWeightedBackend :=
  (λ port, {| gwb_backend := format_backend_address (ei_address ep) port; gwb_weight := gwb_weight b;
              gwb_filters := gwb_filters b; gwb_protocol := protocol; gwb_tls := tls |})
  <$> resolve_endpoint_port (stg_port target) info ep.

(** The loop body of [expand_rule_backends]. *)
Definition expand_backend (b : GwWeightedBackend) : list GwWeightedBackend :=
  match parse_service_target (gwb_backend b) with
  | None => [b]
  | Some target =>
      let key := (stg_namespace target, stg_name target) in
      match service_map !! key with
      | None => [b]
      | Some info =>
          let tls := tls_attachment target info in
          let protocol := backend_protocol target info in
          if negb (needs_endpoint_resolution info) then [backend_by_name b protocol tls]
          else match endpoint_map !! key with
               | None => [backend_by_name b protocol tls]
               | Some endpoints =>
                   match omap (backend_by_address b protocol tls target info) endpoints with
                   | [] => [backend_by_name b protocol tls]
                   | expanded => expanded
                   end
               end
      end
  end.

Definition expand_http_rule (r : HTTPRouteRule) : HTTPRouteRule :=
  {| hrr_matches := hrr_matches r; hrr_backends := hrr_backends r ≫= expand_backend; hrr_filters := hrr_filters r;
     hrr_timeout_ms := hrr_timeout_ms r; hrr_request_timeout_ms := hrr_request_timeout_ms r;
     hrr_programmed := hrr_programmed r |}.

Definition expand_grpc_rule (r : GRPCRouteRule) : GRPCRouteRule :=
  {| grr_name := grr_name r; grr_matches := grr_matches r; grr_backends := grr_backends r ≫= expand_backend;
     grr_filters := grr_filters r; grr_programmed := grr_programmed r |}.

Definition expand_http_route (r : HTTPRouteState) : HTTPRouteState :=
  {| hrs_namespace := hrs_namespace r; hrs_name := hrs_name r; hrs_generation := hrs_generation r;
     hrs_hostnames := hrs_hostnames r; hrs_rules := expand_http_rule <$> hrs_rules r; hrs_parent_refs := hrs_parent_refs r;
     hrs_programmed := hrs_programmed r |}.

Definition expand_grpc_route (r : GRPCRouteState) : GRPCRouteState :=
  {| grs_namespace := grs_namespace r; grs_name := grs_name r; grs_generation := grs_generation r;
     grs_hostnames := grs_hostnames r; grs_rules := expand_grpc_rule <$> grs_rules r; grs_parent_refs := grs_parent_refs r;
     grs_programmed := grs_programmed r |}.
End expand.

(** [resolve_service_endpoints]: without the Services or the EndpointSlices, the routes stay as
    they are. [expand] is [expand_http_route] or [expand_grpc_route]. *)
Definition resolve_service_endpoints {R}
    (expand : gmap (string * string) ServiceInfo → gmap (string * string) (list EndpointInfo) →
              gmap ServiceTargetKey BackendTlsAttachment → R → R)
    (services : option (list Service)) (slices : option (list EndpointSlice)) (policies : list BackendTLSPolicyState)
    (routes : list R) : list R :=
  match services, slices with
  | Some services, Some slices =>
      expand (build_service_map services) (build_endpoint_map slices) (build_tls_policy_map policies) <$> routes
  | _, _ => routes
  end.

(** ** Addresses *)

Lemma parse_i32_pretty port : - 2 ^ 31 ≤ port < 2 ^ 31 → parse_i32 (pretty port) = Some port.
Proof.
  assert (∀ max p, Z.pos p ≤ max → parse_digits max 0 (pretty_N_go (N.pos p) "") = Some (Z.pos p)) as Hp.
  { intros max p Hle. by rewrite parse_digits_pretty. }
  assert (∀ p, ∃ a s, pretty_N_go (N.pos p) "" = String a s ∧ a ≠ "-"%char ∧ a ≠ "+"%char) as Hchar.
  { intros p. destruct (pretty_N_go (N.pos p) "") as [|a s] eqn:He.
    - specialize (Hp (Z.pos p) p ltac:(lia)). rewrite He in Hp. done.
    - specialize (Hp (Z.pos p) p ltac:(lia)). rewrite He in Hp. exists a, s. split; [done|]. cbn in Hp.
      by split; intros ->. }
  intros Hr. destruct port as [|p|p]; [done|..].
  - change (pretty (Z.pos p)) with (pretty_N_go (N.pos p) ""). unfold parse_i32, parse_uint.
    destruct (Hchar p) as (a & s & He & Ha & Ha'). rewrite He. cbn [strip_prefix].
    rewrite !(decide_False (P := _ = a)) by congruence. rewrite decide_False by done. rewrite <- He. apply Hp. lia.
  - change (pretty (Z.neg p)) with (String "-" (pretty_N_go (N.pos p) "")). unfold parse_i32. cbn [strip_prefix].
    rewrite decide_True by done. destruct (Hchar p) as (a & s & He & _). unfold str_is_empty.
    rewrite bool_decide_false by (by rewrite He). rewrite Hp by lia. done.
Qed.

Lemma pretty_no_colon port : - 2 ^ 31 ≤ port < 2 ^ 31 → ¬ str_elem ":" (pretty port).
Proof.
  assert (∀ p, ¬ str_elem ":" (pretty_N_go (N.pos p) "")) as Hp.
  { intros p. apply (parse_digits_chars (Z.pos p) 0 _ (Z.pos p)); [|done]. by rewrite parse_digits_pretty. }
  intros _. destruct port as [|p|p]; [by intros [[=]|[]]|apply Hp|]. intros [[=]|Hin]. by apply (Hp p).
Qed.

Lemma rsplit_once_app c x y : ¬ str_elem c y → rsplit_once c (x +:+ String c y) = Some (x, y).
Proof.
  intros Hy. assert (rsplit_once c y = None) as Hn.
  { induction y as [|a y IH]; [done|]. cbn in *. rewrite IH by tauto. rewrite decide_False by tauto. done. }
  induction x as [|a x IH]; [rewrite str_app_nil_l; cbn [rsplit_once]; by rewrite Hn, decide_True|].
  rewrite str_app_cons. cbn [rsplit_once]. by rewrite IH.
Qed.

Lemma trim_start_matches_none p s : strip_prefix p s = None → trim_start_matches p s = s.
Proof. intros Hp. unfold trim_start_matches. destruct (String.length s); [done|]. cbn. by rewrite Hp. Qed.

(** What Kubernetes admits as the name of a Service and of a namespace. *)
Definition dns_label (s : string) : Prop := ¬ str_elem "." s ∧ ¬ str_elem ":" s.

Lemma service_address_split name ns port :
  service_address name ns port = (name +:+ "." +:+ ns +:+ ".svc.cluster.local.") +:+ String ":" (pretty port).
Proof. unfold service_address. by rewrite !str_app_assoc. Qed.

Lemma service_host_no_colon name ns :
  ¬ str_elem ":" name → ¬ str_elem ":" ns → ¬ str_elem ":" (name +:+ "." +:+ ns +:+ ".svc.cluster.local.").
Proof. intros Hn Hns. rewrite !str_elem_app. cbn. naive_solver. Qed.

Lemma service_address_scheme name ns port scheme r :
  - 2 ^ 31 ≤ port < 2 ^ 31 → ¬ str_elem ":" name → ¬ str_elem ":" ns → ¬ str_elem ":" scheme →
  service_address name ns port ≠ scheme +:+ "://" +:+ r.
Proof.
  intros Hp Hn Hns Hs Heq. rewrite service_address_split in Heq. change ("://" +:+ r) with (String ":" ("//" +:+ r)) in Heq.
  assert (split_once ":" (scheme +:+ String ":" ("//" +:+ r)) = Some (scheme, "//" +:+ r)) as H1 by (by apply split_once_Some).
  assert (split_once ":" ((name +:+ "." +:+ ns +:+ ".svc.cluster.local.") +:+ String ":" (pretty port)) =
          Some (name +:+ "." +:+ ns +:+ ".svc.cluster.local.", pretty port)) as H2
    by (apply split_once_Some; split; [done|by apply service_host_no_colon]).
  rewrite Heq, H1 in H2. injection H2 as _ Hr. pose proof (parse_i32_pretty port Hp) as Hi. by rewrite <- Hr in Hi.
Qed.

(** The address of a Service reads back as the Service. *)
Theorem service_address_roundtrip name ns port :
  dns_label ns → ¬ str_elem ":" name → - 2 ^ 31 ≤ port < 2 ^ 31 →
  parse_service_target (service_address name ns port) = Some {| stg_name := name; stg_namespace := ns; stg_port := port |}.
Proof.
  intros [Hdot Hcolon] Hname Hport.
  assert (∀ scheme, ¬ str_elem ":" scheme → strip_prefix (scheme +:+ "://") (service_address name ns port) = None) as Hscheme.
  { intros scheme Hs. destruct (strip_prefix _ _) as [r|] eqn:Hr; [|done]. apply strip_prefix_Some in Hr. exfalso.
    rewrite str_app_assoc in Hr. exact (service_address_scheme name ns port scheme r Hport Hname Hcolon Hs Hr). }
  unfold parse_service_target. rewrite (trim_start_matches_none "https://") by (apply (Hscheme "https"); cbn; naive_solver).
  rewrite (trim_start_matches_none "http://") by (apply (Hscheme "http"); cbn; naive_solver).
  rewrite service_address_split, rsplit_once_app by (by apply pretty_no_colon). rewrite parse_i32_pretty by done.
  replace (strip_suffix "." (name +:+ "." +:+ ns +:+ ".svc.cluster.local."))
    with (Some (name +:+ "." +:+ ns +:+ ".svc.cluster.local"))
    by (symmetry; apply strip_suffix_Some; by rewrite !str_app_assoc).
  assert (str_split "." (name +:+ "." +:+ ns +:+ ".svc.cluster.local") = str_split "." name ++ [ns; "svc"; "cluster"; "local"])
    as Hparts.
  { change ("." +:+ ns +:+ ".svc.cluster.local") with (String "." (ns +:+ String "." "svc.cluster.local")).
    by rewrite !str_split_app, (str_split_single _ ns) by done. }
  cbn [default from_option id]. rewrite Hparts, reverse_app.
  change (reverse [ns; "svc"; "cluster"; "local"]) with ["local"; "cluster"; "svc"; ns]. cbn [app].
  rewrite !bool_decide_true by done. cbn [negb orb]. rewrite reverse_involutive. by rewrite (str_join_split ".").
Qed.

(** ** Policies *)

#[export] Instance Z_compare_order {A} (f : A → Z) : CmpOrder (λ a b, f a ?= f b).
Proof.
  split.
  - intros a b. apply Z.compare_antisym.
  - intros a b c. rewrite !Z.compare_lt_iff. lia.
  - intros a b c ->%Z.compare_eq. done.
Qed.

#[export] Instance policy_cmp_order : CmpOrder policy_cmp := then_with_order _ _ _ _.

Lemma min_by_spec {A} (cmp : A → A → comparison) `{!CmpOrder cmp} l m :
  min_by cmp l = Some m → m ∈ l ∧ ∀ y, y ∈ l → cmp_le cmp m y = true.
Proof.
  assert (∀ x, cmp_le cmp x x = true) as Hrefl by (intros x; by destruct (cmp_le_total cmp x x)).
  destruct l as [|x l]; [done|]. intros [= <-]. induction l as [|z l [IH1 IH2]] using rev_ind.
  { cbn. split; [left|]. intros y ->%list_elem_of_singleton. apply Hrefl. }
  rewrite foldl_app, app_comm_cons. cbn [foldl]. set (m := foldl _ x l) in *. setoid_rewrite elem_of_app.
  setoid_rewrite list_elem_of_singleton. destruct (cmp z m) eqn:Hc.
  1, 3: split; [by left|]; intros y [Hy| ->]; [by apply IH2|]; unfold cmp_le; by rewrite (cmp_opp z m), Hc.
  split; [by right|]. intros y [Hy| ->]; [|apply Hrefl]. apply (cmp_le_trans cmp z m y); [unfold cmp_le; by rewrite Hc|by apply IH2].
Qed.

(** The name of a policy, unique in the cluster. *)
Definition policy_id (p : BackendTLSPolicy) : string * string := (meta_namespace (btp_meta p), meta_name (btp_meta p)).

Definition policy_target (p : BackendTLSPolicy) : ServiceTargetRef := (target_of (meta_namespace (btp_meta p)) (btp_target_refs p)).1.

Lemma target_of_namespace ns refs : str_namespace (target_of ns refs).1 = ns.
Proof. by destruct refs as [|t []]. Qed.

Section conflicts.
Context `{!ConfigMapApi} (policies : list BackendTLSPolicy).
Context (Hid : NoDup (policy_id <$> policies)).

Lemma prevalidate_facts p :
  pre_namespace (prevalidate p) = (policy_id p).1 ∧ pre_name (prevalidate p) = (policy_id p).2 ∧
  pre_target (prevalidate p) = policy_target p ∧ pre_created_at (prevalidate p) = default 0 (btp_creation_timestamp p).
Proof.
  unfold prevalidate, policy_target. destruct (target_of _ _) as [t b]. by destruct (foldl _ _ _) as [[[bundle i] k] r].
Qed.

(** The policy that wins a target. *)
Definition wins (p : BackendTLSPolicy) : bool := is_winner (prevalidate <$> policies) (prevalidate p).

(** The state of a policy. *)
Definition state_of (p : BackendTLSPolicy) : BackendTLSPolicyState := build_state (prevalidate p) (wins p).

Lemma policy_states_fmap : policy_states policies = state_of <$> policies.
Proof. unfold policy_states. by rewrite <- list_fmap_compose. Qed.

(** Of the policies of a target the oldest wins, of several of the same second the one whose
    name comes first. *)
Lemma winner_spec p : p ∈ policies →
  ∃ w, w ∈ policies ∧ target_key (policy_target w) = target_key (policy_target p) ∧ wins w = true ∧
    (∀ q, q ∈ policies → target_key (policy_target q) = target_key (policy_target p) →
       cmp_le policy_cmp (prevalidate w) (prevalidate q) = true ∧ (wins q = true ↔ q = w)).
Proof.
  intros Hp. set (key := λ p, Some (target_key (pre_target p))).
  assert (∀ q, key (prevalidate q) = Some (target_key (policy_target q))) as Hkey.
  { intros q. unfold key. by destruct (prevalidate_facts q) as (_ & _ & -> & _). }
  destruct (group_by key (prevalidate <$> policies) !! target_key (policy_target p)) as [g|] eqn:Hg.
  2: { pose proof (lookup_group_by key (prevalidate <$> policies) (target_key (policy_target p))) as Hl. rewrite Hg in Hl.
       assert (prevalidate p ∈ @nil PrePolicy) as []%not_elem_of_nil. cbn in Hl. rewrite Hl. apply list_elem_of_filter.
       split; [apply Hkey|by apply list_elem_of_fmap_2]. }
  destruct (min_by policy_cmp g) as [m|] eqn:Hm; [|destruct g; [by apply group_by_nonempty in Hg|done]].
  destruct (min_by_spec policy_cmp g m Hm) as [Hmin Hle].
  apply (elem_of_group_by _ _ _ _ m Hg) in Hmin as [(w & -> & Hw)%list_elem_of_fmap Hkw]. rewrite Hkey in Hkw. apply (inj Some) in Hkw.
  assert (∀ q, q ∈ policies → target_key (policy_target q) = target_key (policy_target p) → wins q = true ↔ q = w) as Hwins.
  { intros q Hq Hkq. unfold wins, is_winner, winners. destruct (prevalidate_facts q) as (_ & Hn & -> & _).
    rewrite lookup_omap, Hkq. fold key. rewrite Hg. cbn. rewrite Hm. cbn. rewrite bool_decide_eq_true, Hn.
    destruct (prevalidate_facts w) as (_ & -> & _). split; [|by intros ->]. intros [= Hname].
    apply (NoDup_fmap_elem_inj policy_id policies); [done..|]. apply injective_projections; [|done].
    assert (∀ q, (policy_id q).1 = (target_key (policy_target q)).1.1) as Hns
      by (intros q'; unfold policy_target; cbn; by rewrite target_of_namespace). by rewrite !Hns, Hkq, Hkw. }
  exists w. split_and!; [done..|by apply Hwins|]. intros q Hq Hkq. split; [|by apply Hwins]. apply Hle.
  apply (elem_of_group_by _ _ _ _ _ Hg). split; [by apply list_elem_of_fmap_2|by rewrite Hkey, Hkq].
Qed.

Lemma ca_fold ns cas bundle i k r :
  ∃ bundle' i' k' r', foldl (ca_step ns) (bundle, i, k, r) cas = (bundle', i', k', r') ∧
    k ≤ k' ∧ r ≤ r' ∧ i' - i = (k' - k) + (r' - r) ∧
    (k' = k ∧ r' = r ↔ ∀ c, c ∈ cas → is_ok (ca_of ns c) = true).
Proof.
  revert bundle i k r. induction cas as [|c cas IH]; intros bundle i k r; cbn [foldl].
  { do 4 eexists. split_and!; [done|lia..|]. split; [intros _ c []%not_elem_of_nil|done]. }
  setoid_rewrite elem_of_cons. destruct (ca_of ns c) as [ca|[]] eqn:Hc.
  - destruct (IH (push_pem bundle ca) i k r) as (b' & i' & k' & r' & Hf & ? & ? & ? & Hall).
    exists b', i', k', r'. rewrite <- Hf. cbn. rewrite Hc. split_and!; [done..|]. rewrite Hall.
    split; [|auto]. intros Hok c' [->|Hin]; [by rewrite Hc|auto].
  - destruct (IH bundle (i + 1) (k + 1) r) as (b' & i' & k' & r' & Hf & ? & ? & ? & Hall).
    exists b', i', k', r'. rewrite <- Hf. cbn. rewrite Hc. split_and!; [done|lia..|]. split; [lia|].
    intros Hok. specialize (Hok c (or_introl eq_refl)). by rewrite Hc in Hok.
  - destruct (IH bundle (i + 1) k (r + 1)) as (b' & i' & k' & r' & Hf & ? & ? & ? & Hall).
    exists b', i', k', r'. rewrite <- Hf. cbn. rewrite Hc. split_and!; [done|lia..|]. split; [lia|].
    intros Hok. specialize (Hok c (or_introl eq_refl)). by rewrite Hc in Hok.
Qed.

(** The policy names one Service, and each of its CA references resolves. *)
Definition policy_valid (p : BackendTLSPolicy) : Prop :=
  (target_of (meta_namespace (btp_meta p)) (btp_target_refs p)).2 = false ∧
  ∀ c, c ∈ default [] (btp_ca_certificate_refs p) → is_ok (ca_of (meta_namespace (btp_meta p)) c) = true.

Lemma programmed_iff p : bp_programmed (state_of p) = true ↔ wins p = true ∧ policy_valid p.
Proof.
  unfold state_of, build_state, policy_valid, accepted_of, resolved_refs_of, prevalidate.
  destruct (target_of _ _) as [t bad]. set (cas := default [] _).
  destruct (ca_fold (meta_namespace (btp_meta p)) cas "" 0 0 0) as (b & i & k & r & -> & Hk & Hr & Hi & Hall). cbn [snd].
  rewrite <- Hall. cbn [pre_ca_total_count pre_ca_invalid_count pre_target_invalid pre_ca_invalid_kind_count pre_ca_invalid_ref_count].
  destruct (Z.ltb_spec 0 k), (Z.ltb_spec 0 r), (wins p), bad, (Z.ltb_spec 0 (Z.of_nat (length cas))),
    (Z.eqb_spec i (Z.of_nat (length cas))); cbn;
    (split; [try discriminate; intros _; split_and!; lia || done|intros (? & ? & ? & ?); first [done|lia]]).
Qed.

Lemma programmed_accepted p : bp_programmed (state_of p) = true → bp_accepted (state_of p) = true.
Proof.
  unfold state_of, build_state. destruct (accepted_of _ _) as [[a ar] am], (resolved_refs_of _) as [[b br] bm]. cbn. by destruct a.
Qed.

Lemma state_target p : bp_target (state_of p) = policy_target p.
Proof.
  unfold state_of, build_state. destruct (accepted_of _ _) as [[a ar] am], (resolved_refs_of _) as [[b br] bm]. cbn.
  apply prevalidate_facts.
Qed.

(** The bundle of a policy: the certificates of its references, in order. *)
Definition policy_bundle (p : BackendTLSPolicy) : string :=
  foldl push_pem "" (omap (λ c, match ca_of (meta_namespace (btp_meta p)) c with Ok ca => Some ca | Err _ => None end)
                       (default [] (btp_ca_certificate_refs p))).

Lemma push_pem_nonempty b ca : push_pem b ca ≠ "".
Proof.
  unfold push_pem, ends_with. case_bool_decide as He.
  - destruct He as [r Hr%strip_suffix_Some]. rewrite Hr. by destruct r.
  - by destruct (b +:+ ca).
Qed.

Lemma ca_fold_bundle ns cas bundle i k r :
  (foldl (ca_step ns) (bundle, i, k, r) cas).1.1.1 =
  foldl push_pem bundle (omap (λ c, match ca_of ns c with Ok ca => Some ca | Err _ => None end) cas).
Proof.
  revert bundle i k r. induction cas as [|c cas IH]; intros bundle i k r; [done|]. cbn [foldl omap list_omap]. unfold ca_step at 2.
  destruct (ca_of ns c) as [ca|[]]; apply IH.
Qed.

Lemma state_attachment p :
  attachment_of (state_of p) = {| bta_hostname := btp_hostname p; bta_ca_bundle_pem := policy_bundle p;
                                  bta_subject_alt_names := san_value ∘ san_of <$> default [] (btp_subject_alt_names p) |}.
Proof.
  pose proof (ca_fold_bundle (meta_namespace (btp_meta p)) (default [] (btp_ca_certificate_refs p)) "" 0 0 0) as Hb.
  unfold attachment_of, state_of, build_state, policy_bundle. destruct (accepted_of _ _) as [[a ar] am], (resolved_refs_of _) as [[b br] bm].
  cbn. unfold prevalidate. destruct (target_of _ _) as [t bad], (foldl (ca_step _) _ _) as [[[bundle i] k] r]. cbn in *.
  by rewrite list_fmap_compose, Hb.
Qed.

Lemma policy_bundle_nonempty p : policy_valid p → default [] (btp_ca_certificate_refs p) ≠ [] → policy_bundle p ≠ "".
Proof.
  intros [_ Hok] Hne. unfold policy_bundle. destruct (default [] _) as [|c cas] using rev_ind; [done|]. clear IHcas.
  rewrite omap_app, foldl_app. cbn. specialize (Hok c ltac:(set_solver)). destruct (ca_of _ c); [|done]. apply push_pem_nonempty.
Qed.

(** The map has the programmed policies, one at most for a target. *)
Lemma tls_policy_map_lookup k :
  build_tls_policy_map (policy_states policies) !! k =
  attachment_of <$> last (filter (λ s, bp_accepted s = true ∧ bp_programmed s = true ∧ target_key (bp_target s) = k) (policy_states policies)).
Proof.
  unfold build_tls_policy_map. induction (policy_states policies) as [|s l IH] using rev_ind; [done|].
  rewrite foldl_app, filter_app. cbn [foldl]. destruct (bp_accepted s) eqn:Ha, (bp_programmed s) eqn:Hp; cbn [negb orb].
  2-4: rewrite filter_cons_False by (by intros (? & ? & ?); congruence); by rewrite app_nil_r.
  destruct (decide (target_key (bp_target s) = k)) as [<-|Hk].
  - rewrite lookup_insert_eq, filter_cons_True, filter_nil by done. by rewrite last_snoc.
  - rewrite lookup_insert_ne by done. rewrite filter_cons_False by tauto. by rewrite app_nil_r.
Qed.

Lemma programmed_in_map p : p ∈ policies → bp_programmed (state_of p) = true →
  build_tls_policy_map (policy_states policies) !! target_key (policy_target p) = Some (attachment_of (state_of p)).
Proof.
  intros Hp Hprog. rewrite tls_policy_map_lookup, policy_states_fmap. set (l := filter _ _).
  assert (∀ s, s ∈ l → s = state_of p) as Huniq.
  { intros s [(_ & Hs & Hk) (q & -> & Hq)%list_elem_of_fmap]%list_elem_of_filter. rewrite state_target in Hk.
    destruct (winner_spec p Hp) as (w & _ & _ & _ & Hw). apply programmed_iff in Hs as [Hs _], Hprog as [Hwp _].
    apply (Hw q Hq Hk) in Hs as ->. apply (Hw p Hp eq_refl) in Hwp as ->. done. }
  destruct (last l) as [s|] eqn:Hl; [cbn; f_equal; f_equal; apply Huniq; by apply last_Some_elem_of|].
  apply last_None in Hl. assert (state_of p ∈ l) as Hin.
  { apply list_elem_of_filter. split_and!; [by apply programmed_accepted|done|by rewrite state_target|by apply list_elem_of_fmap_2]. }
  rewrite Hl in Hin. by apply not_elem_of_nil in Hin.
Qed.

Lemma map_from_policy k a : build_tls_policy_map (policy_states policies) !! k = Some a →
  ∃ p, p ∈ policies ∧ target_key (policy_target p) = k ∧ bp_programmed (state_of p) = true ∧ a = attachment_of (state_of p).
Proof.
  rewrite tls_policy_map_lookup, policy_states_fmap. intros (s & Hs & ->)%fmap_Some. apply last_Some_elem_of in Hs.
  apply list_elem_of_filter in Hs as [(_ & Hprog & <-) (p & -> & Hp)%list_elem_of_fmap]. exists p. by rewrite state_target.
Qed.
End conflicts.

(** ** Expansion *)

(** A backend that stands for a Service: its name, or the address of one of its ready
    endpoints. *)
Definition serves (slices : list EndpointSlice) (info : ServiceInfo) (target : ServiceTarget) (b : GwWeightedBackend)
    (address : string) : Prop :=
  address = gwb_backend b ∨
  ∃ s e a port, s ∈ slices ∧ slice_service s = Some (stg_namespace target, stg_name target) ∧
    e ∈ esl_endpoints s ∧ endpoint_is_ready e = true ∧ a ∈ en_addresses e ∧
    resolve_endpoint_port (stg_port target) info {| ei_address := a; ei_ports := default [] (esl_ports s) |} = Some port ∧
    address = format_backend_address a port.

Lemma endpoint_map_elem slices key es e :
  build_endpoint_map slices !! key = Some es → e ∈ es → ∃ s, s ∈ slices ∧ slice_service s = Some key ∧ e ∈ slice_endpoints s.
Proof.
  intros Hes He. assert (e ∈ default [] (build_endpoint_map slices !! key)) as Hin by (by rewrite Hes). clear Hes He es.
  unfold build_endpoint_map in Hin. induction slices as [|s slices IH] using rev_ind; [by apply not_elem_of_nil in Hin|].
  rewrite foldl_app in Hin. cbn [foldl] in Hin. setoid_rewrite elem_of_app. set (m := foldl _ ∅ slices) in *.
  assert (e ∈ default [] (m !! key) ∨ slice_service s = Some key ∧ e ∈ slice_endpoints s) as [Hm|Hs].
  { destruct (slice_service s) as [k|] eqn:Hk; [|by left]. clear IH.
    induction (slice_endpoints s) as [|e' l IH] using rev_ind; [by left|]. rewrite foldl_app in Hin. cbn [foldl] in Hin.
    rewrite lookup_push_entry in Hin. rewrite elem_of_app in Hin |- *. destruct Hin as [Hin|Hin]; [destruct (IH Hin); tauto|].
    case_decide as Hd; [|by apply not_elem_of_nil in Hin]. subst k. by right; split; [|right]. }
  - destruct (IH Hm) as (s' & Hs' & ?). exists s'. split; [by left|done].
  - exists s. split; [right; left|done].
Qed.

Section expansion.
Context (services : list Service) (slices : list EndpointSlice) (tls : gmap ServiceTargetKey BackendTlsAttachment).
Abbreviation expand := (expand_backend (build_service_map services) (build_endpoint_map slices) tls).

Lemma expand_nonempty b : expand b ≠ [].
Proof. unfold expand_backend. repeat case_match; done. Qed.

(** Each backend it becomes keeps the weight and the filters, has the protocol and the policy
    of the port, and stands for the Service. *)
Lemma elem_of_expand b target info w :
  parse_service_target (gwb_backend b) = Some target →
  build_service_map services !! (stg_namespace target, stg_name target) = Some info → w ∈ expand b →
  gwb_weight w = gwb_weight b ∧ gwb_filters w = gwb_filters b ∧ gwb_protocol w = backend_protocol tls target info ∧
  (gwb_tls b = None → gwb_tls w = tls_attachment tls target info) ∧ serves slices info target b (gwb_backend w).
Proof.
  intros Ht Hi. unfold expand_backend. rewrite Ht, Hi.
  set (named := backend_by_name _ _ _).
  assert (w ∈ [named] → gwb_weight w = gwb_weight b ∧ gwb_filters w = gwb_filters b ∧
            gwb_protocol w = backend_protocol tls target info ∧ (gwb_tls b = None → gwb_tls w = tls_attachment tls target info) ∧
            serves slices info target b (gwb_backend w)) as Hnamed.
  { intros ->%list_elem_of_singleton. split_and!; [done..| |by left]. intros Hb. cbn. rewrite Hb. by destruct (tls_attachment _ _ _). }
  destruct (negb _); [exact Hnamed|]. destruct (build_endpoint_map slices !! _) as [es|] eqn:Hes; [|exact Hnamed].
  destruct (omap _ es) as [|w' ws] eqn:Ho; [exact Hnamed|]. rewrite <- Ho. clear Hnamed named.
  intros (e & He & Hw)%list_elem_of_omap. apply fmap_Some in Hw as (port & Hport & ->). split_and!; [done..|]. right.
  destruct (endpoint_map_elem _ _ _ _ Hes He) as (s & Hs & Hsvc & Hse). unfold slice_endpoints in Hse.
  apply list_elem_of_bind in Hse as (en & (a & -> & Ha)%list_elem_of_fmap & [Hready Hen]%list_elem_of_filter).
  exists s, en, a, port. done.
Qed.

(** A Service nobody knows, or a backend that is no Service, stays. *)
Lemma expand_unknown b :
  (∀ target, parse_service_target (gwb_backend b) = Some target →
     build_service_map services !! (stg_namespace target, stg_name target) = None) → expand b = [b].
Proof. intros Hn. unfold expand_backend. destruct (parse_service_target _) as [t|]; [|done]. by rewrite (Hn t eq_refl). Qed.
End expansion.

(** ** Composition *)

(** The address of a reference: its Service, or a ready endpoint of it. *)
Definition leads_to (slices : list EndpointSlice) (ns : string) (b : BackendRef) (address : string) : Prop :=
  let target := default ns (bref_namespace b) in
  address = service_address (bref_name b) target (default 80 (bref_port b)) ∨
  ∃ s e a port, s ∈ slices ∧ slice_service s = Some (target, bref_name b) ∧ e ∈ esl_endpoints s ∧
    endpoint_is_ready e = true ∧ a ∈ en_addresses e ∧ address = format_backend_address a port.

(** What the API server admits in a backendRef. *)
Definition ref_names_ok (ns : string) (b : BackendRef) : Prop :=
  dns_label (default ns (bref_namespace b)) ∧ ¬ str_elem ":" (bref_name b) ∧ - 2 ^ 31 ≤ default 80 (bref_port b) < 2 ^ 31.

Lemma update_rules_backends rules res i r : update_rules_programmed rules res !! i = Some r →
  ∃ r0, rules !! i = Some r0 ∧ hrr_backends r = hrr_backends r0.
Proof.
  revert res i. induction rules as [|r0 rules IH]; intros [|x res] i Hr; cbn in Hr; [done..|eauto|].
  destruct i; cbn in *; [injection Hr as <-; eauto|eauto].
Qed.

Lemma expanded_ref services slices tls ns v b w :
  parse_backend_ref ns v = Some b → ref_names_ok ns (rbr_ref v) →
  w ∈ expand_backend (build_service_map services) (build_endpoint_map slices) tls b → leads_to slices ns (rbr_ref v) (gwb_backend w).
Proof.
  intros [= <-] (Hns & Hname & Hport) Hw. set (b := Build_GwWeightedBackend _ _ _ _ _) in *.
  pose proof (service_address_roundtrip _ _ _ Hns Hname Hport) as Ht. change (service_address _ _ _) with (gwb_backend b) in Ht.
  destruct (build_service_map services !! (default ns (bref_namespace (rbr_ref v)), bref_name (rbr_ref v))) as [info|] eqn:Hi.
  - destruct (elem_of_expand services slices tls b _ info w Ht Hi Hw) as (_ & _ & _ & _ & [->|Hs]); [by left|right].
    destruct Hs as (s & e & a & port & Hs & Hsvc & He & Hr & Ha & _ & ->). by exists s, e, a, port.
  - rewrite expand_unknown in Hw; [apply list_elem_of_singleton in Hw as ->; by left|]. intros t. rewrite Ht. by intros [= <-].
Qed.

Lemma omap_total_lookup {A B} (f : A → option B) (l : list A) (i : nat) y :
  (∀ x, is_Some (f x)) → omap f l !! i = Some y → ∃ x, l !! i = Some x ∧ f x = Some y.
Proof.
  intros Hf. revert i. induction l as [|x l IH]; intros i Hi; [done|]. cbn in Hi. destruct (Hf x) as [z Hz]. rewrite Hz in Hi.
  destruct i; cbn in *; [exists x; by rewrite Hz|by apply IH].
Qed.

Lemma update_grpc_rules_at rules res i r : update_grpc_rules_programmed rules res !! i = Some r →
  ∃ r0, rules !! i = Some r0 ∧ grr_backends r = grr_backends r0 ∧
    ∀ x, res !! i = Some x → grr_programmed r = true → rbr_ok x = true.
Proof.
  revert res i. induction rules as [|r0 rules IH]; intros [|x res] i Hr; cbn in Hr; [done..|by exists r|].
  destruct i; cbn in *; [|by apply IH]. injection Hr as <-. exists r0. split_and!; [done..|]. intros ? [= <-] [_ ?]%andb_true_iff. done.
Qed.

(** A backend of the final list comes from one before the expansion. *)
Definition stands_for (services : option (list Service)) (slices : option (list EndpointSlice))
    (tls : gmap ServiceTargetKey BackendTlsAttachment) (b w : GwWeightedBackend) : Prop :=
  match services, slices with
  | Some services, Some slices => w ∈ expand_backend (build_service_map services) (build_endpoint_map slices) tls b
  | _, _ => w = b
  end.

Lemma stands_for_leads services slices tls ns v b w :
  parse_backend_ref ns v = Some b → ref_names_ok ns (rbr_ref v) → stands_for services slices tls b w →
  leads_to (default [] slices) ns (rbr_ref v) (gwb_backend w).
Proof.
  intros Hv Hok Hw. unfold stands_for in Hw. destruct services as [services|], slices as [slices|]; [by eapply expanded_ref|..];
    subst; left; by injection Hv as <-.
Qed.

(** The references of a rule that resolved, and what they stand for. *)
Lemma resolved_rule_leads `{!ServiceStore} ns kind grants (rules : list (option (list RawBackendRef))) i x refs services slices tls w :
  br_rules (resolve_backend_refs_async ns kind grants (Some (rule_backend_refs <$> rules))) !! i = Some x → rbr_ok x = true →
  rules !! i = Some (Some refs) → (∀ v, v ∈ refs → ref_names_ok ns (rbr_ref v)) →
  (∃ b, b ∈ omap (parse_backend_ref ns) refs ∧ stands_for services slices tls b w) →
  ∃ v, v ∈ refs ∧ permitted_ref grants ns kind (rbr_ref v) ∧ leads_to (default [] slices) ns (rbr_ref v) (gwb_backend w).
Proof.
  intros Hx Hok Hrefs Hnames (b & (v & Hv & Hb)%list_elem_of_omap & Hw). exists v. split; [done|]. split.
  - eapply resolution_permits; [exact Hx|done| |by apply list_elem_of_fmap_2]. by rewrite list_lookup_fmap, Hrefs.
  - eapply stands_for_leads; [exact Hb|by apply Hnames|exact Hw].
Qed.

Lemma resolution_total `{!ServiceStore} ns kind grants refs (i : nat) :
  is_Some (refs !! i) → is_Some (br_rules (resolve_backend_refs_async ns kind grants (Some refs)) !! i).
Proof. intros Hi%lookup_lt_is_Some. apply lookup_lt_is_Some. by rewrite (proj1 (resolution_permits ns kind grants refs)). Qed.

Section routed.
Context `{!DurationParser, !ServiceStore}.
Context (grants : list ReferenceGrantState) (c : ClusterState).
Context (services : option (list Service)) (slices : option (list EndpointSlice)) (policies : list BackendTLSPolicyState).

(** From the objects of the API server to the address of a backend, nothing without
    permission: when a rule of an HTTPRoute is programmed, every backend it is given, after
    the Services are expanded to their endpoints, is a Service that a backendRef of the same
    rule names, or a ready endpoint of that Service; and the Service exists and lies in the
    namespace of the route, or in one with a ReferenceGrant for it. *)
Theorem routed_http_backends st routes i rule w :
  st ∈ resolve_service_endpoints expand_http_route services slices policies (collect_http_route grants c <$> routes) →
  hrs_rules st !! i = Some rule → hrr_programmed rule = true → w ∈ hrr_backends rule →
  ∃ r rules raw refs, r ∈ routes ∧ hr_rules r = Some rules ∧ rules !! i = Some raw ∧ rhr_backend_refs raw = Some refs ∧
    ((∀ v, v ∈ refs → ref_names_ok (meta_namespace (hr_meta r)) (rbr_ref v)) →
     ∃ v, v ∈ refs ∧ permitted_ref grants (meta_namespace (hr_meta r)) "HTTPRoute" (rbr_ref v) ∧
          leads_to (default [] slices) (meta_namespace (hr_meta r)) (rbr_ref v) (gwb_backend w)).
Proof.
  intros Hst Hrule Hprog Hw.
  assert (∃ r rule0 b, r ∈ routes ∧ hrs_rules (collect_http_route grants c r) !! i = Some rule0 ∧ hrr_programmed rule0 = true ∧
            b ∈ hrr_backends rule0 ∧ stands_for services slices (build_tls_policy_map policies) b w)
    as (r & rule0 & b & Hr & Hr0 & Hp0 & Hb & Hs).
  { unfold resolve_service_endpoints, stands_for in *. destruct services as [svs|], slices as [sls|].
    2-4: apply list_elem_of_fmap in Hst as (r & -> & Hr); by exists r, rule, w.
    apply list_elem_of_fmap in Hst as (st0 & -> & (r & -> & Hr)%list_elem_of_fmap). cbn -[collect_http_route] in Hrule.
    apply list_lookup_fmap_Some in Hrule as (rule0 & -> & Hr0). cbn in Hw. apply list_elem_of_bind in Hw as (b & Hw & Hb).
    by exists r, rule0, b. }
  pose proof (update_rules_backends _ _ _ _ Hr0) as (r1 & Hr1 & Heq). rewrite Heq in Hb. cbn in Hr1. cbn -[resolve_backend_refs_async] in Hr0.
  destruct (hr_rules r) as [rules|] eqn:Hrules; [|done]. apply omap_total_lookup in Hr1 as (raw & Hraw & [= <-]); [|by eauto].
  change (rules !! i = Some raw) in Hraw. cbn in Hb. destruct (rhr_backend_refs raw) as [refs|] eqn:Hrefs; [|by apply not_elem_of_nil in Hb].
  exists r, rules, raw, refs. split_and!; [done..|]. intros Hnames. unfold http_backend_refs in Hr0. rewrite Hrules in Hr0.
  set (raws := rhr_backend_refs <$> rules). assert (raws !! i = Some (Some refs)) as Hi by (unfold raws; by rewrite list_lookup_fmap, Hraw, <- Hrefs).
  change ((λ rule, rule_backend_refs (rhr_backend_refs rule)) <$> rules) with ((rule_backend_refs ∘ rhr_backend_refs) <$> rules) in Hr0.
  cbn [fmap option_fmap option_map] in Hr0.
  destruct (resolution_total (meta_namespace (hr_meta r)) "HTTPRoute" grants (rule_backend_refs <$> raws) i) as [x Hx].
  { rewrite list_lookup_fmap, Hi. by eexists. }
  eapply (resolved_rule_leads _ _ _ raws i x); [exact Hx| |exact Hi|exact Hnames|by exists b].
  eapply (update_rules_lookup _ _ _ _ Hr0 Hp0). unfold raws in Hx. rewrite <- list_fmap_compose in Hx. exact Hx.
Qed.

(** The same for a GRPCRoute. *)
Theorem routed_grpc_backends st routes i rule w :
  st ∈ resolve_service_endpoints expand_grpc_route services slices policies (collect_grpc_route grants c <$> routes) →
  grs_rules st !! i = Some rule → grr_programmed rule = true → w ∈ grr_backends rule →
  ∃ r rules raw refs, r ∈ routes ∧ gr_rules r = Some rules ∧ rules !! i = Some raw ∧ rgr_backend_refs raw = Some refs ∧
    ((∀ v, v ∈ refs → ref_names_ok (meta_namespace (gr_meta r)) (rbr_ref v)) →
     ∃ v, v ∈ refs ∧ permitted_ref grants (meta_namespace (gr_meta r)) "GRPCRoute" (rbr_ref v) ∧
          leads_to (default [] slices) (meta_namespace (gr_meta r)) (rbr_ref v) (gwb_backend w)).
Proof.
  intros Hst Hrule Hprog Hw.
  assert (∃ r rule0 b, r ∈ routes ∧ grs_rules (collect_grpc_route grants c r) !! i = Some rule0 ∧ grr_programmed rule0 = true ∧
            b ∈ grr_backends rule0 ∧ stands_for services slices (build_tls_policy_map policies) b w)
    as (r & rule0 & b & Hr & Hr0 & Hp0 & Hb & Hs).
  { unfold resolve_service_endpoints, stands_for in *. destruct services as [svs|], slices as [sls|].
    2-4: apply list_elem_of_fmap in Hst as (r & -> & Hr); by exists r, rule, w.
    apply list_elem_of_fmap in Hst as (st0 & -> & (r & -> & Hr)%list_elem_of_fmap). cbn -[collect_grpc_route] in Hrule.
    apply list_lookup_fmap_Some in Hrule as (rule0 & -> & Hr0). cbn in Hw. apply list_elem_of_bind in Hw as (b & Hw & Hb).
    by exists r, rule0, b. }
  cbn -[resolve_backend_refs_async] in Hr0. pose proof (update_grpc_rules_at _ _ _ _ Hr0) as (r1 & Hr1 & Heq & Hokx). rewrite Heq in Hb.
  destruct (gr_rules r) as [rules|] eqn:Hrules; [|done]. apply omap_total_lookup in Hr1 as (raw & Hraw & [= <-]); [|by eauto].
  change (rules !! i = Some raw) in Hraw. cbn in Hb. destruct (rgr_backend_refs raw) as [refs|] eqn:Hrefs; [|by apply not_elem_of_nil in Hb].
  exists r, rules, raw, refs. split_and!; [done..|]. intros Hnames. unfold grpc_backend_refs in Hr0. rewrite Hrules in Hr0.
  set (raws := rgr_backend_refs <$> rules). assert (raws !! i = Some (Some refs)) as Hi by (unfold raws; by rewrite list_lookup_fmap, Hraw, <- Hrefs).
  change ((λ rule, rule_backend_refs (rgr_backend_refs rule)) <$> rules) with ((rule_backend_refs ∘ rgr_backend_refs) <$> rules) in Hr0.
  cbn [fmap option_fmap option_map] in Hr0.
  destruct (resolution_total (meta_namespace (gr_meta r)) "GRPCRoute" grants (rule_backend_refs <$> raws) i) as [x Hx].
  { rewrite list_lookup_fmap, Hi. by eexists. }
  eapply (resolved_rule_leads _ _ _ raws i x); [exact Hx| |exact Hi|exact Hnames|by exists b].
  eapply Hokx; [|done]. unfold grpc_backend_refs. rewrite Hrules. unfold raws in Hx. rewrite <- list_fmap_compose in Hx. exact Hx.
Qed.
End routed.

(** The policy is the one of the port: it names the port's section, or the Service as a whole
    when no policy names the section. *)
Definition covers (policies : list BackendTLSPolicy) (p : BackendTLSPolicy) (target : ServiceTarget) (info : ServiceInfo) : Prop :=
  let section := find_port (si_ports info) (stg_port target) ≫= sp_name in
  let key := target_key (policy_target p) in
  key = (stg_namespace target, stg_name target, section) ∨
  key = (stg_namespace target, stg_name target, None) ∧
  ∀ q, q ∈ policies → target_key (policy_target q) ≠ (stg_namespace target, stg_name target, section).

Lemma covered_attachment `{!ConfigMapApi} policies p target info :
  NoDup (policy_id <$> policies) → p ∈ policies → bp_programmed (state_of policies p) = true → covers policies p target info →
  tls_attachment (build_tls_policy_map (policy_states policies)) target info = Some (attachment_of (state_of policies p)).
Proof.
  intros Hid Hp Hprog Hc. pose proof (programmed_in_map policies Hid p Hp Hprog) as Hin. unfold tls_attachment, covers in *.
  destruct (find_port (si_ports info) (stg_port target) ≫= sp_name) as [n|] eqn:Hn; cbn.
  - destruct Hc as [Hk|[Hk Hnone]]; rewrite Hk in Hin; [rewrite Hin; destruct (build_tls_policy_map _ !! (_, _, None)); reflexivity|]. rewrite Hin.
    destruct (build_tls_policy_map _ !! (_, _, Some n)) as [a|] eqn:Ha; [|done].
    apply map_from_policy in Ha as (q & Hq & Hkq & _). by destruct (Hnone q Hq Hkq).
  - rewrite (left_id None union). destruct Hc as [Hk|[Hk _]]; by rewrite Hk in Hin.
Qed.

(** A BackendTLSPolicy is enforced, from the object to the connection. Take a policy whose
    CA references all resolve, that names one Service and is older than every other policy of
    the same target, and that covers a port of a Service some backend refers to. Then all the
    backend becomes, its name or its endpoints, is reached over HTTPS, and each peer that is
    built for it verifies the certificate and the hostname of the policy against the
    policy's own certificates and no others, with the alternative names of the policy. *)
Theorem policy_enforced `{!ConfigMapApi, PO : !PeerOps} policies services slices p b target info w addr timeout cert peer :
  NoDup (policy_id <$> policies) → p ∈ policies → policy_valid p → default [] (btp_ca_certificate_refs p) ≠ [] →
  (∀ q, q ∈ policies → target_key (policy_target q) = target_key (policy_target p) →
     q = p ∨ policy_cmp (prevalidate p) (prevalidate q) = Lt) →
  parse_service_target (gwb_backend b) = Some target → gwb_tls b = None →
  build_service_map services !! (stg_namespace target, stg_name target) = Some info → covers policies p target info →
  w ∈ expand_backend (build_service_map services) (build_endpoint_map slices) (build_tls_policy_map (policy_states policies)) b →
  let ir := weighted_backend_from w in
  make_peer addr timeout (wb_protocol ir) (wb_tls ir) cert = Some peer →
  wb_protocol ir = BackendHttps ∧
  ∃ d, hp_custom_l4 peer = Some d ∧ du_verify_cert d = true ∧ du_verify_hostname d = true ∧ du_sni d = btp_hostname p ∧
       du_ca_bundle_pem d = Some (policy_bundle p) ∧ du_alternative_cn d = None ∧
       du_subject_alt_names d = san_value ∘ san_of <$> default [] (btp_subject_alt_names p).
Proof.
  intros Hid Hp Hvalid Hcas Hold Ht Hb Hi Hc Hw ir Hpeer.
  assert (bp_programmed (state_of policies p) = true) as Hprog.
  { apply programmed_iff. split; [|done]. destruct (winner_spec policies Hid p Hp) as (v & Hv & Hkv & Hwv & Hall).
    destruct (Hall p Hp eq_refl) as [Hle _]. destruct (Hold v Hv Hkv) as [->|Hlt]; [done|]. exfalso.
    unfold cmp_le in Hle. rewrite (cmp_opp (prevalidate p)), Hlt in Hle. done. }
  pose proof (covered_attachment policies p target info Hid Hp Hprog Hc) as Ha.
  destruct (elem_of_expand _ _ _ _ _ _ _ Ht Hi Hw) as (_ & _ & Hproto & Htls & _). specialize (Htls Hb). rewrite Ha in Htls.
  assert (wb_protocol ir = BackendHttps) as Hhttps.
  { change (wb_protocol ir) with (gwb_protocol w). rewrite Hproto. unfold backend_protocol. by rewrite Ha. }
  split; [done|]. destruct (tls_backend_never_plaintext _ _ _ _ _ _ Hpeer ltac:(by rewrite Hhttps)) as (cfg & Hcfg & Hd).
  change (wb_tls ir) with (to_ir_backend_tls <$> gwb_tls w) in Hcfg. rewrite Htls, state_attachment in Hcfg.
  injection Hcfg as <-. cbn [bt_ca_bundle_pem to_ir_backend_tls bta_ca_bundle_pem] in Hd.
  rewrite decide_False in Hd by (by apply (policy_bundle_nonempty policies)). destruct Hd as (d & ? & ? & ? & ? & ? & ? & ? & _). by exists d.
Qed.

Lemma accepted_of_conflicted p b : (accepted_of p b).1.2 = "Conflicted" ↔ b = false.
Proof. unfold accepted_of. by destruct b; cbn; repeat case_match. Qed.

(** Of the policies of one target exactly one is not in conflict: the oldest, of several of
    the same second the one whose name comes first. No other is accepted, whether or not that
    one can be used. *)
Theorem policy_conflicts_resolved `{!ConfigMapApi} policies p :
  NoDup (policy_id <$> policies) → p ∈ policies →
  ∃ w, w ∈ policies ∧ target_key (policy_target w) = target_key (policy_target p) ∧
    ∀ q, q ∈ policies → target_key (policy_target q) = target_key (policy_target p) →
      cmp_le policy_cmp (prevalidate w) (prevalidate q) = true ∧
      (bp_accepted_reason (state_of policies q) = "Conflicted" ↔ q ≠ w) ∧
      (q ≠ w → bp_accepted (state_of policies q) = false ∧ bp_programmed (state_of policies q) = false) ∧
      (bp_programmed (state_of policies q) = true ↔ q = w ∧ policy_valid q).
Proof.
  intros Hid Hp. destruct (winner_spec policies Hid p Hp) as (w & Hw & Hkw & _ & Hall). exists w. split_and!; [done..|].
  intros q Hq Hkq. destruct (Hall q Hq Hkq) as [Hle Hwins]. split; [done|].
  assert (bp_accepted_reason (state_of policies q) = "Conflicted" ↔ wins policies q = false) as Hreason.
  { unfold state_of. rewrite <- (accepted_of_conflicted (prevalidate q)). unfold build_state.
    by destruct (accepted_of _ _) as [[]], (resolved_refs_of _) as [[]]. }
  assert (wins policies q = false → bp_accepted (state_of policies q) = false) as Hacc.
  { unfold state_of, build_state, accepted_of. intros ->. by destruct (resolved_refs_of _) as [[]]. }
  rewrite Hreason, programmed_iff, Hwins, <- Hwins, <- not_true_iff_false. split_and!; [done| |done].
  intros Hn%not_true_iff_false. split; [by apply Hacc|]. apply not_true_iff_false. rewrite programmed_iff. by rewrite Hn; intros [? _].
Qed.

(** Each backend a reference is expanded to has the weight of the reference: the share of a
    Service grows with the number of its endpoints. *)
Lemma expanded_weight services slices tls b :
  let ws := expand_backend (build_service_map services) (build_endpoint_map slices) tls b in
  foldr Z.add 0 (gwb_weight <$> ws) = gwb_weight b * Z.of_nat (length ws).
Proof.
  cbv zeta. set (ws := expand_backend _ _ _ b). assert (∀ w, w ∈ ws → gwb_weight w = gwb_weight b) as Hw.
  { intros w Hw. unfold ws in Hw. destruct (parse_service_target (gwb_backend b)) as [t|] eqn:Ht.
    2: { rewrite expand_unknown in Hw by (by rewrite Ht). by apply list_elem_of_singleton in Hw as ->. }
    destruct (build_service_map services !! (stg_namespace t, stg_name t)) as [info|] eqn:Hi.
    - by eapply elem_of_expand in Hw as [? _].
    - rewrite expand_unknown in Hw; [by apply list_elem_of_singleton in Hw as ->|]. intros t'. rewrite Ht. by intros [= <-]. }
  clearbody ws. induction ws as [|w ws IH]; cbn; [lia|]. rewrite IH by (intros; apply Hw; by right). rewrite (Hw w) by left. lia.
Qed.

Lemma update_rules_at rules res i r x : rules !! i = Some r → res !! i = Some x →
  ∃ r', update_rules_programmed rules res !! i = Some r' ∧ hrr_filters r' = hrr_filters r ∧
        hrr_programmed r' = hrr_programmed r && rbr_ok x.
Proof.
  revert res i. induction rules as [|r0 rules IH]; intros [|x0 res] [|i] Hr Hx; cbn in *; simplify_eq/=; [|by apply IH].
  by eexists.
Qed.

(** A mirror is not checked: whether a rule is programmed depends on its backendRefs alone,
    and a rule that is mirrors to the Service its filter names, in any namespace and whatever
    the grants are. *)
Theorem mirror_not_checked `{!DurationParser, !ServiceStore} grants c r rules i raw fs f m :
  hr_rules r = Some rules → rules !! i = Some raw → rhr_filters raw = Some fs → f ∈ fs →
  rf_type f = FtRequestMirror → rf_request_mirror f = Some m →
  let ns := meta_namespace (hr_meta r) in
  ∃ rule, hrs_rules (collect_http_route grants c r) !! i = Some rule ∧
    hrr_programmed rule =
      bool_decide (filter (λ b, is_ok (check_backend ns "HTTPRoute" grants b) = false)
                     (default [] (rule_backend_refs (rhr_backend_refs raw))) = []) ∧
    RequestMirror (service_address (rmi_name m) (default ns (rmi_namespace m)) (default 80 (rmi_port m)))
      (parse_mirror_fraction m) ∈ hrr_filters rule.
Proof.
  intros Hrules Hraw Hfs Hf Htype Hm ns. unfold collect_http_route, http_backend_refs. rewrite Hrules.
  cbn. change (meta_namespace (hr_meta r)) with ns. set (refs := (λ rule, rule_backend_refs (rhr_backend_refs rule)) <$> rules).
  pose proof (resolve_rules_spec ns "HTTPRoute" grants BackendOk refs) as [Hok _]. destruct (resolve_rules _ _ _ _ refs) as [o res].
  cbn [snd] in Hok. apply (f_equal (lookup i)) in Hok. unfold refs in Hok. rewrite !list_lookup_fmap, Hraw in Hok. cbn in Hok.
  apply fmap_Some in Hok as (x & Hx & Hok).
  destruct (update_rules_at (omap (http_parse_rule ns) (default [] (hr_rules r))) res i
              (default (Build_HTTPRouteRule [] [] [] None None true) (http_parse_rule ns raw)) x) as (rule & Hr & Hfil & Hprog).
  - rewrite Hrules. cbn. clear -Hraw. revert i Hraw. induction rules as [|y rules IH]; intros [|i] Hi; cbn in *; simplify_eq/=; [done|by apply IH].
  - done.
  - exists rule. split_and!; [exact Hr|by rewrite Hprog, Hok|]. rewrite Hfil. cbn. rewrite Hfs. cbn.
    apply list_elem_of_bind. exists f. split; [|done]. unfold http_parse_filter. rewrite Htype, Hm. left.
Qed.

(** ** Examples *)

Module EndpointExamples.
Import PeerExamples.

Definition PEM : string := "-----BEGIN CERTIFICATE-----".

(** A cluster with one ConfigMap. *)
#[local] Instance cluster : ConfigMapApi :=
  λ ns name, if bool_decide ((ns, name) = ("shop", "ca")) then Some (Some {["ca.crt" := PEM]}) else None.

#[local] Instance no_durations : DurationParser := λ _, None.
#[local] Instance every_service : ServiceStore := λ _ _, true.

Definition named (ns name : string) : ObjectMeta := {| om_namespace := Some ns; om_name := Some name; om_generation := Some 1 |}.

Definition policy (name : string) (created : Z) (config_map : string) : BackendTLSPolicy :=
  {| btp_meta := named "shop" name; btp_creation_timestamp := Some created;
     btp_target_refs := [{| rtr_group := ""; rtr_kind := "Service"; rtr_name := "db"; rtr_section_name := None |}];
     btp_hostname := "db.internal";
     btp_ca_certificate_refs := Some [{| ccr_group := ""; ccr_kind := "ConfigMap"; ccr_name := config_map |}];
     btp_subject_alt_names := None |}.

Definition port (p : Z) : ServicePort := {| sp_name := Some "sql"; sp_port := p; sp_app_protocol := None; sp_target_port := None |}.

(** A headless Service with three endpoints, one of them going away. *)
Definition db : Service :=
  {| sv_namespace := Some "shop"; sv_name := Some "db";
     sv_spec := Some {| sv_cluster_ip := Some "None"; sv_selector := Some {["app" := "db"]}; sv_ports := Some [port 5432] |} |}.

Definition ready (address : string) : Endpoint := {| en_addresses := [address]; en_conditions := Some (Some true, None) |}.

Definition db_slice : EndpointSlice :=
  {| esl_namespace := Some "shop"; esl_labels := Some {["kubernetes.io/service-name" := "db"]};
     esl_ports := Some [{| ept_name := Some "sql"; ept_port := Some 15432 |}];
     esl_endpoints := [ready "10.0.0.7"; {| en_addresses := ["10.0.0.8"]; en_conditions := Some (Some true, Some true) |};
                       ready "fd00::9"] |}.

Definition ref (ns : option string) (name : string) (p : Z) : RawBackendRef :=
  {| rbr_ref := {| bref_group := None; bref_kind := None; bref_namespace := ns; bref_name := name; bref_port := Some p;
                   bref_weight := None |}; rbr_filters := None |}.

Definition to_db : GwWeightedBackend :=
  {| gwb_backend := service_address "db" "shop" 5432; gwb_weight := 1; gwb_filters := []; gwb_protocol := BackendHttp; gwb_tls := None |}.

Definition expand_with (policies : list BackendTLSPolicy) : list GwWeightedBackend :=
  expand_backend (build_service_map [db]) (build_endpoint_map [db_slice]) (build_tls_policy_map (policy_states policies)) to_db.

(** The two ready endpoints, each with the weight of the whole Service. *)
Example expanded_endpoints :
  (λ w, (gwb_backend w, gwb_weight w)) <$> expand_with [] = [("10.0.0.7:15432", 1); ("[fd00::9]:15432", 1)].
Proof. vm_compute. reflexivity. Qed.

(** An older policy whose ConfigMap cannot be read keeps the valid one from being used, and the
    backend is reached without TLS. *)
Example unusable_policy_shadows :
  (λ w, (gwb_protocol w, gwb_tls w)) <$> expand_with [policy "old" 1 "missing"; policy "new" 2 "ca"] =
    [(BackendHttp, None); (BackendHttp, None)] ∧
  bp_accepted_reason <$> policy_states [policy "old" 1 "missing"; policy "new" 2 "ca"] = ["NoValidCACertificate"; "Conflicted"].
Proof. vm_compute. done. Qed.

(** So does a failure to list the Services, the policy notwithstanding. *)
Example unread_services_plain :
  hrr_backends <$> (resolve_service_endpoints expand_http_route None (Some [db_slice]) (policy_states [policy "new" 2 "ca"])
    [parse_httproute_state {| hr_meta := named "shop" "web"; hr_parent_refs := None; hr_hostnames := None;
       hr_rules := Some [{| rhr_matches := None; rhr_backend_refs := Some [ref None "db" 5432]; rhr_filters := None;
                            rhr_timeout_request := None; rhr_timeout_backend_request := None |}] |}] ≫= hrs_rules) = [[to_db]].
Proof. vm_compute. reflexivity. Qed.

(** The theorem, on the first endpoint of the Service. *)
Lemma policy_enforced_witness :
  ∃ w peer d, expand_with [policy "new" 2 "ca"] !! 0%nat = Some w ∧
    make_peer (gwb_backend w) None (wb_protocol (weighted_backend_from w)) (wb_tls (weighted_backend_from w)) None = Some peer ∧
    hp_custom_l4 peer = Some d ∧ du_ca_bundle_pem d = Some (PEM +:+ String "010" "").
Proof.
  destruct (expand_with [policy "new" 2 "ca"] !! 0%nat) as [w|] eqn:Hw; [|vm_compute in Hw; discriminate Hw].
  destruct (make_peer (gwb_backend w) None (wb_protocol (weighted_backend_from w)) (wb_tls (weighted_backend_from w)) None)
    as [peer|] eqn:Hm; [|vm_compute in Hw; injection Hw as <-; vm_compute in Hm; discriminate Hm].
  destruct (policy_enforced [policy "new" 2 "ca"] [db] [db_slice] (policy "new" 2 "ca") to_db
    {| stg_name := "db"; stg_namespace := "shop"; stg_port := 5432 |}
    {| si_cluster_ip := Some "None"; si_selector := Some {["app" := "db"]}; si_ports := [port 5432] |} w (gwb_backend w) None None peer)
    as (_ & d & Hd & _ & _ & _ & Hb & _).
  - apply NoDup_singleton.
  - left.
  - split; [vm_compute; reflexivity|]. intros c Hc. apply list_elem_of_singleton in Hc as ->. vm_compute. reflexivity.
  - discriminate.
  - intros q Hq _. apply list_elem_of_singleton in Hq as ->. by left.
  - vm_compute. reflexivity.
  - reflexivity.
  - vm_compute. reflexivity.
  - right. split; [vm_compute; reflexivity|]. intros q Hq. apply list_elem_of_singleton in Hq as ->. vm_compute. discriminate.
  - by apply list_elem_of_lookup_2 in Hw.
  - exact Hm.
  - exists w, peer, d. split_and!; [reflexivity|exact Hm|exact Hd|]. rewrite Hb. vm_compute. reflexivity.
Defined.

Definition grant : ReferenceGrantState :=
  {| rg_namespace := "shop"; rg_name := "g"; rg_generation := 1;
     rg_from := [{| gsub_group := GATEWAY_GROUP; gsub_kind := "HTTPRoute"; gsub_namespace := Some "edge"; gsub_name := None |}];
     rg_to := [{| gsub_group := ""; gsub_kind := "Service"; gsub_namespace := None; gsub_name := None |}] |}.

Definition no_cluster : ClusterState :=
  {| cl_gateways := []; cl_listener_sets := []; cl_labels := ∅; cl_listener_allowed := ∅; cl_listener_set_allowed := ∅ |}.

Definition raw_rule (refs : option (list RawBackendRef)) (fs : option (list RawFilter)) : RawHttpRule :=
  {| rhr_matches := None; rhr_backend_refs := refs; rhr_filters := fs; rhr_timeout_request := None;
     rhr_timeout_backend_request := None |}.

Definition edge_route (rule : RawHttpRule) : HTTPRoute :=
  {| hr_meta := named "edge" "web"; hr_parent_refs := None; hr_hostnames := None; hr_rules := Some [rule] |}.

(** A mirror into a namespace that grants nothing. *)
Example mirror_without_grant :
  let mirror := {| rf_type := FtRequestMirror; rf_url_rewrite := None; rf_request_header_modifier := None;
                   rf_response_header_modifier := None; rf_request_redirect := None;
                   rf_request_mirror := Some {| rmi_name := "db"; rmi_namespace := Some "shop"; rmi_port := Some 5432;
                                                rmi_fraction := None; rmi_percent := None |}; rf_cors := None |} in
  (λ r, (hrr_programmed r, hrr_filters r)) <$>
    hrs_rules (collect_http_route [] no_cluster (edge_route (raw_rule (Some [ref None "web" 80]) (Some [mirror])))) =
  [(true, [RequestMirror "db.shop.svc.cluster.local.:5432" None])].
Proof. vm_compute. reflexivity. Qed.
End EndpointExamples.
