(* ===== verification/UpstreamTls.v ===== *)
(** * The upstream TLS connector ([src/proxy/upstream_tls.rs]).

    Backends under a BackendTLSPolicy are reached through a connector of the proxy's own: what
    it demands of a server certificate, and which connections a request can be sent over, the
    pooled ones included. [rustls], [webpki], the X.509 parser and Pingora's connection pool are
    classes. *)

From S2P Require Import Prelude Net Ir Sni Peer Gateway Json Translate Digest RouteParse Endpoints.

(** ** Displaying addresses ([std::net]) *)

Definition hex_digit (d : Z) : ascii := default "0"%char (String.get (Z.to_nat d) "0123456789abcdef").

(** [{:x}] of a [u16]. *)
Definition show_hex16 (n : Z) : string :=
  let digits := [n / 4096; n / 256 mod 16; n / 16 mod 16] in
  let fix go l := match l with
                  | [] => ""
                  | d :: l' => if d =? 0 then go l' else String.concat "" ((λ d, String (hex_digit d) "") <$> l)
                  end in
  go digits +:+ String (hex_digit (n mod 16)) "".

Definition show_ipv4 (b : Z) : string :=
  str_join "." (pretty <$> [b / 16777216; b / 65536 mod 256; b / 256 mod 256; b mod 256]).

Definition ipv6_segments (b : Z) : list Z :=
  (λ i, Z.shiftr b (16 * (7 - i)) mod 65536) <$> [0; 1; 2; 3; 4; 5; 6; 7].

(** The longest run of zeros, the first of them, as start and length. *)
Fixpoint zero_span (segments : list Z) (i : nat) (current longest : nat * nat) : nat * nat :=
  match segments with
  | [] => longest
  | s :: rest =>
      if s =? 0 then
        let current := (if bool_decide (current.2 = 0%nat) then i else current.1, S current.2) in
        zero_span rest (S i) current (if bool_decide (longest.2 < current.2)%nat then current else longest)
      else zero_span rest (S i) (0%nat, 0%nat) longest
  end.

Definition show_ipv6 (b : Z) : string :=
  match to_ipv4_mapped b with
  | Some v4 => "::ffff:" +:+ show_ipv4 v4
  | None =>
      let segments := ipv6_segments b in
      let '(start, len) := zero_span segments 0 (0%nat, 0%nat) (0%nat, 0%nat) in
      let show l := str_join ":" (show_hex16 <$> l) in
      if bool_decide (1 < len)%nat then show (take start segments) +:+ "::" +:+ show (drop (start + len) segments)
      else show segments
  end.

Definition show_ip (ip : IpAddr) : string := match ip with V4 b => show_ipv4 b | V6 b => show_ipv6 b end.

(** ** Certificates *)

Inductive GeneralName := DNSName (d : string) | IPAddress (octets : bytes) | URI (uri : string) | OtherGeneralName.

(** What a server presents, and when it is checked. *)
Record Chain := {
  ch_end_entity : bytes;
  ch_intermediates : list bytes;
  ch_ocsp : bytes;
  ch_now : Z;
}.

(** [rustls_pemfile::certs], the certificates [add_parsable_certificates] keeps, whether a
    client certificate can be used, the names [ServerName::try_from] takes, the SAN extension
    of a certificate (if it parses), and [WebPkiServerVerifier]. *)
Class WebPki := {
  bundle_certs : string → option (list bytes);
  parsable : bytes → bool;
  client_auth_ok : string → bool;
  valid_server_name : string → bool;
  general_names : bytes → option (list GeneralName);
  webpki_verify : list bytes → Chain → string → bool;
}.

Definition ip_addr_from_octets (octets : bytes) : option IpAddr :=
  let value := foldl (λ acc o, acc * 256 + o) 0 octets in
  if bool_decide (length octets = 4%nat) then Some (V4 value)
  else if bool_decide (length octets = 16%nat) then Some (V6 value)
  else None.

Definition general_name_value (n : GeneralName) : option string :=
  match n with
  | DNSName d => Some d
  | IPAddress octets => show_ip <$> ip_addr_from_octets octets
  | URI uri => Some uri
  | OtherGeneralName => None
  end.

Section connector.
Context `{!WebPki}.

Definition san_values (cert : bytes) : list string := omap general_name_value (default [] (general_names cert)).

Definition first_server_name (cert : bytes) : result string string :=
  match san_values cert with
  | [] => Err "not valid for name"
  | n :: _ => if valid_server_name n then Ok n else Err "invalid server name"
  end.

(** ** Verifiers *)

(** The delegate is given by its roots. *)
Record DynamicVerifier := {
  dv_roots : list bytes;
  dv_domain : option string;
  dv_verify_hostname : bool;
  dv_subject_alt_names : list string;
}.

Inductive Verifier := NoVerifier | Dynamic (v : DynamicVerifier).

Definition verified_name (v : DynamicVerifier) (cert : bytes) : result string string :=
  if dv_verify_hostname v then
    match dv_domain v with
    | Some domain => if valid_server_name domain then Ok domain else Err "invalid server name"
    | None => first_server_name cert
    end
  else first_server_name cert.

Definition verify_dynamic (v : DynamicVerifier) (ch : Chain) : result unit string :=
  (let? name := verified_name v (ch_end_entity ch) in
   if negb (webpki_verify (dv_roots v) ch name) then Err "invalid certificate"
   else if bool_decide (dv_subject_alt_names v ≠ []) &&
           negb (existsb (λ n, bool_decide (n ∈ dv_subject_alt_names v)) (san_values (ch_end_entity ch)))
   then Err "not valid for name"
   else Ok ())%result.

Definition verify_server_cert (v : Verifier) (ch : Chain) : result unit string :=
  match v with NoVerifier => Ok () | Dynamic v => verify_dynamic v ch end.

(** ** The client configuration *)

Record ClientConfig := {
  cc_client_cert : option string;
  cc_verifier : Verifier;
  cc_alpn : list string;
  cc_enable_sni : bool;
}.

Definition alpn_wire (alpn : ALPN) : list string :=
  match alpn with
  | AlpnH1 => ["http/1.1"]
  | AlpnH2 => ["h2"]
  | AlpnH2H1 => ["h2"; "http/1.1"]
  end.

Definition root_store (pem : option string) : result (list bytes) string :=
  match pem with
  | None => Ok []
  | Some pem => match bundle_certs pem with
                | Some certs => Ok (filter parsable certs)
                | None => Err "failed to parse CA bundle"
                end
  end.

(** A verifier is not built without roots. *)
Definition build_verifier (cfg : DynamicUpstreamL4) (roots : list bytes) : result Verifier string :=
  if negb (du_verify_cert cfg) then Ok NoVerifier
  else match roots with
       | [] => Err "failed to build verifier"
       | _ => Ok (Dynamic {| dv_roots := roots; dv_domain := verify_domain cfg;
                             dv_verify_hostname := du_verify_hostname cfg;
                             dv_subject_alt_names := du_subject_alt_names cfg |})
       end.

Definition build_client_config (cfg : DynamicUpstreamL4) : result ClientConfig string :=
  (let? roots := root_store (du_ca_bundle_pem cfg) in
   if match du_client_cert cfg with Some ck => negb (client_auth_ok ck) | None => false end then Err "client auth config"
   else
     let? verifier := build_verifier cfg roots in
     Ok {| cc_client_cert := du_client_cert cfg; cc_verifier := verifier;
           cc_alpn := match du_alpn cfg with Some a => alpn_wire a | None => [] end;
           cc_enable_sni := bool_decide (is_Some (verify_domain cfg)) |})%result.
End connector.

(** ** Connections *)

(** An address of Pingora's. *)
Inductive L4Addr := Inet (a : SocketAddr) | UnixSocket (path : string).

(** TCP, and the handshake of [rustls], which completes with a chain only if the verifier of
    the configuration accepts it. *)
Class TlsClient (Socket : Type) `{!WebPki} := {
  tcp_connect : SocketAddr → option Socket;
  handshake : ClientConfig → string → Socket → option Chain;
  handshake_verifies c domain s ch : handshake c domain s = Some ch → verify_server_cert (cc_verifier c) ch = Ok ();
}.

Definition connect {Socket} `{!WebPki, !TlsClient Socket} (d : DynamicUpstreamL4) (addr : L4Addr) : result Chain string :=
  match addr with
  | UnixSocket _ => Err "unsupported upstream address for dynamic TLS"
  | Inet a =>
      match tcp_connect a with
      | None => Err "tcp connect"
      | Some s =>
          (let? config := build_client_config d in
           match handshake config (default "localhost" (verify_domain d)) s with
           | Some ch => Ok ch
           | None => Err "upstream tls"
           end)%result
      end
  end.

(** Pingora's peers and pool: the defaults of [HttpPeer::new], what the hash of a peer is taken
    of, which has its address, scheme, name, client certificate, verification options and group
    key, and that hash, a [u64]. Nothing is assumed of the hash itself. *)
Class PeerPool `{!PeerOps} := {
  PoolKey : Type;
  PoolKey_eq_dec :: EqDecision PoolKey;
  pool_key : HttpPeer → PoolKey;
  pool_hash : PoolKey → Z;
  pool_hash_u64 k : 0 ≤ pool_hash k < 2 ^ 64;
  default_group : Z;
  pool_key_fields p q : pool_key p = pool_key q →
    hp_addr p = hp_addr q ∧ hp_scheme p = hp_scheme q ∧ hp_sni p = hp_sni q ∧ hp_client_cert_key p = hp_client_cert_key q ∧
    hp_verify_hostname p = hp_verify_hostname q ∧ hp_alternative_cn p = hp_alternative_cn q ∧ hp_group_key p = hp_group_key q;
  peer_new_defaults a tls sni : hp_sni (peer_new a tls sni) = sni ∧ hp_client_cert_key (peer_new a tls sni) = None ∧
    hp_alternative_cn (peer_new a tls sni) = None ∧ hp_group_key (peer_new a tls sni) = default_group ∧
    hp_custom_l4 (peer_new a tls sni) = None;
}.

Definition reuse_hash `{!PeerOps, !PeerPool} (p : HttpPeer) : Z := pool_hash (pool_key p).

(** A peer the proxy built. *)
Definition built `{!PeerOps} (p : HttpPeer) : Prop :=
  ∃ addr timeout protocol tls cert, make_peer addr timeout protocol tls cert = Some p.

(** A connection opened for a peer: by the custom connector if it has one, else by Pingora's
    own, of which nothing is known here. *)
Definition opened {Socket} `{!WebPki, !TlsClient Socket} (p : HttpPeer) (ch : option Chain) : Prop :=
  match hp_custom_l4 p with
  | Some d => ∃ chain, ch = Some chain ∧ connect d (Inet (hp_addr p)) = Ok chain
  | None => True
  end.

(** The connections a request to a peer is sent over: one opened for it, or one of the pool
    that was opened for a peer with the same hash. *)
Definition usable {Socket} `{!WebPki, !TlsClient Socket, !PeerOps, !PeerPool} (p : HttpPeer) (ch : option Chain) : Prop :=
  opened p ch ∨ ∃ q, built q ∧ opened q ch ∧ reuse_hash q = reuse_hash p.

(** What the custom connector trusts. *)
Definition trust (d : DynamicUpstreamL4) : option string * list string := (du_ca_bundle_pem d, du_subject_alt_names d).

(** Two peers whose 64-bit hashes collide: Pingora's hash is the same of different keys, or
    the hash of the trust configuration of the first is that of a different one of the other,
    or the group of a peer that has none. *)
Definition hash_collision `{!PeerOps, !PeerPool} (p q : HttpPeer) : Prop :=
  (pool_key q ≠ pool_key p ∧ pool_hash (pool_key q) = pool_hash (pool_key p)) ∨
  ∃ d, hp_custom_l4 p = Some d ∧
    match hp_custom_l4 q with
    | Some d' => trust d' ≠ trust d ∧ trust_hash d' = trust_hash d
    | None => trust_hash d = default_group
    end.

(** ** What a connection guarantees *)

(** The demands of a connector on a server: its chain verifies against the certificates of the
    bundle alone, for the name of the configuration if that is to be checked, and it has one of
    the alternative names asked for. *)
Definition demands `{!WebPki} (d : DynamicUpstreamL4) (ch : Chain) : Prop :=
  ∃ pem certs name, du_ca_bundle_pem d = Some pem ∧ bundle_certs pem = Some certs ∧
    webpki_verify (filter parsable certs) ch name = true ∧
    (∀ domain, du_verify_hostname d = true → verify_domain d = Some domain → name = domain) ∧
    (du_subject_alt_names d ≠ [] → ∃ n, n ∈ du_subject_alt_names d ∧ n ∈ san_values (ch_end_entity ch)).

Section guarantees.
Context {Socket : Type} `{!WebPki, !TlsClient Socket}.

Lemma verified_name_domain v cert name domain :
  verified_name v cert = Ok name → dv_verify_hostname v = true → dv_domain v = Some domain → name = domain.
Proof. unfold verified_name. intros Hn Hv Hd. rewrite Hv, Hd in Hn. destruct (valid_server_name domain); by simplify_eq. Qed.

Lemma verify_dynamic_ok v ch : verify_dynamic v ch = Ok () →
  ∃ name, verified_name v (ch_end_entity ch) = Ok name ∧ webpki_verify (dv_roots v) ch name = true ∧
    (dv_subject_alt_names v ≠ [] → ∃ n, n ∈ dv_subject_alt_names v ∧ n ∈ san_values (ch_end_entity ch)).
Proof.
  unfold verify_dynamic. intros (name & Hn & Hv)%result_bind_ok. exists name. split; [done|].
  destruct (webpki_verify _ _ _); cbn [negb] in Hv; [|done]. split; [done|]. intros Hs.
  rewrite bool_decide_true in Hv by done. destruct (existsb _ _) eqn:He; [|done].
  apply existsb_exists in He as (n & Hin & Hd%bool_decide_eq_true). exists n. split; [done|]. by apply list_elem_of_In.
Qed.

Lemma build_client_config_ok d c : build_client_config d = Ok c → du_verify_cert d = true →
  ∃ pem certs, du_ca_bundle_pem d = Some pem ∧ bundle_certs pem = Some certs ∧
    cc_verifier c = Dynamic {| dv_roots := filter parsable certs; dv_domain := verify_domain d;
                               dv_verify_hostname := du_verify_hostname d; dv_subject_alt_names := du_subject_alt_names d |}.
Proof.
  unfold build_client_config. intros (roots & Hr & Hc)%result_bind_ok Hd. case_match; [done|].
  apply result_bind_ok in Hc as (v & Hv & [= <-]). unfold build_verifier in Hv. rewrite Hd in Hv. cbn [negb] in Hv.
  unfold root_store in Hr. destruct (du_ca_bundle_pem d) as [pem|]; [|by injection Hr as <-].
  destruct (bundle_certs pem) as [certs|] eqn:Hp; [|done]. injection Hr as <-. exists pem, certs. split_and!; [done..|].
  destruct (filter parsable certs); [done|]. by injection Hv as <-.
Qed.

(** A connection is opened only to a server that meets the demands. *)
Lemma connect_demands d a ch : connect d a = Ok ch → du_verify_cert d = true → demands d ch.
Proof.
  unfold connect. intros Hc Hd. destruct a as [a|]; [|done]. destruct (tcp_connect a) as [s|]; [|done].
  apply result_bind_ok in Hc as (c & Hb & Hh). destruct (handshake _ _ _) as [ch'|] eqn:Hs; [|done]. injection Hh as ->.
  destruct (build_client_config_ok d c Hb Hd) as (pem & certs & Hpem & Hcerts & Hv). apply handshake_verifies in Hs.
  rewrite Hv in Hs. apply verify_dynamic_ok in Hs as (name & Hn & Hw & Hsan).
  exists pem, certs, name. split_and!; [done..| |done]. intros domain H1 H2. by eapply verified_name_domain.
Qed.

Context `{!PeerOps, !PeerPool}.

(** What the pool compares, of a peer with the custom connector and of one without. *)
Lemma make_peer_custom addr timeout protocol tls cert p d :
  make_peer addr timeout protocol tls cert = Some p → hp_custom_l4 p = Some d →
  ∃ alpn, d = {| du_sni := hp_sni p; du_verify_hostname := hp_verify_hostname p; du_verify_cert := true;
                 du_alternative_cn := hp_alternative_cn p; du_client_cert := hp_client_cert_key p;
                 du_ca_bundle_pem := du_ca_bundle_pem d; du_subject_alt_names := du_subject_alt_names d; du_alpn := alpn |} ∧
    hp_group_key p = trust_hash d.
Proof.
  unfold make_peer. destruct (lookup_host _) as [[|sa addrs]|]; [done| |done]. case_match; [done|]. intros [= <-].
  set (sni := match tls with Some t => bt_sni t | None => "" end).
  destruct (peer_new_defaults sa (is_tls_backend protocol) sni) as (Hs & Hk & Ha & Hg & Hl).
  unfold configure_peer. cbn [hp_custom_l4 hp_sni hp_verify_hostname hp_alternative_cn hp_client_cert_key hp_group_key].
  rewrite Hs, Hk, Ha, Hg, Hl. destruct tls as [c|]; [|done]. destruct (is_tls_backend protocol); [|done]. cbn [andb].
  destruct (bool_decide (is_Some (bt_ca_bundle_pem c))); [|done]. intros [= <-]. eexists. split; [|done]. unfold DynamicUpstreamL4_new, sni. cbn.
  by destruct (bt_alternative_cn c), cert.
Qed.

Lemma make_peer_library addr timeout protocol tls cert p :
  make_peer addr timeout protocol tls cert = Some p → hp_custom_l4 p = None → hp_group_key p = default_group.
Proof.
  unfold make_peer. destruct (lookup_host _) as [[|sa addrs]|]; [done| |done]. case_match; [done|]. intros [= <-].
  set (sni := match tls with Some t => bt_sni t | None => "" end).
  destruct (peer_new_defaults sa (is_tls_backend protocol) sni) as (_ & _ & _ & Hg & _).
  unfold configure_peer. cbn [hp_custom_l4 hp_group_key]. rewrite Hg. destruct tls as [c|]; [|done].
  by destruct (is_tls_backend protocol && bool_decide (is_Some (bt_ca_bundle_pem c))).
Qed.

(** Peers that share connections have the same demands, unless their hashes collide. *)
Lemma shared_demands p q d : built p → built q → reuse_hash q = reuse_hash p → hp_custom_l4 p = Some d →
  (∃ d', hp_custom_l4 q = Some d' ∧ ∀ ch, demands d' ch → demands d ch) ∨ hash_collision p q.
Proof.
  intros (? & ? & ? & ? & ? & Hp) (? & ? & ? & ? & ? & Hq) Hr Hd.
  destruct (decide (pool_key q = pool_key p)) as [Hk|Hk]; [|by right; left].
  apply pool_key_fields in Hk as (_ & _ & Hs & Hc & Hv & Ha & Hg).
  destruct (make_peer_custom _ _ _ _ _ _ _ Hp Hd) as (alpn & Ed & Hgp). destruct (hp_custom_l4 q) as [d'|] eqn:Hd'.
  - destruct (make_peer_custom _ _ _ _ _ _ _ Hq Hd') as (alpn' & Ed' & Hgq). rewrite Hgp, Hgq in Hg.
    destruct (decide (trust d' = trust d)) as [Ht|Ht]; [|right; right; exists d; by rewrite Hd'].
    left. exists d'. split; [done|]. injection Ht as Hca Hsan. rewrite Hs, Hv, Ha, Hc, Hca, Hsan in Ed'.
    intros ch (pem & certs & name & Hpem & Hcs & Hw & Hdom & Hsans). exists pem, certs, name. rewrite Ed. rewrite Ed' in Hpem, Hdom, Hsans. done.
  - right; right. exists d. split; [done|]. rewrite Hd'. rewrite <-Hgp, <-Hg. by eapply make_peer_library.
Qed.

Lemma opened_demands p ch d : opened p ch → built p → hp_custom_l4 p = Some d → ∃ ch', ch = Some ch' ∧ demands d ch'.
Proof.
  unfold opened. intros Ho (? & ? & ? & ? & ? & Hb) Hd. rewrite Hd in Ho. destruct Ho as (chain & -> & Hc).
  destruct (make_peer_custom _ _ _ _ _ _ _ Hb Hd) as (alpn & Ed & _).
  exists chain. split; [done|]. eapply connect_demands; [done|]. by rewrite Ed.
Qed.

Lemma usable_demands p ch d : usable p ch → built p → hp_custom_l4 p = Some d →
  (∃ ch', ch = Some ch' ∧ demands d ch') ∨ ∃ q, built q ∧ opened q ch ∧ hash_collision p q.
Proof.
  intros [Ho|(q & Hq & Ho & Hr)] Hb Hd; [left; by eapply opened_demands|].
  destruct (shared_demands p q d Hb Hq Hr Hd) as [(d' & Hd' & Himp)|Hcol]; [left|by right; eauto].
  destruct (opened_demands q ch d' Ho Hq Hd') as (ch' & -> & ?). eauto.
Qed.
End guarantees.


(** ** Examples *)

Module UpstreamTlsExamples.
Import EndpointExamples.

#[local] Existing Instance cluster.

(** A toy PKI: one CA, [7]; a certificate is the names it is for, each as a byte and the
    signer. *)
Definition name_of (b : Z) : string := match b with 1 => "db.internal" | 2 => "db.shop.svc" | 3 => "spiffe://shop/db" | _ => "" end.

#[local] Instance toy_pki : WebPki := {|
  bundle_certs pem := if bool_decide (pem = PEM +:+ String "010" "") then Some [[7]; [0]] else None;
  parsable c := bool_decide (c = [7]);
  client_auth_ok _ := true;
  valid_server_name n := negb (String.prefix "spiffe:" n);
  general_names c := Some ((λ b, if b =? 3 then URI (name_of b) else DNSName (name_of b)) <$> drop 1 c);
  webpki_verify roots ch n := bool_decide (take 1 (ch_end_entity ch) ∈ roots ∧ n ∈ name_of <$> drop 1 (ch_end_entity ch));
|}.

Definition presented (cert : bytes) : Chain := {| ch_end_entity := cert; ch_intermediates := []; ch_ocsp := []; ch_now := 0 |}.

(** Servers, each with its certificate. *)
#[local] Program Instance toy_tls : TlsClient bytes := {|
  tcp_connect a := Some [7; 1];
  handshake c domain s := match verify_server_cert (cc_verifier c) (presented s) with Ok _ => Some (presented s) | Err _ => None end;
|}.
Next Obligation. intros c domain s ch Hh. cbn in Hh. destruct (verify_server_cert _ _) as [[]|] eqn:Hv; [|done]. by injection Hh as <-. Qed.

(** A hash of the lengths. *)
Definition toy_hash (values : list Hashed) : Z :=
  Z.of_nat (sum_list_with (λ v, match v with
                                | HashOptStr o => String.length (default "" o)
                                | HashStrs l => sum_list_with String.length l
                                end) values) mod 2 ^ 64.

#[local] Program Instance hashed_peers : PeerOps := {|
  lookup_host h := option_map (λ a, [a]) (parse_socket_addr h);
  peer_new := PeerExamples.base_peer;
  hasher_finish := toy_hash;
|}.
Next Obligation. intros values. unfold toy_hash. apply Z.mod_pos_bound. lia. Qed.
Next Obligation. done. Qed.
Next Obligation. done. Qed.
Next Obligation. done. Qed.

#[local] Program Instance toy_pool : PeerPool := {|
  PoolKey := SocketAddr * PeerScheme * string * option string * bool * option string * Z;
  pool_key p := (hp_addr p, hp_scheme p, hp_sni p, hp_client_cert_key p, hp_verify_hostname p, hp_alternative_cn p,
                 hp_group_key p);
  pool_hash k := k.2 mod 2 ^ 64;
  default_group := 0;
|}.
Next Obligation. intros k. apply Z.mod_pos_bound. lia. Qed.
Next Obligation. intros p q [= -> -> -> -> -> -> ->]. done. Qed.
Next Obligation. done. Qed.


Definition connector (hostname : string) (verify : bool) (sans : list string) : DynamicUpstreamL4 :=
  {| du_sni := hostname; du_verify_hostname := verify; du_verify_cert := true; du_alternative_cn := None; du_client_cert := None;
     du_ca_bundle_pem := Some (PEM +:+ String "010" ""); du_subject_alt_names := sans; du_alpn := None |}.

Definition accepts (d : DynamicUpstreamL4) (cert : bytes) : bool :=
  match build_client_config d with Ok c => is_ok (verify_server_cert (cc_verifier c) (presented cert)) | Err _ => false end.

(** The alternative names are asked for besides the hostname, not in its place. *)
Example san_besides_hostname :
  (accepts (connector "db.internal" true ["db.shop.svc"]) <$> [[7; 1; 2]; [7; 2]; [7; 1]; [8; 1; 2]]) = [true; false; false; false].
Proof. vm_compute. reflexivity. Qed.

(** Without a name to send, the hostname check is no check. *)
Example empty_hostname_unchecked : accepts (connector "" true []) [7; 2] = true.
Proof. vm_compute. reflexivity. Qed.

(** With the check turned off, a certificate whose first name is a URI is refused. *)
Example uri_first_refused : (accepts (connector "db.internal" false []) <$> [[7; 3; 1]; [7; 1; 3]]) = [false; true].
Proof. vm_compute. reflexivity. Qed.

Example shown_addresses :
  show_ip <$> omap ip_addr_from_octets [[10; 0; 0; 7]; replicate 15 0 ++ [1]; [32; 1; 13; 184] ++ replicate 10 0 ++ [255; 0]; [1; 2]] =
  ["10.0.0.7"; "::1"; "2001:db8::ff00"].
Proof. vm_compute. reflexivity. Qed.
End UpstreamTlsExamples.
