(* ===== verification/Reconcile.v ===== *)
(** * The reconcile tick ([src/gateway/reconcile/mod.rs],
    [src/gateway/reconcile/gateway/frontend_validation.rs], [listeners.rs], [backend_tls.rs],
    [controller.rs]).

    One tick, from the answers of the API server to the view: the validation of client
    certificates on listeners, the states of Gateways, and the composition of all the parts.
    A list request succeeds, finds no such resource, or fails. *)

From S2P Require Import Prelude Net Ir Hostname Compile Lookup BodyFilter Gateway Json Listeners ListenerSets Translate Tls Digest RouteParse Endpoints.

(** ** Client certificates on listeners ([frontend_validation.rs]) *)

Record CaCertificateRefRaw := {
  car_group : string;
  car_kind : string;
  car_name : string;
  car_namespace : option string;
}.

Record FrontendValidationSpec := {
  fs_ca_certificate_refs : list CaCertificateRefRaw;
  fs_allow_insecure_fallback : bool;
}.

Section frontend.
Context {J : Type} `{!JsonOps J}.

Definition field_object (j : J) (k : string) : option J :=
  j_field j k ≫= λ v, if is_object v then Some v else None.

Definition parse_ca_ref (r : J) : option CaCertificateRefRaw :=
  if is_object r then
    match field_str r "name" with
    | None => None
    | Some name =>
        if str_is_empty name then None
        else Some {| car_group := default "" (field_str r "group"); car_kind := default "" (field_str r "kind"); car_name := name;
                     car_namespace := field_str r "namespace" |}
    end
  else None.

Definition parse_frontend_validation_obj (obj : J) : option FrontendValidationSpec :=
  match field_array obj "caCertificateRefs" with
  | None => None
  | Some refs =>
      match mapM parse_ca_ref refs with
      | None => None
      | Some cas =>
          Some {| fs_ca_certificate_refs := cas;
                  fs_allow_insecure_fallback := bool_decide (field_str obj "mode" = Some "AllowInsecureFallback") |}
      end
  end.

Definition validation_of (tls : J) : option FrontendValidationSpec := field_object tls "validation" ≫= parse_frontend_validation_obj.

(** The loop over [perPort]: [None] where the function returns nothing, [Some None] where it
    goes on to the default. *)
Fixpoint per_port_validation (port : Z) (entries : list J) : option (option (option FrontendValidationSpec)) :=
  match entries with
  | [] => Some None
  | e :: entries =>
      match field_u64 e "port" with
      | None => None
      | Some p =>
          if wrap 16 p =? port
          then match field_object e "tls" with None => None | Some tls => Some (Some (validation_of tls)) end
          else per_port_validation port entries
      end
  end.

Definition listener_frontend_validation (gw_tls : option J) (port : Z) : option FrontendValidationSpec :=
  match gw_tls with
  | None => None
  | Some tls =>
      if is_object tls then
        match field_object tls "frontend" with
        | None => None
        | Some frontend =>
            match per_port_validation port (default [] (field_array frontend "perPort")) with
            | None => None
            | Some (Some spec) => spec
            | Some None => field_object frontend "default" ≫= validation_of
            end
        end
      else None
  end.

(** A listener that terminates TLS. *)
Definition terminates (protocol : string) (mode : option TlsMode) : bool :=
  bool_decide (protocol ∈ ["HTTPS"; "TLS"]) && bool_decide (mode = Some Terminate).

Definition gateway_insecure_frontend_mode (gw : GatewayObject J) : bool :=
  existsb (λ l, is_object l &&
    let protocol := default "HTTP" (field_str l "protocol") in
    terminates protocol (parse_tls_mode (Some l) protocol) &&
    match listener_frontend_validation (go_tls gw) (listener_port l 80) with
    | Some spec => fs_allow_insecure_fallback spec
    | None => false
    end) (go_listeners gw).

Context {Der Key Signer : Type} `{!PkiOps Der Key Signer, !SecretApi, !ConfigMapApi}.

Definition ca_bundle_valid (pem : string) : bool := is_ok (parse_cert_chain pem).

(** The checks of one reference: its certificate, or what is wrong with it. *)
Definition frontend_ca (grants : list ReferenceGrantState) (gw_ns : string) (r : CaCertificateRefRaw) : result string CertValidation :=
  if negb (bool_decide (car_kind r = "ConfigMap")) || negb (str_is_empty (car_group r)) then
    Err {| cv_reason := "InvalidCACertificateKind"; cv_message := "Frontend CA certificate reference must be a core ConfigMap" |}
  else
    let ref_ns := default gw_ns (car_namespace r) in
    if negb (bool_decide (ref_ns = gw_ns)) &&
       negb (is_permitted grants gw_ns GATEWAY_GROUP "Gateway" ref_ns "" "ConfigMap" (car_name r)) then
      Err {| cv_reason := "RefNotPermitted";
             cv_message := "Frontend CA certificate reference is not permitted by ReferenceGrant" |}
    else match configmap_get ref_ns (car_name r) with
         | None => Err {| cv_reason := "InvalidCACertificateRef"; cv_message := "Frontend CA certificate ConfigMap not found" |}
         | Some None => Err {| cv_reason := "InvalidCACertificateRef"; cv_message := "Frontend CA certificate ConfigMap has no data" |}
         | Some (Some data) =>
             match data !! "ca.crt" with
             | None => Err {| cv_reason := "InvalidCACertificateRef";
                              cv_message := "Frontend CA certificate ConfigMap missing ca.crt" |}
             | Some ca =>
                 if ca_bundle_valid ca then Ok ca
                 else Err {| cv_reason := "InvalidCACertificateRef";
                             cv_message := "Frontend CA certificate is not a valid PEM bundle" |}
             end
         end.

Definition validate_listener_frontend_validation (grants : list ReferenceGrantState) (gw_ns : string) (listener : J)
    (gw_tls : option J) : option CertValidation :=
  let protocol := default "HTTP" (field_str listener "protocol") in
  if negb (terminates protocol (parse_tls_mode (Some listener) protocol)) then None
  else match listener_frontend_validation gw_tls (listener_port listener 80) with
       | None => None
       | Some spec =>
           find_map (λ r, match frontend_ca grants gw_ns r with Err e => Some e | Ok _ => None end) (fs_ca_certificate_refs spec)
       end.

(** The bundle of all references, if none fails. *)
Definition frontend_bundle (grants : list ReferenceGrantState) (gw_ns : string) (refs : list CaCertificateRefRaw) : option string :=
  foldl (λ acc r, match acc, frontend_ca grants gw_ns r with
                  | Some bundle, Ok ca => Some (push_pem bundle ca)
                  | _, _ => None
                  end) (Some "") refs.

Definition unprogram (l : ListenerState) : ListenerState :=
  {| ls_name := ls_name l; ls_protocol := ls_protocol l; ls_port := ls_port l; ls_hostname := ls_hostname l;
     ls_tls_mode := ls_tls_mode l; ls_frontend_validation := ls_frontend_validation l; ls_programmed := false |}.

Definition with_validation (v : FrontendValidation) (l : ListenerState) : ListenerState :=
  {| ls_name := ls_name l; ls_protocol := ls_protocol l; ls_port := ls_port l; ls_hostname := ls_hostname l;
     ls_tls_mode := ls_tls_mode l; ls_frontend_validation := Some v; ls_programmed := ls_programmed l |}.

(** The loop body of [load_gateway_frontend_validations]; [raw] is the entry of the Gateway at
    the index of the listener. *)
Definition load_listener_validation (grants : list ReferenceGrantState) (gw_ns : string) (gw_tls : option J) (raw : option J)
    (l : ListenerState) : ListenerState :=
  if negb (terminates (ls_protocol l) (ls_tls_mode l)) then l
  else
    let valid := match raw with
                 | Some obj => is_object obj && bool_decide (validate_listener_certificates grants gw_ns "Gateway" obj = None)
                 | None => false
                 end in
    if negb valid then unprogram l
    else match listener_frontend_validation gw_tls (ls_port l) with
         | None => l
         | Some spec =>
             match frontend_bundle grants gw_ns (fs_ca_certificate_refs spec) with
             | None => unprogram l
             | Some bundle =>
                 with_validation {| fv_ca_bundle_pem := bundle; fv_allow_insecure_fallback := fs_allow_insecure_fallback spec |} l
             end
         end.

Definition load_gateway_frontend_validation (grants : list ReferenceGrantState) (gw : GatewayObject J) (st : GatewayState) :
    GatewayState :=
  {| gs_namespace := gs_namespace st; gs_name := gs_name st; gs_generation := gs_generation st;
     gs_listeners := imap (λ idx l, load_listener_validation grants (default "default" (go_namespace gw)) (go_tls gw)
                                      (go_listeners gw !! idx) l) (gs_listeners st);
     gs_backend_client_cert_id := gs_backend_client_cert_id st |}.

(** ** Gateways ([controller.rs], [backend_tls.rs]) *)

Definition gateway_backend_client_cert_ref (gw : GatewayObject J) : option (string * string) :=
  match go_tls gw with
  | None => None
  | Some tls =>
      if is_object tls then
        match field_object tls "backend" ≫= λ b, field_object b "clientCertificateRef" with
        | None => None
        | Some r =>
            if negb (str_is_empty (default "" (field_str r "group"))) || negb (bool_decide (default "" (field_str r "kind") = "Secret"))
            then None
            else match field_str r "name" with
                 | None => None
                 | Some name =>
                     if str_is_empty name then None
                     else Some (default (default "default" (go_namespace gw)) (field_str r "namespace"), name)
                 end
        end
      else None
  end.

Definition invalid_client_cert (message : string) : option CertValidation :=
  Some {| cv_reason := "InvalidClientCertificateRef"; cv_message := message |}.

Definition validate_gateway_backend_tls (grants : list ReferenceGrantState) (gw : GatewayObject J) : option CertValidation :=
  match (match go_tls gw with Some tls => if is_object tls then Some tls else None | None => None end)
        ≫= λ tls, field_object tls "backend" ≫= λ b, field_object b "clientCertificateRef" with
  | None => None
  | Some r =>
      if negb (str_is_empty (default "" (field_str r "group"))) || negb (bool_decide (default "" (field_str r "kind") = "Secret"))
      then invalid_client_cert "Gateway backend clientCertificateRef must be a core Secret"
      else if str_is_empty (default "" (field_str r "name"))
      then invalid_client_cert "Gateway backend clientCertificateRef name is required"
      else
        let name := default "" (field_str r "name") in
        let gw_ns := default "default" (go_namespace gw) in
        let ns := default gw_ns (field_str r "namespace") in
        if negb (bool_decide (ns = gw_ns)) && negb (is_permitted grants gw_ns GATEWAY_GROUP "Gateway" ns "" "Secret" name)
        then Some {| cv_reason := "RefNotPermitted";
                     cv_message := "Cross-namespace Gateway backend clientCertificateRef is not permitted" |}
        else match secret_get ns name with
             | None => invalid_client_cert "Gateway backend clientCertificateRef Secret not found"
             | Some secret =>
                 if secret_data_valid secret then None
                 else invalid_client_cert "Gateway backend clientCertificateRef Secret does not contain a valid TLS certificate"
             end
  end.

Definition build_gateway_state (gw : GatewayObject J) : GatewayState :=
  {| gs_namespace := default "" (go_namespace gw); gs_name := default "" (go_name gw);
     gs_generation := default 0 (go_generation gw); gs_listeners := build_listener_model gw;
     gs_backend_client_cert_id := (λ r, "gateway/" +:+ r.1 +:+ "/" +:+ r.2) <$> gateway_backend_client_cert_ref gw |}.

(** ** The tick ([mod.rs]) *)

(** The answer to a list request: the items, no such resource (404), or another error. *)
Inductive Listing (A : Type) :=
| Listed (items : list A)
| Missing
| Failed.
#[global] Arguments Listed {A} _.
#[global] Arguments Missing {A}.
#[global] Arguments Failed {A}.

(** A resource that must be there, and one whose absence counts as none. *)
Definition required {A} (l : Listing A) : option (list A) := match l with Listed items => Some items | _ => None end.
Definition optional {A} (l : Listing A) : option (list A) :=
  match l with Listed items => Some items | Missing => Some [] | Failed => None end.

(** What the API server answers in one tick. The policies are listed twice, the Services and
    EndpointSlices once for each kind of route. *)
Record Answers := {
  an_gateways : Listing (GatewayObject J);
  an_listener_sets : Listing (ListenerSetObject J);
  an_http_routes : Listing HTTPRoute;
  an_grpc_routes : Listing GRPCRoute;
  an_grants : Listing (RawReferenceGrant J);
  an_namespaces : Listing (option string * option (gmap string string));
  an_policies : Listing BackendTLSPolicy;
  an_policies_again : Listing BackendTLSPolicy;
  an_services_http : Listing Service;
  an_slices_http : Listing EndpointSlice;
  an_services_grpc : Listing Service;
  an_slices_grpc : Listing EndpointSlice;
  an_tcp_routes : Listing RawL4Route;
  an_udp_routes : Listing RawL4Route;
  an_tls_routes : Listing RawL4Route;
}.

Definition build_namespace_labels (nss : list (option string * option (gmap string string))) : NamespaceLabels :=
  foldl (λ m ns, <[default "" ns.1 := default ∅ ns.2]> m) ∅ nss.

Context `{!DurationParser, !ServiceStore} (reserved : gset Z).

(** The lists a tick starts from. *)
Record Objects := {
  ob_gateways : list (GatewayObject J);
  ob_listener_sets : list (ListenerSetObject J);
  ob_http_routes : list HTTPRoute;
  ob_grpc_routes : list GRPCRoute;
  ob_grants : list (RawReferenceGrant J);
  ob_namespaces : list (option string * option (gmap string string));
}.

Definition read_objects (a : Answers) : option Objects :=
  match required (an_gateways a), optional (an_listener_sets a), required (an_http_routes a), optional (an_grpc_routes a),
        required (an_grants a), required (an_namespaces a), optional (an_policies a) with
  | Some gws, Some sets, Some https, Some grpcs, Some grants, Some nss, Some _ =>
      Some {| ob_gateways := gws; ob_listener_sets := sets; ob_http_routes := https; ob_grpc_routes := grpcs;
              ob_grants := grants; ob_namespaces := nss |}
  | _, _, _, _, _, _, _ => None
  end.

Section objects.
Context (o : Objects).

Definition grant_states : list ReferenceGrantState := reconcile_reference_grants (ob_grants o).

Definition gateway_states : list GatewayState :=
  (λ gw, load_gateway_frontend_validation grant_states gw (build_gateway_state gw)) <$> ob_gateways o.

Definition labels : NamespaceLabels := build_namespace_labels (ob_namespaces o).

Definition listener_set_states : list ListenerSetState :=
  resolve_listener_set_conflicts reserved
    ((λ ls, build_listener_set_state ls (ob_gateways o) labels grant_states) <$> ob_listener_sets o) gateway_states.

Definition cluster_state : ClusterState :=
  {| cl_gateways := gateway_states; cl_listener_sets := listener_set_states; cl_labels := labels;
     cl_listener_allowed := build_listener_allowed_map (ob_gateways o);
     cl_listener_set_allowed := build_listener_set_allowed_map (ob_listener_sets o) listener_set_states |}.

(** The routes before the Services are expanded. *)
Definition collected_http : list HTTPRouteState := collect_http_route grant_states cluster_state <$> ob_http_routes o.
Definition collected_grpc : list GRPCRouteState := collect_grpc_route grant_states cluster_state <$> ob_grpc_routes o.
End objects.

(** The second list of policies: what cannot be read counts as none. *)
Definition tick_policies (a : Answers) : list BackendTLSPolicyState := policy_states (default [] (required (an_policies_again a))).

Definition build_view (a : Answers) (o : Objects) (tcps udps tlss : list RawL4Route) : ReconciledView :=
  {| gateways := gateway_states o; listener_sets := listener_set_states o;
     view_routes := (λ r, route_state (hr_meta r) "HTTPRoute"
                            (rr_parent_refs (reconcile_http_route (grant_states o) (cluster_state o) r))) <$> ob_http_routes o;
     http_route_states := resolve_service_endpoints expand_http_route (required (an_services_http a)) (required (an_slices_http a))
                            (tick_policies a) (collected_http o);
     grpc_route_states := resolve_service_endpoints expand_grpc_route (required (an_services_grpc a)) (required (an_slices_grpc a))
                            (tick_policies a) (collected_grpc o);
     tcp_route_states := collect_tcp_route (grant_states o) (cluster_state o) <$> tcps;
     udp_route_states := collect_udp_route (grant_states o) (cluster_state o) <$> udps;
     tls_route_states := collect_tls_route (grant_states o) (cluster_state o) <$> tlss;
     reference_grants := grant_states o; backend_tls_policies := tick_policies a; namespace_labels := labels o;
     listener_allowed := cl_listener_allowed (cluster_state o);
     Gateway.listener_set_allowed := cl_listener_set_allowed (cluster_state o) |}.

Definition reconcile_tick (a : Answers) : option ReconciledView :=
  match read_objects a, optional (an_tcp_routes a), optional (an_udp_routes a), optional (an_tls_routes a) with
  | Some o, Some tcps, Some udps, Some tlss => Some (build_view a o tcps udps tlss)
  | _, _, _, _ => None
  end.

(** What a leader writes: the statuses of the policies, as soon as the first lists are read,
    and the number of attached ListenerSets of the Gateways where it has changed. *)
Definition policy_writes (a : Answers) (is_leader : bool) :
    list (string * string * list (Ancestor * list StatusCondition)) :=
  match read_objects a with
  | Some o => (reconcile_backend_tls_policies (required (an_policies_again a)) (collected_http o) (collected_grpc o) is_leader).2
  | None => []
  end.

Definition attached_writes (a : Answers) (is_leader : bool) : list (string * string * Z) :=
  match read_objects a, reconcile_tick a with
  | Some o, Some _ =>
      if is_leader then
        omap (λ gw,
          let ns := default "default" (go_namespace gw) in
          let name := default "" (go_name gw) in
          let desired := count_attached_listener_sets ns name (listener_set_states o) in
          if default 0 (go_attached_listener_sets gw) =? desired then None else Some (ns, name, desired)) (ob_gateways o)
      else []
  | _, _ => []
  end.
End frontend.

(** ** Theorems *)

Section tick.
Context {J : Type} `{!JsonOps J} {Der Key Signer : Type} `{!PkiOps Der Key Signer, !SecretApi, !ConfigMapApi}.
Context `{!DurationParser, !ServiceStore} (reserved : gset Z).

(** A table is never made from a part of the cluster: the tick gives a view exactly when the
    Gateways, HTTPRoutes, grants and namespaces were listed, and each of the other kinds was
    listed or is not installed. *)
Theorem tick_complete (a : Answers (J := J)) :
  is_Some (reconcile_tick reserved a) ↔
  (∃ l, an_gateways a = Listed l) ∧ (∃ l, an_http_routes a = Listed l) ∧ (∃ l, an_grants a = Listed l) ∧
  (∃ l, an_namespaces a = Listed l) ∧
  an_listener_sets a ≠ Failed ∧ an_grpc_routes a ≠ Failed ∧ an_policies a ≠ Failed ∧
  an_tcp_routes a ≠ Failed ∧ an_udp_routes a ≠ Failed ∧ an_tls_routes a ≠ Failed.
Proof.
  assert (∀ A (l : Listing A), (∃ x, required l = Some x) ↔ ∃ x, l = Listed x) as Hreq by (intros A []; naive_solver).
  assert (∀ A (l : Listing A), (∃ x, optional l = Some x) ↔ l ≠ Failed) as Hopt by (intros A []; naive_solver).
  rewrite <- !Hreq, <- !Hopt. unfold reconcile_tick, read_objects. split.
  - intros [v Hv]. destruct (required (an_gateways a)); [|done]. destruct (optional (an_listener_sets a)); [|done].
    destruct (required (an_http_routes a)); [|done]. destruct (optional (an_grpc_routes a)); [|done].
    destruct (required (an_grants a)); [|done]. destruct (required (an_namespaces a)); [|done].
    destruct (optional (an_policies a)); [|done]. destruct (optional (an_tcp_routes a)); [|done].
    destruct (optional (an_udp_routes a)); [|done]. destruct (optional (an_tls_routes a)); [|done]. eauto 20.
  - intros ([? ->] & [? ->] & [? ->] & [? ->] & [? ->] & [? ->] & [? ->] & [? ->] & [? ->] & [? ->]). eauto.
Qed.

(** *** Backends *)

(** The backendRefs of the routes the API server lists, with the namespace and kind of their
    route. *)
Definition lists_ref (a : Answers (J := J)) (ns kind : string) (v : RawBackendRef) : Prop :=
  (∃ routes r rules raw refs, required (an_http_routes a) = Some routes ∧ r ∈ routes ∧ hr_rules r = Some rules ∧ raw ∈ rules ∧
     rhr_backend_refs raw = Some refs ∧ v ∈ refs ∧ ns = meta_namespace (hr_meta r) ∧ kind = "HTTPRoute") ∨
  (∃ routes r rules raw refs, optional (an_grpc_routes a) = Some routes ∧ r ∈ routes ∧ gr_rules r = Some rules ∧ raw ∈ rules ∧
     rgr_backend_refs raw = Some refs ∧ v ∈ refs ∧ ns = meta_namespace (gr_meta r) ∧ kind = "GRPCRoute").

(** The EndpointSlices, read once for each kind of route. *)
Definition slices_of (a : Answers (J := J)) (kind : string) : list EndpointSlice :=
  default [] (required (if decide (kind = "HTTPRoute") then an_slices_http a else an_slices_grpc a)).

Lemma read_objects_Some (a : Answers (J := J)) o : read_objects a = Some o →
  required (an_http_routes a) = Some (ob_http_routes o) ∧ optional (an_grpc_routes a) = Some (ob_grpc_routes o) ∧
  required (an_gateways a) = Some (ob_gateways o).
Proof.
  unfold read_objects. destruct (required (an_gateways a)); [|done]. destruct (optional (an_listener_sets a)); [|done].
  destruct (required (an_http_routes a)); [|done]. destruct (optional (an_grpc_routes a)); [|done].
  destruct (required (an_grants a)); [|done]. destruct (required (an_namespaces a)); [|done].
  destruct (optional (an_policies a)); [|done]. by intros [= <-].
Qed.

Lemma reconcile_tick_Some (a : Answers (J := J)) view : reconcile_tick reserved a = Some view →
  ∃ o tcps udps tlss, read_objects a = Some o ∧ view = build_view reserved a o tcps udps tlss.
Proof.
  unfold reconcile_tick. destruct (read_objects a) as [o|]; [|done]. destruct (optional (an_tcp_routes a)) as [tcps|]; [|done].
  destruct (optional (an_udp_routes a)) as [udps|]; [|done]. destruct (optional (an_tls_routes a)) as [tlss|]; [|done].
  intros [= <-]. by exists o, tcps, udps, tlss.
Qed.

(** What a plan that forwards was made from: a programmed rule of a route, with its backends. *)
Lemma plan_backends view e rule m prec api redirect lh (p : CompiledPlan) u wb :
  rule_source view e rule → compile_plan rule prec m api redirect lh = Ok p → upstream p = Some u → wb ∈ ua_backends u →
  (∃ st i hr w, st ∈ http_route_states view ∧ hrs_rules st !! i = Some hr ∧ hrr_programmed hr = true ∧ w ∈ hrr_backends hr ∧
     wb_backend wb = gwb_backend w) ∨
  (∃ st i gr w, st ∈ grpc_route_states view ∧ grs_rules st !! i = Some gr ∧ grr_programmed gr = true ∧ w ∈ grr_backends gr ∧
     wb_backend wb = gwb_backend w).
Proof.
  intros Hsrc Hp Hu Hwb. unfold compile_plan in Hp.
  assert (∃ ra, rule_action rule = ActRoute ra ∧ wb ∈ ra_backends ra) as (ra & Hra & Hin).
  { destruct (rule_action rule) as [ra|rd|sf|fr]; injection Hp as <-; cbn in Hu; [|done..]. injection Hu as <-. eauto. }
  destruct Hsrc as [(st & i & hr & Hst & _ & _ & Hi & Hr)|(st & i & gr & Hst & _ & _ & Hi & Hr)]; [left|right].
  - unfold translate_rule_to_ir in Hr. destruct (hrr_programmed hr) eqn:Hprog.
    + apply list_elem_of_fmap in Hr as (m' & -> & _). unfold build_ir_rule in Hra.
      destruct (apply_header_filters _) as [req resp]. cbn in Hra. destruct (last _); [done|]. injection Hra as <-. cbn in Hin.
      apply list_elem_of_fmap in Hin as (w & -> & Hw). by exists st, i, hr, w.
    + by apply list_elem_of_fmap in Hr as (m' & -> & _).
  - unfold translate_grpc_rule_to_ir in Hr. destruct (grr_programmed gr) eqn:Hprog.
    + apply list_elem_of_fmap in Hr as (m' & -> & _). unfold build_ir_rule_from_grpc in Hra.
      destruct (apply_header_filters _) as [req resp]. injection Hra as <-. cbn in Hin.
      apply list_elem_of_fmap in Hin as (w & -> & Hw). by exists st, i, gr, w.
    + by apply list_elem_of_fmap in Hr as (m' & -> & _).
Qed.

(** C3. From the cluster to the connection, no backend without permission. Take what the API
    server answers in a tick, the table compiled from the view of that tick, and any request.
    Each backend of the plan the request is matched to stands for a backendRef of an HTTPRoute
    or GRPCRoute among the answers: it is the Service the reference names, or the address of a
    ready endpoint of it; and the Service exists, and is in the namespace of the route or in
    one with a ReferenceGrant for routes of that kind and namespace. *)
Theorem cluster_backends_permitted `{!HashOrder, !RegexEngine} (a : Answers (J := J)) view t req p u wb :
  (∀ ns kind v, lists_ref a ns kind v → ref_names_ok ns (rbr_ref v)) →
  reconcile_tick reserved a = Some view → view_wf view → compile (translate_view_to_ir view) = Ok t →
  lookup_route t req = Some p → upstream (plan p) = Some u → wb ∈ ua_backends u →
  ∃ ns kind v, lists_ref a ns kind v ∧ permitted_ref (reference_grants view) ns kind (rbr_ref v) ∧
    leads_to (slices_of a kind) ns (rbr_ref v) (wb_backend wb).
Proof.
  intros Hnames Htick Hwf Ht Hl Hu Hwb. destruct (lookup_route_sound_aux _ _ _ _ Ht Hl) as (h & ((Hh & _) & _) & Hp & _).
  apply elem_of_host_plans in Hp as (rule & m & Hr & _ & Hc).
  destruct (translate_host_rule view h rule Hwf Hh Hr) as (e & Hs & _).
  apply reconcile_tick_Some in Htick as (o & tcps & udps & tlss & Ho & ->).
  destruct (read_objects_Some a o Ho) as (Hhttp & Hgrpc & _).
  destruct (plan_backends _ _ _ _ _ _ _ _ _ _ _ Hs Hc Hu Hwb)
    as [(st & i & hr & w & Hst & Hi & Hprog & Hw & ->)|(st & i & gr & w & Hst & Hi & Hprog & Hw & ->)].
  - destruct (routed_http_backends _ _ _ _ _ st _ i hr w Hst Hi Hprog Hw) as (r & rules & raw & refs & Hin & Hrules & Hraw & Hrefs & Hk).
    assert (∀ v, v ∈ refs → lists_ref a (meta_namespace (hr_meta r)) "HTTPRoute" v) as Hlist.
    { intros v Hv. left. exists (ob_http_routes o), r, rules, raw, refs. split_and!; [done..| |done|done|done|done].
      by eapply list_elem_of_lookup_2. }
    destruct Hk as (v & Hv & Hperm & Hleads); [intros v Hv; by eapply Hnames, Hlist|].
    exists (meta_namespace (hr_meta r)), "HTTPRoute", v. split_and!; [by apply Hlist|exact Hperm|exact Hleads].
  - destruct (routed_grpc_backends _ _ _ _ _ st _ i gr w Hst Hi Hprog Hw) as (r & rules & raw & refs & Hin & Hrules & Hraw & Hrefs & Hk).
    assert (∀ v, v ∈ refs → lists_ref a (meta_namespace (gr_meta r)) "GRPCRoute" v) as Hlist.
    { intros v Hv. right. exists (ob_grpc_routes o), r, rules, raw, refs. split_and!; [done..| |done|done|done|done].
      by eapply list_elem_of_lookup_2. }
    destruct Hk as (v & Hv & Hperm & Hleads); [intros v Hv; by eapply Hnames, Hlist|].
    exists (meta_namespace (gr_meta r)), "GRPCRoute", v. split_and!; [by apply Hlist|exact Hperm|exact Hleads].
Qed.

(** *** Client certificates *)

Lemma filter_objects (ls : list J) :
  (∀ l, l ∈ ls → is_object l = true) → filter (λ l, is_object l = true) ls = ls.
Proof.
  induction ls as [|l ls IH]; intros Hall; [done|]. rewrite filter_cons_True by (apply Hall; left). f_equal. apply IH.
  intros l' Hl'. apply Hall. by right.
Qed.

(** Loading the validation keeps the name and the port. *)
Lemma load_listener_kept grants gw_ns gw_tls raw l :
  ls_name (load_listener_validation grants gw_ns gw_tls raw l) = ls_name l ∧
  ls_port (load_listener_validation grants gw_ns gw_tls raw l) = ls_port l.
Proof. unfold load_listener_validation. repeat case_match; done. Qed.

(** What becomes of a listener, by its entry. *)
Lemma load_listener_spec grants gw_ns gw_tls raw l :
  ls_programmed (load_listener_validation grants gw_ns gw_tls (Some raw) l) = true → ls_frontend_validation l = None →
  terminates (ls_protocol l) (ls_tls_mode l) = true →
  validate_listener_certificates grants gw_ns "Gateway" raw = None ∧
  match listener_frontend_validation gw_tls (ls_port l) with
  | None => ls_frontend_validation (load_listener_validation grants gw_ns gw_tls (Some raw) l) = None
  | Some spec => ∃ bundle, frontend_bundle grants gw_ns (fs_ca_certificate_refs spec) = Some bundle ∧
      ls_frontend_validation (load_listener_validation grants gw_ns gw_tls (Some raw) l) =
        Some {| fv_ca_bundle_pem := bundle; fv_allow_insecure_fallback := fs_allow_insecure_fallback spec |}
  end.
Proof.
  unfold load_listener_validation. intros Hprog Hnone Ht. rewrite Ht in Hprog |- *. cbn [negb] in *.
  destruct (is_object raw && _) eqn:Hv; [|done]. cbn [negb] in *. apply andb_true_iff in Hv as [_ Hv%bool_decide_eq_true].
  split; [done|]. destruct (listener_frontend_validation gw_tls (ls_port l)) as [spec|]; [|done].
  destruct (frontend_bundle _ _ _) as [bundle|]; [|done]. by exists bundle.
Qed.

(** What a Gateway asks of the clients of a port, read off its [spec.tls]: the validation of
    the first [perPort] entry for the port, the entries before it being for other ports, or
    else the default one; it lists CA references that each have a name. Settings that are not
    of this form do not count. *)
Definition ca_ref_of (j : J) (r : CaCertificateRefRaw) : Prop :=
  is_object j = true ∧ field_str j "name" = Some (car_name r) ∧ car_name r ≠ "" ∧
  car_group r = default "" (field_str j "group") ∧ car_kind r = default "" (field_str j "kind") ∧
  car_namespace r = field_str j "namespace".

Definition validation_object (v : J) (spec : FrontendValidationSpec) : Prop :=
  ∃ refs, field_array v "caCertificateRefs" = Some refs ∧ Forall2 ca_ref_of refs (fs_ca_certificate_refs spec) ∧
    (fs_allow_insecure_fallback spec = true ↔ field_str v "mode" = Some "AllowInsecureFallback").

Definition other_port (port : Z) (e : J) : Prop := ∃ q, field_u64 e "port" = Some q ∧ wrap 16 q ≠ port.

Definition client_settings (tls : option J) (port : Z) (spec : FrontendValidationSpec) : Prop :=
  ∃ t frontend holder v, tls = Some t ∧ is_object t = true ∧ field_object t "frontend" = Some frontend ∧
    field_object holder "validation" = Some v ∧ validation_object v spec ∧
    ((∃ before e after q, default [] (field_array frontend "perPort") = before ++ e :: after ∧
        Forall (other_port port) before ∧ field_u64 e "port" = Some q ∧ wrap 16 q = port ∧
        field_object e "tls" = Some holder) ∨
     (Forall (other_port port) (default [] (field_array frontend "perPort")) ∧
      field_object frontend "default" = Some holder)).

Lemma parse_ca_ref_iff j r : parse_ca_ref j = Some r ↔ ca_ref_of j r.
Proof.
  unfold parse_ca_ref, ca_ref_of, str_is_empty. destruct (is_object j); [|naive_solver].
  destruct (field_str j "name") as [n|]; [|naive_solver]. case_bool_decide as Hn; [naive_solver|].
  destruct r as [g k n' m]. cbn. naive_solver.
Qed.

Lemma validation_of_iff tls spec :
  validation_of tls = Some spec ↔ ∃ v, field_object tls "validation" = Some v ∧ validation_object v spec.
Proof.
  unfold validation_of. rewrite bind_Some. f_equiv. intros v. f_equiv.
  unfold parse_frontend_validation_obj, validation_object.
  destruct (field_array v "caCertificateRefs") as [refs|]; [|naive_solver].
  assert (∀ cas, mapM parse_ca_ref refs = Some cas ↔ Forall2 ca_ref_of refs cas) as Hm.
  { intros cas. rewrite mapM_Some. split; intros Hall; (eapply Forall2_impl; [exact Hall|]); intros j r; apply parse_ca_ref_iff. }
  destruct spec as [cas ins]. cbn. split.
  - destruct (mapM parse_ca_ref refs) as [cas'|] eqn:Hc; [|done]. intros [= <- <-]. exists refs.
    split_and!; [done|by apply Hm|by rewrite bool_decide_eq_true..].
  - intros (? & [= <-] & Hall%Hm & Hi). rewrite Hall. do 2 f_equal. apply eq_true_iff_eq.
    by rewrite Hi, bool_decide_eq_true.
Qed.

Lemma per_port_validation_spec port entries res :
  per_port_validation port entries = Some res ↔
  (∃ before e after q holder, entries = before ++ e :: after ∧ Forall (other_port port) before ∧
     field_u64 e "port" = Some q ∧ wrap 16 q = port ∧ field_object e "tls" = Some holder ∧
     res = Some (validation_of holder)) ∨
  (Forall (other_port port) entries ∧ res = None).
Proof.
  induction entries as [|e entries IH]; cbn.
  { split; [intros [= <-]; by right; split|]. intros [([|? ?] & ? & ? & ? & ? & ? & _)|[_ ->]]; done. }
  destruct (field_u64 e "port") as [q|] eqn:Hq.
  2: { split; [done|]. intros [([|e' before] & e1 & after & q & h & Heq & Hb & Hq' & _)|[Hall _]].
       - injection Heq as -> _. congruence.
       - injection Heq as -> _. apply Forall_cons in Hb as [(? & ? & _) _]. congruence.
       - apply Forall_cons in Hall as [(? & ? & _) _]. congruence. }
  destruct (wrap 16 q =? port) eqn:Hw.
  - apply Z.eqb_eq in Hw. split.
    + destruct (field_object e "tls") as [h|] eqn:Hh; [|done]. intros [= <-]. left. exists [], e, entries, q, h. by split_and!.
    + intros [([|e' before] & e1 & after & q1 & h & Heq & Hb & Hq' & Hw' & Hh & ->)|[Hall _]].
      * injection Heq as -> ->. by rewrite Hh.
      * injection Heq as -> _. apply Forall_cons in Hb as [(q2 & Hq2 & Hne) _]. congruence.
      * apply Forall_cons in Hall as [(q2 & Hq2 & Hne) _]. congruence.
  - apply Z.eqb_neq in Hw. rewrite IH. split.
    + intros [(before & e1 & after & q1 & h & -> & Hb & ?)|[Hall ->]].
      * left. exists (e :: before), e1, after, q1, h. split_and!; try naive_solver. constructor; [by exists q|done].
      * right. split; [|done]. constructor; [by exists q|done].
    + intros [([|e' before] & e1 & after & q1 & h & Heq & Hb & Hq' & Hw' & ?)|[Hall ->]].
      * injection Heq as -> _. congruence.
      * injection Heq as -> ->. apply Forall_cons in Hb as [_ Hb]. left. by exists before, e1, after, q1, h.
      * right. by apply Forall_cons in Hall as [_ Hall].
Qed.

Lemma listener_frontend_validation_iff tls port spec :
  listener_frontend_validation tls port = Some spec ↔ client_settings tls port spec.
Proof.
  unfold listener_frontend_validation, client_settings. destruct tls as [t|]; [|split; [done|]; by intros (? & ? & ? & ? & ? & _)].
  destruct (is_object t) eqn:Ht; [|split; [done|]; intros (? & ? & ? & ? & [= <-] & ? & _); congruence].
  destruct (field_object t "frontend") as [f|] eqn:Hf; [|split; [done|]; intros (? & ? & ? & ? & [= <-] & _ & ? & _); congruence].
  set (entries := default [] (field_array f "perPort")). split.
  - destruct (per_port_validation port entries) as [res|] eqn:Hp; [|done].
    apply per_port_validation_spec in Hp as [(b & e & a & q & h & He & Hb & Hq & Hw & Hh & ->)|[Hall ->]].
    + intros (v & Hv & Hs)%validation_of_iff. exists t, f, h, v. split_and!; try done. left. by exists b, e, a, q.
    + intros (h & Hh & (v & Hv & Hs)%validation_of_iff)%bind_Some. exists t, f, h, v. split_and!; try done. by right.
  - intros (? & ? & h & v & [= <-] & _ & Heq & Hv & Hs & Hc). rewrite Hf in Heq. injection Heq as <-. fold entries in Hc.
    assert (validation_of h = Some spec) as Hvo by (apply validation_of_iff; eauto).
    destruct Hc as [(b & e & a & q & He & Hb & Hq & Hw & Hh)|[Hall Hh]].
    + rewrite (proj2 (per_port_validation_spec port entries (Some (validation_of h)))); [done|left].
      by exists b, e, a, q, h.
    + rewrite (proj2 (per_port_validation_spec port entries None)) by (by right). by rewrite Hh.
Qed.

(** A CA reference of a Gateway of namespace [ns] that may be used, with its certificates. *)
Definition usable_ca (grants : list ReferenceGrantState) (ns : string) (r : CaCertificateRefRaw) (ca : string) : Prop :=
  let target := default ns (car_namespace r) in
  car_kind r = "ConfigMap" ∧ car_group r = "" ∧
  (ns = target ∨
   ∃ g f t, g ∈ grants ∧ rg_namespace g = target ∧
     f ∈ rg_from g ∧ gsub_group f = GATEWAY_GROUP ∧ gsub_kind f = "Gateway" ∧ gsub_namespace f = Some ns ∧
     t ∈ rg_to g ∧ gsub_group t = "" ∧ gsub_kind t = "ConfigMap" ∧
     (gsub_name t = None ∨ gsub_name t = Some (car_name r))) ∧
  ∃ data, configmap_get target (car_name r) = Some (Some data) ∧ data !! "ca.crt" = Some ca ∧
    is_ok (parse_cert_chain ca) = true.

(** A certificate that is used is one of the namespace of the Gateway, or granted to it. *)
Lemma frontend_ca_usable grants gw_ns r ca :
  frontend_ca grants gw_ns r = Ok ca → usable_ca grants gw_ns r ca.
Proof.
  unfold frontend_ca, str_is_empty. case_bool_decide as Hk; [|done]. case_bool_decide as Hg; [|done]. cbn [negb orb].
  unfold usable_ca. set (ns := default gw_ns (car_namespace r)). destruct (negb _ && negb _) eqn:Hperm; [done|].
  assert (is_permitted grants gw_ns GATEWAY_GROUP "Gateway" ns "" "ConfigMap" (car_name r) = true) as Hp.
  { apply andb_false_iff in Hperm as [Hp%negb_false_iff|Hp%negb_false_iff]; [|done]. apply bool_decide_eq_true in Hp as ->.
    unfold is_permitted. by rewrite bool_decide_true. }
  destruct (configmap_get ns (car_name r)) as [[data|]|]; [|done..]. destruct (data !! "ca.crt") as [ca'|] eqn:Hca; [|done].
  unfold ca_bundle_valid. destruct (is_ok (parse_cert_chain ca')) eqn:Hok; [|done]. intros [= <-].
  split_and!; [done|done|by apply is_permitted_iff|]. by exists data.
Qed.

Lemma frontend_bundle_usable grants gw_ns refs bundle :
  frontend_bundle grants gw_ns refs = Some bundle →
  ∃ cas, Forall2 (usable_ca grants gw_ns) refs cas ∧ bundle = foldl push_pem "" cas.
Proof.
  unfold frontend_bundle. revert bundle. induction refs as [|r refs IH] using rev_ind; intros bundle;
    [intros [= <-]; by exists []|].
  rewrite foldl_app. cbn. destruct (foldl _ _ refs) as [b|]; [|done].
  destruct (frontend_ca grants gw_ns r) as [ca|] eqn:Hca; [|done]. intros [= <-].
  destruct (IH b eq_refl) as (cas & Hall & ->). exists (cas ++ [ca]). rewrite foldl_app. split; [|done].
  apply Forall2_app; [done|]. constructor; [|constructor]. by apply frontend_ca_usable.
Qed.

(** C9. A listener whose Gateway asks for client certificates is not opened without them. A
    listener of the table is an entry of a listed Gateway, the one its id names. When it
    terminates TLS and the Gateway's TLS settings hold a well-formed client validation for its
    port (the entry of the port, or else the default, with a name in each CA reference), the
    listener carries the very mode that was asked for and the bundle of all the certificates
    referred to; each reference is to a ConfigMap whose ca.crt is a valid PEM bundle, in the
    namespace of the Gateway or in one with a ReferenceGrant for it. It carries no validation
    that was not asked for. Validations that are not well formed count as absent, and are not
    covered; the entries of the Gateways are JSON objects. *)
Theorem client_certificates_enforced (a : Answers (J := J)) view c :
  reconcile_tick reserved a = Some view →
  (∀ gws gw l, required (an_gateways a) = Some gws → gw ∈ gws → l ∈ go_listeners gw → is_object l = true) →
  c ∈ rt_listeners (translate_view_to_ir view) →
  ∃ gws gw raw, required (an_gateways a) = Some gws ∧ gw ∈ gws ∧ raw ∈ go_listeners gw ∧
    let ns := default "default" (go_namespace gw) in
    let port := listener_port raw 80 in
    let protocol := default "HTTP" (field_str raw "protocol") in
    lc_id c = default "" (go_namespace gw) +:+ "/" +:+ default "" (go_name gw) +:+ "/" +:+ default "" (field_str raw "name") ∧
    lc_bind_addr c = "0.0.0.0:" +:+ pretty port ∧
    (terminates protocol (parse_tls_mode (Some raw) protocol) = true →
     (∀ spec, client_settings (go_tls gw) port spec →
        ∃ v cas, lc_frontend_validation c = Some v ∧ fv_allow_insecure_fallback v = fs_allow_insecure_fallback spec ∧
          Forall2 (usable_ca (reference_grants view) ns) (fs_ca_certificate_refs spec) cas ∧
          fv_ca_bundle_pem v = foldl push_pem "" cas) ∧
     (is_Some (lc_frontend_validation c) → ∃ spec, client_settings (go_tls gw) port spec)).
Proof.
  intros Htick Hobj Hc. apply reconcile_tick_Some in Htick as (o & tcps & udps & tlss & Ho & ->).
  destruct (read_objects_Some a o Ho) as (_ & _ & Hgws).
  apply translated_listener_source in Hc as (g & l & protocol & Hg & Hl & Hprog & _ & ->). cbn in Hg.
  apply list_elem_of_fmap in Hg as (gw & -> & Hgw). exists (ob_gateways o), gw. cbn -[load_listener_validation] in Hl.
  apply elem_of_lookup_imap in Hl as (idx & l0 & -> & Hl0). unfold build_listener_model in Hl0.
  rewrite filter_objects in Hl0 by (intros l' Hl'; by eapply Hobj). apply list_lookup_fmap_Some in Hl0 as (raw & -> & Hraw).
  exists raw. rewrite Hraw in *. split_and!; [done|done|by eapply list_elem_of_lookup_2|]. cbv zeta.
  set (l := build_listener_state_from_obj _ _ _ _ _) in *. set (ns := default "default" (go_namespace gw)) in *.
  destruct (load_listener_kept (grant_states o) ns (go_tls gw) (Some raw) l) as (Hname & Hport).
  split_and!.
  { cbn -[load_listener_validation]. unfold gateway_listener_id, listener_path. by rewrite Hname. }
  { cbn -[load_listener_validation]. by rewrite Hport. }
  intros Hterm. destruct (load_listener_spec _ _ _ raw l Hprog eq_refl Hterm) as [_ Hfv].
  change (ls_port l) with (listener_port raw 80) in Hfv. split.
  - intros spec Hs%listener_frontend_validation_iff. rewrite Hs in Hfv. destruct Hfv as (bundle & Hb & Hfv).
    destruct (frontend_bundle_usable _ _ _ _ Hb) as (cas & Hcas & ->). eexists _, cas. split; [exact Hfv|]. by split_and!.
  - intros [v Hv]. setoid_rewrite <-listener_frontend_validation_iff. destruct (listener_frontend_validation _ _) as [spec|]; [by eexists|].
    cbn -[load_listener_validation] in Hv. congruence.
Qed.
End tick.

(** ** Examples *)

Module ReconcileExamples.
Import DigestExamples.
Import JsonExamples TlsExamples EndpointExamples.

#[local] Instance tls_secret : SecretApi :=
  λ ns name, if bool_decide (name = "web") then Some (Some {["tls.crt" := PEM; "tls.key" := PEM]}) else None.
#[local] Instance client_cas : ConfigMapApi :=
  λ ns name, if bool_decide (name = "ca") then Some (Some {["ca.crt" := PEM]}) else None.
#[local] Instance literal : RegexEngine := λ pattern v, bool_decide (pattern = v).
#[local] Instance durations : DurationParser := λ _, None.
#[local] Instance services : ServiceStore := λ _ _, true.

Definition from_all : string * Json := ("allowedRoutes", JObject [("namespaces", JObject [("from", JString "All")])]).

(** A listener for HTTPS that takes routes of every namespace. *)
Definition web_listener : Json :=
  JObject [("name", JString "web"); ("protocol", JString "HTTPS"); ("port", JNumber 443); from_all;
           ("tls", JObject [("certificateRefs", JArray [JObject [("kind", JString "Secret"); ("name", JString "web")]])])].

(** TLS settings that ask for client certificates. *)
Definition client_tls (ca_ref : list (string * Json)) : Json :=
  JObject [("frontend", JObject [("default", JObject [("validation", JObject [("caCertificateRefs", JArray [JObject ca_ref])])])])].

Definition ca_ref : list (string * Json) := [("group", JString ""); ("kind", JString "ConfigMap"); ("name", JString "ca")].

Definition web_gateway (tls : option Json) : GatewayObject Json :=
  {| go_namespace := Some "infra"; go_name := Some "gw"; go_generation := Some 1; go_listeners := [web_listener];
     go_allowed_listeners := None; go_tls := tls; go_attached_listener_sets := None |}.

Definition to_gateway : RawParentRef :=
  {| rpr_group := None; rpr_kind := None; rpr_namespace := Some "infra"; rpr_name := "gw"; rpr_section_name := None; rpr_port := None |}.

Definition web_route : HTTPRoute :=
  {| hr_meta := named "edge" "web"; hr_parent_refs := Some [to_gateway]; hr_hostnames := Some ["www.example.com"];
     hr_rules := Some [raw_rule (Some [ref (Some "shop") "db" 5432]) None] |}.

Definition shop_grant : RawReferenceGrant Json :=
  {| rrg_meta := named "shop" "g";
     rrg_from := [JObject [("group", JString GATEWAY_GROUP); ("kind", JString "HTTPRoute"); ("namespace", JString "edge")]];
     rrg_to := [JObject [("group", JString ""); ("kind", JString "Service")]] |}.

Definition answers (tls : option Json) (grants : list (RawReferenceGrant Json)) (policies : Listing BackendTLSPolicy) : Answers (J := Json) :=
  {| an_gateways := Listed [web_gateway tls]; an_listener_sets := Missing; an_http_routes := Listed [web_route];
     an_grpc_routes := Missing; an_grants := Listed grants; an_namespaces := Listed []; an_policies := Listed [policy "new" 2 "ca"];
     an_policies_again := policies; an_services_http := Listed [db]; an_slices_http := Listed [db_slice];
     an_services_grpc := Listed []; an_slices_grpc := Listed []; an_tcp_routes := Missing; an_udp_routes := Missing;
     an_tls_routes := Missing |}.

Definition tick_of (a : Answers (J := Json)) : ReconciledView :=
  default (view_of []) (reconcile_tick (Der := string) (Key := string) (Signer := string) ∅ a).

Definition www : Request :=
  {| req_host := "www.example.com"; req_port := 443; req_path := "/"; req_method := "GET"; req_header := λ _, None; req_query := None |}.

(** The backends of a request, with the protocol and whether there is a policy. *)
Definition served_by (v : ReconciledView) : option (list (string * BackendProtocol * bool)) :=
  match compile (translate_view_to_ir v) with
  | Ok t => p ← lookup_route t www; u ← upstream (plan p);
            Some ((λ b, (wb_backend b, wb_protocol b, bool_decide (wb_tls b ≠ None))) <$> ua_backends u)
  | Err _ => None
  end.

(** The whole way, and the same tick when the second list of policies fails: the backend that
    the policy protects is reached without TLS. *)
Example policies_unread :
  served_by (tick_of (answers (Some (client_tls ca_ref)) [shop_grant] (Listed [policy "new" 2 "ca"]))) =
    Some [("10.0.0.7:15432", BackendHttps, true); ("[fd00::9]:15432", BackendHttps, true)] ∧
  served_by (tick_of (answers (Some (client_tls ca_ref)) [shop_grant] Failed)) =
    Some [("10.0.0.7:15432", BackendHttp, false); ("[fd00::9]:15432", BackendHttp, false)].
Proof. vm_compute. done. Qed.

(** A CA reference that cannot be read closes the listener; one without a name opens it to
    clients without a certificate. *)
Example malformed_validation_ignored :
  let validations ca := lc_frontend_validation <$> rt_listeners (translate_view_to_ir
        (tick_of (answers (Some (client_tls ca)) [shop_grant] Missing))) in
  validations [("kind", JString "ConfigMap"); ("name", JString "missing")] = [] ∧
  validations [("kind", JString "ConfigMap")] = [None].
Proof. vm_compute. done. Qed.

Definition example : Answers (J := Json) := answers (Some (client_tls ca_ref)) [shop_grant] (Listed [policy "new" 2 "ca"]).

Lemma example_refs ns kind v : lists_ref example ns kind v → ns = "edge" ∧ kind = "HTTPRoute" ∧ v = ref (Some "shop") "db" 5432.
Proof.
  intros [(routes & r & rules & raw & refs & [= <-] & Hr & Hrules & Hraw & Hrefs & Hv & -> & ->)
         |(routes & r & rules & raw & refs & [= <-] & Hr & _)]; [|by apply not_elem_of_nil in Hr].
  apply list_elem_of_singleton in Hr as ->. injection Hrules as <-. apply list_elem_of_singleton in Hraw as ->.
  injection Hrefs as <-. by apply list_elem_of_singleton in Hv as ->.
Qed.

Lemma example_wf : view_wf (tick_of example).
Proof.
  assert ((λ g, ls_hostname <$> gs_listeners g) <$> gateways (tick_of example) = [[None]]) as Hg by (vm_compute; reflexivity).
  assert (hrs_hostnames <$> http_route_states (tick_of example) = [[GwExact "www.example.com"]]) as Hh by (vm_compute; reflexivity).
  assert (listener_sets (tick_of example) = [] ∧ grpc_route_states (tick_of example) = []) as [Hs Hr] by (vm_compute; done).
  split; [|rewrite Hs; by intros ? ? []%not_elem_of_nil| |rewrite Hr; by intros ? []%not_elem_of_nil].
  - intros g l Hin Hl Heq. apply (list_elem_of_fmap_2 (λ g, ls_hostname <$> gs_listeners g)) in Hin.
    rewrite Hg in Hin. apply list_elem_of_singleton in Hin. apply (list_elem_of_fmap_2 ls_hostname) in Hl. rewrite Hin, Heq in Hl.
    by apply list_elem_of_singleton in Hl.
  - intros r Hin. apply (list_elem_of_fmap_2 hrs_hostnames) in Hin. rewrite Hh in Hin. apply list_elem_of_singleton in Hin as ->.
    apply Forall_singleton. done.
Qed.

Lemma example_names_ok ns kind v : lists_ref example ns kind v → ref_names_ok ns (rbr_ref v).
Proof. intros (-> & -> & ->)%example_refs. split_and!; cbn; [split; cbn; naive_solver|naive_solver|lia|lia]. Qed.

(** The theorem, on a route into another namespace with a grant. *)
Lemma cluster_backends_permitted_witness :
  permitted_ref (grant_states (J := Json) {| ob_gateways := []; ob_listener_sets := []; ob_http_routes := []; ob_grpc_routes := [];
                                 ob_grants := [shop_grant]; ob_namespaces := [] |}) "edge" "HTTPRoute" (rbr_ref (ref (Some "shop") "db" 5432)) ∧
  leads_to [db_slice] "edge" (rbr_ref (ref (Some "shop") "db" 5432)) "[fd00::9]:15432".
Proof.
  destruct (reconcile_tick (Der := string) (Key := string) (Signer := string) ∅ example) as [view|] eqn:Hv; [|vm_compute in Hv; discriminate Hv].
  assert (view = tick_of example) as Heq by (unfold tick_of; rewrite Hv; reflexivity).
  destruct (compile (translate_view_to_ir view)) as [t|] eqn:Ht; [|rewrite Heq in Ht; vm_compute in Ht; discriminate Ht].
  assert (∃ p u wb, lookup_route t www = Some p ∧ upstream (plan p) = Some u ∧ wb ∈ ua_backends u ∧ wb_backend wb = "[fd00::9]:15432")
    as (p & u & wb & Hp & Hu & Hwb & Haddr).
  { assert (served_by view = Some [("10.0.0.7:15432", BackendHttps, true); ("[fd00::9]:15432", BackendHttps, true)]) as Hs
      by (rewrite Heq; vm_compute; reflexivity).
    unfold served_by in Hs. rewrite Ht in Hs. apply bind_Some in Hs as (p & Hp & (u & Hu & Hb)%bind_Some).
    injection Hb as Hb. apply (f_equal (lookup 1%nat)) in Hb. rewrite list_lookup_fmap in Hb. apply fmap_Some in Hb as (wb & Hwb & Heqb).
    exists p, u, wb. split_and!; [done|done|by eapply list_elem_of_lookup_2|congruence]. }
  destruct (cluster_backends_permitted (Der := string) (Key := string) (Signer := string) ∅ example view t www p u wb)
    as (ns & kind & v & Hl & Hperm & Hleads); [exact example_names_ok|exact Hv|rewrite Heq; exact example_wf|exact Ht|exact Hp|exact Hu|exact Hwb|].
  apply example_refs in Hl as (-> & -> & ->). rewrite Haddr in Hleads. split; [|exact Hleads].
  rewrite Heq in Hperm. exact Hperm.
Defined.

(** The theorem, on the HTTPS listener. *)
Lemma client_certificates_enforced_witness :
  ∃ c v, c ∈ rt_listeners (translate_view_to_ir (tick_of example)) ∧ lc_frontend_validation c = Some v ∧
    fv_allow_insecure_fallback v = false.
Proof.
  destruct (reconcile_tick (Der := string) (Key := string) (Signer := string) ∅ example) as [view|] eqn:Hv; [|vm_compute in Hv; discriminate Hv].
  assert (view = tick_of example) as Heq by (unfold tick_of; rewrite Hv; reflexivity).
  destruct (rt_listeners (translate_view_to_ir view)) as [|c cs] eqn:Hc; [rewrite Heq in Hc; vm_compute in Hc; discriminate Hc|].
  destruct (client_certificates_enforced (Der := string) (Key := string) (Signer := string) ∅ example view c)
    as (gws & gw & raw & Hgws & Hgw & Hraw & _ & _ & Hterm); [exact Hv| |rewrite Hc; left|].
  - intros gws gw l Hg Hin Hl. injection Hg as <-. apply list_elem_of_singleton in Hin as ->.
    apply list_elem_of_singleton in Hl as ->. vm_compute. reflexivity.
  - injection Hgws as <-. apply list_elem_of_singleton in Hgw as ->. apply list_elem_of_singleton in Hraw as ->.
    destruct (Hterm ltac:(vm_compute; reflexivity)) as [Hspec _].
    destruct (Hspec {| fs_ca_certificate_refs := [{| car_group := ""; car_kind := "ConfigMap"; car_name := "ca"; car_namespace := None |}];
                       fs_allow_insecure_fallback := false |}) as (v & cas & Hfv & Hmode & _).
    { apply listener_frontend_validation_iff. vm_compute. reflexivity. }
    exists c, v.
    split_and!; [rewrite <- Heq, Hc; left|exact Hfv|exact Hmode].
Defined.
End ReconcileExamples.
