(* ===== verification/Controller.v ===== *)
(** * The Gateway and GatewayClass controllers ([src/gateway/reconcile/gatewayclass.rs],
    [src/gateway/reconcile/gateway/addresses.rs], [backend_tls.rs], [controller.rs],
    [src/gateway/status/patch.rs]).

    What the leader writes about a Gateway: its conditions, addresses and listeners, once the
    data plane enforces what the Gateway asks for. The answers of the API server and the
    configuration in force are arguments; a write is a value. *)

From S2P Require Import Prelude Net Ir Hostname Compile Lookup L4 Gateway Json Listeners ListenerSets Translate Tls RouteParse Endpoints Reconcile.

(** ** Status values ([status/patch.rs]) *)

(** [serde_json::Value]; the entries of an object are in the order of their keys. *)
Inductive Value :=
| VNull
| VBool (b : bool)
| VNumber (n : Z)
| VString (s : string)
| VArray (l : list Value)
| VObject (entries : list (string * Value)).

#[export] Instance Value_eq_dec : EqDecision Value.
Proof.
  refine (fix go (x y : Value) : Decision (x = y) := let _ : EqDecision Value := @go in
    match x, y with
    | VNull, VNull => left eq_refl
    | VBool a, VBool b => cast_if (decide (a = b))
    | VNumber a, VNumber b => cast_if (decide (a = b))
    | VString a, VString b => cast_if (decide (a = b))
    | VArray a, VArray b => cast_if (decide (a = b))
    | VObject a, VObject b => cast_if (decide (a = b))
    | _, _ => right _
    end); congruence.
Defined.

Fixpoint strip_last_transition_time (v : Value) : Value :=
  match v with
  | VObject entries =>
      VObject (omap (λ kv, if decide (kv.1 = "lastTransitionTime") then None
                           else Some (kv.1, strip_last_transition_time kv.2)) entries)
  | VArray l => VArray (strip_last_transition_time <$> l)
  | other => other
  end.

(** Whether a patch is sent; a resource without a status has the status [null]. *)
Definition patch_needed (old : option Value) (new_status : Value) : bool :=
  negb (bool_decide (strip_last_transition_time (default VNull old) = strip_last_transition_time new_status)).

(** [serde_json::json!] of an object. *)
Definition object (entries : list (string * Value)) : Value := VObject (sort_by (λ a b, String.leb a.1 b.1) entries).

Definition condition_type_string (t : ConditionType) : string :=
  match t with
  | CondAccepted => "Accepted" | CondProgrammed => "Programmed" | CondResolvedRefs => "ResolvedRefs"
  | CondConflicted => "Conflicted" | CondPoison => "Poison" | CondNoMatchingParent => "NoMatchingParent"
  | CondRefNotPermitted => "RefNotPermitted" | CondUnsupportedFeature => "UnsupportedFeature"
  | CondInsecureFrontendValidationMode => "InsecureFrontendValidationMode"
  end.

Definition condition_status_string (s : ConditionStatus) : string :=
  match s with CsTrue => "True" | CsFalse => "False" | CsUnknown => "Unknown" end.

Definition condition_json (type status reason message : string) (generation : Z) (now : string) : Value :=
  object [("type", VString type); ("status", VString status); ("reason", VString reason); ("message", VString message);
          ("observedGeneration", VNumber generation); ("lastTransitionTime", VString now)].

Definition status_condition_json (now : string) (c : StatusCondition) : Value :=
  condition_json (condition_type_string (sc_condition_type c)) (condition_status_string (sc_status c)) (sc_reason c) (sc_message c)
    (sc_observed_generation c) now.

Definition verdict_json (generation : Z) (now type : string) (v : string * string * string) : Value := condition_json type v.1.1 v.1.2 v.2 generation now.

Definition standard_listener_conditions (accepted programmed resolved_refs : string * string * string) (generation : Z) (now : string) : list Value :=
  [verdict_json generation now "Accepted" accepted; verdict_json generation now "Programmed" programmed;
   verdict_json generation now "ResolvedRefs" resolved_refs].

Definition kind_json (k : RouteGroupKind) : Value := object [("group", VString (gk_group k)); ("kind", VString (gk_kind k))].

Definition listener_status_json (generation : Z) (now : string) (l : ListenerStatus) : Value :=
  object [("name", VString (lst_name l)); ("supportedKinds", VArray (kind_json <$> lst_supported_kinds l));
          ("attachedRoutes", VNumber (lst_attached_routes l));
          ("conditions", VArray (standard_listener_conditions (lst_accepted l) (lst_programmed l) (lst_resolved_refs l) generation now))].

(** ** GatewayClasses ([gatewayclass.rs]) *)

Definition CONTROLLER_NAME : string := "sunbeam.pt/sunbeam-proxy".

Definition supported_features : list string :=
  ["Gateway"; "HTTPRoute"; "GRPCRoute"; "TLSRoute"; "ReferenceGrant"; "BackendTLSPolicy"; "GatewayPort8080";
   "GatewayStaticAddresses"; "GatewayHTTPListenerIsolation"; "GatewayHTTPSListenerDetectMisdirectedRequests";
   "GatewayInfrastructurePropagation"; "GatewayAddressEmpty"; "GatewayBackendClientCertificate";
   "GatewayFrontendClientCertificateValidation"; "GatewayFrontendClientCertificateValidationInsecureFallback"; "ListenerSet";
   "HTTPRouteDestinationPortMatching"; "HTTPRouteBackendRequestHeaderModification"; "HTTPRouteQueryParamMatching";
   "HTTPRouteMethodMatching"; "HTTPRouteResponseHeaderModification"; "HTTPRoutePortRedirect"; "HTTPRouteSchemeRedirect";
   "HTTPRoutePathRedirect"; "HTTPRouteHostRewrite"; "HTTPRoutePathRewrite"; "HTTPRouteRequestMirror";
   "HTTPRouteRequestMultipleMirrors"; "HTTPRouteRequestPercentageMirror"; "HTTPRouteRequestTimeout"; "HTTPRouteBackendTimeout";
   "HTTPRouteParentRefPort"; "HTTPRouteBackendProtocolH2C"; "HTTPRouteBackendProtocolWebSocket"; "HTTPRouteNamedRouteRule";
   "HTTPRouteCORS"; "HTTPRoute303RedirectStatusCode"; "HTTPRoute307RedirectStatusCode"; "HTTPRoute308RedirectStatusCode";
   "GRPCRouteNamedRule"; "TLSRouteModeTerminate"; "TLSRouteModeMixed"; "BackendTLSPolicySANValidation"].

Record GatewayClass := {
  gc_name : option string;
  gc_generation : option Z;
  gc_controller_name : string;
  gc_status : option Value;
}.

Definition compute_accepted_condition (gc : GatewayClass) (generation : Z) : StatusCondition :=
  if decide (gc_controller_name gc = CONTROLLER_NAME)
  then accepted_condition CsTrue "Accepted" "GatewayClass is managed by this controller" generation
  else accepted_condition CsFalse "InvalidControllerName"
         ("ControllerName '" +:+ gc_controller_name gc +:+ "' does not match '" +:+ CONTROLLER_NAME +:+ "'") generation.

(** What a controller writes. *)
Inductive Write :=
| PatchStatus (kind namespace name : string) (status : Value)
| ApplyServiceAccount (namespace name : string) (labels annotations : gmap string string).

(** The result of a reconciliation: when it is due again, in milliseconds, and whether the
    reconcile loop is woken; [None] is an error, after which it is due in five seconds. *)
Record Outcome := {
  oc_writes : list Write;
  oc_requeue : option (Z * bool);
}.

(** The end of both controllers: the patch, where the status changed, and its success. *)
Definition finish (before : list Write) (patch : option (option Value * Write * Value)) (patch_ok : bool) : Outcome :=
  match patch with
  | Some (old, w, new) =>
      if patch_needed old new then {| oc_writes := before ++ [w]; oc_requeue := if patch_ok then Some (30000, true) else None |}
      else {| oc_writes := before; oc_requeue := Some (30000, true) |}
  | None => {| oc_writes := before; oc_requeue := Some (30000, true) |}
  end.

Definition gatewayclass_status (now : string) (gc : GatewayClass) : Value :=
  object [("conditions", VArray [status_condition_json now (compute_accepted_condition gc (default 0 (gc_generation gc)))]);
          ("supportedFeatures", VArray ((λ f, object [("name", VString f)]) <$> supported_features))].

Definition reconcile_gatewayclass (gc : GatewayClass) (is_leader : bool) (now : string) (patch_ok : bool) : Outcome :=
  let new := gatewayclass_status now gc in
  finish [] (if is_leader then Some (gc_status gc, PatchStatus "GatewayClass" "" (default "" (gc_name gc)) new, new) else None) patch_ok.

(** ** Addresses and conditions ([addresses.rs]) *)

Record GatewaySpecAddress := {
  ga_type : string;
  ga_value : option string;
}.

Record AddressValidation := {
  av_unsupported : list GatewaySpecAddress;
  av_unusable : list GatewaySpecAddress;
  av_usable : list GatewaySpecAddress;
}.

Definition no_addresses : AddressValidation := {| av_unsupported := []; av_unusable := []; av_usable := [] |}.

(** [implementation_address], from the environment variable. *)
Definition implementation_address (env : option string) : string := default "192.168.252.19" env.

Definition validate_address (impl_addr : string) (v : AddressValidation) (a : GatewaySpecAddress) : AddressValidation :=
  if negb (bool_decide (ga_type a = "IPAddress"))
  then {| av_unsupported := av_unsupported v ++ [a]; av_unusable := av_unusable v; av_usable := av_usable v |}
  else match ga_value a with
  | Some x => if decide (x = impl_addr)
              then {| av_unsupported := av_unsupported v; av_unusable := av_unusable v; av_usable := av_usable v ++ [a] |}
              else {| av_unsupported := av_unsupported v; av_unusable := av_unusable v ++ [a]; av_usable := av_usable v |}
  | None => {| av_unsupported := av_unsupported v; av_unusable := av_unusable v;
               av_usable := av_usable v ++ [{| ga_type := ga_type a; ga_value := Some impl_addr |}] |}
  end.

Definition validate_gateway_addresses (env : option string) (addrs : list GatewaySpecAddress) : AddressValidation :=
  foldl (validate_address (implementation_address env)) no_addresses addrs.

Definition gateway_status_addresses (v : AddressValidation) : list Value :=
  (λ a, object [("type", VString (ga_type a)); ("value", VString (default "" (ga_value a)))]) <$> av_usable v.

Definition accepted_of_gateway (gc : option GatewayClass) (v : AddressValidation) (generation : Z) : StatusCondition :=
  match gc with
  | None => accepted_condition CsFalse "GatewayClassNotFound" "Referenced GatewayClass does not exist" generation
  | Some gc =>
      if negb (bool_decide (gc_controller_name gc = CONTROLLER_NAME))
      then accepted_condition CsFalse "InvalidGatewayClass"
             ("GatewayClass controller '" +:+ gc_controller_name gc +:+ "' does not match '" +:+ CONTROLLER_NAME +:+ "'") generation
      else if negb (bool_decide (av_unsupported v = []))
      then accepted_condition CsFalse "UnsupportedAddress"
             ("Unsupported address type(s): " +:+
              str_join ", " ((λ a, ga_type a +:+ "=" +:+ default "" (ga_value a)) <$> av_unsupported v)) generation
      else accepted_condition CsTrue "Accepted" "Gateway references an accepted GatewayClass" generation
  end.

Definition programmed_of_gateway (accepted : StatusCondition) (v : AddressValidation) (generation : Z) : StatusCondition :=
  if negb (bool_decide (sc_status accepted = CsTrue))
  then programmed_condition CsFalse "Invalid" "Gateway is not accepted" generation
  else if negb (bool_decide (av_unusable v = []))
  then programmed_condition CsFalse "AddressNotUsable"
         ("Address(es) not usable: " +:+ str_join ", " ((λ a, default "" (ga_value a)) <$> av_unusable v)) generation
  else programmed_condition CsTrue "Programmed" "Gateway configuration programmed into proxy" generation.

Definition compute_gateway_conditions (gc : option GatewayClass) (v : AddressValidation) (backend_tls_error : option CertValidation)
    (insecure_frontend_mode : bool) (generation : Z) : list StatusCondition :=
  let accepted := accepted_of_gateway gc v generation in
  [accepted; programmed_of_gateway accepted v generation;
   match backend_tls_error with
   | Some err => resolved_refs_condition CsFalse (cv_reason err) (cv_message err) generation
   | None => resolved_refs_condition CsTrue "ResolvedRefs" "All references resolved" generation
   end] ++
  (if insecure_frontend_mode
   then [{| sc_condition_type := CondInsecureFrontendValidationMode; sc_status := CsTrue; sc_reason := "ConfigurationChanged";
            sc_message := "Frontend validation mode is AllowInsecureFallback"; sc_observed_generation := generation |}]
   else []).

Section gateway_controller.
Context {J : Type} `{!JsonOps J}.

(** A Gateway, with the rest of what the controller reads of it. *)
Record GatewayResource := {
  gr_gateway : GatewayObject J;
  gr_class_name : string;
  gr_addresses : option (list J);
  gr_infrastructure : option J;
  gr_status : option Value;
}.

Definition parse_gateway_addresses (addrs : option (list J)) : list GatewaySpecAddress :=
  (λ obj, {| ga_type := default "IPAddress" (field_str obj "type"); ga_value := field_str obj "value" |})
  <$> filter (λ v, is_object v = true) (default [] addrs).

(** ** Readiness of the data plane ([backend_tls.rs]) *)

(** The mode of client validation: whether a listener asks for it, and with what fallback. *)
Definition expected_mode (gw : GatewayObject J) (l : J) : option bool :=
  fs_allow_insecure_fallback <$> listener_frontend_validation (go_tls gw) (listener_port l 80).

Definition ready_id (l : J) : string :=
  "0.0.0.0:" +:+ pretty (listener_port l 80) +:+ "#" +:+
  protocol_debug (if decide (default "HTTP" (field_str l "protocol") = "HTTPS") then Https else Tls).

Definition actual_mode (cfg : CompiledL4Config) (id : string) : option bool :=
  List.find (λ l, bool_decide (cl_id l = id)) (listeners cfg) ≫= λ l, cfv_allow_insecure_fallback <$> cl_frontend_validation l.

(** Whether a listener is to be looked at: one that terminates TLS and has no error. *)
Definition to_check (l : J) (err : option CertValidation) : bool :=
  let protocol := default "HTTP" (field_str l "protocol") in
  is_object l && bool_decide (err = None) && terminates protocol (parse_tls_mode (Some l) protocol).

Definition gateway_l4_ready (gw : GatewayObject J) (cfg : CompiledL4Config) (cert_errors : list (option CertValidation)) : bool :=
  forallb id (imap (λ idx l,
    negb (to_check l (mjoin (cert_errors !! idx))) || bool_decide (expected_mode gw l = actual_mode cfg (ready_id l)))
    (go_listeners gw)).

(** ** The controller ([controller.rs]) *)

Definition GATEWAY_NAME_LABEL : string := "gateway.networking.k8s.io/gateway-name".

(** The string entries of a field of the infrastructure. *)
Definition infrastructure_map (infrastructure : option J) (field : string) : gmap string string :=
  list_to_map (rev (omap (λ kv, pair kv.1 <$> j_str kv.2)
    (default [] (infrastructure ≫= λ v, j_field v field ≫= j_entries)))).

Definition infrastructure_serviceaccount (gr : GatewayResource) : Write :=
  let gw := gr_gateway gr in
  let name := default "gateway" (go_name gw) in
  ApplyServiceAccount (default "default" (go_namespace gw)) ("sunbeam-gateway-" +:+ name)
    (<[GATEWAY_NAME_LABEL := name]> (infrastructure_map (gr_infrastructure gr) "labels"))
    (infrastructure_map (gr_infrastructure gr) "annotations").

(** What one reconciliation reads: the GatewayClass, if it can be read, the lists, [None] where
    a request fails, the routes of each kind, the configuration in force, if it is installed,
    and the leadership, which is read twice. *)
Record GatewayReads := {
  rd_class : option GatewayClass;
  rd_grants : option (list (RawReferenceGrant J));
  rd_namespaces : option (list (option string * option (gmap string string)));
  rd_listener_sets : option (list (ListenerSetObject J));
  rd_http : option (list (RouteParents ParentRefInfo));
  rd_tcp : option (list (RouteParents ParentRefInfo));
  rd_udp : option (list (RouteParents ParentRefInfo));
  rd_tls : option (list (RouteParents ParentRefInfo));
  rd_l4 : option CompiledL4Config;
  rd_leader_first : bool;
  rd_leader_then : bool;
}.

Context {Der Key Signer : Type} `{!PkiOps Der Key Signer, !SecretApi, !ConfigMapApi} (reserved : gset Z) (env : option string).

Definition observed_generation (gw : GatewayObject J) : Z := Z.max (default 0 (go_generation gw)) 1.

Definition conditions_of (gr : GatewayResource) (rd : GatewayReads) (grants : list ReferenceGrantState) : list StatusCondition :=
  let gw := gr_gateway gr in
  compute_gateway_conditions (rd_class rd) (validate_gateway_addresses env (parse_gateway_addresses (gr_addresses gr)))
    (validate_gateway_backend_tls grants gw) (gateway_insecure_frontend_mode gw) (observed_generation gw).

Definition cert_errors_of (gw : GatewayObject J) (grants : list ReferenceGrantState) : list (option CertValidation) :=
  let ns := default "" (go_namespace gw) in
  (λ l, if is_object l then
          match validate_listener_certificates grants ns "Gateway" l with
          | Some e => Some e
          | None => validate_listener_frontend_validation grants ns l (go_tls gw)
          end
        else None) <$> go_listeners gw.

(** The ListenerSets that name the Gateway, with the conflicts among them. *)
Definition sets_of (gw : GatewayObject J) (rd : GatewayReads) (grants : list ReferenceGrantState) (labels : NamespaceLabels) :
    list ListenerSetState :=
  let ns := default "" (go_namespace gw) in
  resolve_listener_set_conflicts reserved
    ((λ ls, build_listener_set_state ls [gw] labels grants) <$>
     filter (λ ls, lo_parent_name ls = default "" (go_name gw) ∧ default ns (lo_parent_namespace ls) = ns)
       (default [] (rd_listener_sets rd)))
    [build_gateway_state gw].

Definition is_programmed (cs : list StatusCondition) : bool :=
  existsb (λ c, bool_decide (sc_condition_type c = CondProgrammed) && bool_decide (sc_status c = CsTrue)) cs.

(** The addresses that are reported, never none. *)
Definition reported_addresses (v : AddressValidation) : list Value :=
  match gateway_status_addresses v with
  | [] => gateway_status_addresses {| av_unsupported := []; av_unusable := [];
            av_usable := [{| ga_type := "IPAddress"; ga_value := Some (implementation_address env) |}] |}
  | addresses => addresses
  end.

Definition gateway_status (gr : GatewayResource) (rd : GatewayReads) (grants : list ReferenceGrantState) (labels : NamespaceLabels)
    (now : string) : Value :=
  let gw := gr_gateway gr in
  let ns := default "" (go_namespace gw) in
  let name := default "" (go_name gw) in
  let attached := count_attached_routes ns name (listener_matches gw) labels (rd_http rd) (rd_tcp rd) (rd_udp rd) (rd_tls rd) in
  object [("conditions", VArray (status_condition_json now <$> conditions_of gr rd grants));
          ("listeners", VArray (listener_status_json (observed_generation gw) now <$>
             build_listener_status reserved (list_to_set supported_features) gw (cert_errors_of gw grants) attached));
          ("addresses", VArray (reported_addresses (validate_gateway_addresses env (parse_gateway_addresses (gr_addresses gr)))));
          ("attachedListenerSets", VNumber (count_attached_listener_sets ns name (sets_of gw rd grants labels)))].

Definition reconcile_gateway (gr : GatewayResource) (rd : GatewayReads) (now : string) (patch_ok : bool) : Outcome :=
  let gw := gr_gateway gr in
  match rd_grants rd with
  | None => {| oc_writes := []; oc_requeue := None |}
  | Some raw =>
      let grants := reconcile_reference_grants raw in
      let account := if rd_leader_first rd then [infrastructure_serviceaccount gr] else [] in
      match rd_namespaces rd with
      | None => {| oc_writes := account; oc_requeue := None |}
      | Some nss =>
          let new := gateway_status gr rd grants (build_namespace_labels nss) now in
          if negb (rd_leader_then rd) then finish account None patch_ok
          else if is_programmed (conditions_of gr rd grants) &&
                  match rd_l4 rd with Some cfg => negb (gateway_l4_ready gw cfg (cert_errors_of gw grants)) | None => false end
          then {| oc_writes := account; oc_requeue := Some (100, false) |}
          else finish account
                 (Some (gr_status gr, PatchStatus "Gateway" (default "" (go_namespace gw)) (default "" (go_name gw)) new, new)) patch_ok
      end
  end.
End gateway_controller.
#[global] Arguments GatewayResource _ : clear implicits.
#[global] Arguments GatewayReads _ : clear implicits.

(** ** What a status says *)

(** A status that has a condition of a type with a status. *)
Definition reports (v : Value) (type status : string) : Prop :=
  ∃ entries conds e, v = VObject entries ∧ ("conditions", VArray conds) ∈ entries ∧ VObject e ∈ conds ∧
    ("type", VString type) ∈ e ∧ ("status", VString status) ∈ e.

Lemma elem_of_object kv entries l : object entries = VObject l → kv ∈ l → kv ∈ entries.
Proof. intros Hl Hkv. injection Hl as <-. by rewrite elem_of_sort_by in Hkv. Qed.

(** Entries of an object that is written out. *)
Ltac object_entry Hv H :=
  eapply elem_of_object in H; [|exact Hv];
  repeat (apply elem_of_cons in H as [H|H]; [first [discriminate H|injection H as H]|]); try by apply elem_of_nil in H.

Lemma reports_condition now c e type status : status_condition_json now c = VObject e →
  ("type", VString type) ∈ e → ("status", VString status) ∈ e →
  condition_type_string (sc_condition_type c) = type ∧ condition_status_string (sc_status c) = status.
Proof. intros Hv Ht Hs. object_entry Hv Ht. object_entry Hv Hs. by subst. Qed.

Section statuses.
Context {J : Type} `{!JsonOps J} {Der Key Signer : Type} `{!PkiOps Der Key Signer, !SecretApi, !ConfigMapApi}.
Context (reserved : gset Z) (env : option string).

Lemma reports_gateway (gr : GatewayResource J) rd grants labels now type status :
  reports (gateway_status reserved env gr rd grants labels now) type status →
  ∃ c, c ∈ conditions_of env gr rd grants ∧ condition_type_string (sc_condition_type c) = type ∧
    condition_status_string (sc_status c) = status.
Proof.
  intros (entries & conds & e & Hv & Hc & He & Ht & Hs). object_entry Hv Hc. subst conds.
  change (VObject e ∈ status_condition_json now <$> conditions_of env gr rd grants) in He.
  apply list_elem_of_fmap in He as (c & He & Hin). exists c. split; [done|]. by eapply reports_condition.
Qed.

(** *** Addresses *)

Lemma validate_addresses_spec impl addrs v : let v' := foldl (validate_address impl) v addrs in
  av_unsupported v' = [] → av_unusable v' = [] →
  (av_unsupported v = [] ∧ av_unusable v = []) ∧
  ∀ a, a ∈ addrs → ga_type a = "IPAddress" ∧ ∀ x, ga_value a = Some x → x = impl.
Proof.
  revert v. induction addrs as [|a addrs IH]; intros v v' H1 H2; [split; [done|]; by intros a Ha%elem_of_nil|].
  destruct (IH (validate_address impl v a) H1 H2) as [[H3 H4] H5]. unfold validate_address in H3, H4.
  case_bool_decide as Ht; cbn [negb] in H3, H4; [|by apply app_eq_nil in H3 as [_ ?]].
  assert ((av_unsupported v = [] ∧ av_unusable v = []) ∧ ∀ x, ga_value a = Some x → x = impl) as [Hv Ha].
  { destruct (ga_value a) as [x|]; [destruct (decide (x = impl)); cbn in H3, H4|by split].
    - split; [done|]. by intros y [= <-].
    - by apply app_eq_nil in H4 as [_ ?]. }
  split; [done|]. intros b [->|Hb]%elem_of_cons; [done|by apply H5].
Qed.

(** A Gateway that counts as programmed. *)
Lemma programmed_conditions (gr : GatewayResource J) rd grants c :
  c ∈ conditions_of env gr rd grants → sc_condition_type c = CondProgrammed → sc_status c = CsTrue →
  is_programmed (conditions_of env gr rd grants) = true ∧
  (∃ gc, rd_class rd = Some gc ∧ gc_controller_name gc = CONTROLLER_NAME) ∧
  (∀ a, a ∈ parse_gateway_addresses (gr_addresses gr) →
     ga_type a = "IPAddress" ∧ ∀ x, ga_value a = Some x → x = implementation_address env).
Proof.
  intros Hc Ht Hs. split.
  { apply existsb_exists. exists c. split; [by apply list_elem_of_In|]. by rewrite Ht, Hs. }
  unfold conditions_of, compute_gateway_conditions in Hc. set (v := validate_gateway_addresses _ _) in *.
  assert (c = programmed_of_gateway (accepted_of_gateway (rd_class rd) v (observed_generation (gr_gateway gr))) v
                (observed_generation (gr_gateway gr))) as ->.
  { repeat (apply elem_of_app in Hc as [Hc|Hc] || apply elem_of_cons in Hc as [Hc|Hc]); [| done | |by apply elem_of_nil in Hc|].
    - subst c. unfold accepted_of_gateway in Ht. by repeat case_match.
    - subst c. by repeat case_match.
    - destruct (gateway_insecure_frontend_mode _); [|by apply elem_of_nil in Hc]. apply list_elem_of_singleton in Hc as ->. done. }
  unfold programmed_of_gateway in Hs. case_bool_decide as Ha; [|done]. cbn [negb] in Hs. case_bool_decide as Hu; [|done].
  unfold accepted_of_gateway in Ha. destruct (rd_class rd) as [gc|]; [|done]. case_bool_decide as Hn; [|done]. cbn [negb] in Ha.
  case_bool_decide as Hun; [|done]. split; [by exists gc|].
  by destruct (validate_addresses_spec (implementation_address env) (parse_gateway_addresses (gr_addresses gr)) no_addresses Hun Hu).
Qed.

(** The patch of a reconciliation, and what preceded it. *)
Lemma reconcile_gateway_patch (gr : GatewayResource J) rd now ok ns name v :
  PatchStatus "Gateway" ns name v ∈ oc_writes (reconcile_gateway reserved env gr rd now ok) →
  ∃ raw nss, rd_grants rd = Some raw ∧ rd_namespaces rd = Some nss ∧ rd_leader_then rd = true ∧
    let grants := reconcile_reference_grants raw in
    v = gateway_status reserved env gr rd grants (build_namespace_labels nss) now ∧
    patch_needed (gr_status gr) v = true ∧
    (is_programmed (conditions_of env gr rd grants) = true → ∀ cfg, rd_l4 rd = Some cfg →
       gateway_l4_ready (gr_gateway gr) cfg (cert_errors_of (gr_gateway gr) grants) = true).
Proof.
  unfold reconcile_gateway. destruct (rd_grants rd) as [raw|]; [|by intros Hx%elem_of_nil].
  set (grants := reconcile_reference_grants raw). set (account := if rd_leader_first rd then _ else _).
  assert (PatchStatus "Gateway" ns name v ∉ account) as Hacc.
  { unfold account. destruct (rd_leader_first rd); [|apply not_elem_of_nil]. unfold infrastructure_serviceaccount. by intros Hx%list_elem_of_singleton. }
  destruct (rd_namespaces rd) as [nss|]; [|done]. destruct (rd_leader_then rd); cbn [negb]; [|done].
  destruct (is_programmed _ && _) eqn:Hr; [done|]. unfold finish. destruct (patch_needed _ _) eqn:Hp; [|done].
  cbn [oc_writes]. intros [Hx|Hx]%elem_of_app; [done|]. apply list_elem_of_singleton in Hx. injection Hx as -> -> ->.
  exists raw, nss. split_and!; [done..|]. fold grants. intros Hprog cfg Hcfg. rewrite Hprog, Hcfg in Hr. by apply negb_false_iff in Hr.
Qed.

(** What a data plane that is ready enforces. *)
Lemma l4_ready_spec (gw : GatewayObject J) cfg errs idx l :
  gateway_l4_ready gw cfg errs = true → go_listeners gw !! idx = Some l → to_check l (mjoin (errs !! idx)) = true →
  expected_mode gw l = actual_mode cfg (ready_id l).
Proof.
  unfold gateway_l4_ready. intros Hr Hl Hc. rewrite forallb_forall in Hr.
  assert ((negb (to_check l (mjoin (errs !! idx))) || bool_decide (expected_mode gw l = actual_mode cfg (ready_id l))) = true) as Hb.
  { apply Hr, list_elem_of_In, (list_elem_of_lookup_2 _ idx). by rewrite list_lookup_imap, Hl. }
  rewrite Hc in Hb. cbn [negb orb] in Hb. by apply bool_decide_eq_true in Hb.
Qed.

(** C13. [Programmed] is not reported before the client certificates asked for are enforced.
    When the Gateway controller writes that a Gateway is programmed, it writes as the leader; the
    GatewayClass is this controller's; and every address the Gateway asks for is an IP address
    and, where it has a value, the address of the proxy. If moreover a compiled L4 configuration
    is installed, then each listener entry that terminates TLS, for which no certificate error
    was found, and for whose port the Gateway has well-formed client validation settings, is in
    that configuration, on its port and for its protocol, with client validation in the mode
    asked for. Nothing is said of other listeners, nor when no configuration is installed. *)
Theorem programmed_status_truthful (gr : GatewayResource J) (rd : GatewayReads J) now ok ns name v :
  PatchStatus "Gateway" ns name v ∈ oc_writes (reconcile_gateway reserved env gr rd now ok) → reports v "Programmed" "True" →
  rd_leader_then rd = true ∧
  (∃ gc, rd_class rd = Some gc ∧ gc_controller_name gc = CONTROLLER_NAME) ∧
  (∀ a, a ∈ parse_gateway_addresses (gr_addresses gr) →
     ga_type a = "IPAddress" ∧ ∀ x, ga_value a = Some x → x = implementation_address env) ∧
  ∃ raw, rd_grants rd = Some raw ∧
    ∀ cfg idx l spec, rd_l4 rd = Some cfg → go_listeners (gr_gateway gr) !! idx = Some l → is_object l = true →
      let protocol := default "HTTP" (field_str l "protocol") in
      let port := listener_port l 80 in
      (protocol = "HTTPS" ∨ protocol = "TLS") → parse_tls_mode (Some l) protocol = Some Terminate →
      mjoin (cert_errors_of (gr_gateway gr) (reconcile_reference_grants raw) !! idx) = None →
      client_settings (go_tls (gr_gateway gr)) port spec →
      ∃ cl fv, cl ∈ listeners cfg ∧
        cl_id cl = "0.0.0.0:" +:+ pretty port +:+ (if decide (protocol = "HTTPS") then "#Https" else "#Tls") ∧
        cl_frontend_validation cl = Some fv ∧ cfv_allow_insecure_fallback fv = fs_allow_insecure_fallback spec.
Proof.
  intros (raw & nss & Hraw & _ & Hlead & -> & _ & Hready)%reconcile_gateway_patch (c & Hc & Ht & Hs)%reports_gateway.
  destruct (programmed_conditions gr rd (reconcile_reference_grants raw) c Hc) as (Hprog & Hgc & Haddr).
  { by destruct (sc_condition_type c). }
  { by destruct (sc_status c). }
  split_and!; [done..|]. exists raw. split; [done|]. intros cfg idx l spec Hcfg Hl Hobj protocol port Hproto Hmd Herr Hspec.
  assert (to_check l (mjoin (cert_errors_of (gr_gateway gr) (reconcile_reference_grants raw) !! idx)) = true) as Hchk.
  { unfold to_check, terminates. fold protocol. rewrite Hobj, Herr, Hmd, !bool_decide_true; [done|done|set_solver|done]. }
  pose proof (l4_ready_spec _ _ _ _ _ (Hready Hprog cfg Hcfg) Hl Hchk) as Hmode. unfold expected_mode in Hmode.
  apply listener_frontend_validation_iff in Hspec. fold port in Hmode. rewrite Hspec in Hmode.
  symmetry in Hmode. unfold actual_mode in Hmode. apply bind_Some in Hmode as (cl & Hf & (fv & Hfv & Hm)%fmap_Some).
  apply find_some in Hf as [Hin Hid%bool_decide_eq_true]. exists cl, fv. split_and!; [by apply list_elem_of_In| |done..].
  rewrite Hid. unfold ready_id. fold protocol. by case_decide.
Qed.

(** *** Settling *)

Lemma strip_array {A} (f g : A → Value) l : (∀ x, strip_last_transition_time (f x) = strip_last_transition_time (g x)) →
  strip_last_transition_time (VArray (f <$> l)) = strip_last_transition_time (VArray (g <$> l)).
Proof. intros Hfg. cbn. f_equal. induction l as [|x l IH]; [done|]. cbn. by rewrite Hfg, IH. Qed.

(** Objects whose entries differ in the time alone. *)
Definition same_entry (a b : string * Value) : Prop :=
  a.1 = b.1 ∧ (a.1 = "lastTransitionTime" ∨ strip_last_transition_time a.2 = strip_last_transition_time b.2).

Lemma strip_object es es' : Forall2 same_entry es es' →
  strip_last_transition_time (object es) = strip_last_transition_time (object es').
Proof.
  intros He. unfold object. set (le := λ a b : string * Value, String.leb a.1 b.1).
  assert (Forall2 same_entry (sort_by le es) (sort_by le es')) as Hs.
  { induction He as [|a b l l' Hab _ IH]; [constructor|]. cbn [sort_by]. induction IH as [|c d k k' Hcd Hk IHk]; cbn [insert_sorted].
    - constructor; [done|constructor].
    - assert (le a c = le b d) as -> by (unfold le; by rewrite (proj1 Hab), (proj1 Hcd)). destruct (le b d); constructor; [done|by constructor|done..]. }
  cbn [strip_last_transition_time]. f_equal. induction Hs as [|a b l l' [Hk Hv] _ IH]; [done|]. cbn. rewrite <- Hk.
  case_decide as Hd; [exact IH|]. destruct Hv as [?|Hv]; [done|]. by rewrite Hv, IH.
Qed.

Ltac same_entries := repeat (apply List.Forall2_cons; [split; [reflexivity|]|]); [..|apply List.Forall2_nil].

Lemma condition_json_time type status reason message generation now now' :
  strip_last_transition_time (condition_json type status reason message generation now) =
  strip_last_transition_time (condition_json type status reason message generation now').
Proof. apply strip_object. same_entries; first [by right|by left]. Qed.

Lemma listener_status_time generation now now' l :
  strip_last_transition_time (listener_status_json generation now l) = strip_last_transition_time (listener_status_json generation now' l).
Proof. apply strip_object. same_entries; right; [done..|]. cbn. by repeat f_equal; apply condition_json_time. Qed.

(** The time is all that differs between two statuses of the same facts. *)
Lemma gateway_status_time (gr : GatewayResource J) rd grants labels now now' :
  strip_last_transition_time (gateway_status reserved env gr rd grants labels now) =
  strip_last_transition_time (gateway_status reserved env gr rd grants labels now').
Proof.
  apply strip_object. same_entries; right; [apply strip_array; intros c; apply condition_json_time| |done..].
  apply strip_array. intros l. apply listener_status_time.
Qed.
End statuses.

(** C36. Reconciliation settles. Once the leader's patch of a Gateway has been stored, the next
    reconciliation of the same objects writes no status, however much later it runs: the
    controller, which is woken by the changes of its own objects, does not wake itself. *)
Theorem gateway_status_settles {J : Type} `{!JsonOps J} {Der Key Signer : Type} `{!PkiOps Der Key Signer, !SecretApi, !ConfigMapApi}
    (reserved : gset Z) (env : option string) (gr : GatewayResource J) (rd : GatewayReads J) now ok now' ok' ns name v :
  PatchStatus "Gateway" ns name v ∈ oc_writes (reconcile_gateway reserved env gr rd now ok) →
  let stored := {| gr_gateway := gr_gateway gr; gr_class_name := gr_class_name gr; gr_addresses := gr_addresses gr;
                   gr_infrastructure := gr_infrastructure gr; gr_status := Some v |} in
  let o := reconcile_gateway reserved env stored rd now' ok' in
  (∀ ns' name' v', PatchStatus "Gateway" ns' name' v' ∉ oc_writes o) ∧ oc_requeue o = Some (30000, true).
Proof.
  intros (raw & nss & Hraw & Hnss & Hlead & -> & _ & Hready)%reconcile_gateway_patch stored o.
  set (grants := reconcile_reference_grants raw) in *. set (v := gateway_status reserved env gr rd grants (build_namespace_labels nss) now) in *.
  assert (patch_needed (Some v) (gateway_status reserved env stored rd grants (build_namespace_labels nss) now') = false) as Hp.
  { unfold patch_needed. cbn [default]. rewrite (gateway_status_time reserved env stored rd grants _ now' now). by rewrite bool_decide_true. }
  split.
  - intros ns' name' v' (raw' & nss' & Hraw' & Hnss' & _ & -> & Hneed & _)%reconcile_gateway_patch.
    rewrite Hraw in Hraw'. rewrite Hnss in Hnss'. injection Hraw' as <-. injection Hnss' as <-. exact (eq_true_false_abs _ Hneed Hp).
  - unfold o, reconcile_gateway. rewrite Hraw, Hnss, Hlead. cbn [negb]. fold grants.
    change (conditions_of env stored rd grants) with (conditions_of env gr rd grants). cbn [gr_gateway stored].
    destruct (is_programmed (conditions_of env gr rd grants)) eqn:Hprog; cbn [andb].
    + destruct (rd_l4 rd) as [cfg|]; [rewrite (Hready eq_refl cfg eq_refl)|]; cbn [negb]; unfold finish; cbn [gr_status stored]; by rewrite Hp.
    + unfold finish. cbn [gr_status stored]. by rewrite Hp.
Qed.

(** ** Examples *)

Module ControllerExamples.
Import JsonExamples TlsExamples EndpointExamples ReconcileExamples.

#[local] Existing Instances tls_secret client_cas.

Definition our_class : GatewayClass := {| gc_name := Some "sunbeam"; gc_generation := Some 1; gc_controller_name := CONTROLLER_NAME; gc_status := None |}.

(** A second listener, for TLS on the port of the first. *)
Definition tls_listener : Json :=
  JObject [("name", JString "raw"); ("protocol", JString "TLS"); ("port", JNumber 443); from_all].

Definition client_gateway (more : list Json) : GatewayObject Json :=
  {| go_namespace := Some "infra"; go_name := Some "gw"; go_generation := Some 1; go_listeners := web_listener :: more;
     go_allowed_listeners := None; go_tls := Some (client_tls ca_ref); go_attached_listener_sets := None |}.

Definition resource (more : list Json) (addresses : option (list Json)) : GatewayResource Json :=
  {| gr_gateway := client_gateway more; gr_class_name := "sunbeam"; gr_addresses := addresses; gr_infrastructure := None; gr_status := None |}.

Definition tls_route : RawL4Route :=
  {| rl_meta := named "infra" "raw"; rl_parent_refs := Some [to_gateway]; rl_hostnames := ["db.example.com"]; rl_rules := [] |}.

(** The configuration of the data plane after a tick that reads the same Gateway. *)
Definition in_force_with (more : list Json) (https : list HTTPRoute) : option CompiledL4Config :=
  let a := {| an_gateways := Listed [client_gateway more]; an_listener_sets := Missing; an_http_routes := Listed https;
              an_grpc_routes := Missing; an_grants := Listed []; an_namespaces := Listed []; an_policies := Missing;
              an_policies_again := Missing; an_services_http := Listed []; an_slices_http := Listed [];
              an_services_grpc := Listed []; an_slices_grpc := Listed []; an_tcp_routes := Missing; an_udp_routes := Missing;
              an_tls_routes := Listed [tls_route] |} in
  match compile_l4 (translate_view_to_ir (tick_of a)) with Ok cfg => Some cfg | Err _ => None end.

Definition in_force (more : list Json) : option CompiledL4Config := in_force_with more [web_route].

Definition reads (cfg : option CompiledL4Config) : GatewayReads Json :=
  {| rd_class := Some our_class; rd_grants := Some []; rd_namespaces := Some []; rd_listener_sets := None; rd_http := None; rd_tcp := None;
     rd_udp := None; rd_tls := None; rd_l4 := cfg; rd_leader_first := true; rd_leader_then := true |}.

Definition run (more : list Json) (addresses : option (list Json)) (cfg : option CompiledL4Config) : Outcome :=
  reconcile_gateway (Der := string) (Key := string) (Signer := string) ∅ None (resource more addresses) (reads cfg) "t0" true.

Definition patched (o : Outcome) : option Value :=
  find_map (λ w, match w with PatchStatus _ _ _ v => Some v | _ => None end) (oc_writes o).

Example runs :
  (λ o, (bool_decide (is_Some (patched o)), oc_requeue o)) <$>
    [run [] None (in_force []); run [] None (Some CompiledL4Config_default); run [] (Some [JObject [("value", JString "10.0.0.1")]]) None] =
  [(true, Some (30000, true)); (false, Some (100, false)); (true, Some (30000, true))].
Proof. vm_compute. reflexivity. Qed.

(** With a TLS listener on the same port the data plane has one socket for both, under a name
    the check does not look for: the Gateway is served and its status never written. *)
Example shared_port_never_reported :
  (λ cfg, (λ l, (cl_id l, cfv_allow_insecure_fallback <$> cl_frontend_validation l)) <$> listeners cfg) <$> in_force [tls_listener] =
    Some [("0.0.0.0:443#tls", Some false)] ∧
  patched (run [tls_listener] None (in_force [tls_listener])) = None ∧
  oc_requeue (run [tls_listener] None (in_force [tls_listener])) = Some (100, false).
Proof. vm_compute. done. Qed.

(** Nor is it written while no route is attached: the listener that is to ask for client
    certificates opens with its first route. *)
Example no_route_never_reported :
  listeners <$> in_force_with [] [] = Some [] ∧ patched (run [] None (in_force_with [] [])) = None ∧
  oc_requeue (run [] None (in_force_with [] [])) = Some (100, false).
Proof. vm_compute. done. Qed.

(** A listener that asks for no client certificates counts as open though it is not. *)
Example absent_listener_ready :
  gateway_l4_ready (web_gateway None) CompiledL4Config_default [None] = true.
Proof. vm_compute. reflexivity. Qed.

Definition written : Value := default VNull (patched (run [] None (in_force []))).

Lemma written_in : PatchStatus "Gateway" "infra" "gw" written ∈ oc_writes (run [] None (in_force [])).
Proof.
  assert (oc_writes (run [] None (in_force [])) !! 1%nat = Some (PatchStatus "Gateway" "infra" "gw" written)) as Hw by (vm_compute; reflexivity).
  by apply list_elem_of_lookup_2 in Hw.
Qed.

Definition entries_of (v : Value) : list (string * Value) := match v with VObject es => es | _ => [] end.
Definition conditions_in (v : Value) : list Value :=
  default [] (find_map (λ kv, if decide (kv.1 = "conditions") then match kv.2 with VArray l => Some l | _ => None end else None) (entries_of v)).

Lemma written_reports : reports written "Programmed" "True".
Proof.
  exists (entries_of written), (conditions_in written), (entries_of (default VNull (conditions_in written !! 1%nat))).
  split_and!; [vm_compute; reflexivity|apply (bool_decide_unpack _); by vm_compute..].
Qed.

(** The theorem, on the HTTPS listener. *)
Lemma programmed_status_truthful_witness : ∃ cfg cl fv, in_force [] = Some cfg ∧ cl ∈ listeners cfg ∧ cl_id cl = "0.0.0.0:443#Https" ∧
  cl_frontend_validation cl = Some fv ∧ cfv_allow_insecure_fallback fv = false.
Proof.
  destruct (programmed_status_truthful (Der := string) (Key := string) (Signer := string) ∅ None (resource [] None) (reads (in_force []))
    "t0" true "infra" "gw" written written_in written_reports) as (_ & _ & _ & raw & Hraw & Hl).
  destruct (in_force []) as [cfg|] eqn:Hcfg; [|vm_compute in Hcfg; discriminate Hcfg].
  destruct (Hl cfg 0%nat web_listener
    {| fs_ca_certificate_refs := [{| car_group := ""; car_kind := "ConfigMap"; car_name := "ca"; car_namespace := None |}];
       fs_allow_insecure_fallback := false |}) as (cl & fv & Hin & Hid & Hfv & Hmode);
    [reflexivity|reflexivity|vm_compute; reflexivity|left; vm_compute; reflexivity|vm_compute; reflexivity
    |injection Hraw as <-; vm_compute; reflexivity|apply listener_frontend_validation_iff; vm_compute; reflexivity|].
  exists cfg, cl, fv. split_and!; [reflexivity|exact Hin| |exact Hfv|exact Hmode]. rewrite Hid. vm_compute. reflexivity.
Defined.

(** The theorem, on the next reconciliation. *)
Lemma gateway_status_settles_witness :
  oc_requeue (reconcile_gateway (Der := string) (Key := string) (Signer := string) ∅ None
    {| gr_gateway := client_gateway []; gr_class_name := "sunbeam"; gr_addresses := None; gr_infrastructure := None; gr_status := Some written |}
    (reads (in_force [])) "t1" true) = Some (30000, true).
Proof.
  exact (proj2 (gateway_status_settles (Der := string) (Key := string) (Signer := string) ∅ None (resource [] None) (reads (in_force []))
    "t0" true "t1" true "infra" "gw" written written_in)).
Defined.
End ControllerExamples.
