(* ===== verification/Leader.v ===== *)
(** * The reconcile loop and its gossip ([src/gateway/reconcile/leader.rs], [src/gateway/gossip/]).

    The loop that turns reconciled views into route tables and certificates, the changes it
    announces, the publisher of digests and the notifier of resources, each as a state and
    the steps of its [select!]. *)

From S2P Require Import Prelude Net Ir Hostname Compile Lookup L4 Sni Watchdog Gateway Listeners Translate Tls Digest.

(** ** Messages ([cluster/gateway_topics.rs]) *)

Record GatewayStateDigest := {
  gd_topic_version : Z;
  gd_state_hash : bytes;
  gd_term : Z;
  gd_node_id : string;
  gd_timestamp : Z;
}.

Record GatewayResourceNotify := {
  rn_topic_version : Z;
  rn_kind : string;
  rn_namespace : string;
  rn_name : string;
  rn_generation : Z;
  rn_timestamp : Z;
}.

(** ** The digest publisher ([digest_publisher.rs]) *)

(** Instants in milliseconds, timestamps in seconds. *)
Definition MIN_PUBLISH_INTERVAL : Z := 1000.
Definition DRIFT_THRESHOLD_SECS : Z := 30.

Inductive DigestEvent :=
| DigestBroadcast (d : GatewayStateDigest)
| ForceReconcile.

Record DigestPublisherHandle := {
  dp_node_id : string;
  dp_term : Z;
  dp_last_publish : Z;
  dp_pending : option GatewayStateDigest;
  dp_peers : gmap string GatewayStateDigest;
}.

Definition DigestPublisher_new (node_id : string) (now : Z) : DigestPublisherHandle :=
  {| dp_node_id := node_id; dp_term := 0; dp_last_publish := now - MIN_PUBLISH_INTERVAL; dp_pending := None; dp_peers := ∅ |}.

Section publisher.
Context `{!Blake3}.

Definition build_digest (h : DigestPublisherHandle) (view : ReconciledView) (now_secs : Z) : GatewayStateDigest :=
  {| gd_topic_version := 1; gd_state_hash := compute_digest view; gd_term := 0; gd_node_id := dp_node_id h;
     gd_timestamp := now_secs |}.

(** [now] is read before the broadcast, [sent] after it. *)
Definition maybe_publish (h : DigestPublisherHandle) (now sent : Z) : DigestPublisherHandle * list DigestEvent :=
  match dp_pending h with
  | None => (h, [])
  | Some d =>
      if Z.max 0 (now - dp_last_publish h) <? MIN_PUBLISH_INTERVAL then (h, [])
      else
        let term := dp_term h + 1 in
        ({| dp_node_id := dp_node_id h; dp_term := term; dp_last_publish := sent; dp_pending := None; dp_peers := dp_peers h |},
         [DigestBroadcast {| gd_topic_version := gd_topic_version d; gd_state_hash := gd_state_hash d; gd_term := term;
                             gd_node_id := gd_node_id d; gd_timestamp := gd_timestamp d |}])
  end.

(** One event for each stale peer; [saturating_sub]. *)
Definition check_drift (h : DigestPublisherHandle) (now_secs : Z) : list DigestEvent :=
  omap (λ e : string * GatewayStateDigest,
          if bool_decide (e.1 = dp_node_id h) then None
          else if DRIFT_THRESHOLD_SECS <? Z.max 0 (now_secs - gd_timestamp e.2) then Some ForceReconcile else None)
    (map_to_list (dp_peers h)).

Inductive PublisherInput :=
| PubView (view : ReconciledView) (now_secs : Z)
| PubPeer (d : GatewayStateDigest)
| PubTick (now sent now_secs : Z).

Definition publisher_step (h : DigestPublisherHandle) (i : PublisherInput) : DigestPublisherHandle * list DigestEvent :=
  match i with
  | PubView view now_secs =>
      ({| dp_node_id := dp_node_id h; dp_term := dp_term h; dp_last_publish := dp_last_publish h;
          dp_pending := Some (build_digest h view now_secs); dp_peers := dp_peers h |}, [])
  | PubPeer d =>
      ({| dp_node_id := dp_node_id h; dp_term := dp_term h; dp_last_publish := dp_last_publish h;
          dp_pending := dp_pending h; dp_peers := <[gd_node_id d := d]> (dp_peers h) |}, [])
  | PubTick now sent now_secs =>
      let '(h', published) := maybe_publish h now sent in (h', published ++ check_drift h' now_secs)
  end.

Definition publisher_run (h : DigestPublisherHandle) (inputs : list PublisherInput) : DigestPublisherHandle :=
  foldl (λ h i, (publisher_step h i).1) h inputs.
End publisher.

(** ** The resource notifier ([resource_notify.rs]) *)

Definition DEBOUNCE_WINDOW : Z := 1000.

Abbreviation ResourceKey := (string * string * string)%type.

Definition ResourceKey_from (n : GatewayResourceNotify) : ResourceKey := (rn_kind n, rn_namespace n, rn_name n).

Inductive NotifyEvent :=
| NotifyBroadcast (n : GatewayResourceNotify)
| TriggerReconcile.

(** The instants of the last peer notifications. *)
Abbreviation NotifierState := (gmap ResourceKey Z).

Definition within_window (now t : Z) : bool := Z.max 0 (now - t) <? DEBOUNCE_WINDOW.

Definition handle_local (m : NotifierState) (notify : GatewayResourceNotify) (now : Z) : list NotifyEvent :=
  NotifyBroadcast notify ::
  if match m !! ResourceKey_from notify with Some t => within_window now t | None => false end then [] else [TriggerReconcile].

Definition handle_peer (m : NotifierState) (notify : GatewayResourceNotify) (now : Z) : NotifierState * list NotifyEvent :=
  (<[ResourceKey_from notify := now]> m, [TriggerReconcile]).

(** The tick. *)
Definition notifier_retain (m : NotifierState) (now : Z) : NotifierState := filter (λ e, within_window now e.2 = true) m.

Inductive NotifierInput :=
| NtLocal (n : GatewayResourceNotify) (now : Z)
| NtPeer (n : GatewayResourceNotify) (now : Z)
| NtTick (now : Z).

Definition notifier_step (m : NotifierState) (i : NotifierInput) : NotifierState * list NotifyEvent :=
  match i with
  | NtLocal n now => (m, handle_local m n now)
  | NtPeer n now => handle_peer m n now
  | NtTick now => (notifier_retain m now, [])
  end.

(** ** Changed resources *)

(** One loop of [diff_view]: the resources of a kind that the old view does not list under
    the same name and generation. *)
Definition diff_kind {A} (kind : string) (ns name : A → string) (generation : A → Z) (old : option (list A)) (new : list A)
    (now : Z) : list GatewayResourceNotify :=
  omap (λ r, if match old with
               | None => true
               | Some o => negb (existsb (λ r', bool_decide (ns r' = ns r) && bool_decide (name r' = name r)
                                                && bool_decide (generation r' = generation r)) o)
               end
             then Some {| rn_topic_version := 1; rn_kind := kind; rn_namespace := ns r; rn_name := name r;
                          rn_generation := generation r; rn_timestamp := now |}
             else None) new.

Definition diff_view (old : option ReconciledView) (new : ReconciledView) (now : Z) : list GatewayResourceNotify :=
  diff_kind "Gateway" gs_namespace gs_name gs_generation (gateways <$> old) (gateways new) now ++
  diff_kind "HTTPRoute" hrs_namespace hrs_name hrs_generation (http_route_states <$> old) (http_route_states new) now ++
  diff_kind "GRPCRoute" grs_namespace grs_name grs_generation (grpc_route_states <$> old) (grpc_route_states new) now ++
  diff_kind "TCPRoute" trs_namespace trs_name trs_generation (tcp_route_states <$> old) (tcp_route_states new) now ++
  diff_kind "UDPRoute" urs_namespace urs_name urs_generation (udp_route_states <$> old) (udp_route_states new) now ++
  diff_kind "TLSRoute" lrs_namespace lrs_name lrs_generation (tls_route_states <$> old) (tls_route_states new) now ++
  diff_kind "ReferenceGrant" rg_namespace rg_name rg_generation (reference_grants <$> old) (reference_grants new) now ++
  diff_kind "BackendTLSPolicy" bp_namespace bp_name bp_generation (backend_tls_policies <$> old) (backend_tls_policies new) now.

(** The Gateways, routes, grants and policies a view knows, by kind, name and generation; what a
    notification is about. Listener sets are of no notification and not among them. *)
Definition kind_resources {A} (kind : string) (ns name : A → string) (generation : A → Z) (l : list A) :
    list (string * string * string * Z) :=
  (λ r, (kind, ns r, name r, generation r)) <$> l.

Definition announced_resources (v : ReconciledView) : list (string * string * string * Z) :=
  kind_resources "Gateway" gs_namespace gs_name gs_generation (gateways v) ++
  kind_resources "HTTPRoute" hrs_namespace hrs_name hrs_generation (http_route_states v) ++
  kind_resources "GRPCRoute" grs_namespace grs_name grs_generation (grpc_route_states v) ++
  kind_resources "TCPRoute" trs_namespace trs_name trs_generation (tcp_route_states v) ++
  kind_resources "UDPRoute" urs_namespace urs_name urs_generation (udp_route_states v) ++
  kind_resources "TLSRoute" lrs_namespace lrs_name lrs_generation (tls_route_states v) ++
  kind_resources "ReferenceGrant" rg_namespace rg_name rg_generation (reference_grants v) ++
  kind_resources "BackendTLSPolicy" bp_namespace bp_name bp_generation (backend_tls_policies v).

Definition announced (n : GatewayResourceNotify) : string * string * string * Z :=
  (rn_kind n, rn_namespace n, rn_name n, rn_generation n).

Lemma kind_resources_kind {A} kind (ns name : A → string) generation l k x y g :
  (k, x, y, g) ∈ kind_resources kind ns name generation l → k = kind.
Proof. unfold kind_resources. rewrite list_elem_of_fmap. naive_solver. Qed.

Lemma elem_of_diff_kind {A} kind (ns name : A → string) generation old new now n :
  n ∈ diff_kind kind ns name generation old new now ↔
  rn_topic_version n = 1 ∧ rn_timestamp n = now ∧ announced n ∈ kind_resources kind ns name generation new ∧
  ∀ o, old = Some o → announced n ∉ kind_resources kind ns name generation o.
Proof.
  unfold diff_kind, kind_resources, announced. rewrite list_elem_of_omap. split.
  - intros (r & Hr & Hif). case_match eqn:Hc; [|discriminate]. injection Hif as <-. cbn. split_and!; [done..| |].
    + apply list_elem_of_fmap. eauto.
    + intros o ->. rewrite list_elem_of_fmap. intros (r' & [= Hx Hy Hz] & Hr').
      apply negb_true_iff, not_true_iff_false in Hc. apply Hc, existsb_exists. exists r'. rewrite <- list_elem_of_In.
      by rewrite !bool_decide_true by done.
  - intros (Hv & Ht & (r & [= Hk Hns Hname Hg] & Hr)%list_elem_of_fmap & Hold). exists r. split; [done|].
    destruct n as [v k x y g t]. cbn in *. subst.
    assert (∀ b : bool, b = true → (if b then Some (Build_GatewayResourceNotify 1 kind (ns r) (name r) (generation r) now) else None)
                                   = Some (Build_GatewayResourceNotify 1 kind (ns r) (name r) (generation r) now)) as Hif
      by (by intros ? ->).
    apply Hif. destruct old as [o|]; [|done]. apply negb_true_iff, not_true_iff_false. intros (r' & Hr' & Hc)%existsb_exists.
    simp_bool. apply (Hold o eq_refl), list_elem_of_fmap. exists r'. rewrite list_elem_of_In. split; [congruence|done].
Qed.

(** The resources of one kind among those of the view. *)
Lemma diff_kind_among {A} kind (ns name : A → string) generation (sel : ReconciledView → list A) old new now n :
  (∀ v x y g, (kind, x, y, g) ∈ announced_resources v ↔ (kind, x, y, g) ∈ kind_resources kind ns name generation (sel v)) →
  n ∈ diff_kind kind ns name generation (sel <$> old) (sel new) now ↔
  rn_kind n = kind ∧ rn_topic_version n = 1 ∧ rn_timestamp n = now ∧ announced n ∈ announced_resources new ∧
  ∀ o, old = Some o → announced n ∉ announced_resources o.
Proof.
  intros Hall. rewrite elem_of_diff_kind. unfold announced. split.
  - intros (Hv & Ht & Hn & Hold). pose proof (kind_resources_kind _ _ _ _ _ _ _ _ _ Hn) as Hk. rewrite Hk in *.
    split_and!; [done..|by apply Hall|]. intros o -> Ho%Hall. by eapply Hold.
  - intros (-> & Hv & Ht & Hn%Hall & Hold). split_and!; [done..|].
    intros o (o' & -> & ->)%fmap_Some Ho%Hall. by apply (Hold o' eq_refl).
Qed.

Lemma resources_kind v r : r ∈ announced_resources v →
  r.1.1.1 ∈ ["Gateway"; "HTTPRoute"; "GRPCRoute"; "TCPRoute"; "UDPRoute"; "TLSRoute"; "ReferenceGrant"; "BackendTLSPolicy"].
Proof.
  destruct r as [[[k x] y] g]. unfold announced_resources. rewrite !elem_of_app. intros Hr.
  destruct_or! Hr; apply kind_resources_kind in Hr as ->; cbn; set_solver.
Qed.

(** The changes that are announced are exactly the resources of the new view that the old
    one does not have at the same generation; what disappears is not announced. *)
Lemma elem_of_diff_view old new now n :
  n ∈ diff_view old new now ↔
  rn_topic_version n = 1 ∧ rn_timestamp n = now ∧ announced n ∈ announced_resources new ∧
  ∀ o, old = Some o → announced n ∉ announced_resources o.
Proof.
  unfold diff_view. rewrite !elem_of_app, !diff_kind_among.
  2-9: intros v x y g; unfold announced_resources; rewrite !elem_of_app; split; [|tauto]; intros Hr; destruct_or! Hr;
       first [exact Hr | by apply kind_resources_kind in Hr].
  split; [tauto|]. intros (Hv & Ht & Hn & Hold). pose proof (resources_kind _ _ Hn) as Hk. cbn in Hk.
  rewrite !elem_of_cons, elem_of_nil in Hk. tauto.
Qed.

(** ** The loop *)

#[export] Instance GatewayState_eq_dec : EqDecision GatewayState.
Proof. solve_decision. Defined.
#[export] Instance ParentRef_eq_dec : EqDecision ParentRef.
Proof. solve_decision. Defined.
#[export] Instance RouteGroupKind_eq_dec : EqDecision RouteGroupKind.
Proof. solve_decision. Defined.
#[export] Instance NamespaceFrom_eq_dec : EqDecision NamespaceFrom.
Proof. solve_decision. Defined.
#[export] Instance RouteNamespaces_eq_dec : EqDecision RouteNamespaces.
Proof. solve_decision. Defined.
#[export] Instance AllowedRoutes_eq_dec : EqDecision AllowedRoutes.
Proof. solve_decision. Defined.
#[export] Instance ListenerSetState_eq_dec : EqDecision ListenerSetState.
Proof. solve_decision. Defined.
#[export] Instance GrantSubject_eq_dec : EqDecision GrantSubject.
Proof. solve_decision. Defined.
#[export] Instance ReferenceGrantState_eq_dec : EqDecision ReferenceGrantState.
Proof. solve_decision. Defined.
#[export] Instance RouteState_eq_dec : EqDecision RouteState.
Proof. solve_decision. Defined.
#[export] Instance GwPathMatch_eq_dec : EqDecision GwPathMatch.
Proof. solve_decision. Defined.
#[export] Instance GwHeaderMatchValue_eq_dec : EqDecision GwHeaderMatchValue.
Proof. solve_decision. Defined.
#[export] Instance GwHeaderMatch_eq_dec : EqDecision GwHeaderMatch.
Proof. solve_decision. Defined.
#[export] Instance GwQueryParamMatchValue_eq_dec : EqDecision GwQueryParamMatchValue.
Proof. solve_decision. Defined.
#[export] Instance GwQueryParamMatch_eq_dec : EqDecision GwQueryParamMatch.
Proof. solve_decision. Defined.
#[export] Instance RouteMatch_eq_dec : EqDecision RouteMatch.
Proof. solve_decision. Defined.
#[export] Instance BackendTlsAttachment_eq_dec : EqDecision BackendTlsAttachment.
Proof. solve_decision. Defined.
#[export] Instance GwFraction_eq_dec : EqDecision GwFraction.
Proof. solve_decision. Defined.
#[export] Instance GwPathRewrite_eq_dec : EqDecision GwPathRewrite.
Proof. solve_decision. Defined.
#[export] Instance RouteFilter_eq_dec : EqDecision RouteFilter.
Proof. solve_decision. Defined.
#[export] Instance GwWeightedBackend_eq_dec : EqDecision GwWeightedBackend.
Proof. solve_decision. Defined.
#[export] Instance HTTPRouteRule_eq_dec : EqDecision HTTPRouteRule.
Proof. solve_decision. Defined.
#[export] Instance HTTPRouteState_eq_dec : EqDecision HTTPRouteState.
Proof. solve_decision. Defined.
#[export] Instance TCPRouteState_eq_dec : EqDecision TCPRouteState.
Proof. solve_decision. Defined.
#[export] Instance UDPRouteState_eq_dec : EqDecision UDPRouteState.
Proof. solve_decision. Defined.
#[export] Instance TLSRouteState_eq_dec : EqDecision TLSRouteState.
Proof. solve_decision. Defined.
#[export] Instance MethodMatchType_eq_dec : EqDecision MethodMatchType.
Proof. solve_decision. Defined.
#[export] Instance MethodMatch_eq_dec : EqDecision MethodMatch.
Proof. solve_decision. Defined.
#[export] Instance GRPCRouteMatch_eq_dec : EqDecision GRPCRouteMatch.
Proof. solve_decision. Defined.
#[export] Instance GRPCRouteRule_eq_dec : EqDecision GRPCRouteRule.
Proof. solve_decision. Defined.
#[export] Instance GRPCRouteState_eq_dec : EqDecision GRPCRouteState.
Proof. solve_decision. Defined.
#[export] Instance ServiceTargetRef_eq_dec : EqDecision ServiceTargetRef.
Proof. solve_decision. Defined.
#[export] Instance CaCertificateRef_eq_dec : EqDecision CaCertificateRef.
Proof. solve_decision. Defined.
#[export] Instance SubjectAltName_eq_dec : EqDecision SubjectAltName.
Proof. solve_decision. Defined.
#[export] Instance BackendTLSPolicyState_eq_dec : EqDecision BackendTLSPolicyState.
Proof. solve_decision. Defined.
#[export] Instance ReconciledView_eq_dec : EqDecision ReconciledView.
Proof. solve_decision. Defined.

Section loop.
Context {K C : Type}.

(** The variables of [run_reconcile_loop] and the stores it refreshes: [lp_holds] is
    [token.is_some()], [lp_routes] what was sent on [routes_tx], [lp_published] and
    [lp_notified] what was handed to the publisher and to the notifier. *)
Record LoopState := {
  lp_holds : bool;
  lp_is_leader : bool;
  lp_prev_view : option ReconciledView;
  lp_routes : list RouteTable;
  lp_published : list ReconciledView;
  lp_notified : list GatewayResourceNotify;
  lp_gateway_store : CertStore K C;
  lp_disk_store : CertStore K C;
  lp_registry : CertStore K C;
}.

(** The start, with the stores of [main]. *)
Definition LoopState_new (e : Election) (disk gateway registry : CertStore K C) : LoopState :=
  {| lp_holds := false; lp_is_leader := bool_decide (el_state e = Leader); lp_prev_view := None; lp_routes := [];
     lp_published := []; lp_notified := []; lp_gateway_store := gateway; lp_disk_store := disk; lp_registry := registry |}.

Definition with_leadership (holds leader : bool) (st : LoopState) : LoopState :=
  {| lp_holds := holds; lp_is_leader := leader; lp_prev_view := lp_prev_view st; lp_routes := lp_routes st;
     lp_published := lp_published st; lp_notified := lp_notified st; lp_gateway_store := lp_gateway_store st; lp_disk_store := lp_disk_store st; lp_registry := lp_registry st |}.

(** The transitions of the token. *)
Definition token_transition (e : Election) (st : LoopState) : Election * LoopState :=
  match el_state e, lp_holds st with
  | Leader, false =>
      match token e with
      | Some e' => (e', with_leadership true true st)
      | None => (e, with_leadership false (lp_is_leader st) st)
      end
  | NotLeader, true => (drop_token e, with_leadership false false st)
  | _, _ => (e, st)
  end.

Definition lead (e : Election) (st : LoopState) : Election * LoopState :=
  let '(e, st) := token_transition e st in
  if lp_holds st && negb (el_token_valid e) then (drop_token e, with_leadership false false st) else (e, st).

(** What one iteration reads: the view of the tick, if it succeeds; the certificates the
    references of the view resolve to, if they can be fetched; the certificate on disk; the
    clock. *)
Record LoopInput := {
  li_view : option ReconciledView;
  li_gateway : option (CertStore K C);
  li_disk : CertStore K C;
  li_now : Z;
}.

Definition reconcile (i : LoopInput) (st : LoopState) : LoopState :=
  match li_view i with
  | None => st
  | Some view =>
      let view_changed := negb (bool_decide (lp_prev_view st = Some view)) in
      let gateway := if view_changed then default (lp_gateway_store st) (li_gateway i) else lp_gateway_store st in
      {| lp_holds := lp_holds st; lp_is_leader := lp_is_leader st; lp_prev_view := Some view;
         lp_routes := lp_routes st ++ (if view_changed then [translate_view_to_ir view] else []);
         lp_published := lp_published st ++ [view];
         lp_notified := lp_notified st ++ diff_view (lp_prev_view st) view (li_now i);
         lp_gateway_store := gateway;
         lp_disk_store := if view_changed then li_disk i else lp_disk_store st;
         lp_registry := if view_changed then merge_cert_store (li_disk i) gateway else lp_registry st |}
  end.

(** An iteration of the loop, or a round of the election between two. *)
Inductive LoopEvent :=
| EvRenew (ok : bool)
| EvTick (i : LoopInput).

Definition loop_step (s : Election * LoopState) (ev : LoopEvent) : Election * LoopState :=
  match ev with
  | EvRenew ok => (handle_patch_result ok s.1, s.2)
  | EvTick i => let '(e, st) := lead s.1 s.2 in (e, reconcile i st)
  end.

Definition loop_run (s : Election * LoopState) (evs : list LoopEvent) : Election * LoopState := foldl loop_step s evs.

(** The views that were reconciled. *)
Definition views (evs : list LoopEvent) : list ReconciledView :=
  omap (λ ev, match ev with EvTick i => li_view i | EvRenew _ => None end) evs.

(** *** Leadership *)

Record leadership_inv (s : Election * LoopState) : Prop := {
  li_state : el_state s.1 = Leader ↔ el_is_leader s.1 = true;
  li_holds : lp_is_leader s.2 = lp_holds s.2;
  li_valid : el_state s.1 = Leader → lp_holds s.2 = true → el_token_valid s.1 = true;
}.

Lemma reconcile_leadership i st : lp_holds (reconcile i st) = lp_holds st ∧ lp_is_leader (reconcile i st) = lp_is_leader st.
Proof. unfold reconcile. by destruct (li_view i). Qed.

Lemma lead_inv s : leadership_inv s →
  leadership_inv (lead s.1 s.2) ∧ (lp_is_leader (lead s.1 s.2).2 = true ↔ el_state (lead s.1 s.2).1 = Leader).
Proof.
  destruct s as [[id il es tv] [h l pv rt pb nt gs ds rg]]. intros [H1 H2 H3]. cbn in *. subst l.
  destruct es, h; cbn; [rewrite (H3 eq_refl eq_refl); cbn|..]; (split; [split; cbn|]); naive_solver.
Qed.

Lemma loop_step_inv s ev : leadership_inv s → leadership_inv (loop_step s ev).
Proof.
  intros Hi. destruct ev as [ok|i]; cbn [loop_step].
  - destruct s as [[id il es tv] [h l pv rt pb nt gs ds rg]], Hi as [H1 H2 H3]. cbn in *.
    destruct ok, il; (split; cbn); naive_solver.
  - destruct (lead_inv s Hi) as [[H1 H2 H3] _]. destruct (lead s.1 s.2) as [e st]. cbn [fst snd] in *.
    destruct (reconcile_leadership i st) as [Hr1 Hr2]. split; cbn; rewrite ?Hr1, ?Hr2; auto.
Qed.

(** *** Routes and certificates *)

(** The variables that leadership leaves alone. *)
Definition data (st : LoopState) :=
  (lp_prev_view st, lp_routes st, lp_published st, lp_notified st, lp_gateway_store st, lp_registry st).

Lemma lead_data e st : data (lead e st).2 = data st.
Proof.
  unfold lead, token_transition, token. destruct (el_state e), (lp_holds st) eqn:Hh; cbn; rewrite ?Hh; cbn; [|done..].
  by destruct (el_token_valid e).
Qed.

(** What was handed on, given the views that were reconciled. *)
Record handed_on (st : LoopState) (vs : list ReconciledView) : Prop := {
  ho_prev : lp_prev_view st = last vs;
  ho_routes : last (lp_routes st) = translate_view_to_ir <$> last vs;
  ho_published : lp_published st = vs;
  ho_notified view r : last vs = Some view → r ∈ announced_resources view → ∃ n, n ∈ lp_notified st ∧ announced n = r;
}.

Lemma reconcile_handed_on i st vs view : li_view i = Some view → handed_on st vs → handed_on (reconcile i st) (vs ++ [view]).
Proof.
  intros Hi [Hp Hr Hd Hn]. unfold reconcile. rewrite Hi. split; cbn; rewrite ?last_snoc; [done|..].
  - case_bool_decide as Hv; cbn; [|by rewrite last_snoc]. by rewrite app_nil_r, Hr, <- Hp, Hv.
  - by rewrite Hd.
  - intros view' r [= <-] Hin. setoid_rewrite elem_of_app.
    destruct (decide (r ∈ from_option announced_resources [] (lp_prev_view st))) as [Hro|Hno].
    + destruct (lp_prev_view st) as [o|]; [|by apply not_elem_of_nil in Hro].
      destruct (Hn o r) as (n & Hn1 & Hn2); [done..|]. eauto.
    + destruct r as [[[k ns] name] g]. exists (Build_GatewayResourceNotify 1 k ns name g (li_now i)). split; [right|done].
      apply elem_of_diff_view. split_and!; [done..|]. intros o Ho. by rewrite Ho in Hno.
Qed.

Lemma data_handed_on st st' vs : data st = data st' → handed_on st vs → handed_on st' vs.
Proof. intros [= D1 D2 D3 D4 _ _] [Hp Hr Hd Hn]. split; [congruence..|by rewrite <- D4]. Qed.

Lemma loop_run_inv s evs : leadership_inv s → handed_on s.2 [] →
  leadership_inv (loop_run s evs) ∧ handed_on (loop_run s evs).2 (views evs).
Proof.
  intros Hl Hh. induction evs as [|ev evs [IH1 IH2]] using rev_ind; [done|].
  unfold loop_run, views in *. rewrite foldl_app, omap_app. cbn [foldl]. split; [by apply loop_step_inv|].
  set (s' := foldl loop_step s evs) in *. destruct ev as [ok|i]; cbn; [by rewrite app_nil_r|].
  pose proof (data_handed_on _ _ _ (eq_sym (lead_data s'.1 s'.2)) IH2) as Hh'. destruct (lead _ _) as [e st]. cbn [snd] in *.
  destruct (li_view i) as [v|] eqn:Hi; [by apply reconcile_handed_on|]. unfold reconcile. by rewrite Hi, app_nil_r.
Qed.

(** C18. What the loop hands on. After any iterations and any turns of the election between
    them, started without leadership: the previous view is the last one that was reconciled;
    the last table sent to the proxy is its translation; the publisher was handed every view,
    in order; and each Gateway, route, ReferenceGrant and BackendTLSPolicy of the view (the
    ListenerSets are not among them) was handed to the local notifier at its generation. An
    iteration ends with status writes enabled exactly when this replica leads, and sends
    nothing to the proxy when the view has not changed. *)
Theorem loop_hands_on_last_view identity disk gateway registry evs :
  let s := loop_run (Election_new identity, LoopState_new (Election_new identity) disk gateway registry) evs in
  lp_prev_view s.2 = last (views evs) ∧
  last (lp_routes s.2) = translate_view_to_ir <$> last (views evs) ∧
  lp_published s.2 = views evs ∧
  (∀ view r, last (views evs) = Some view → r ∈ announced_resources view → ∃ n, n ∈ lp_notified s.2 ∧ announced n = r) ∧
  (∀ i, let s' := loop_step s (EvTick i) in
        (lp_is_leader s'.2 = true ↔ el_state s'.1 = Leader) ∧
        (li_view i = lp_prev_view s.2 → lp_routes s'.2 = lp_routes s.2)).
Proof.
  cbv zeta. set (s0 := (Election_new identity, LoopState_new (Election_new identity) disk gateway registry)).
  assert (leadership_inv (loop_run s0 evs) ∧ handed_on (loop_run s0 evs).2 (views evs)) as [Hinv [Hp Hr Hd Hn]].
  { apply loop_run_inv; [by split|]. split; [done..|]. discriminate. }
  split_and!; [done..|]. intros i. destruct (lead_inv _ Hinv) as [_ Hlead].
  pose proof (lead_data (loop_run s0 evs).1 (loop_run s0 evs).2) as Heq. unfold data in Heq.
  cbn [loop_step]. destruct (lead _ _) as [e st]. cbn [fst snd] in *. injection Heq as D1 D2 _ _ _ _.
  destruct (reconcile_leadership i st) as [_ ->]. split; [exact Hlead|]. intros Hi. unfold reconcile. rewrite Hi, <- D1, <- D2.
  destruct (lp_prev_view st); [|done]. cbn. by rewrite bool_decide_true, app_nil_r.
Qed.

(** The certificates are refreshed with the view: an iteration that reconciles the view of
    the one before leaves them, whatever the references resolve to by then. *)
Theorem unchanged_view_keeps_certificates e st i :
  is_Some (li_view i) → lp_prev_view st = li_view i → lp_registry (loop_step (e, st) (EvTick i)).2 = lp_registry st.
Proof.
  intros [view Hi] Hv. pose proof (lead_data e st) as Heq. cbn [loop_step fst snd]. destruct (lead e st) as [e' st'].
  cbn [snd] in *. injection Heq as D1 _ _ _ _ D6. unfold reconcile. rewrite Hi in *. cbn. by rewrite bool_decide_true by congruence.
Qed.

(** A changed view brings the certificates of the moment; without those of the cluster, the
    ones fetched before. *)
Theorem changed_view_refreshes_certificates e st i :
  is_Some (li_view i) → lp_prev_view st ≠ li_view i →
  lp_registry (loop_step (e, st) (EvTick i)).2 = merge_cert_store (li_disk i) (default (lp_gateway_store st) (li_gateway i)).
Proof.
  intros [view Hi] Hv. pose proof (lead_data e st) as Heq. cbn [loop_step fst snd]. destruct (lead e st) as [e' st'].
  cbn [snd] in *. injection Heq as D1 _ _ _ D5 _. unfold reconcile. rewrite Hi in *. cbn.
  rewrite bool_decide_false by congruence. cbn. by rewrite D5.
Qed.
End loop.

(** ** The gossip tasks *)

Section gossip.
Context `{!Blake3}.

(** The views handed to the publisher, and its broadcasts with the instants around them. *)
Definition published_views (inputs : list PublisherInput) : list ReconciledView :=
  omap (λ i, match i with PubView v _ => Some v | _ => None end) inputs.

Definition step_broadcasts (h : DigestPublisherHandle) (i : PublisherInput) : list (Z * Z * GatewayStateDigest) :=
  match i with
  | PubTick now sent _ =>
      omap (λ e, match e with DigestBroadcast d => Some (now, sent, d) | ForceReconcile => None end) (publisher_step h i).2
  | _ => []
  end.

Fixpoint broadcasts (h : DigestPublisherHandle) (inputs : list PublisherInput) : list (Z * Z * GatewayStateDigest) :=
  match inputs with
  | [] => []
  | i :: inputs => step_broadcasts h i ++ broadcasts (publisher_step h i).1 inputs
  end.

Lemma broadcasts_snoc h inputs i :
  broadcasts h (inputs ++ [i]) = broadcasts h inputs ++ step_broadcasts (publisher_run h inputs) i.
Proof.
  revert h. induction inputs as [|j inputs IH]; intros h; cbn [app broadcasts]; [by rewrite app_nil_r|].
  rewrite IH, <- app_assoc. done.
Qed.

Lemma step_broadcasts_tick h now sent secs :
  step_broadcasts h (PubTick now sent secs) =
  match dp_pending h with
  | Some d => if Z.max 0 (now - dp_last_publish h) <? MIN_PUBLISH_INTERVAL then []
              else [(now, sent, {| gd_topic_version := gd_topic_version d; gd_state_hash := gd_state_hash d;
                                   gd_term := dp_term h + 1; gd_node_id := gd_node_id d; gd_timestamp := gd_timestamp d |})]
  | None => []
  end.
Proof.
  assert (∀ h' s, omap (λ e, match e with DigestBroadcast d => Some (now, sent, d) | ForceReconcile => None end)
                    (check_drift h' s) = []) as Hdrift.
  { intros h' s. unfold check_drift. induction (map_to_list (dp_peers h')) as [|[k d] l IH]; [done|]. cbn.
    destruct (bool_decide _); [|destruct (_ <? _)]; cbn; exact IH. }
  cbn. unfold maybe_publish. destruct (dp_pending h); [destruct (_ <? _)|]; cbn; by rewrite Hdrift.
Qed.

(** Broadcasts that keep their distance: each starts a second after the one before ended. *)
Definition paced (l : list (Z * Z * GatewayStateDigest)) : Prop :=
  ∀ j b b', l !! j = Some b → l !! S j = Some b' → MIN_PUBLISH_INTERVAL ≤ b'.1.1 - b.1.2.

Lemma paced_snoc l b : paced l → (∀ b', last l = Some b' → MIN_PUBLISH_INTERVAL ≤ b.1.1 - b'.1.2) → paced (l ++ [b]).
Proof.
  intros Hl Hb j b1 b2 H1 H2. apply lookup_app_Some in H2 as [H2|[Hlen H2]].
  - apply (Hl j); [|done]. apply lookup_lt_Some in H2. rewrite lookup_app_l in H1 by lia. done.
  - apply list_lookup_singleton_Some in H2 as [Hj <-]. apply Hb. rewrite last_lookup, <- H1, lookup_app_l by lia. f_equal. lia.
Qed.

Record publisher_inv (h : DigestPublisherHandle) (vs : list ReconciledView) (bs : list (Z * Z * GatewayStateDigest)) : Prop := {
  pi_terms : (λ b, gd_term b.2) <$> bs = seqZ 1 (dp_term h);
  pi_paced : paced bs;
  pi_last b : last bs = Some b → b.1.2 = dp_last_publish h;
  pi_view : compute_digest <$> last vs =
            from_option (λ d, Some (gd_state_hash d)) ((λ b, gd_state_hash b.2) <$> last bs) (dp_pending h);
}.

Lemma publisher_step_inv h vs bs i : 0 ≤ dp_term h → publisher_inv h vs bs →
  0 ≤ dp_term (publisher_step h i).1 ∧
  publisher_inv (publisher_step h i).1 (vs ++ published_views [i]) (bs ++ step_broadcasts h i).
Proof.
  intros H0 [Ht Hp Hl Hv]. destruct i as [v secs|d|now sent secs].
  - cbn. rewrite app_nil_r. split; [done|]. split; cbn; [done..|]. by rewrite last_snoc.
  - cbn. rewrite !app_nil_r. by split; [|split].
  - rewrite step_broadcasts_tick. cbn. rewrite app_nil_r. unfold maybe_publish.
    destruct (dp_pending h) as [d|] eqn:Hd; [|cbn; rewrite app_nil_r; split; [done|by split; rewrite ?Hd]].
    destruct (_ <? _) eqn:Hlt; [cbn; rewrite app_nil_r; split; [done|by split; rewrite ?Hd]|].
    apply Z.ltb_ge in Hlt. cbn. split; [lia|]. split; cbn.
    + rewrite fmap_app, Ht. cbn. rewrite seqZ_app by lia. f_equal. by rewrite Z.add_comm.
    + apply paced_snoc; [done|]. intros b Hb. cbn. rewrite (Hl b Hb). unfold MIN_PUBLISH_INTERVAL in *. lia.
    + intros b. rewrite last_snoc. by intros [= <-].
    + by rewrite last_snoc, Hv.
Qed.

Lemma publisher_run_inv node_id start inputs :
  let h := publisher_run (DigestPublisher_new node_id start) inputs in
  0 ≤ dp_term h ∧ publisher_inv h (published_views inputs) (broadcasts (DigestPublisher_new node_id start) inputs).
Proof.
  induction inputs as [|i inputs [IH0 IH]] using rev_ind; [by repeat split|].
  cbv zeta. rewrite broadcasts_snoc. unfold published_views, publisher_run in *. rewrite omap_app, foldl_app.
  by apply publisher_step_inv.
Qed.

(** The publisher over any inputs: the broadcasts are numbered from one without gaps,
    each starts at least a second after the one before, and a second after the last one a
    tick brings the peers up to date: the last broadcast is then the digest of the last view. *)
Theorem publisher_up_to_date node_id start inputs :
  let h := DigestPublisher_new node_id start in
  let bs := broadcasts h inputs in
  (λ b, gd_term b.2) <$> bs = seqZ 1 (Z.of_nat (length bs)) ∧ paced bs ∧
  ∀ now sent secs, dp_last_publish (publisher_run h inputs) + MIN_PUBLISH_INTERVAL ≤ now →
    (λ b, gd_state_hash b.2) <$> last (broadcasts h (inputs ++ [PubTick now sent secs])) =
    compute_digest <$> last (published_views inputs).
Proof.
  cbv zeta. destruct (publisher_run_inv node_id start inputs) as [H0 [Ht Hp Hl Hv]]. split_and!; [|done|].
  - rewrite Ht. f_equal. apply (f_equal length) in Ht. rewrite length_fmap, length_seqZ in Ht. lia.
  - intros now sent secs Hnow. rewrite broadcasts_snoc, step_broadcasts_tick, Hv.
    destruct (dp_pending _) as [d|]; cbn; [|by rewrite app_nil_r].
    destruct (Z.ltb_spec (Z.max 0 (now - dp_last_publish (publisher_run (DigestPublisher_new node_id start) inputs)))
                MIN_PUBLISH_INTERVAL); [unfold MIN_PUBLISH_INTERVAL in *; lia|]. by rewrite last_snoc.
Qed.
End gossip.

(** *** The notifier *)

Definition notifier_run (inputs : list NotifierInput) : NotifierState := foldl (λ m i, (notifier_step m i).1) ∅ inputs.

Definition input_time (i : NotifierInput) : Z := match i with NtLocal _ t | NtPeer _ t | NtTick t => t end.

(** A peer spoke of the resource, less than the window before [now]. *)
Definition peer_spoke (inputs : list NotifierInput) (key : ResourceKey) (now : Z) : Prop :=
  ∃ n t, NtPeer n t ∈ inputs ∧ ResourceKey_from n = key ∧ now - t < DEBOUNCE_WINDOW.

Lemma within_window_spec now t : within_window now t = true ↔ now - t < DEBOUNCE_WINDOW.
Proof. unfold within_window, DEBOUNCE_WINDOW. rewrite Z.ltb_lt. lia. Qed.

Lemma notifier_run_peer inputs key t :
  notifier_run inputs !! key = Some t → ∃ n, NtPeer n t ∈ inputs.
Proof.
  induction inputs as [|i inputs IH] using rev_ind; [done|]. unfold notifier_run. rewrite foldl_app. fold (notifier_run inputs).
  setoid_rewrite elem_of_app. destruct i as [n t'|n t'|t']; cbn.
  - naive_solver.
  - rewrite lookup_insert_Some. set_solver.
  - unfold notifier_retain. rewrite map_lookup_filter_Some. naive_solver.
Qed.

(** The inputs, in the order of time. *)
Abbreviation in_order := (StronglySorted (λ i j, input_time i ≤ input_time j)).

(** The map holds the last word of the peers, as far as it still counts. *)
Lemma notifier_run_lookup inputs key now :
  in_order inputs → (∀ i, i ∈ inputs → input_time i ≤ now) →
  (∃ t, notifier_run inputs !! key = Some t ∧ now - t < DEBOUNCE_WINDOW) ↔ peer_spoke inputs key now.
Proof.
  revert now. induction inputs as [|i inputs IH] using rev_ind; intros now Hmono Hnow.
  { unfold peer_spoke. split; [by intros (t & [=] & _)|]. by intros (n & t & []%not_elem_of_nil & _). }
  assert (∀ i', i' ∈ inputs → input_time i' ≤ input_time i) as Hlast.
  { intros i' Hi'. apply (proj1 (proj1 (StronglySorted_app _ _ _) Hmono)); [done|by apply list_elem_of_singleton]. }
  assert (input_time i ≤ now) as Hi by (apply Hnow; set_solver).
  assert (peer_spoke (inputs ++ [i]) key now ↔
          peer_spoke inputs key now ∨ ∃ n t, i = NtPeer n t ∧ ResourceKey_from n = key ∧ now - t < DEBOUNCE_WINDOW) as ->.
  { unfold peer_spoke. setoid_rewrite elem_of_app. setoid_rewrite list_elem_of_singleton. naive_solver. }
  rewrite <- (IH now); [|by eapply StronglySorted_app_1_l|intros i' Hi'; specialize (Hlast i' Hi'); lia].
  unfold notifier_run. rewrite foldl_app. fold (notifier_run inputs). destruct i as [n t|n t|t]; cbn in *.
  - naive_solver.
  - destruct (decide (ResourceKey_from n = key)) as [<-|Hne].
    + setoid_rewrite lookup_insert_eq. split; [naive_solver|].
      intros [(t' & Ht' & Hw)|(n' & t' & [= <- <-] & _ & Hw)]; [|naive_solver].
      apply notifier_run_peer in Ht' as (n' & Hin). specialize (Hlast _ Hin). cbn in Hlast. exists t. split; [done|lia].
    + setoid_rewrite lookup_insert_ne; [|done]. naive_solver.
  - unfold notifier_retain. setoid_rewrite map_lookup_filter_Some. setoid_rewrite within_window_spec. cbn.
    split; [naive_solver|]. intros [(t' & Ht' & Hw)|?]; [|naive_solver]. exists t'. split; [split; [done|lia]|done].
Qed.

(** A local change is always told to the peers, and asks for a reconcile unless a peer spoke
    of the same resource within the last second. *)
Theorem local_change_debounced inputs n now :
  in_order inputs → (∀ i, i ∈ inputs → input_time i ≤ now) →
  NotifyBroadcast n ∈ handle_local (notifier_run inputs) n now ∧
  (TriggerReconcile ∈ handle_local (notifier_run inputs) n now ↔ ¬ peer_spoke inputs (ResourceKey_from n) now).
Proof.
  intros Hmono Hnow. rewrite <- notifier_run_lookup by done. unfold handle_local. split; [left|].
  rewrite elem_of_cons. destruct (notifier_run inputs !! ResourceKey_from n) as [t|]; [|set_solver].
  destruct (within_window now t) eqn:Hw.
  - apply within_window_spec in Hw. set_solver.
  - apply not_true_iff_false in Hw. rewrite within_window_spec in Hw. set_solver.
Qed.

Module LeaderExamples.
Import DigestExamples.
#[local] Instance no_hash : Blake3 := id.

Definition store : CertStore nat nat := {| cs_default := None; cs_exact := ∅; cs_wildcard := []; cs_client_certs := ∅ |}.

(** Started while it already leads, and having lost the lease before the first tick, the
    loop has no token to give up: the flag stays. *)
Example stale_leadership :
  let leader := handle_patch_result true (Election_new "a") in
  let s := loop_run (leader, LoopState_new leader store store store)
             [EvRenew false; EvTick {| li_view := None; li_gateway := None; li_disk := store; li_now := 0 |}] in
  (el_state s.1, lp_is_leader s.2) = (NotLeader, true).
Proof. vm_compute. reflexivity. Qed.

(** A Gateway that is deleted is not announced. *)
Example deletion_unannounced : diff_view (Some (view_of [gateway "a" []])) (view_of []) 0 = [].
Proof. vm_compute. reflexivity. Qed.

Definition departed : GatewayStateDigest :=
  {| gd_topic_version := 1; gd_state_hash := []; gd_term := 1; gd_node_id := "b"; gd_timestamp := 1000 |}.

(** A peer that left is never forgotten: from half a minute on, each tick forces a reconcile. *)
Example departed_peer_forces :
  let h := publisher_run (DigestPublisher_new "a" 0) [PubPeer departed; PubTick 1000 1000 1001] in
  (publisher_step h (PubTick 90000 90000 1030)).2 = [] ∧
  (publisher_step h (PubTick 91000 91000 1031)).2 = [ForceReconcile] ∧
  (publisher_step h (PubTick 99000000 99000000 100000)).2 = [ForceReconcile].
Proof. vm_compute. done. Qed.

(** Two views in one second: one broadcast at once, one a second later. *)
Lemma publisher_up_to_date_witness :
  let inputs := [PubView (view_of []) 7; PubTick 1000 1005 8; PubView (view_of [gateway "a" []]) 8; PubTick 2000 2000 9] in
  (λ b, gd_state_hash b.2) <$> last (broadcasts (DigestPublisher_new "a" 1000) (inputs ++ [PubTick 2005 2010 10])) =
  Some (compute_digest (view_of [gateway "a" []])).
Proof.
  exact (proj2 (proj2 (publisher_up_to_date "a" 1000
           [PubView (view_of []) 7; PubTick 1000 1005 8; PubView (view_of [gateway "a" []]) 8; PubTick 2000 2000 9]))
           2005 2010 10 ltac:(vm_compute; discriminate)).
Defined.

(** A peer spoke of the Gateway half a second before. *)
Example local_change_suppressed :
  let n := {| rn_topic_version := 1; rn_kind := "Gateway"; rn_namespace := "infra"; rn_name := "a"; rn_generation := 1;
              rn_timestamp := 0 |} in
  handle_local (notifier_run [NtPeer n 1000]) n 1500 = [NotifyBroadcast n] ∧
  handle_local (notifier_run [NtPeer n 1000; NtTick 1900]) n 2000 = [NotifyBroadcast n; TriggerReconcile].
Proof. vm_compute. done. Qed.

(** The theorem, through an election, a view and its change. *)
Lemma loop_hands_on_last_view_witness :
  let tick v := EvTick {| li_view := Some v; li_gateway := None; li_disk := store; li_now := 0 |} in
  let s := loop_run (Election_new "a", LoopState_new (Election_new "a") store store store)
             [tick (view_of []); EvRenew true; tick (view_of [gateway "a" [listener None]])] in
  lp_published s.2 = [view_of []; view_of [gateway "a" [listener None]]] ∧ lp_is_leader s.2 = true.
Proof.
  split; [|vm_compute; reflexivity].
  exact (proj1 (proj2 (proj2 (loop_hands_on_last_view "a" store store store
    [EvTick {| li_view := Some (view_of []); li_gateway := None; li_disk := store; li_now := 0 |}; EvRenew true;
     EvTick {| li_view := Some (view_of [gateway "a" [listener None]]); li_gateway := None; li_disk := store; li_now := 0 |}])))).
Defined.
End LeaderExamples.
