(* ===== verification/Cluster.v ===== *)
(** * The cluster node ([src/cluster/node.rs], [messages.rs], [mod.rs]).

    Messages, topics and bootstrap peers, what a node broadcasts about its traffic, and what
    it makes of the reports of others; then the cluster as a whole, a transition system of
    nodes over a network that may lose, delay, repeat and reorder messages. The encoding of
    messages ([rkyv]), keys and the hash function are parameters. *)

From S2P Require Import Prelude Net Sni Float64 Bandwidth Digest Leader.

(** ** Messages ([messages.rs]) *)

Inductive Payload :=
| BandwidthReport (timestamp bytes_in bytes_out request_count cumulative_in cumulative_out : Z)
| ModelAnnounce (model_type : string) (hash : bytes) (total_size chunk_count : Z)
| ModelChunk (hash : bytes) (chunk_index : Z) (data : bytes)
| LeaderHeartbeat (term : Z) (leader_id : string)
| LicenseQuota (max_bytes current_bytes : Z)
| StateDigest (d : GatewayStateDigest)
| ResourceNotify (n : GatewayResourceNotify).

Record ClusterMessage := {
  cm_version : Z;
  cm_sender : string;
  cm_payload : Payload;
}.

(** [rkyv]: what was encoded is decoded to itself. *)
Class MessageCodec := {
  encode : ClusterMessage → option bytes;
  decode : bytes → option ClusterMessage;
  decode_encode : ∀ m d, encode m = Some d → decode d = Some m;
}.

(** ** Topics, keys and peers ([node.rs]) *)

Definition derive_topic `{!Blake3} (tenant channel : string) : bytes :=
  blake3 (bytes_of_string ("/sunbeam-proxy/1.0/" +:+ tenant +:+ "/" +:+ channel)).

Definition channels : list string := ["bandwidth"; "models"; "leader"; "license"; "gateway_state"; "gateway_notify"].

(** [load_or_generate_key] for a file that is read, if it exists, as [file]: the key, or
    whether the new key could be written. *)
Definition load_or_generate_key (file : option (option bytes)) (generated : bytes) (written : bool) : result bytes string :=
  match file with
  | Some None => Err "reading node key"
  | Some (Some data) => if bool_decide (length data = 32%nat) then Ok data else Err "invalid key file length"
  | None => if written then Ok generated else Err "writing node key"
  end.

(** [str::parse::<iroh::PublicKey>]. *)
Class PublicKeys := parse_public_key : string → option string.

Definition parse_bootstrap_peer `{!PublicKeys} (entry : string) : option (string * SocketAddr) :=
  '(id_str, addr_str) ← split_once "@" entry;
  id ← parse_public_key id_str;
  addr ← parse_socket_addr addr_str;
  Some (id, addr).

(** The connection that is tried to each peer does not change the list. *)
Definition resolve_bootstrap_peers `{!PublicKeys} (method : string) (bootstrap_peers : option (list string)) : list string :=
  if bool_decide (method = "bootstrap") then omap (λ e, fst <$> parse_bootstrap_peer e) (default [] bootstrap_peers)
  else [].

(** ** A node *)

Record Node := {
  nd_tracker : BandwidthTracker;
  nd_cluster : ClusterBandwidthState;
  nd_meter : BandwidthMeter;
}.

(** [spawn_cluster], with the timeouts of the configuration. *)
Definition spawn_node (stale_timeout meter_window : option Z) : Node :=
  {| nd_tracker := BandwidthTracker_new; nd_cluster := ClusterBandwidthState_new (default 30 stale_timeout);
     nd_meter := BandwidthMeter_new (default 30 meter_window) |}.

Definition cluster_limiter (n : Node) : BandwidthLimiter :=
  {| limit_bytes_per_sec := gbps_to_bytes_per_sec (f64_of_Z 1); bl_meter := nd_meter n |}.

(** An item of the gossip stream: content, or an event of the membership. *)
Inductive Event := Received (content : bytes) | Membership.

Section node.
Context `{!HashOrder, !MessageCodec}.

Definition report (id : string) (timestamp : Z) (snap : BandwidthSnapshot) : ClusterMessage :=
  {| cm_version := 1; cm_sender := id;
     cm_payload := BandwidthReport timestamp (bs_bytes_in snap) (bs_bytes_out snap) (bs_request_count snap) (bs_cumulative_in snap)
                     (bs_cumulative_out snap) |}.

(** A round of the broadcast loop. *)
Definition node_broadcast (id : string) (timestamp now : Z) (n : Node) : Node * option bytes :=
  let '(snap, tracker) := snapshot_and_reset (nd_tracker n) in
  ({| nd_tracker := tracker; nd_cluster := nd_cluster n; nd_meter := record_sample (nd_meter n) now (bs_bytes_in snap) (bs_bytes_out snap) |},
   encode (report id timestamp snap)).

Definition apply_bandwidth_message (now : Z) (m : ClusterMessage) (n : Node) : Node * bool :=
  match cm_payload m with
  | BandwidthReport _ bytes_in bytes_out _ cumulative_in cumulative_out =>
      ({| nd_tracker := nd_tracker n; nd_cluster := update_peer (nd_cluster n) now (cm_sender m) cumulative_in cumulative_out;
          nd_meter := record_sample (nd_meter n) now bytes_in bytes_out |}, true)
  | _ => (n, false)
  end.

Definition handle_bandwidth_event (now : Z) (e : Event) (n : Node) : Node :=
  match e with
  | Received content => match decode content with Some m => (apply_bandwidth_message now m n).1 | None => n end
  | Membership => n
  end.

(** The receive loop: it ends, and the node with it, at the first error of the stream. *)
Fixpoint handle_bandwidth_events (items : list (Z * option Event)) (n : Node) : Node * bool :=
  match items with
  | [] => (n, false)
  | (_, None) :: _ => (n, true)
  | (now, Some e) :: items => handle_bandwidth_events items (handle_bandwidth_event now e n)
  end.

Definition node_evict (now : Z) (n : Node) : Node :=
  {| nd_tracker := nd_tracker n; nd_cluster := evict_stale_peers (nd_cluster n) now; nd_meter := nd_meter n |}.

(** A request of the proxy. *)
Definition node_record (bytes_in bytes_out : Z) (n : Node) : Node :=
  {| nd_tracker := record (nd_tracker n) bytes_in bytes_out; nd_cluster := nd_cluster n; nd_meter := nd_meter n |}.

(** ** The cluster *)

(** The nodes by their keys, and all that was ever broadcast. *)
Record System := {
  sy_nodes : gmap string Node;
  sy_sent : list bytes;
}.

Definition on_node (id : string) (f : Node → Node) (s : System) : System :=
  {| sy_nodes := alter f id (sy_nodes s); sy_sent := sy_sent s |}.

Definition sys_broadcast (id : string) (timestamp now : Z) (s : System) : System :=
  match sy_nodes s !! id with
  | None => s
  | Some n =>
      let '(n', d) := node_broadcast id timestamp now n in
      {| sy_nodes := <[id := n']> (sy_nodes s); sy_sent := option_list d ++ sy_sent s |}
  end.

Definition sys_deliver (id : string) (now : Z) (d : bytes) (s : System) : System :=
  on_node id (handle_bandwidth_event now (Received d)) s.

(** Gossip does not bring a node its own messages. No node counts [2 ^ 64] bytes. The nodes
    are those of the start: none joins, and none restarts with empty counters. *)
Inductive sys_step : System → System → Prop :=
| step_record id n bytes_in bytes_out s :
    sy_nodes s !! id = Some n → 0 ≤ bytes_in → 0 ≤ bytes_out →
    bt_cumulative_in (nd_tracker n) + bytes_in < 2 ^ 64 → bt_cumulative_out (nd_tracker n) + bytes_out < 2 ^ 64 →
    sys_step s (on_node id (node_record bytes_in bytes_out) s)
| step_broadcast id timestamp now s : sys_step s (sys_broadcast id timestamp now s)
| step_deliver id now d m s :
    d ∈ sy_sent s → decode d = Some m → cm_sender m ≠ id → sys_step s (sys_deliver id now d s)
| step_evict id now s : sys_step s (on_node id (node_evict now) s).

(** A start: nodes that were just spawned. *)
Definition sys_start (s : System) : Prop :=
  sy_sent s = [] ∧ map_Forall (λ _ n, ∃ stale window, n = spawn_node stale window) (sy_nodes s).

Definition reachable (s : System) : Prop := ∃ s0, sys_start s0 ∧ rtc sys_step s0 s.
End node.

(** The same steps with their labels, for what a run contains. *)
Inductive SysEvent :=
| Records (id : string) (bytes_in bytes_out : Z)
| Broadcasts (id : string) (timestamp now : Z)
| Delivers (id : string) (now : Z) (d : bytes)
| Evicts (id : string) (now : Z).

Section runs.
Context `{!HashOrder, !MessageCodec}.

Definition sys_event (e : SysEvent) (s : System) : System :=
  match e with
  | Records id i o => on_node id (node_record i o) s
  | Broadcasts id timestamp now => sys_broadcast id timestamp now s
  | Delivers id now d => sys_deliver id now d s
  | Evicts id now => on_node id (node_evict now) s
  end.

Definition event_ok (s : System) (e : SysEvent) : Prop :=
  match e with
  | Records id i o => ∃ n, sy_nodes s !! id = Some n ∧ 0 ≤ i ∧ 0 ≤ o ∧
      bt_cumulative_in (nd_tracker n) + i < 2 ^ 64 ∧ bt_cumulative_out (nd_tracker n) + o < 2 ^ 64
  | Delivers id _ d => d ∈ sy_sent s ∧ ∃ m, decode d = Some m ∧ cm_sender m ≠ id
  | _ => True
  end.

Inductive sys_run (s : System) : list SysEvent → System → Prop :=
| run_nil : sys_run s [] s
| run_snoc evs s1 e : sys_run s evs s1 → event_ok s1 e → sys_run s (evs ++ [e]) (sys_event e s1).

Lemma event_step s e : event_ok s e → sys_step s (sys_event e s).
Proof.
  destruct e; cbn; intros He; [|apply step_broadcast| |apply step_evict].
  - destruct He as (n & ? & ? & ? & ? & ?). by eapply step_record.
  - destruct He as (? & m & ? & ?). by eapply step_deliver.
Qed.
End runs.

(** ** The invariant of the cluster *)

(** The counters of a node that hold all its traffic. *)
Definition traffic (n : Node) : Z * Z := (bt_cumulative_in (nd_tracker n), bt_cumulative_out (nd_tracker n)).

(** A count that is no more than the traffic of a node. *)
Definition counted (w : Z * Z) (n : Node) : Prop := 0 ≤ w.1 ≤ (traffic n).1 ∧ 0 ≤ w.2 ≤ (traffic n).2.

Definition entry_counts (e : PeerEntry) : Z * Z := (pe_cumulative_in e, pe_cumulative_out e).

Section invariant.
Context `{!HashOrder, !MessageCodec}.

(** A report that its sender made of its own traffic. *)
Definition honest (nodes : gmap string Node) (d : bytes) : Prop :=
  ∃ m t i o r ci co n, decode d = Some m ∧ cm_payload m = BandwidthReport t i o r ci co ∧ nodes !! cm_sender m = Some n ∧ counted (ci, co) n.

(** The totals of a node are those of its entries. *)
Definition totals_fresh (st : ClusterBandwidthState) : Prop :=
  cb_total_bytes_in st = saturating_sum (pe_cumulative_in <$> (hash_iter (cb_peers st)).*2) ∧
  cb_total_bytes_out st = saturating_sum (pe_cumulative_out <$> (hash_iter (cb_peers st)).*2) ∧
  cb_peer_count st = Z.of_nat (size (cb_peers st)).

Definition node_inv (nodes : gmap string Node) (id : string) (n : Node) : Prop :=
  (0 ≤ (traffic n).1 < 2 ^ 64 ∧ 0 ≤ (traffic n).2 < 2 ^ 64) ∧ totals_fresh (nd_cluster n) ∧
  (∀ p e, cb_peers (nd_cluster n) !! p = Some e → p ≠ id ∧ ∃ np, nodes !! p = Some np ∧ counted (entry_counts e) np).

Record sys_inv (s : System) : Prop := {
  si_sent : ∀ d, d ∈ sy_sent s → honest (sy_nodes s) d;
  si_node : ∀ id n, sy_nodes s !! id = Some n → node_inv (sy_nodes s) id n;
}.

(** Nodes whose traffic only grows. *)
Definition grows (nodes nodes' : gmap string Node) : Prop :=
  ∀ p n, nodes !! p = Some n → ∃ n', nodes' !! p = Some n' ∧ (traffic n).1 ≤ (traffic n').1 ∧ (traffic n).2 ≤ (traffic n').2.

Lemma counted_grows nodes nodes' p n w :
  grows nodes nodes' → nodes !! p = Some n → counted w n → ∃ n', nodes' !! p = Some n' ∧ counted w n'.
Proof. intros Hg Hn [H1 H2]. destruct (Hg p n Hn) as (n' & Hn' & ? & ?). exists n'. split; [done|]. split; lia. Qed.

Lemma honest_grows nodes nodes' d : grows nodes nodes' → honest nodes d → honest nodes' d.
Proof.
  intros Hg (m & t & i & o & r & ci & co & n & Hd & Hp & Hn & Hc). destruct (counted_grows _ _ _ _ _ Hg Hn Hc) as (n' & Hn' & Hc').
  by exists m, t, i, o, r, ci, co, n'.
Qed.

Lemma node_inv_grows nodes nodes' id n : grows nodes nodes' → node_inv nodes id n → node_inv nodes' id n.
Proof.
  intros Hg (Ht & Hf & He). split; [exact Ht|]. split; [exact Hf|]. intros p e Hp. destruct (He p e Hp) as (Hne & np & Hnp & Hc).
  split; [done|]. by eapply counted_grows.
Qed.

(** A step of one node that grows its traffic and keeps its part of the invariant. *)
Lemma alter_inv id f s :
  sys_inv s →
  (∀ n, sy_nodes s !! id = Some n → (traffic n).1 ≤ (traffic (f n)).1 ∧ (traffic n).2 ≤ (traffic (f n)).2 ∧
     node_inv (alter f id (sy_nodes s)) id (f n)) →
  grows (sy_nodes s) (alter f id (sy_nodes s)) ∧ sys_inv (on_node id f s).
Proof.
  intros Hi Hf. assert (grows (sy_nodes s) (alter f id (sy_nodes s))) as Hg.
  { intros p n Hp. destruct (decide (p = id)) as [->|Hne].
    - exists (f n). rewrite lookup_alter_eq, Hp. split; [done|]. destruct (Hf n Hp) as (? & ? & _). done.
    - exists n. split; [by rewrite lookup_alter_ne|lia]. }
  split; [done|]. split; cbn [on_node sy_nodes sy_sent].
  - intros d Hd. by eapply honest_grows, si_sent.
  - intros p n Hp. destruct (decide (p = id)) as [->|Hne].
    + rewrite lookup_alter_eq in Hp. apply fmap_Some in Hp as (n0 & Hn0 & ->). by apply Hf.
    + rewrite lookup_alter_ne in Hp by done. by eapply node_inv_grows, si_node.
Qed.

Lemma record_step_inv id n i o s :
  sys_inv s → sy_nodes s !! id = Some n → 0 ≤ i → 0 ≤ o → (traffic n).1 + i < 2 ^ 64 → (traffic n).2 + o < 2 ^ 64 →
  sys_inv (on_node id (node_record i o) s).
Proof.
  intros Hs Hn Hi Ho Bi Bo. destruct (si_node _ Hs id n Hn) as ((T1 & T2) & Hf & He).
  assert (traffic (node_record i o n) = ((traffic n).1 + i, (traffic n).2 + o)) as Ht.
  { rewrite <- (wrap_small 64 ((traffic n).1 + i)), <- (wrap_small 64 ((traffic n).2 + o)) by lia. done. }
  destruct (alter_inv id (node_record i o) s Hs) as [_ ?]; [|done]. intros n' Hn'. simplify_eq. rewrite Ht. cbn [fst snd].
  split; [lia|]. split; [lia|]. split; [rewrite Ht; cbn [fst snd]; lia|]. split; [exact Hf|].
  intros p e Hp. destruct (He p e Hp) as (Hne & np & Hnp & Hc). split; [done|]. exists np. by rewrite lookup_alter_ne.
Qed.

Lemma evict_step_inv id now s : sys_inv s → sys_inv (on_node id (node_evict now) s).
Proof.
  intros Hs. destruct (alter_inv id (node_evict now) s Hs) as [_ ?]; [|done]. intros n Hn.
  destruct (si_node _ Hs id n Hn) as (Ht & Hf & He). split; [done|]. split; [done|]. split; [exact Ht|]. split; [done|].
  intros p e [Hp _]%map_lookup_filter_Some. destruct (He p e Hp) as (Hne & np & Hnp & Hc). split; [done|]. exists np. by rewrite lookup_alter_ne.
Qed.

Lemma deliver_step_inv id now d m s :
  sys_inv s → d ∈ sy_sent s → decode d = Some m → cm_sender m ≠ id → sys_inv (sys_deliver id now d s).
Proof.
  intros Hs Hd Hm Hne. destruct (si_sent _ Hs d Hd) as (m' & t & i & o & r & ci & co & np & Hm' & Hp & Hnp & Hc). simplify_eq.
  assert (∀ n, handle_bandwidth_event now (Received d) n = (apply_bandwidth_message now m n).1) as Heq.
  { intros n. cbn [handle_bandwidth_event]. by rewrite Hm. }
  destruct (alter_inv id (handle_bandwidth_event now (Received d)) s Hs) as [_ ?]; [|done]. intros n Hn.
  destruct (si_node _ Hs id n Hn) as (Ht & Hf & He). rewrite Heq. unfold apply_bandwidth_message. rewrite Hp. cbn [fst].
  split; [done|]. split; [done|]. split; [exact Ht|]. split; [done|]. cbn [nd_cluster update_peer recalculate cb_peers].
  intros p e Hpe. destruct (decide (p = cm_sender m)) as [->|Hpne].
  - rewrite lookup_insert_eq in Hpe. injection Hpe as <-. split; [done|]. exists np. by rewrite lookup_alter_ne.
  - rewrite lookup_insert_ne in Hpe by done. destruct (He p e Hpe) as (Hne' & np' & Hnp' & Hc').
    split; [done|]. exists np'. by rewrite lookup_alter_ne.
Qed.

(** A broadcast leaves the traffic as it is and reports it. *)
Lemma broadcast_report id t now n n' d : node_broadcast id t now n = (n', Some d) →
  ∃ m i o r, decode d = Some m ∧ cm_sender m = id ∧ cm_payload m = BandwidthReport t i o r (traffic n).1 (traffic n).2 ∧
    traffic n' = traffic n ∧ nd_cluster n' = nd_cluster n.
Proof.
  unfold node_broadcast. cbn. intros [= <- Hd]. apply decode_encode in Hd. eexists _, _, _, _. split_and!; [exact Hd|done..].
Qed.

Lemma broadcast_keeps id t now n n' d : node_broadcast id t now n = (n', d) → traffic n' = traffic n ∧ nd_cluster n' = nd_cluster n.
Proof. unfold node_broadcast. cbn. by intros [= <- _]. Qed.

Lemma broadcast_step_inv id t now s : sys_inv s → sys_inv (sys_broadcast id t now s).
Proof.
  intros Hs. unfold sys_broadcast. destruct (sy_nodes s !! id) as [n|] eqn:Hn; [|done].
  destruct (node_broadcast id t now n) as [n' d] eqn:Hb. destruct (broadcast_keeps _ _ _ _ _ _ Hb) as [Ht Hc].
  destruct (si_node _ Hs id n Hn) as (Htr & Hf & He).
  destruct (alter_inv id (λ _, n') s Hs) as [Hg Hs'].
  { intros n0 Hn0. assert (n0 = n) as -> by congruence. rewrite Ht. split; [done|]. split; [done|].
    unfold node_inv. rewrite Ht, Hc. split; [exact Htr|]. split; [exact Hf|].
    intros p e Hp. destruct (He p e Hp) as (Hne & np & Hnp & Hcp). split; [done|]. exists np. by rewrite lookup_alter_ne. }
  assert (alter (λ _, n') id (sy_nodes s) = <[id := n']> (sy_nodes s)) as Halt.
  { apply map_eq. intros p. destruct (decide (p = id)) as [->|]; [by rewrite lookup_alter_eq, lookup_insert_eq, Hn|].
    by rewrite lookup_alter_ne, lookup_insert_ne. }
  destruct Hs' as [Hsent Hnode]. cbn [on_node sy_nodes sy_sent] in *. rewrite Halt in *. split; cbn [sy_nodes sy_sent]; [|done].
  intros d' [Hd'|Hd']%elem_of_app; [|by apply Hsent]. destruct d as [d|]; [|by apply not_elem_of_nil in Hd'].
  apply list_elem_of_singleton in Hd' as ->. destruct (broadcast_report _ _ _ _ _ _ Hb) as (m & i & o & r & Hm & <- & Hp & _ & _).
  exists m, t, i, o, r, (traffic n).1, (traffic n).2, n'. split_and!; [done|done|by rewrite lookup_insert_eq|].
  destruct Htr. split; rewrite Ht; cbn [fst snd]; lia.
Qed.

Lemma hash_iter_nothing : hash_iter (∅ : gmap string PeerEntry) = [].
Proof. apply Permutation_nil_r. by rewrite hash_iter_perm, map_to_list_empty. Qed.

Lemma start_inv s : sys_start s → sys_inv s.
Proof.
  intros [Hsent Hn]. split.
  - rewrite Hsent. by intros d Hd%not_elem_of_nil.
  - intros id n Hid. destruct (Hn id n Hid) as (stale & window & ->). split; [done|split].
    + split_and!; cbn [spawn_node nd_cluster ClusterBandwidthState_new cb_peers]; by rewrite ?hash_iter_nothing.
    + intros p e Hp. change ((∅ : gmap string PeerEntry) !! p = Some e) in Hp. by rewrite lookup_empty in Hp.
Qed.

Lemma step_inv s s' : sys_step s s' → sys_inv s → sys_inv s'.
Proof.
  intros Hstep Hs.
  destruct Hstep; [by eapply record_step_inv|by apply broadcast_step_inv|by eapply deliver_step_inv|by apply evict_step_inv].
Qed.

Lemma reachable_inv s : reachable s → sys_inv s.
Proof.
  intros (s0 & Hst & Hr). apply start_inv in Hst. revert Hst. induction Hr as [|s1 s2 s3 Hstep _ IH]; [done|]. intros Hs.
  by eapply IH, step_inv.
Qed.

(** ** What a node knows of the others *)

(** The traffic of all nodes but one. *)
Definition others (q : string) (s : System) : gmap string (Z * Z) := delete q (traffic <$> sy_nodes s).

(** What a node heard of the others. *)
Definition heard (n : Node) : gmap string (Z * Z) := entry_counts <$> cb_peers (nd_cluster n).

Definition sum_of (f : Z * Z → Z) (m : gmap string (Z * Z)) : Z := sumZ (f <$> (map_to_list m).*2).

Lemma sum_of_insert f m k w : m !! k = None → sum_of f (<[k := w]> m) = f w + sum_of f m.
Proof. intros Hk. unfold sum_of. rewrite map_to_list_insert by done. done. Qed.

Lemma sum_of_le f m1 m2 :
  (∀ k w, m2 !! k = Some w → 0 ≤ f w) → (∀ k w, m1 !! k = Some w → ∃ w', m2 !! k = Some w' ∧ f w ≤ f w') →
  sum_of f m1 ≤ sum_of f m2.
Proof.
  revert m2. induction m1 as [|k w m1 Hk IH] using map_ind; intros m2 H2 H12.
  - unfold sum_of. rewrite map_to_list_empty. apply sumZ_nonneg, Forall_fmap, Forall_fmap, Forall_forall.
    intros [k w] Hw%elem_of_map_to_list. by eapply H2.
  - destruct (H12 k w) as (w' & Hw' & Hle); [by rewrite lookup_insert_eq|].
    rewrite <- (insert_delete_id m2 k w') by done. rewrite !sum_of_insert by (done || by rewrite lookup_delete_eq).
    assert (sum_of f m1 ≤ sum_of f (delete k m2)); [|lia]. apply IH.
    + intros k0 w0 [_ ?]%lookup_delete_Some. by eapply H2.
    + intros k0 w0 Hst. assert (k ≠ k0) by congruence. rewrite lookup_delete_ne by done. apply H12. by rewrite lookup_insert_ne.
Qed.

(** The totals of a node are the sums of what it heard. *)
Lemma totals_heard nodes id n : node_inv nodes id n →
  cb_total_bytes_in (nd_cluster n) = Z.min (sum_of fst (heard n)) u64_max ∧
  cb_total_bytes_out (nd_cluster n) = Z.min (sum_of snd (heard n)) u64_max ∧
  cb_peer_count (nd_cluster n) = Z.of_nat (size (heard n)).
Proof.
  intros (_ & (-> & -> & ->) & He). unfold heard.
  assert (∀ f, (∀ p e, cb_peers (nd_cluster n) !! p = Some e → 0 ≤ f (entry_counts e)) →
    saturating_sum ((λ e, f (entry_counts e)) <$> (hash_iter (cb_peers (nd_cluster n))).*2) =
    Z.min (sum_of f (entry_counts <$> cb_peers (nd_cluster n))) u64_max) as Hf.
  { intros f Hf. rewrite saturating_sum_spec.
    - rewrite hash_iter_perm. unfold sum_of. rewrite map_to_list_fmap, <- !list_fmap_compose. done.
    - apply Forall_fmap, Forall_fmap, Forall_forall. intros [p e] Hp%elem_of_hash_iter. by eapply Hf. }
  split_and!; [apply (Hf fst)|apply (Hf snd)|by rewrite map_size_fmap];
    intros p e Hp; destruct (He p e Hp) as (_ & np & _ & [??]); lia.
Qed.

Lemma heard_others s q n : sys_inv s → sy_nodes s !! q = Some n →
  ∀ k w, heard n !! k = Some w → ∃ w', others q s !! k = Some w' ∧ 0 ≤ w.1 ≤ w'.1 ∧ 0 ≤ w.2 ≤ w'.2.
Proof.
  intros Hs Hn k w (e & <- & He)%lookup_fmap_Some. destruct (si_node _ Hs q n Hn) as (_ & _ & Hp).
  destruct (Hp k e He) as (Hne & np & Hnp & Hc). exists (traffic np). split; [|exact Hc].
  unfold others. rewrite lookup_delete_ne by done. by rewrite lookup_fmap, Hnp.
Qed.

Lemma others_nonneg s q : sys_inv s → ∀ k w, others q s !! k = Some w → 0 ≤ w.1 ∧ 0 ≤ w.2.
Proof.
  intros Hs k w. unfold others. intros [_ (n & <- & Hn)%lookup_fmap_Some]%lookup_delete_Some. destruct (si_node _ Hs k n Hn) as [[??] _]. lia.
Qed.

(** *** Runs *)

(** Only its own requests change the traffic of a node. *)
Lemma event_traffic e s p :
  (∀ i o, e ≠ Records p i o) → traffic <$> sy_nodes (sys_event e s) !! p = traffic <$> sy_nodes s !! p.
Proof.
  intros Hne. assert (∀ id f, (∀ n, id = p → traffic (f n) = traffic n) →
    traffic <$> sy_nodes (on_node id f s) !! p = traffic <$> sy_nodes s !! p) as Hon.
  { intros id f Hf. cbn. destruct (decide (id = p)) as [->|]; [|by rewrite lookup_alter_ne].
    rewrite lookup_alter_eq. destruct (sy_nodes s !! p); [|done]. cbn. by rewrite Hf. }
  destruct e as [id i o|id t now|id now d|id now]; cbn [sys_event].
  - apply Hon. intros n ->. by destruct (Hne i o).
  - unfold sys_broadcast. destruct (sy_nodes s !! id) as [n|] eqn:Hn; [|done].
    destruct (node_broadcast id t now n) as [n' d] eqn:Hb. apply broadcast_keeps in Hb as [Ht _]. cbn.
    destruct (decide (id = p)) as [->|]; [|by rewrite lookup_insert_ne]. rewrite lookup_insert_eq, Hn. cbn. by rewrite Ht.
  - apply Hon. intros n _. cbn. destruct (decode d) as [m|]; [|done]. unfold apply_bandwidth_message. by destruct (cm_payload m).
  - by apply Hon.
Qed.

(** Only a delivery to it and its own eviction change what a node knows. *)
Lemma event_cluster e s q :
  (∀ now d, e ≠ Delivers q now d) → (∀ now, e ≠ Evicts q now) →
  nd_cluster <$> sy_nodes (sys_event e s) !! q = nd_cluster <$> sy_nodes s !! q.
Proof.
  intros Hd He. destruct e as [id i o|id t now|id now d|id now]; cbn.
  - destruct (decide (id = q)) as [->|]; [|by rewrite lookup_alter_ne]. rewrite lookup_alter_eq. by destruct (sy_nodes s !! q).
  - unfold sys_broadcast. destruct (sy_nodes s !! id) as [n|] eqn:Hn; [|done].
    destruct (node_broadcast id t now n) as [n' d] eqn:Hb. apply broadcast_keeps in Hb as [_ Hc]. cbn.
    destruct (decide (id = q)) as [->|]; [|by rewrite lookup_insert_ne]. rewrite lookup_insert_eq, Hn. cbn. by rewrite Hc.
  - rewrite lookup_alter_ne; [done|]. intros ->. by destruct (Hd now d).
  - rewrite lookup_alter_ne; [done|]. intros ->. by destruct (He now).
Qed.

(** A report of the traffic that its sender has in a system. *)
Definition current_report (s : System) (m : ClusterMessage) : Prop :=
  ∃ t i o r n, cm_payload m = BandwidthReport t i o r (traffic n).1 (traffic n).2 ∧ sy_nodes s !! cm_sender m = Some n.

(** What was sent after an event was sent before, or is the present traffic of its sender. *)
Lemma event_sent e s d : d ∈ sy_sent (sys_event e s) → d ∈ sy_sent s ∨ ∃ m, decode d = Some m ∧ current_report s m.
Proof.
  destruct e as [id i o|id t now|id now d'|id now]; cbn; try by left.
  unfold sys_broadcast. destruct (sy_nodes s !! id) as [n|] eqn:Hn; [|by left].
  destruct (node_broadcast id t now n) as [n' [d'|]] eqn:Hb; cbn; [|by left].
  intros [->|?]%elem_of_cons; [right|by left]. apply broadcast_report in Hb as (m & i & o & r & Hm & Hid & Hp & _).
  exists m. split; [done|]. exists t, i, o, r, n. by rewrite Hid.
Qed.

(** [q] knows the traffic of the senders of the reports it got, since one of them. *)
Definition knows (q : string) (s0 : System) (evs : list SysEvent) (st : ClusterBandwidthState) : Prop :=
  ∀ now d m, Delivers q now d ∈ evs → decode d = Some m → ∃ e np d',
    cb_peers st !! cm_sender m = Some e ∧ sy_nodes s0 !! cm_sender m = Some np ∧ entry_counts e = traffic np ∧
    Delivers q (pe_last_seen e) d' ∈ evs.

Lemma event_at e q :
  (∃ now d, e = Delivers q now d) ∨ (∃ now, e = Evicts q now) ∨ (∀ now d, e ≠ Delivers q now d) ∧ (∀ now, e ≠ Evicts q now).
Proof. destruct e as [| |id now d|id now]; [naive_solver..| |]; destruct (decide (id = q)); naive_solver. Qed.

(** A run in which [q] catches up, so far. *)
Record catching (q : string) (s0 : System) (timeout : Z) (evs : list SysEvent) (s : System) : Prop := {
  ca_inv : sys_inv s;
  ca_traffic p : p ≠ q → traffic <$> sy_nodes s !! p = traffic <$> sy_nodes s0 !! p;
  ca_sent d m : d ∈ sy_sent s → (d ∉ sy_sent s0) → decode d = Some m → cm_sender m ≠ q → current_report s0 m;
  ca_heard : ∃ st, nd_cluster <$> sy_nodes s !! q = Some st ∧ cb_stale_timeout_secs st = timeout ∧
    knows q s0 evs st;
}.

Lemma current_move s s0 m :
  traffic <$> sy_nodes s !! cm_sender m = traffic <$> sy_nodes s0 !! cm_sender m → current_report s m → current_report s0 m.
Proof.
  intros Ht (t & i & o & r & n & Hp & Hn). rewrite Hn in Ht. cbn in Ht. symmetry in Ht.
  apply fmap_Some in Ht as (n0 & Hn0 & Heq). exists t, i, o, r, n0. by rewrite <-Heq.
Qed.

(** A delivery of a current report, and an eviction that is not late, at [q]. *)
Lemma catching_deliver q s0 timeout evs s now d m :
  catching q s0 timeout evs s → decode d = Some m → current_report s0 m →
  ∃ st, nd_cluster <$> sy_nodes (sys_deliver q now d s) !! q = Some st ∧ cb_stale_timeout_secs st = timeout ∧
    knows q s0 (evs ++ [Delivers q now d]) st.
Proof.
  unfold knows. intros [_ _ _ (st & Hst & Hto & Hh)] Hm (t & i & o & r & np & Hp & Hnp).
  apply fmap_Some in Hst as (n & Hn & ->). eexists. cbn [sys_deliver on_node sy_nodes]. rewrite lookup_alter_eq, Hn.
  split; [done|]. cbn [handle_bandwidth_event]. rewrite Hm. unfold apply_bandwidth_message. rewrite Hp.
  cbn [fst nd_cluster update_peer recalculate cb_peers cb_stale_timeout_secs]. split; [done|].
  intros now' d' m' Hin Hm'. destruct (decide (cm_sender m' = cm_sender m)) as [Heq|Hne].
  - rewrite Heq, lookup_insert_eq. eexists _, np, d. split_and!; [done|done|by destruct (traffic np)|].
    apply elem_of_app. right. by left.
  - rewrite lookup_insert_ne by done. apply elem_of_app in Hin as [Hin|Hin].
    + destruct (Hh _ _ _ Hin Hm') as (e & np' & d'' & ? & ? & ? & ?). exists e, np', d''. split_and!; [done..|].
      apply elem_of_app. by left.
    + apply list_elem_of_singleton in Hin. congruence.
Qed.

Lemma catching_evict q s0 timeout evs s now :
  catching q s0 timeout evs s →
  (∀ now' d, Delivers q now' d ∈ evs → now < now' + timeout * 1000000000) →
  ∃ st, nd_cluster <$> sy_nodes (on_node q (node_evict now) s) !! q = Some st ∧ cb_stale_timeout_secs st = timeout ∧
    knows q s0 evs st.
Proof.
  unfold knows. intros [_ _ _ (st & Hst & Hto & Hh)] Hlate. apply fmap_Some in Hst as (n & Hn & ->). eexists.
  cbn [on_node sy_nodes]. rewrite lookup_alter_eq, Hn. split; [done|]. split; [done|].
  intros now' d' m' Hin Hm'. destruct (Hh _ _ _ Hin Hm') as (e & np & d'' & He & Hnp & Hc & Hd).
  exists e, np, d''. split_and!; [|done..]. cbn [nd_cluster node_evict evict_stale_peers recalculate cb_peers].
  apply map_lookup_filter_Some. split; [done|]. specialize (Hlate _ _ Hd). rewrite Hto. cbn. lia.
Qed.

Lemma catching_run q s0 st0 evs s :
  sys_inv s0 → nd_cluster <$> sy_nodes s0 !! q = Some st0 → sys_run s0 evs s →
  (∀ id i o, Records id i o ∈ evs → id = q) →
  (∀ now d, Delivers q now d ∈ evs → d ∉ sy_sent s0) →
  (∀ now d now', Delivers q now d ∈ evs → Evicts q now' ∈ evs → now' < now + cb_stale_timeout_secs st0 * 1000000000) →
  catching q s0 (cb_stale_timeout_secs st0) evs s.
Proof.
  intros Hs0 Hst0. induction 1 as [|evs s e Hrun IH Hok]; intros Hrec Hfresh Hlate.
  { split; [done..|]. exists st0. split_and!; [done..|]. by intros ??? ?%elem_of_nil. }
  assert (catching q s0 (cb_stale_timeout_secs st0) evs s) as Hca.
  { apply IH; intros; [eapply Hrec|eapply Hfresh|eapply Hlate]; apply elem_of_app; by left. }
  assert (e ∈ evs ++ [e]) as Hin by (apply elem_of_app; right; by left). pose proof Hca as [Hi Ht Hse Hh].
  assert (∀ p, p ≠ q → traffic <$> sy_nodes (sys_event e s) !! p = traffic <$> sy_nodes s0 !! p) as Ht'.
  { intros p Hp. rewrite event_traffic; [by apply Ht|]. intros i o ->. by apply Hrec in Hin. }
  split; [by eapply step_inv, Hi; apply event_step|done| |].
  - intros d m Hd Hnew Hm Hne. destruct (event_sent _ _ _ Hd) as [Hd'|(m' & Hm' & Hcur)]; [by eapply Hse|].
    simplify_eq. eapply current_move, Hcur. by apply Ht.
  - destruct (event_at e q) as [(now & d & ->)|Hother].
    { destruct Hok as (Hsent & m & Hm & Hne). apply (catching_deliver _ _ _ _ _ _ _ m Hca Hm).
      eapply Hse; [done|by eapply Hfresh|done..]. }
    assert (∀ now d, Delivers q now d ∈ evs ++ [e] → Delivers q now d ∈ evs) as Hold.
    { intros now d [?|Hd%list_elem_of_singleton]%elem_of_app; [done|]. subst e.
      destruct Hother as [(? & [=])|[Hnd _]]. by destruct (Hnd now d). }
    assert (∃ st, nd_cluster <$> sy_nodes (sys_event e s) !! q = Some st ∧
      cb_stale_timeout_secs st = cb_stale_timeout_secs st0 ∧ knows q s0 evs st) as (st & Hst & Hto & Hk).
    { destruct Hother as [(now & ->)|[Hnd Hne]]; [|by rewrite event_cluster].
      apply (catching_evict _ _ _ _ _ _ Hca). intros now' d Hd. eapply Hlate; [apply elem_of_app; by left|done]. }
    exists st. split_and!; [done..|]. intros now d m Hd%Hold Hm.
    destruct (Hk _ _ _ Hd Hm) as (e' & np & d' & ? & ? & ? & ?). exists e', np, d'.
    split_and!; [done..|apply elem_of_app; by left].
Qed.

(** C14. No node overestimates the traffic of the cluster. Whatever nodes serve, broadcast and
    evict, and whichever of the reports the network loses, delays, repeats or delivers out of
    order: the totals a node keeps are at most what the other nodes have really carried, and
    it counts at most the other nodes as its peers. The nodes are fixed, none restarts, each
    carries fewer than 2^64 bytes in each direction, and gossip does not bring a node its own
    reports. The rate of the meter is not covered. *)
Theorem cluster_never_overcounts s q n :
  reachable s → sy_nodes s !! q = Some n →
  0 ≤ cb_total_bytes_in (nd_cluster n) ≤ sum_of fst (others q s) ∧
  0 ≤ cb_total_bytes_out (nd_cluster n) ≤ sum_of snd (others q s) ∧
  cb_peer_count (nd_cluster n) ≤ Z.of_nat (size (others q s)).
Proof.
  intros Hs%reachable_inv Hn. destruct (totals_heard _ q n (si_node _ Hs q n Hn)) as (-> & -> & ->).
  pose proof (heard_others s q n Hs Hn) as Hh. pose proof (others_nonneg s q Hs) as Ho.
  assert (∀ f, (f = fst ∨ f = snd) → 0 ≤ sum_of f (heard n) ≤ sum_of f (others q s)) as Hsum.
  { intros f Hf. split.
    - apply sumZ_nonneg, Forall_fmap, Forall_fmap, Forall_forall. intros [k w] Hw%elem_of_map_to_list.
      destruct (Hh k w Hw) as (w' & _ & ? & ?). destruct Hf as [-> | ->]; cbn; lia.
    - apply sum_of_le.
      + intros k w Hw. destruct (Ho k w Hw). destruct Hf as [-> | ->]; cbn; lia.
      + intros k w Hw. destruct (Hh k w Hw) as (w' & Hw' & ? & ?). exists w'. split; [done|]. destruct Hf as [-> | ->]; cbn; lia. }
  pose proof (Hsum fst (or_introl eq_refl)). pose proof (Hsum snd (or_intror eq_refl)).
  assert (0 ≤ u64_max) by done. split_and!; try lia.
  apply inj_le. rewrite <- !size_dom. apply subseteq_size. intros k [w Hw]%elem_of_dom. destruct (Hh k w Hw) as (w' & Hw' & _).
  apply elem_of_dom. by exists w'.
Qed.

(** C35. The totals of a node catch up. Take any reachable state, whatever was lost before, and
    any run from it in which the other nodes carry no traffic, no report that was broadcast
    before the run reaches the node, one of every other node does, and its evictions come
    before the reports it got in the run are stale. The run may otherwise broadcast, deliver,
    lose, repeat, reorder and evict as it likes. Then at its end the totals of the node are
    exactly what the other nodes have carried (up to the largest [u64]) and it counts every
    one of them as a peer, the ones evicted before again. *)
Theorem cluster_catches_up s q nq evs s' :
  reachable s → sy_nodes s !! q = Some nq → sys_run s evs s' →
  (∀ id i o, Records id i o ∈ evs → id = q) →
  (∀ now d, Delivers q now d ∈ evs → d ∉ sy_sent s) →
  (∀ now d now', Delivers q now d ∈ evs → Evicts q now' ∈ evs →
     now' < now + cb_stale_timeout_secs (nd_cluster nq) * 1000000000) →
  (∀ p, p ≠ q → is_Some (sy_nodes s !! p) →
     ∃ now d m, Delivers q now d ∈ evs ∧ decode d = Some m ∧ cm_sender m = p) →
  ∃ n, sy_nodes s' !! q = Some n ∧ others q s' = others q s ∧
    cb_total_bytes_in (nd_cluster n) = Z.min (sum_of fst (others q s)) u64_max ∧
    cb_total_bytes_out (nd_cluster n) = Z.min (sum_of snd (others q s)) u64_max ∧
    cb_peer_count (nd_cluster n) = Z.of_nat (size (others q s)).
Proof.
  intros Hs%reachable_inv Hq Hrun Hrec Hfresh Hlate Hall.
  destruct (catching_run q s (nd_cluster nq) evs s') as [Hs' Ht _ (st & Hst & _ & Hh)]; [done|by rewrite Hq|done..|].
  apply fmap_Some in Hst as (n & Hn & ->).
  assert (others q s' = others q s) as Ho.
  { apply map_eq. intros p. unfold others. destruct (decide (p = q)) as [->|]; [by rewrite !lookup_delete_eq|].
    rewrite !lookup_delete_ne, !lookup_fmap by done. by apply Ht. }
  assert (heard n = others q s) as Heq.
  { apply map_eq. intros p. destruct (others q s !! p) as [w|] eqn:Hw.
    - unfold others in Hw. apply lookup_delete_Some in Hw as [Hne (np & <- & Hnp)%lookup_fmap_Some].
      destruct (Hall p) as (now & d & m & Hd & Hm & <-); [done|by eexists|].
      destruct (Hh _ _ _ Hd Hm) as (e & np' & _ & He & Hnp' & Hc & _). simplify_eq. unfold heard.
      by rewrite lookup_fmap, He, <-Hc.
    - destruct (heard n !! p) as [w|] eqn:Hw'; [|done].
      destruct (heard_others s' q n Hs' Hn p w Hw') as (w' & Hw2 & _). congruence. }
  exists n. split; [done|]. split; [done|]. rewrite <- Heq. exact (totals_heard _ q n (si_node _ Hs' q n Hn)).
Qed.
End invariant.

(** ** Topics *)

Lemma bytes_of_string_app s t : bytes_of_string (s +:+ t) = bytes_of_string s ++ bytes_of_string t.
Proof. induction s as [|a s IH]; [done|]. cbn [String.append bytes_of_string app]. by rewrite <- IH. Qed.

(** What follows the last occurrence of a separator is determined. *)
Lemma last_separator {A} (x : A) l1 l2 k1 k2 : x ∉ k1 → x ∉ k2 → l1 ++ x :: k1 = l2 ++ x :: k2 → l1 = l2 ∧ k1 = k2.
Proof.
  intros H1 H2 H. apply app_eq_inv in H as [(k & -> & Hk)|(k & -> & Hk)]; destruct k as [|y k]; cbn in Hk; simplify_list_eq; try done.
  - destruct H2. apply elem_of_app. right. by left.
  - destruct H1. apply elem_of_app. right. by left.
Qed.

(** The topics of two tenants, and two topics of a tenant, are the same only if the hash
    function has a collision: a report reaches the nodes of its tenant alone, whatever the
    names of the tenants, slashes included. *)
Theorem topics_separate `{!Blake3} t1 t2 c1 c2 :
  (∀ x y : bytes, blake3 x = blake3 y → x = y) → c1 ∈ channels → c2 ∈ channels →
  derive_topic t1 c1 = derive_topic t2 c2 → t1 = t2 ∧ c1 = c2.
Proof.
  intros Hinj H1 H2 Heq%Hinj. rewrite !bytes_of_string_app in Heq. apply app_inv_head in Heq.
  assert (Forall (λ c, 47 ∉ bytes_of_string c) channels) as Hc by (apply (bool_decide_unpack _); by vm_compute).
  rewrite Forall_forall in Hc. apply (last_separator 47) in Heq as [Ht Hcs]; [|by apply Hc..].
  split; rewrite <- string_of_bytes_of_string; [by rewrite <- Ht, string_of_bytes_of_string|by rewrite <- Hcs, string_of_bytes_of_string].
Qed.

Module ClusterExamples.
(** A codec of reports: the numbers, then the sender. *)
#[export] Instance report_codec : MessageCodec.
Proof.
  refine {|
    encode m := match cm_payload m with
      | BandwidthReport t i o r ci co => Some (cm_version m :: t :: i :: o :: r :: ci :: co :: bytes_of_string (cm_sender m))
      | _ => None
      end;
    decode d := match d with
      | v :: t :: i :: o :: r :: ci :: co :: id =>
          Some {| cm_version := v; cm_sender := string_of_bytes id; cm_payload := BandwidthReport t i o r ci co |}
      | _ => None
      end |}.
  intros [v id p] content. destruct p; cbn; [|done..]. intros [= <-]. by rewrite string_of_bytes_of_string.
Defined.

(** Three nodes, as they start. *)
Definition three : System :=
  {| sy_nodes := {[ "a" := spawn_node None None; "b" := spawn_node None None; "c" := spawn_node None None ]}; sy_sent := [] |}.

Lemma three_start : sys_start three.
Proof. split; [done|]. apply (map_Forall_insert_2 _ _ "a"); [by exists None, None|]. apply (map_Forall_insert_2 _ _ "b"); [by exists None, None|].
  apply map_Forall_singleton. by exists None, None. Qed.

(** [a] served a request and reported it to [b], which received the report twice; [a] and
    [c] served another each. *)
Definition reported : System := sys_broadcast "a" 1 1 (on_node "a" (node_record 10 20) three).
Definition a_report : bytes := [1; 1; 10; 20; 1; 10; 20; 97].
Definition delivered : System := sys_deliver "b" 3 a_report (sys_deliver "b" 2 a_report reported).
Definition served : System := on_node "c" (node_record 3 4) (on_node "a" (node_record 1 2) delivered).

Lemma three_reported : rtc sys_step three reported.
Proof.
  eapply rtc_l; [|eapply rtc_l; [apply (step_broadcast "a" 1 1)|apply rtc_refl]].
  apply (step_record "a" (spawn_node None None) 10 20); [reflexivity|lia|lia|vm_compute; reflexivity|vm_compute; reflexivity].
Qed.

Lemma deliver_sent id now d s : sy_sent (sys_deliver id now d s) = sy_sent s.
Proof. reflexivity. Qed.

Lemma reported_delivered : rtc sys_step reported delivered.
Proof.
  unfold delivered.
  assert (∃ m, decode a_report = Some m ∧ cm_sender m ≠ "b") as (m & Hm & Hne) by (eexists; split; [reflexivity|discriminate]).
  assert (a_report ∈ sy_sent reported) as Hin by (apply (bool_decide_unpack _); vm_compute; exact I).
  apply (rtc_l _ _ (sys_deliver "b" 2 a_report reported)); [exact (step_deliver "b" 2 a_report m reported Hin Hm Hne)|].
  apply rtc_once, (step_deliver "b" 3 a_report m); [by rewrite deliver_sent|exact Hm|exact Hne].
Qed.

Definition node_of (id : string) (s : System) : Node := default (spawn_node None None) (sy_nodes s !! id).

Lemma delivered_served : rtc sys_step delivered served.
Proof.
  apply (rtc_l _ _ (on_node "a" (node_record 1 2) delivered)); [|apply rtc_once].
  - apply (step_record "a" (node_of "a" delivered) 1 2); [vm_compute; reflexivity|lia|lia|vm_compute; reflexivity|vm_compute; reflexivity].
  - apply (step_record "c" (spawn_node None None) 3 4); [vm_compute; reflexivity|lia|lia|vm_compute; reflexivity|vm_compute; reflexivity].
Qed.

Lemma served_reachable : reachable served.
Proof.
  exists three. split; [exact three_start|].
  etrans; [exact three_reported|]. etrans; [exact reported_delivered|exact delivered_served].
Qed.

(** The theorem, at [b]. *)
Lemma cluster_never_overcounts_witness : ∃ n, sy_nodes served !! "b" = Some n ∧ cb_total_bytes_in (nd_cluster n) = 10 ∧
  cb_total_bytes_in (nd_cluster n) ≤ sum_of fst (others "b" served) ∧ sum_of fst (others "b" served) = 14.
Proof.
  eexists. split; [vm_compute; reflexivity|]. split; [reflexivity|]. split; [|vm_compute; reflexivity].
  eapply (cluster_never_overcounts served "b" _ served_reachable). vm_compute. reflexivity.
Defined.

(** The theorem, for [b] hearing from [c] and then [a], whose report is repeated, and evicting
    in between. *)
Definition c_report : bytes := [1; 5; 3; 4; 1; 3; 4; 99].
Definition a_report2 : bytes := [1; 5; 1; 2; 1; 11; 22; 97].
Definition catch_up : list SysEvent :=
  [Broadcasts "a" 5 5; Broadcasts "c" 5 5; Delivers "b" 6 c_report; Delivers "b" 7 a_report2; Evicts "b" 8;
   Delivers "b" 9 a_report2].

Lemma catch_up_run : sys_run served catch_up (foldl (λ s e, sys_event e s) served catch_up).
Proof.
  assert (∀ evs es s, sys_run served evs s → Forall (λ e, ∀ s0, sy_sent s ⊆ sy_sent s0 → event_ok s0 e) es →
    (∀ e s0, e ∈ es → sy_sent s0 ⊆ sy_sent (sys_event e s0)) →
    sys_run served (evs ++ es) (foldl (λ s e, sys_event e s) s es)) as Hrun.
  { intros evs es. revert evs. induction es as [|e es IH]; intros evs s Hr Hok Hsub; [by rewrite app_nil_r|].
    apply Forall_cons in Hok as [He Hok]. change (e :: es) with ([e] ++ es). rewrite app_assoc. cbn [foldl app].
    apply IH; [apply run_snoc; [done|by apply He]| |intros; apply Hsub; by right].
    eapply Forall_impl; [exact Hok|]. cbn. intros e' He' s0 Hs0. apply He'. etrans; [|exact Hs0]. apply Hsub. by left. }
  apply (Hrun [Broadcasts "a" 5 5; Broadcasts "c" 5 5]
    [Delivers "b" 6 c_report; Delivers "b" 7 a_report2; Evicts "b" 8; Delivers "b" 9 a_report2]
    (sys_event (Broadcasts "c" 5 5) (sys_event (Broadcasts "a" 5 5) served))).
  - apply (run_snoc served [Broadcasts "a" 5 5]); [|exact I]. apply (run_snoc served []); [apply run_nil|exact I].
  - assert (c_report ∈ sy_sent (sys_event (Broadcasts "c" 5 5) (sys_event (Broadcasts "a" 5 5) served)) ∧
      a_report2 ∈ sy_sent (sys_event (Broadcasts "c" 5 5) (sys_event (Broadcasts "a" 5 5) served))) as [Hc Ha]
      by (split; apply (bool_decide_unpack _); vm_compute; exact I).
    rewrite !Forall_cons, Forall_nil. split_and!; [| | | |done]; intros s0 Hsub; cbn [event_ok]; [| |exact I|].
    all: split; [by apply Hsub|]; eexists; split; [reflexivity|discriminate].
  - intros e s0 He. rewrite !elem_of_cons, elem_of_nil in He. by destruct_or! He; subst.
Qed.

Lemma cluster_catches_up_witness : ∃ n, sy_nodes (foldl (λ s e, sys_event e s) served catch_up) !! "b" = Some n ∧
  cb_total_bytes_in (nd_cluster n) = 14 ∧ cb_peer_count (nd_cluster n) = 2.
Proof.
  destruct (cluster_catches_up served "b" (node_of "b" served) catch_up (foldl (λ s e, sys_event e s) served catch_up))
    as (n & Hn & _ & Hin & _ & Hcount).
  - exact served_reachable.
  - vm_compute. reflexivity.
  - exact catch_up_run.
  - intros id i o Hin. unfold catch_up in Hin. by rewrite !elem_of_cons, elem_of_nil in Hin; destruct_or! Hin.
  - intros now d Hin. unfold catch_up in Hin. rewrite !elem_of_cons, elem_of_nil in Hin.
    destruct_or! Hin; simplify_eq; apply (bool_decide_unpack _); vm_compute; exact I.
  - intros now d now' Hd He. unfold catch_up in Hd, He. rewrite !elem_of_cons, elem_of_nil in Hd, He.
    destruct_or! Hd; simplify_eq; destruct_or! He; simplify_eq; vm_compute; reflexivity.
  - intros p Hne Hp. assert (p ∈ dom (sy_nodes served)) as Hdom by by apply elem_of_dom.
    replace (dom (sy_nodes served)) with ({["a"; "b"; "c"]} : gset string) in Hdom by by vm_compute.
    rewrite !elem_of_union, !elem_of_singleton in Hdom. destruct Hdom as [[->| ->]| ->]; [|done|].
    + eexists 7, a_report2, _. split; [by do 3 right; left|]. split; reflexivity.
    + eexists 6, c_report, _. split; [by do 2 right; left|]. split; reflexivity.
  - exists n. split; [exact Hn|]. rewrite Hin, Hcount. by vm_compute.
Defined.

(** A repeated report is counted twice by the meter of the rate, though not by the totals. *)
Example repeated_report_counted_by_meter :
  length (bm_samples (nd_meter (default (spawn_node None None) (sy_nodes served !! "b")))) = 2%nat.
Proof. vm_compute. reflexivity. Qed.

(** Any member speaks for any other: the sender is what the message says. *)
Example forged_report :
  let d := [1; 0; 0; 0; 0; 999; 999; 97] in
  cb_total_bytes_in (nd_cluster (handle_bandwidth_event 0 (Received d) (spawn_node None None))) = 999.
Proof. vm_compute. reflexivity. Qed.
End ClusterExamples.
